(** * LLM Universal Exporter: normalization, scoping, redaction and
      block classification, embedded from the JavaScript sources.

    Conventions of the embedding.
    - A JavaScript string is a Rocq [string] whose characters are read as
      code units 0..255 (Latin-1).
    - A property that is missing, [undefined], [null], [''] or [0] and is
      only ever read through [x || default] is kept as [""] or [0]; where
      the code tells a missing value from an empty one, the field is an
      [option].
    - A [Set] of signatures is a [gset string]; an object used as a
      counter table keeps its insertion order and is an association list.
    - The method [normalizeAndValidateExportData] mutates [this.exportData]
      and may throw: it is a function from the document to the document
      left behind together with the outcome.
    - [new URL(value).origin] belongs to the browser: the functions that
      redact URLs take it as a parameter.
    - A number of the export options is a double. The model keeps the
      whole numbers: a value is rounded to 53 significant bits, and its
      text is the shortest decimal that reads back as it, with an
      exponent from [1e21] on.

    The embedding comes first (strings, regular expressions, the data
    model, the classifier, references, normalization, scoping, redaction,
    the JSON export; then object tables, the extraction pipeline of the
    interface, the traces of the ChatGPT extractor, the CSV and graph
    exports and the file names), then the vocabulary of the statements
    and the sample documents, then the lemmas and the theorems. *)

From Stdlib Require Import Ascii String ZArith Lia Bool DecimalString DecimalPos.
From stdpp Require Import base list strings gmap.

Local Open Scope string_scope.

(** ** JavaScript strings *)

Module Js.

Definition code (c : ascii) : nat := nat_of_ascii c.

Definition between (lo hi : nat) (c : ascii) : bool :=
  (lo <=? code c)%nat && (code c <=? hi)%nat.

(** WhiteSpace and LineTerminator code units below 256:
    TAB, LF, VT, FF, CR, SP, NBSP. *)
Definition is_space (c : ascii) : bool :=
  between 9 13 c || (code c =? 32)%nat || (code c =? 160)%nat.

Definition is_line_terminator (c : ascii) : bool :=
  (code c =? 10)%nat || (code c =? 13)%nat.

Definition is_digit (c : ascii) : bool := between 48 57 c.

Definition is_upper (c : ascii) : bool :=
  between 65 90 c || (between 192 222 c && negb (code c =? 215)%nat).

Definition is_lower (c : ascii) : bool :=
  between 97 122 c || (between 224 254 c && negb (code c =? 247)%nat).

(** [\w] is ASCII only. *)
Definition is_word (c : ascii) : bool :=
  between 65 90 c || between 97 122 c || is_digit c || (code c =? 95)%nat.

Definition lower_char (c : ascii) : ascii :=
  if is_upper c then ascii_of_nat (code c + 32) else c.

Definition upper_char (c : ascii) : ascii :=
  if is_lower c then ascii_of_nat (code c - 32) else c.

Fixpoint map_chars (f : ascii -> ascii) (s : string) : string :=
  match s with
  | EmptyString => EmptyString
  | String c t => String (f c) (map_chars f t)
  end.

Definition toLowerCase (s : string) : string := map_chars lower_char s.
Definition toUpperCase (s : string) : string := map_chars upper_char s.

Definition is_empty (s : string) : bool :=
  match s with EmptyString => true | _ => false end.

(** [x || d] on strings: the empty string is falsy. *)
Definition or_else (s d : string) : string := if is_empty s then d else s.

(** [n || d] on numbers: zero is falsy. *)
Definition or_num (n d : nat) : nat := if (n =? 0)%nat then d else n.

Fixpoint trimStart (s : string) : string :=
  match s with
  | EmptyString => EmptyString
  | String c t => if is_space c then trimStart t else s
  end.

Fixpoint trimEnd (s : string) : string :=
  match s with
  | EmptyString => EmptyString
  | String c t =>
      let t' := trimEnd t in
      if is_space c && is_empty t' then EmptyString else String c t'
  end.

Definition trim (s : string) : string := trimEnd (trimStart s).

(** [s.slice(0, n)] *)
Fixpoint slice0 (n : nat) (s : string) : string :=
  match n, s with
  | S n', String c t => String c (slice0 n' t)
  | _, _ => EmptyString
  end.

Fixpoint startsWith (s p : string) : bool :=
  match p, s with
  | EmptyString, _ => true
  | String a p', String b s' => Ascii.eqb a b && startsWith s' p'
  | String _ _, EmptyString => false
  end.

Fixpoint includes (s p : string) : bool :=
  startsWith s p ||
  match s with
  | EmptyString => false
  | String _ t => includes t p
  end.

Fixpoint endsWith (s p : string) : bool :=
  String.eqb s p ||
  match s with
  | EmptyString => false
  | String _ t => endsWith t p
  end.

(** [s.split(sep)] for a non-empty separator string. *)
Fixpoint split_go (sep : string) (cur : string) (skip : nat) (s : string)
  : list string :=
  match s with
  | EmptyString => [cur]
  | String c t =>
      match skip with
      | S k => split_go sep cur k t
      | O =>
          if startsWith s sep
          then cur :: split_go sep EmptyString (String.length sep - 1) t
          else split_go sep (cur ++ String c EmptyString) O t
      end
  end.

Definition split (s sep : string) : list string := split_go sep "" 0 s.

Fixpoint join (sep : string) (l : list string) : string :=
  match l with
  | [] => ""
  | [x] => x
  | x :: r => x ++ sep ++ join sep r
  end.

(** Template-literal rendering of a natural number. *)
Definition of_nat (n : nat) : string := NilZero.string_of_uint (Nat.to_uint n).

End Js.

(** ** Regular expressions

    A backtracking matcher with the priorities of the JavaScript one:
    alternatives left to right, greedy and lazy quantifiers, the rule that
    an optional iteration must consume input, capture groups, and the
    assertions [^], [$] and [\b]. Captures are not reset between the
    iterations of a quantifier (no pattern of the sources reads a group
    that sits under one). *)

Module Regex.

Inductive cset : Type :=
| CChar (c : ascii)
| CRange (lo hi : ascii)
| CDigit
| CWord
| CSpace
| CDot
| CUnion (a b : cset)
| CNot (a : cset).

Definition base_mem (a : cset) (c : ascii) : bool :=
  match a with
  | CChar x => Ascii.eqb x c
  | CRange lo hi => Js.between (Js.code lo) (Js.code hi) c
  | CDigit => Js.is_digit c
  | CWord => Js.is_word c
  | CSpace => Js.is_space c
  | CDot => negb (Js.is_line_terminator c)
  | _ => false
  end.

(** With the [i] flag a character matches a class when some member of the
    class has the same canonical (upper-case) form. *)
Fixpoint cs_test (icase : bool) (a : cset) (c : ascii) : bool :=
  match a with
  | CUnion x y => cs_test icase x c || cs_test icase y c
  | CNot x => negb (cs_test icase x c)
  | _ =>
      if icase
      then base_mem a c || base_mem a (Js.upper_char c) || base_mem a (Js.lower_char c)
      else base_mem a c
  end.

Inductive re : Type :=
| Eps
| Cls (a : cset)
| Seq (r1 r2 : re)
| Alt (r1 r2 : re)
| Rep (lo : nat) (hi : option nat) (greedy : bool) (r : re)
| Group (i : nat) (r : re)
| Bol
| Eol
| WordB.

Record flags : Type := Flags { ignoreCase : bool; multiline : bool }.

Definition plain : flags := Flags false false.
Definition icase : flags := Flags true false.
Definition icase_multiline : flags := Flags true true.

(** Position in the subject: the characters already passed (most recent
    first), the characters ahead, and the captures made so far. *)
Record mstate : Type := MState {
  before : list ascii;
  after : list ascii;
  caps : list (nat * list ascii)
}.

Definition consumed (s s' : mstate) : list ascii :=
  take (length (after s) - length (after s')) (after s).

Definition set_cap (i : nat) (v : list ascii) (s : mstate) : mstate :=
  MState (before s) (after s) ((i, v) :: caps s).

Fixpoint get_cap (i : nat) (cs : list (nat * list ascii)) : list ascii :=
  match cs with
  | [] => []
  | (j, v) :: r => if (i =? j)%nat then v else get_cap i r
  end.

Definition is_word_at (l : list ascii) : bool :=
  match l with
  | c :: _ => Js.is_word c
  | [] => false
  end.

Definition at_bol (fl : flags) (s : mstate) : bool :=
  match before s with
  | [] => true
  | c :: _ => multiline fl && Js.is_line_terminator c
  end.

Definition at_eol (fl : flags) (s : mstate) : bool :=
  match after s with
  | [] => true
  | c :: _ => multiline fl && Js.is_line_terminator c
  end.

Definition at_word_boundary (s : mstate) : bool :=
  xorb (is_word_at (before s)) (is_word_at (after s)).

Definition or_try {A : Type} (x : option A) (y : unit -> option A) : option A :=
  match x with
  | Some v => Some v
  | None => y tt
  end.

Definition pred_hi (hi : option nat) : option nat :=
  match hi with
  | Some n => Some (Nat.pred n)
  | None => None
  end.

Definition hi_is_zero (hi : option nat) : bool :=
  match hi with
  | Some O => true
  | _ => false
  end.

(** The quantifier loop over a body matcher [step]: [lo] iterations are
    still due, [hi] bounds those that may follow; an iteration that is
    not due and consumes nothing is refused. *)
Fixpoint rep_loop (step : mstate -> (mstate -> option mstate) -> option mstate)
    (k : mstate -> option mstate) (greedy : bool)
    (fuel lo : nat) (hi : option nat) (s : mstate) {struct fuel} : option mstate :=
  match fuel with
  | O => None
  | S f =>
      let iter := fun _ : unit =>
        step s (fun s1 =>
          if (lo =? 0)%nat && (length (after s1) =? length (after s))%nat
          then None
          else rep_loop step k greedy f (Nat.pred lo) (pred_hi hi) s1) in
      if hi_is_zero hi then k s
      else if (0 <? lo)%nat then iter tt
      else if greedy then or_try (iter tt) (fun _ => k s)
      else or_try (k s) iter
  end.

(** The matcher, in continuation-passing style. The loop of a quantifier
    runs on [lo + (characters ahead) + 1 + slack] units of fuel: the
    first three are enough, as [RegexFacts.run_slack] shows, and the
    matcher is used with no slack. *)
Fixpoint run (slack : nat) (fl : flags) (r : re) (s : mstate)
    (k : mstate -> option mstate) {struct r} : option mstate :=
  match r with
  | Eps => k s
  | Cls a =>
      match after s with
      | c :: t =>
          if cs_test (ignoreCase fl) a c
          then k (MState (c :: before s) t (caps s))
          else None
      | [] => None
      end
  | Seq r1 r2 => run slack fl r1 s (fun s1 => run slack fl r2 s1 k)
  | Alt r1 r2 => or_try (run slack fl r1 s k) (fun _ => run slack fl r2 s k)
  | Rep lo hi greedy r0 =>
      rep_loop (run slack fl r0) k greedy (lo + length (after s) + 1 + slack) lo hi s
  | Group i r0 => run slack fl r0 s (fun s1 => k (set_cap i (consumed s s1) s1))
  | Bol => if at_bol fl s then k s else None
  | Eol => if at_eol fl s then k s else None
  | WordB => if at_word_boundary s then k s else None
  end.

(** One attempt at the current position. *)
Definition exec_at (fl : flags) (r : re) (bef aft : list ascii) : option mstate :=
  run 0 fl r (MState bef aft []) Some.

(** Leftmost match at or after the current position: where it starts and
    the state at its end. *)
Fixpoint search (fl : flags) (r : re) (bef aft : list ascii)
  : option (list ascii * list ascii * mstate) :=
  match exec_at fl r bef aft with
  | Some m => Some (bef, aft, m)
  | None =>
      match aft with
      | [] => None
      | c :: t => search fl r (c :: bef) t
      end
  end.

Definition skipped (aft start : list ascii) : list ascii :=
  take (length aft - length start) aft.

Definition matched (start : list ascii) (m : mstate) : list ascii :=
  take (length start - length (after m)) start.

(** [text.replace(/r/g, repl)]: the replacement is a function of the
    captures ([$1] is [get_cap 1]). *)
Fixpoint replace_go (fl : flags) (r : re)
    (repl : list (nat * list ascii) -> list ascii)
    (fuel : nat) (bef aft : list ascii) : list ascii :=
  match fuel with
  | O => aft
  | S f =>
      match search fl r bef aft with
      | None => aft
      | Some (b0, a0, m) =>
          skipped aft a0 ++ repl (caps m) ++
          if (length (after m) =? length a0)%nat
          then match a0 with
               | [] => []
               | c :: t => c :: replace_go fl r repl f (c :: b0) t
               end
          else replace_go fl r repl f (before m) (after m)
      end
  end.

Definition chars := list_ascii_of_string.
Definition str := string_of_list_ascii.

Definition replaceAll (fl : flags) (r : re)
    (repl : list (nat * list ascii) -> list ascii) (text : string) : string :=
  str (replace_go fl r repl (S (String.length text)) [] (chars text)).

(** [text.replace(/r/, repl)] without the [g] flag: first match only. *)
Definition replaceFirst (fl : flags) (r : re)
    (repl : list (nat * list ascii) -> list ascii) (text : string) : string :=
  match search fl r [] (chars text) with
  | None => text
  | Some (b0, a0, m) =>
      str (skipped (chars text) a0 ++ repl (caps m) ++ after m)
  end.

(** [r.test(text)], [text.match(/r/)] as a truth value. *)
Definition test (fl : flags) (r : re) (text : string) : bool :=
  match search fl r [] (chars text) with
  | Some _ => true
  | None => false
  end.

(** First match with its captures: [text.match(/r/)]. *)
Definition exec (fl : flags) (r : re) (text : string)
  : option (string * list (nat * list ascii)) :=
  match search fl r [] (chars text) with
  | Some (_, a0, m) => Some (str (matched a0 m), caps m)
  | None => None
  end.

(** All matches, with their captures: [text.match(/r/g)] and the
    [while (m = p.exec(text))] loop. *)
Fixpoint matches_go (fl : flags) (r : re) (fuel : nat) (bef aft : list ascii)
  : list (string * list (nat * list ascii)) :=
  match fuel with
  | O => []
  | S f =>
      match search fl r bef aft with
      | None => []
      | Some (b0, a0, m) =>
          (str (matched a0 m), caps m) ::
          if (length (after m) =? length a0)%nat
          then match a0 with
               | [] => []
               | c :: t => matches_go fl r f (c :: b0) t
               end
          else matches_go fl r f (before m) (after m)
      end
  end.

Definition matchAll (fl : flags) (r : re) (text : string)
  : list (string * list (nat * list ascii)) :=
  matches_go fl r (S (String.length text)) [] (chars text).

(** [text.split(/r/)] for a pattern without capture groups: [piece] is
    the text since the last cut; a match at the current position closes
    the piece unless it ends where the piece began. *)
Fixpoint split_go (fl : flags) (r : re) (fuel : nat)
    (piece : list ascii) (bef aft : list ascii) : list string :=
  match fuel with
  | O => [str piece]
  | S f =>
      match aft with
      | [] => [str piece]
      | c :: t =>
          match exec_at fl r bef aft with
          | Some m =>
              if (length (after m) =? length aft)%nat && (length piece =? 0)%nat
              then split_go fl r f (piece ++ [c]) (c :: bef) t
              else str piece :: split_go fl r f [] (before m) (after m)
          | None => split_go fl r f (piece ++ [c]) (c :: bef) t
          end
      end
  end.

Definition split (fl : flags) (r : re) (text : string) : list string :=
  match text with
  | EmptyString =>
      match exec_at fl r [] [] with
      | Some _ => []
      | None => [""]
      end
  | _ => split_go fl r (2 * String.length text + 2) [] [] (chars text)
  end.

(** *** Pattern syntax *)

Fixpoint lit (s : string) : re :=
  match s with
  | EmptyString => Eps
  | String c EmptyString => Cls (CChar c)
  | String c t => Seq (Cls (CChar c)) (lit t)
  end.

Fixpoint seq (l : list re) : re :=
  match l with
  | [] => Eps
  | [r] => r
  | r :: t => Seq r (seq t)
  end.

Fixpoint alt (l : list re) : re :=
  match l with
  | [] => Eps
  | [r] => r
  | r :: t => Alt r (alt t)
  end.

(** The class without members. *)
Definition cnone : cset := CNot (CUnion CDot (CNot CDot)).

(** A bracketed class [[...]] from its items. *)
Fixpoint cunion (l : list cset) : cset :=
  match l with
  | [] => cnone
  | [a] => a
  | a :: t => CUnion a (cunion t)
  end.

Definition star (r : re) : re := Rep 0 None true r.
Definition plus (r : re) : re := Rep 1 None true r.
Definition opt (r : re) : re := Rep 0 (Some 1) true r.
Definition lazy_plus (r : re) : re := Rep 1 None false r.
Definition lazy_star (r : re) : re := Rep 0 None false r.
Definition at_least (n : nat) (r : re) : re := Rep n None true r.
Definition exactly (n : nat) (r : re) : re := Rep n (Some n) true r.
Definition from_to (n m : nat) (r : re) : re := Rep n (Some m) true r.

Definition chr (c : ascii) : cset := CChar c.
Definition rng (lo hi : ascii) : cset := CRange lo hi.

Definition az : cset := rng "a" "z".
Definition AZ : cset := rng "A" "Z".
Definition d09 : cset := rng "0" "9".
Definition nl : string := String (ascii_of_nat 10) EmptyString.

End Regex.

(** ** Data model *)

Record Link : Type := mkLink {
  l_url : string;
  l_title : string;
  l_domain : string
}.

(** Entries of [attachments] and of [documents] have the same shape. *)
Record FileRef : Type := mkFileRef {
  f_name : string;
  f_url : option string;
  f_type : string;
  f_sizeLabel : option string
}.

Record Citation : Type := mkCitation {
  c_text : string;
  c_url : option string
}.

Record ReferenceSet : Type := mkRefs {
  links : list Link;
  attachments : list FileRef;
  documents : list FileRef;
  citations : list Citation
}.

Record SearchResult : Type := mkResult {
  r_title : string;
  r_url : option string;
  r_domain : option string
}.

Inductive StructuredData : Type :=
| SDWebSearch (queries : list string) (results : list SearchResult)
| SDToolCall (description : string) (commands outputs : list string)
| SDPromptChain (steps : list string).

(** ** Block classifier (claude-extractor.js) *)

Module Classifier.
Import Regex.

Definition tlds : list string :=
  ["com"; "org"; "net"; "io"; "ai"; "edu"; "gov"; "dev"; "app"; "co"].

(** [/[\w-]+\.(com|org|net|io|ai|edu|gov|dev|app|co)\b/gi] *)
Definition domain_re : re :=
  seq [plus (Cls (CUnion CWord (chr "-"))); lit ".";
       Group 1 (alt (map lit tlds)); WordB].

Definition countDomains (text : string) : nat :=
  length (matchAll icase domain_re text).

(** [/[A-Z][a-z]+/g] *)
Definition capital_word_re : re := Seq (Cls AZ) (plus (Cls az)).

(** [/\s+/] *)
Definition spaces_re : re := plus (Cls CSpace).

Definition looksLikeSearchResults (content summary : string) : bool :=
  if Js.is_empty summary || (String.length summary <? 80)%nat then false
  else
    let capitals := length (matchAll plain capital_word_re summary) in
    let words := length (split plain spaces_re summary) in
    (* capitals / Math.max(words, 1) > 0.5 && words > 10 *)
    if (Nat.max words 1 <? 2 * capitals)%nat && (10 <? words)%nat then true
    else if (2 <=? countDomains summary)%nat then true
    else if Js.endsWith summary "Done" && (100 <? String.length summary)%nat then true
    else false.

Definition verbs_past : list string :=
  ["ran "; "created "; "viewed "; "read "; "edited "; "wrote "; "deleted ";
   "executed "; "installed "; "checked "].

Definition verbs_imperative : list string :=
  ["find "; "check "; "test "; "run "; "get "; "install "; "search "].

Definition starts_with_any_re (l : list string) : re :=
  Seq Bol (Group 1 (alt (map lit l))).

(** [/\noutput\n/i] *)
Definition output_line_re : re := lit (nl ++ "output" ++ nl).

(** [/^\+\d+.*-\d+/] *)
Definition diff_summary_re : re :=
  seq [Bol; lit "+"; plus (Cls CDigit); star (Cls CDot); lit "-"; plus (Cls CDigit)].

(** [/^\+\d+-\d+/] *)
Definition diff_content_re : re :=
  seq [Bol; lit "+"; plus (Cls CDigit); lit "-"; plus (Cls CDigit)].

Definition source_exts : list string :=
  ["js"; "ts"; "py"; "rs"; "go"; "java"; "css"; "html"; "json"; "yaml";
   "toml"; "md"; "jsx"; "tsx"; "vue"; "svelte"].

(** [/\.(js|ts|...|svelte)\b/] *)
Definition source_file_re : re :=
  seq [lit "."; Group 1 (alt (map lit source_exts)); WordB].

Definition fence : string := "```".

Definition detectBlockType (content summary richHtml : string) : string :=
  let lower := Js.toLowerCase content in
  let sumLower := Js.toLowerCase summary in
  let html := Js.toLowerCase richHtml in
  if Js.includes lower "searched the web"
     || Js.includes lower "search results"
     || Js.includes sumLower "searched"
     || looksLikeSearchResults content summary
     || (Js.includes html "href=" && (3 <=? countDomains lower)%nat)
  then "web_search"
  else if test icase (starts_with_any_re verbs_past) sumLower
     || test icase (starts_with_any_re verbs_imperative) sumLower
     || test icase output_line_re lower
     || Js.includes lower (fence ++ "bash")
     || Js.includes lower (fence ++ "shell")
     || (Js.includes lower "$ " && Js.includes lower nl)
  then "tool_call"
  else if Js.includes sumLower "prompt chain"
     || Js.includes sumLower "prompt"
     || Js.includes sumLower "system prompt"
     || Js.includes lower "system prompt"
     || Js.includes lower "instruction chain"
     || Js.includes lower "prompt chain"
  then "prompt_chain"
  else if test plain diff_summary_re sumLower
     || test plain diff_content_re lower
  then "file_edit"
  else if test plain source_file_re sumLower
     || (Js.includes lower fence && (2 <? length (Js.split lower fence))%nat)
  then "code"
  else "thinking".

(** [/(?:^|\n)(.+?)\n\s*\d+\s+results?\b/gmi] *)
Definition query_re : re :=
  seq [Alt Bol (lit nl); Group 1 (lazy_plus (Cls CDot)); lit nl;
       star (Cls CSpace); plus (Cls CDigit); plus (Cls CSpace);
       lit "result"; opt (lit "s"); WordB].

(** [/^searched\s+(the\s+web\s+)?/i] *)
Definition searched_prefix_re : re :=
  seq [Bol; lit "searched"; plus (Cls CSpace);
       opt (Group 1 (seq [lit "the"; plus (Cls CSpace); lit "web"; plus (Cls CSpace)]))].

(** The [linkPattern]: [href=], a quoted [http://] or [https://] URL
    (group 1), the rest of the tag up to [>], and the text up to the next
    [<] (group 2); flags [gi]. *)
Definition link_re : re :=
  seq [lit "href="; Cls (CChar (ascii_of_nat 34));
       Group 1 (seq [lit "http"; opt (lit "s"); lit "://";
                     plus (Cls (CNot (CChar (ascii_of_nat 34))))]);
       Cls (CChar (ascii_of_nat 34));
       star (Cls (CNot (chr ">"))); lit ">";
       Group 2 (star (Cls (CNot (chr "<")))); lit "<"].

(** [/^[\w.-]+\.\w{2,4}$/] *)
Definition bare_domain_re : re :=
  seq [Bol; plus (Cls (cunion [CWord; chr "."; chr "-"])); lit ".";
       from_to 2 4 (Cls CWord); Eol].

Definition query_of_match (m : string) : option string :=
  match Js.split (Js.trim m) nl with
  | first :: _ =>
      let q := Js.trim (replaceFirst icase searched_prefix_re (fun _ => []) first) in
      if Js.is_empty q then None else Some q
  | [] => None
  end.

Definition result_of_link (m : string * list (nat * list ascii)) : option SearchResult :=
  let url := str (get_cap 1 (snd m)) in
  let title := Js.trim (str (get_cap 2 (snd m))) in
  if Js.is_empty title || Js.is_empty url then None
  else Some (mkResult title (Some url) None).

(** The [for] loop over [lines]: [prev] is [lines[i]], the list starts at
    [lines[i + 1]]; a hit skips the domain line. *)
Fixpoint title_domain_pairs (prev : string) (rest : list string) : list SearchResult :=
  match rest with
  | [] => []
  | next :: rest' =>
      if test plain bare_domain_re next
      then mkResult prev None (Some next) ::
           match rest' with
           | [] => []
           | p :: rest'' => title_domain_pairs p rest''
           end
      else title_domain_pairs next rest'
  end.

Definition non_empty_lines (content : string) : list string :=
  filter (fun l => negb (Js.is_empty l) = true) (map Js.trim (Js.split content nl)).

Definition parseWebSearchContent (content richHtml : string) : StructuredData :=
  if Js.is_empty content then SDWebSearch [] []
  else
    let queries := omap (fun m => query_of_match (fst m))
                        (matchAll icase_multiline query_re content) in
    let from_html :=
      if Js.is_empty richHtml then []
      else omap result_of_link (matchAll icase link_re richHtml) in
    let results :=
      match from_html with
      | [] =>
          match non_empty_lines content with
          | [] => []
          | first :: rest => title_domain_pairs first rest
          end
      | _ => from_html
      end in
    SDWebSearch queries results.

End Classifier.

(** ** [JSON.stringify] *)

Module Stringify.

#[local] Set Warnings "-register-all".

(** A JSON value. A number that is not a natural number (a negative
    one, a ratio) is kept as [JSON.stringify] prints it. *)
Inductive json : Type :=
| JNull
| JBool (b : bool)
| JNumber (n : nat)
| JNumeral (text : string)
| JString (s : string)
| JArray (items : list json)
| JObject (members : list (string * json)).

Definition hex_digit (n : nat) : ascii :=
  if (n <? 10)%nat then ascii_of_nat (48 + n) else ascii_of_nat (87 + n).

(** QuoteJSONString, one code unit. *)
Definition escape_char (c : ascii) : string :=
  let n := Js.code c in
  if (n =? 8)%nat then "\b"
  else if (n =? 9)%nat then "\t"
  else if (n =? 10)%nat then "\n"
  else if (n =? 12)%nat then "\f"
  else if (n =? 13)%nat then "\r"
  else if (n =? 34)%nat then String "\" (String (ascii_of_nat 34) "")
  else if (n =? 92)%nat then "\\"
  else if (n <? 32)%nat
  then "\u00" ++ String (hex_digit (n / 16)) (String (hex_digit (n mod 16)) "")
  else String c "".

Fixpoint escape (s : string) : string :=
  match s with
  | EmptyString => ""
  | String c t => escape_char c ++ escape t
  end.

Definition quote (s : string) : string :=
  String (ascii_of_nat 34) (escape s ++ String (ascii_of_nat 34) "").

Definition gap : string := "  ".

(** SerializeJSONProperty with a two-space gap; [indent] is the current
    indentation. *)
Fixpoint serialize (indent : string) (v : json) : string :=
  match v with
  | JNull => "null"
  | JBool true => "true"
  | JBool false => "false"
  | JNumber n => Js.of_nat n
  | JNumeral text => text
  | JString s => quote s
  | JArray [] => "[]"
  | JArray items =>
      let inner := indent ++ gap in
      "[" ++ Regex.nl ++ inner
      ++ Js.join ("," ++ Regex.nl ++ inner) (map (serialize inner) items)
      ++ Regex.nl ++ indent ++ "]"
  | JObject [] => "{}"
  | JObject members =>
      let inner := indent ++ gap in
      "{" ++ Regex.nl ++ inner
      ++ Js.join ("," ++ Regex.nl ++ inner)
           (map (fun kv => quote (fst kv) ++ ": " ++ serialize inner (snd kv)) members)
      ++ Regex.nl ++ indent ++ "}"
  end.

Definition stringify (v : json) : string := serialize "" v.

(** An object literal some of whose members may be [undefined]. *)
Definition object (members : list (string * option json)) : json :=
  JObject (omap (fun kv => option_map (pair (fst kv)) (snd kv)) members).

Definition jstr (s : string) : option json := Some (JString s).
Definition jnum (n : nat) : option json := Some (JNumber n).
Definition jopt_str (o : option string) : option json := option_map JString o.

(** A member that may be [null]. *)
Definition jnullable_str (o : option string) : option json :=
  Some (match o with Some s => JString s | None => JNull end).

Definition jlist {A : Type} (f : A -> json) (l : list A) : option json :=
  Some (JArray (map f l)).

End Stringify.

(** ** Documents *)

Record Block : Type := mkBlock {
  b_id : string;
  b_type : string;
  b_summary : string;
  b_content : string;
  b_wordCount : nat;
  b_characterCount : nat;
  b_html : string;
  b_richHtml : string;
  b_structuredData : option StructuredData;
  b_references : option ReferenceSet;
  b_expanded : option bool
}.

(** [m_content] is [None] when [typeof message.content !== 'string']. *)
Record Message : Type := mkMessage {
  m_id : string;
  m_author : string;
  m_content : option string;
  m_html : string;
  m_timestamp : string;
  m_wordCount : nat;
  m_characterCount : nat;
  m_thinkingBlocks : list Block;
  m_references : option ReferenceSet
}.

(** [ri_total] is [None] once redaction has rebuilt the index from its
    four lists only. *)
Record ReferenceIndex : Type := mkIndex {
  ri_refs : ReferenceSet;
  ri_total : option nat
}.

Record UploadedDocument : Type := mkUploaded {
  u_messageId : option string;
  u_author : string;
  u_name : string;
  u_type : string;
  u_url : option string;
  u_sizeLabel : option string
}.

(** [metadata.conversationSummary], written by the extractor's
    [postProcess]: the first and the last message, cut to 100
    characters, and the time between the first and the last time
    stamp. *)
Record Duration : Type := mkDuration {
  duration_start : string;
  duration_end : string;
  durationMs : Z
}.

Record ConversationSummary : Type := mkSummary {
  firstMessage : option string;
  lastMessage : option string;
  duration : option Duration
}.

(** The metadata object: what the extractor's constructor and
    [postProcess] write, and what normalization and scoping add. The
    members that the extractor of a platform adds for itself are kept as
    JSON values, in the order in which they are created: by its
    constructor ([gptModel], [conversationId]), by its [postProcess]
    ([claude], [gemini]), and by its [postProcess] once it has written
    [blockTypeBreakdown] ([chatgpt]). *)
Record Metadata : Type := mkMetadata {
  md_platform : string;
  md_url : string;
  md_title : string;
  md_rawDocumentTitle : string;
  md_exportDate : string;
  md_exporterVersion : string;
  md_userAgent : string;
  md_messageCount : nat;
  md_thinkingBlockCount : nat;
  md_hasThinkingBlocks : bool;
  md_referenceCount : nat;
  md_linkCount : nat;
  md_attachmentCount : nat;
  md_citationCount : nat;
  md_totalWordCount : nat;
  md_totalCharacterCount : nat;
  md_userMessageCount : nat;
  md_assistantMessageCount : nat;
  md_referenceIndex : option ReferenceIndex;
  md_blockTypeBreakdown : list (string * nat);
  md_uploadedDocuments : list UploadedDocument;
  md_uploadedDocumentCount : nat;
  md_scope : option string;
  md_conversationSummary : option ConversationSummary;
  md_constructed : list (string * Stringify.json);
  md_processed : list (string * Stringify.json);
  md_processed_late : list (string * Stringify.json)
}.

Record RawHtml : Type := mkRawHtml {
  rh_original : option string;
  rh_expanded : option string
}.

Record Document : Type := mkDocument {
  metadata : Metadata;
  messages : list Message;
  thinkingBlocks : list Block;
  rawHtml : option RawHtml
}.

Definition str_or_empty (o : option string) : string :=
  match o with
  | Some s => s
  | None => ""
  end.

(** [x || null] on a nullable string. *)
Definition or_null (o : option string) : option string :=
  match o with
  | Some s => if Js.is_empty s then None else Some s
  | None => None
  end.

(** ** References *)

Module Refs.

Definition empty : ReferenceSet := mkRefs [] [] [] [].

(** The [forEach] of [dedupeBySignature] and [dedupeObjectsBySignature]:
    an item whose signature is empty or already seen is passed over. *)
Fixpoint dedupe_from {A : Type} (sig : A -> string) (seen : gset string)
    (items : list A) : list A :=
  match items with
  | [] => []
  | item :: rest =>
      let signature := sig item in
      if Js.is_empty signature || bool_decide (signature ∈ seen)
      then dedupe_from sig seen rest
      else item :: dedupe_from sig ({[signature]} ∪ seen) rest
  end.

(** export-interface.js, [UniversalExtractor.dedupeObjectsBySignature] *)
Definition dedupeObjectsBySignature {A : Type} (items : list A)
    (buildSignature : A -> string) : list A :=
  dedupe_from buildSignature ∅ items.

(** [ExportInterface.dedupeBySignature] *)
Definition dedupeBySignature {A : Type} (items : list A)
    (signatureFn : A -> string) : list A :=
  dedupe_from signatureFn ∅ items.

(** [`${item.url}|${item.title || ''}`] in [mergeReferences] and
    [`${item.url || ''}|${item.title || ''}`] in
    [computeReferenceIndexFromMessages]: the same on a string [url]. *)
Definition link_signature (item : Link) : string :=
  l_url item ++ "|" ++ l_title item.

Definition file_signature (item : FileRef) : string :=
  f_name item ++ "|" ++ str_or_empty (f_url item) ++ "|" ++ f_type item.

Definition citation_signature (item : Citation) : string :=
  c_text item ++ "|" ++ str_or_empty (c_url item).

(** [mergeReferences(...referenceSets)] *)
Definition mergeReferences (referenceSets : list ReferenceSet) : ReferenceSet :=
  let merged_links := concat (map links referenceSets) in
  let merged_attachments := concat (map attachments referenceSets) in
  let merged_documents := concat (map documents referenceSets) in
  let merged_citations := concat (map citations referenceSets) in
  mkRefs (dedupeObjectsBySignature merged_links link_signature)
         (dedupeObjectsBySignature merged_attachments file_signature)
         (dedupeObjectsBySignature merged_documents file_signature)
         (dedupeObjectsBySignature merged_citations citation_signature).

Definition merge (a b : ReferenceSet) : ReferenceSet := mergeReferences [a; b].

Definition normalizeReferenceSet (refs : option ReferenceSet) : ReferenceSet :=
  match refs with
  | Some r => r
  | None => empty
  end.

Definition computeReferenceIndexFromMessages (msgs : list Message) : ReferenceIndex :=
  let refs := map (fun m => normalizeReferenceSet (m_references m)) msgs in
  let combined :=
    mkRefs (dedupeBySignature (concat (map links refs)) link_signature)
           (dedupeBySignature (concat (map attachments refs)) file_signature)
           (dedupeBySignature (concat (map documents refs)) file_signature)
           (dedupeBySignature (concat (map citations refs)) citation_signature) in
  mkIndex combined
    (Some (length (links combined) + length (attachments combined)
           + length (documents combined) + length (citations combined))).

(** [String(url).split('/').pop()] *)
Definition last_segment (url : string) : string :=
  List.last (Js.split url "/") "".

Definition uploaded_of (m : Message) (item : FileRef) : option UploadedDocument :=
  let name := Js.trim (f_name item) in
  let url := or_null (f_url item) in
  let type := Js.or_else (f_type item) "file" in
  match url with
  | None =>
      if Js.is_empty name then None
      else Some (mkUploaded (or_null (Some (m_id m))) "user" name type None
                            (or_null (f_sizeLabel item)))
  | Some u =>
      Some (mkUploaded (or_null (Some (m_id m))) "user"
                       (Js.or_else name (last_segment u)) type url
                       (or_null (f_sizeLabel item)))
  end.

Definition uploaded_signature (item : UploadedDocument) : string :=
  str_or_empty (u_messageId item) ++ "|" ++ u_name item ++ "|"
  ++ str_or_empty (u_url item) ++ "|" ++ u_type item ++ "|"
  ++ str_or_empty (u_sizeLabel item).

Definition uploads_of_message (m : Message) : list UploadedDocument :=
  if String.eqb (Js.toLowerCase (m_author m)) "user"
  then
    let refs := normalizeReferenceSet (m_references m) in
    omap (uploaded_of m) (attachments refs ++ documents refs)%list
  else [].

Definition computeUploadedDocumentsFromMessages (msgs : list Message)
  : list UploadedDocument :=
  dedupeBySignature (concat (map uploads_of_message msgs)) uploaded_signature.

End Refs.

(** ** Normalization and validation ([normalizeAndValidateExportData]) *)

Module Normalize.

(** [text.split(/\s+/).filter(Boolean).length] *)
Definition countWords (text : string) : nat :=
  length (filter (fun w => negb (Js.is_empty w) = true)
                 (Regex.split Regex.plain Classifier.spaces_re text)).

(** Signature of a block, the same at the top level and inside a message:
    trimmed summary, a bar, the first 600 characters of the trimmed
    content. *)
Definition block_signature (block : Block) : string :=
  Js.trim (b_summary block) ++ "|" ++ Js.slice0 600 (Js.trim (b_content block)).

(** A block with neither content nor summary is passed over. *)
Definition block_is_blank (block : Block) : bool :=
  Js.is_empty (Js.trim (b_content block)) && Js.is_empty (Js.trim (b_summary block)).

(** The object pushed on [dedupedBlocks]. *)
Definition normalized_block (index : nat) (block : Block) : Block :=
  let content := Js.trim (b_content block) in
  let summary := Js.trim (b_summary block) in
  let text := Js.or_else content summary in
  {| b_id := Js.or_else (b_id block) ("thinking_" ++ Js.of_nat index);
     b_type := Js.or_else (b_type block) "thinking";
     b_summary := summary;
     b_content := text;
     b_wordCount := Js.or_num (b_wordCount block) (countWords text);
     b_characterCount := Js.or_num (b_characterCount block) (String.length text);
     b_html := b_html block;
     b_richHtml := "";
     b_structuredData := b_structuredData block;
     b_references := None;
     b_expanded := None |}.

(** [aggregate.forEach((block, index) => ...)] with its [seen] set. *)
Fixpoint dedupe_aggregate (seen : gset string) (index : nat)
    (aggregate : list Block) : list Block :=
  match aggregate with
  | [] => []
  | block :: rest =>
      if block_is_blank block then dedupe_aggregate seen (S index) rest
      else if bool_decide (block_signature block ∈ seen)
      then dedupe_aggregate seen (S index) rest
      else normalized_block index block ::
           dedupe_aggregate ({[block_signature block]} ∪ seen) (S index) rest
  end.

Definition aggregate_blocks (d : Document) : list Block :=
  thinkingBlocks d ++ concat (map m_thinkingBlocks (messages d)).

(** [blocks.forEach] inside the message map: first occurrence of each
    signature, the block object itself is kept. *)
Fixpoint dedupe_message_blocks (seenBlocks : gset string) (blocks : list Block)
  : list Block :=
  match blocks with
  | [] => []
  | block :: rest =>
      if bool_decide (block_signature block ∈ seenBlocks)
      then dedupe_message_blocks seenBlocks rest
      else block :: dedupe_message_blocks ({[block_signature block]} ∪ seenBlocks) rest
  end.

Definition has_content (block : Block) : bool :=
  negb (Js.is_empty (Js.trim (b_content block))).

(** The callback of [.map((message, index) => ...)], for a message whose
    content is the string [raw]; [None] is the [return null]. *)
Definition normalize_message (index : nat) (message : Message) (raw : string)
  : option Message :=
  let content := Js.trim raw in
  let blocks := filter (fun b => has_content b = true) (m_thinkingBlocks message) in
  let dedupedMessageBlocks := dedupe_message_blocks ∅ blocks in
  if Js.is_empty content && (length dedupedMessageBlocks =? 0)%nat then None
  else Some
    {| m_id := Js.or_else (m_id message) ("msg_" ++ Js.of_nat index);
       m_author := m_author message;
       m_content := Some content;
       m_html := m_html message;
       m_timestamp := m_timestamp message;
       m_wordCount := Js.or_num (Js.or_num (m_wordCount message) (countWords content)) 0;
       m_characterCount :=
         Js.or_num (Js.or_num (m_characterCount message) (String.length content)) 0;
       m_thinkingBlocks := dedupedMessageBlocks;
       m_references := Some (Refs.normalizeReferenceSet (m_references message)) |}.

Definition is_string_message (message : Message) : bool :=
  match m_content message with
  | Some _ => true
  | None => false
  end.

(** [.map(...).filter(Boolean)] over the messages that passed the first
    filter; [index] counts positions in that filtered list. *)
Fixpoint normalize_messages (index : nat) (msgs : list Message) : list Message :=
  match msgs with
  | [] => []
  | message :: rest =>
      match m_content message with
      | Some raw =>
          match normalize_message index message raw with
          | Some m' => m' :: normalize_messages (S index) rest
          | None => normalize_messages (S index) rest
          end
      | None => normalize_messages index rest
      end
  end.

(** [acc[type] = (acc[type] || 0) + 1], for a [type] that names no
    member every object inherits ([Table.inherited]): for such a name
    the first read finds the inherited member, and the entry becomes
    text, which this table of counts does not hold. The statements about
    the table are made for the other types. *)
Fixpoint bump (type : string) (acc : list (string * nat)) : list (string * nat) :=
  match acc with
  | [] => [(type, 1)]
  | (k, n) :: rest =>
      if String.eqb k type then (k, Js.or_num n 0 + 1) :: rest
      else (k, n) :: bump type rest
  end.

Definition blockTypeBreakdown (blocks : list Block) : list (string * nat) :=
  fold_left (fun acc block => bump (Js.or_else (b_type block) "thinking") acc) blocks [].

Inductive outcome : Type :=
| Returned
| Thrown (message : string).

(** The metadata object after the assignments of the method. *)
Definition normalized_metadata (md : Metadata) (msgs : list Message)
    (blocks : list Block) : Metadata :=
  let referenceIndex := Refs.computeReferenceIndexFromMessages msgs in
  let uploadedDocuments := Refs.computeUploadedDocumentsFromMessages msgs in
  {| md_platform := md_platform md;
     md_url := md_url md;
     md_title := md_title md;
     md_rawDocumentTitle := md_rawDocumentTitle md;
     md_exportDate := md_exportDate md;
     md_exporterVersion := md_exporterVersion md;
     md_userAgent := md_userAgent md;
     md_messageCount := length msgs;
     md_thinkingBlockCount := length blocks;
     md_hasThinkingBlocks := (0 <? length blocks)%nat;
     md_referenceCount := default 0%nat (ri_total referenceIndex);
     md_linkCount := length (links (ri_refs referenceIndex));
     md_attachmentCount := length (attachments (ri_refs referenceIndex));
     md_citationCount := length (citations (ri_refs referenceIndex));
     md_totalWordCount := md_totalWordCount md;
     md_totalCharacterCount := md_totalCharacterCount md;
     md_userMessageCount := md_userMessageCount md;
     md_assistantMessageCount := md_assistantMessageCount md;
     md_referenceIndex := Some referenceIndex;
     md_blockTypeBreakdown :=
       match md_blockTypeBreakdown md with
       | [] => blockTypeBreakdown blocks
       | kept => kept
       end;
     md_uploadedDocuments := uploadedDocuments;
     md_uploadedDocumentCount := length uploadedDocuments;
     md_scope := md_scope md;
     md_conversationSummary := md_conversationSummary md;
     md_constructed := md_constructed md;
     md_processed := md_processed md;
     md_processed_late := md_processed_late md |}.

(** The document left in [this.exportData] and whether the method
    returned or threw. The three assignments happen before the test that
    throws. (The first test of the method, which throws when there is no
    export data or [messages] is not an array, cannot fire on a
    [Document].) *)
Definition normalizeAndValidateExportData (d : Document) : Document * outcome :=
  let dedupedBlocks := dedupe_aggregate ∅ 0 (aggregate_blocks d) in
  let msgs := normalize_messages 0 (messages d) in
  let md := normalized_metadata (metadata d) msgs dedupedBlocks in
  let d' := mkDocument md msgs dedupedBlocks (rawHtml d) in
  if (length msgs =? 0)%nat
  then (d', Thrown "No messages found to export")
  else (d', Returned).

Definition normalize (d : Document) : Document :=
  fst (normalizeAndValidateExportData d).

End Normalize.

(** ** Scoping ([resolveMessageRange], [buildScopedExportData]) *)

Module Scope.

Local Open Scope Z_scope.

(** A value read from the options: absent, a number, or the text of an
    input field. A JavaScript number is a double; the model keeps the
    whole numbers, and [VNumber n] is the number that the literal [n]
    denotes, the double nearest to [n]. *)
Inductive jsvalue : Type :=
| VUndefined
| VNumber (n : Z)
| VString (s : string).

(** The double nearest to the whole number [n >= 0], ties to the even
    significand of 53 bits; [None] past the largest double. *)
Definition to_double (n : Z) : option Z :=
  if n <? 2 ^ 53 then Some n
  else
    let e := Z.log2 n - 52 in
    let q := Z.shiftr n e in
    let r := Z.land n (Z.ones e) in
    let half := 2 ^ (e - 1) in
    let q' := if (half <? r) || ((r =? half) && Z.odd q) then q + 1 else q in
    let v := Z.shiftl q' e in
    if v <? 2 ^ 1024 then Some v else None.

Definition is_double (n : Z) : bool :=
  match to_double n with
  | Some m => m =? n
  | None => false
  end.

Definition of_Z (n : Z) : string := NilZero.string_of_int (Z.to_int n).

(** The decimal that [Number::toString] prints for the double [x > 0]:
    with as few significant digits [k] as possible, a whole number that
    rounds to [x]; of two with [k] digits the one nearer to [x], and of
    two equally near the one whose last digit is even. The candidates
    with [k] digits are the two multiples of [10 ^ (digits - k)] around
    [x]. *)
Fixpoint shortest_go (fuel k : nat) (x : Z) : Z :=
  match fuel with
  | O => x
  | S f =>
      let p := 10 ^ Z.of_nat (String.length (of_Z x) - k) in
      let lo := x / p * p in
      let hi := lo + p in
      let rounds v := (0 <? v) && match to_double v with
                                  | Some y => y =? x
                                  | None => false
                                  end in
      if rounds lo && rounds hi then
        if x - lo <? hi - x then lo
        else if hi - x <? x - lo then hi
        else if Z.even (lo / p) then lo else hi
      else if rounds lo then lo
      else if rounds hi then hi
      else shortest_go f (S k) x
  end.

Definition shortest (x : Z) : Z := shortest_go (String.length (of_Z x)) 1 x.

Fixpoint drop_zeros (l : list ascii) : list ascii :=
  match l with
  | "0"%char :: t => drop_zeros t
  | _ => l
  end.

(** [String(x)] for a double [x > 0]: the digits of the shortest decimal
    when there are at most 21, and otherwise its significant digits with
    a point after the first and the exponent. *)
Definition to_string (x : Z) : string :=
  let text := of_Z (shortest x) in
  let n := String.length text in
  if shortest x <? 10 ^ 21 then text
  else
    let exponent := ("e+" ++ Js.of_nat (n - 1))%string in
    match rev (drop_zeros (rev (list_ascii_of_string text))) with
    | [] => text
    | [d] => String d exponent
    | d :: more => String d ("." ++ string_of_list_ascii more ++ exponent)%string
    end.

(** [String(n)] of the number that [n] denotes. *)
Definition number_text (n : Z) : string :=
  match to_double (Z.abs n) with
  | Some x =>
      if x =? 0 then "0"
      else if n <? 0 then ("-" ++ to_string x)%string
      else to_string x
  | None => if n <? 0 then "-Infinity" else "Infinity"
  end.

(** The double nearest to a whole number of either sign, as the
    difference of two doubles is rounded; a whole number past the
    largest double has none and is left as it is. *)
Definition nearest (n : Z) : Z :=
  match to_double (Z.abs n) with
  | Some x => Z.sgn n * x
  | None => n
  end.

(** [String(value || '')]: an absent value, zero and the empty text are
    falsy. *)
Definition text_of (value : jsvalue) : string :=
  match value with
  | VUndefined => ""
  | VNumber n => if n =? 0 then "" else number_text n
  | VString s => s
  end.

Definition digit_value (c : ascii) : option Z :=
  if Js.is_digit c then Some (Z.of_nat (Js.code c) - 48) else None.

(** The digits at the head of [s], read in base 10; [None] when there is
    none ([NaN]). *)
Fixpoint parse_digits (acc : option Z) (s : string) : option Z :=
  match s with
  | EmptyString => acc
  | String c t =>
      match digit_value c with
      | Some v =>
          parse_digits (Some (10 * match acc with Some a => a | None => 0 end + v)) t
      | None => acc
      end
  end.

(** The whole number that [parseInt(text, 10)] reads, before it is
    rounded to a double; [None] is [NaN]. *)
Definition parseInt (text : string) : option Z :=
  match Js.trimStart text with
  | String "-" t => option_map Z.opp (parse_digits None t)
  | String "+" t => parse_digits None t
  | t => parse_digits None t
  end.

(** [parsePositiveInt(value)]: the number read is the double nearest to
    the digits; it is kept when it is finite and positive. *)
Definition parsePositiveInt (value : jsvalue) : option Z :=
  match parseInt (Js.trim (text_of value)) with
  | Some n => if 0 <? n then to_double n else None
  | None => None
  end.

Record ExportOptions : Type := mkOptions {
  includeThinking : bool;
  includeMetadata : bool;
  includeHtml : bool;
  redactSensitive : bool;
  scope : string;
  scopeStart : jsvalue;
  scopeEnd : jsvalue
}.

Record Range : Type := mkRange {
  range_start : Z;
  range_end : Z;
  range_label : string
}.

Definition or_default (o : option Z) (d : Z) : Z :=
  match o with
  | Some n => n
  | None => d
  end.

Definition resolveMessageRange (options : ExportOptions) (totalMessages : Z) : Range :=
  let scope := Js.or_else (scope options) "all" in
  if String.eqb scope "single" then
    let index := or_default (parsePositiveInt (scopeStart options)) totalMessages in
    let oneBased := Z.min totalMessages (Z.max 1 index) in
    mkRange (oneBased - 1) (oneBased - 1) ("message-" ++ of_Z oneBased)
  else if String.eqb scope "range" then
    let start := or_default (parsePositiveInt (scopeStart options)) 1 in
    let end_ := or_default (parsePositiveInt (scopeEnd options)) totalMessages in
    let clampedStart := Z.min totalMessages (Z.max 1 start) in
    let clampedEnd := Z.min totalMessages (Z.max clampedStart end_) in
    mkRange (clampedStart - 1) (clampedEnd - 1)
            ("range-" ++ of_Z clampedStart ++ "-" ++ of_Z clampedEnd)
  else mkRange 0 (totalMessages - 1) "all".

(** [array.slice(start, end)], negative indices counting from the end. *)
Definition slice {A : Type} (start end_ : Z) (l : list A) : list A :=
  let len := Z.of_nat (length l) in
  let k := if start <? 0 then Z.max (len + start) 0 else Z.min start len in
  let final := if end_ <? 0 then Z.max (len + end_) 0 else Z.min end_ len in
  take (Z.to_nat (final - k)) (drop (Z.to_nat k) l).

Definition scoped_messages (d : Document) (options : ExportOptions) : list Message :=
  let range := resolveMessageRange options (Z.of_nat (length (messages d))) in
  slice (range_start range) (range_end range + 1) (messages d).

Definition sum_wordCount (msgs : list Message) : nat :=
  fold_left (fun sum message => (sum + Js.or_num (m_wordCount message) 0)%nat) msgs 0%nat.

Definition buildScopedExportData (d : Document) (options : ExportOptions) : Document :=
  let totalMessages := Z.of_nat (length (messages d)) in
  let range := resolveMessageRange options totalMessages in
  let scopedMessages := slice (range_start range) (range_end range + 1) (messages d) in
  let scopedThinkingBlocks := concat (map m_thinkingBlocks scopedMessages) in
  let totalWordCount := sum_wordCount scopedMessages in
  let referenceIndex := Refs.computeReferenceIndexFromMessages scopedMessages in
  let uploadedDocuments := Refs.computeUploadedDocumentsFromMessages scopedMessages in
  let md := metadata d in
  let scopedMetadata :=
    {| md_platform := md_platform md;
       md_url := md_url md;
       md_title := md_title md;
       md_rawDocumentTitle := md_rawDocumentTitle md;
       md_exportDate := md_exportDate md;
       md_exporterVersion := md_exporterVersion md;
       md_userAgent := md_userAgent md;
       md_messageCount := length scopedMessages;
       md_thinkingBlockCount := length scopedThinkingBlocks;
       md_hasThinkingBlocks := md_hasThinkingBlocks md;
       md_referenceCount := default 0%nat (ri_total referenceIndex);
       md_linkCount := length (links (ri_refs referenceIndex));
       md_attachmentCount := length (attachments (ri_refs referenceIndex));
       md_citationCount := length (citations (ri_refs referenceIndex));
       md_totalWordCount := totalWordCount;
       md_totalCharacterCount := md_totalCharacterCount md;
       md_userMessageCount := md_userMessageCount md;
       md_assistantMessageCount := md_assistantMessageCount md;
       md_referenceIndex := Some referenceIndex;
       md_blockTypeBreakdown := Normalize.blockTypeBreakdown scopedThinkingBlocks;
       md_uploadedDocuments := uploadedDocuments;
       md_uploadedDocumentCount := length uploadedDocuments;
       md_scope := Some (range_label range);
     md_conversationSummary := md_conversationSummary md;
     md_constructed := md_constructed md;
     md_processed := md_processed md;
     md_processed_late := md_processed_late md |} in
  mkDocument scopedMetadata scopedMessages scopedThinkingBlocks (rawHtml d).

End Scope.

(** ** Redaction ([applySensitiveRedaction] and its callers) *)

Module Redact.
Import Regex.

Definition alnum : cset := cunion [AZ; az; d09].

(** The e-mail pattern, flags [gi]: a word boundary, one or more of
    [A-Z0-9._%+-], an at sign, one or more of [A-Z0-9.-], a dot, two or
    more letters, a word boundary. *)
Definition email_re : re :=
  seq [WordB;
       plus (Cls (cunion [AZ; d09; chr "."; chr "_"; chr "%"; chr "+"; chr "-"]));
       lit "@";
       plus (Cls (cunion [AZ; d09; chr "."; chr "-"]));
       lit ".";
       at_least 2 (Cls AZ);
       WordB].

(** An optional separator [[-.\s]?]. *)
Definition phone_sep : re := opt (Cls (cunion [chr "-"; chr "."; CSpace])).

(** The phone pattern, flag [g]: a word boundary, an optional [+1] or [1]
    prefix with separator, two groups of three digits each optionally
    parenthesised and followed by a separator, four digits, a word
    boundary. *)
Definition phone_re : re :=
  seq [WordB;
       opt (seq [opt (lit "+"); lit "1"; phone_sep]);
       exactly 2 (seq [opt (lit "("); exactly 3 (Cls CDigit); opt (lit ")"); phone_sep]);
       exactly 4 (Cls CDigit);
       WordB].

(** The token pattern, flag [g]: [sk-] and 12 or more alphanumerics,
    [xox[baprs]-] and 10 or more of [A-Za-z0-9-], [ghp_] and 20 or more
    alphanumerics, or [AIza] and 20 or more of [0-9A-Za-z-_], between
    word boundaries. *)
Definition token_re : re :=
  seq [WordB;
       alt [seq [lit "sk-"; at_least 12 (Cls alnum)];
            seq [lit "xox"; Cls (cunion [chr "b"; chr "a"; chr "p"; chr "r"; chr "s"]);
                 lit "-"; at_least 10 (Cls (cunion [AZ; az; d09; chr "-"]))];
            seq [lit "ghp_"; at_least 20 (Cls alnum)];
            seq [lit "AIza"; at_least 20 (Cls (cunion [d09; AZ; az; chr "-"; chr "_"]))]];
       WordB].

(** The credential pattern, flags [gi]: one of the key words, optional
    blanks, a colon or an equals sign, optional blanks, then every
    character up to the next blank. *)
Definition credential_re : re :=
  seq [WordB;
       alt [lit "password"; lit "passwd";
            seq [lit "api"; opt (Cls (cunion [chr "_"; chr "-"])); lit "key"];
            lit "secret"; lit "token"];
       star (Cls CSpace);
       Cls (cunion [chr ":"; chr "="]);
       star (Cls CSpace);
       plus (Cls (CNot CSpace))].

Definition document_exts : list string :=
  ["pdf"; "doc"; "docx"; "txt"; "md"; "csv"; "xlsx"; "xls"; "ppt"; "pptx";
   "json"; "xml"; "yaml"; "yml"].

(** The file-name pattern, flags [gi]: a word boundary, one or more of
    [\w.-], a dot, a known extension (group 1), a word boundary. *)
Definition file_re : re :=
  seq [WordB; plus (Cls (cunion [CWord; chr "."; chr "-"])); lit ".";
       Group 1 (alt (map lit document_exts)); WordB].

Definition marker (s : string) : list (nat * list ascii) -> list ascii :=
  fun _ => chars s.

(** The replacement ['[REDACTED_FILE].$1']. *)
Definition file_marker (caps : list (nat * list ascii)) : list ascii :=
  chars "[REDACTED_FILE]." ++ get_cap 1 caps.

Definition applySensitiveRedaction (text : string) : string :=
  if Js.is_empty text then text
  else
    let t1 := replaceAll icase email_re (marker "[REDACTED_EMAIL]") text in
    let t2 := replaceAll plain phone_re (marker "[REDACTED_PHONE]") t1 in
    let t3 := replaceAll plain token_re (marker "[REDACTED_TOKEN]") t2 in
    let t4 := replaceAll icase credential_re (marker "[REDACTED_CREDENTIAL]") t3 in
    replaceAll icase file_re file_marker t4.

(** [/\.([a-z0-9]+)$/i] *)
Definition extension_re : re :=
  seq [lit "."; Group 1 (plus (Cls (cunion [az; d09]))); Eol].

Definition redactFilename (value : string) : string :=
  if Js.is_empty value then value
  else
    let ext :=
      match exec icase extension_re (Js.trim value) with
      | Some (_, caps) => "." ++ Js.toLowerCase (str (get_cap 1 caps))
      | None => ""
      end in
    "[REDACTED_FILE]" ++ ext.

Section WithUrl.

(** [new URL(value).origin] is the browser's: [url_origin value] is the
    origin, or [None] when the constructor throws. *)
Variable url_origin : string -> option string.

Definition redactUrl (value : string) : string :=
  if Js.is_empty value then value
  else
    match url_origin value with
    | Some origin => origin ++ "/[REDACTED_PATH]"
    | None => applySensitiveRedaction value
    end.

Definition redact_link (item : Link) : Link :=
  {| l_url := redactUrl (l_url item);
     l_title := redactFilename (applySensitiveRedaction (l_title item));
     l_domain := l_domain item |}.

Definition redact_file (item : FileRef) : FileRef :=
  {| f_name := redactFilename (applySensitiveRedaction (f_name item));
     f_url := Some (redactUrl (str_or_empty (f_url item)));
     f_type := f_type item;
     f_sizeLabel := Some (applySensitiveRedaction (str_or_empty (f_sizeLabel item))) |}.

Definition redact_citation (item : Citation) : Citation :=
  {| c_text := applySensitiveRedaction (c_text item);
     c_url := Some (redactUrl (str_or_empty (c_url item))) |}.

Definition redactReferenceSet (refs : option ReferenceSet) : ReferenceSet :=
  let source := Refs.normalizeReferenceSet refs in
  {| links := map redact_link (links source);
     attachments := map redact_file (attachments source);
     documents := map redact_file (documents source);
     citations := map redact_citation (citations source) |}.

(** [{...block, content, summary, html, richHtml}] *)
Definition redact_block (block : Block) : Block :=
  {| b_id := b_id block;
     b_type := b_type block;
     b_summary := applySensitiveRedaction (b_summary block);
     b_content := applySensitiveRedaction (b_content block);
     b_wordCount := b_wordCount block;
     b_characterCount := b_characterCount block;
     b_html := applySensitiveRedaction (b_html block);
     b_richHtml := applySensitiveRedaction (b_richHtml block);
     b_structuredData := b_structuredData block;
     b_references := b_references block;
     b_expanded := b_expanded block |}.

Definition redact_message (message : Message) : Message :=
  {| m_id := m_id message;
     m_author := m_author message;
     m_content := Some (applySensitiveRedaction (str_or_empty (m_content message)));
     m_html := applySensitiveRedaction (m_html message);
     m_timestamp := m_timestamp message;
     m_wordCount := m_wordCount message;
     m_characterCount := m_characterCount message;
     m_thinkingBlocks := map redact_block (m_thinkingBlocks message);
     m_references := Some (redactReferenceSet (m_references message)) |}.

Definition redact_uploaded (item : UploadedDocument) : UploadedDocument :=
  {| u_messageId := u_messageId item;
     u_author := u_author item;
     u_name := redactFilename (applySensitiveRedaction (u_name item));
     u_type := u_type item;
     u_url := Some (redactUrl (str_or_empty (u_url item)));
     u_sizeLabel := Some (applySensitiveRedaction (str_or_empty (u_sizeLabel item))) |}.

Definition redact_metadata (md : Metadata) : Metadata :=
  {| md_platform := md_platform md;
     md_url := md_url md;
     md_title := md_title md;
     md_rawDocumentTitle := md_rawDocumentTitle md;
     md_exportDate := md_exportDate md;
     md_exporterVersion := md_exporterVersion md;
     md_userAgent := md_userAgent md;
     md_messageCount := md_messageCount md;
     md_thinkingBlockCount := md_thinkingBlockCount md;
     md_hasThinkingBlocks := md_hasThinkingBlocks md;
     md_referenceCount := md_referenceCount md;
     md_linkCount := md_linkCount md;
     md_attachmentCount := md_attachmentCount md;
     md_citationCount := md_citationCount md;
     md_totalWordCount := md_totalWordCount md;
     md_totalCharacterCount := md_totalCharacterCount md;
     md_userMessageCount := md_userMessageCount md;
     md_assistantMessageCount := md_assistantMessageCount md;
     md_referenceIndex :=
       match md_referenceIndex md with
       | Some index => Some (mkIndex (redactReferenceSet (Some (ri_refs index))) None)
       | None => None
       end;
     md_blockTypeBreakdown := md_blockTypeBreakdown md;
     md_uploadedDocuments := map redact_uploaded (md_uploadedDocuments md);
     md_uploadedDocumentCount := md_uploadedDocumentCount md;
     md_scope := md_scope md;
     md_conversationSummary := md_conversationSummary md;
     md_constructed := md_constructed md;
     md_processed := md_processed md;
     md_processed_late := md_processed_late md |}.

Definition redact_rawHtml (includeHtml : bool) (raw : RawHtml) : RawHtml :=
  if includeHtml
  then {| rh_original := Some (applySensitiveRedaction (str_or_empty (rh_original raw)));
          rh_expanded := Some (applySensitiveRedaction (str_or_empty (rh_expanded raw))) |}
  else {| rh_original := None; rh_expanded := None |}.

Definition sanitizeExportDataForOptions (sourceData : Document)
    (options : Scope.ExportOptions) : Document :=
  if negb (Scope.redactSensitive options) then sourceData
  else
    {| metadata := redact_metadata (metadata sourceData);
       messages := map redact_message (messages sourceData);
       thinkingBlocks := map redact_block (thinkingBlocks sourceData);
       rawHtml := option_map (redact_rawHtml (Scope.includeHtml options))
                             (rawHtml sourceData) |}.

Definition getPreparedExportData (d : Document) (options : Scope.ExportOptions)
  : Document :=
  sanitizeExportDataForOptions (Scope.buildScopedExportData d options) options.

End WithUrl.

End Redact.

(** ** JSON export ([generateJSON])

    [JSON.stringify(data, null, 2)] over the fields of the model. Member
    order is that of the extractor's objects; a member that is
    [undefined] is left out. *)

Module Json.

Import Stringify.

Definition link_json (item : Link) : json :=
  object [("url", jstr (l_url item)); ("title", jstr (l_title item));
          ("domain", jstr (l_domain item))].

Definition file_json (item : FileRef) : json :=
  object [("name", jstr (f_name item)); ("url", jnullable_str (f_url item));
          ("type", jstr (f_type item)); ("sizeLabel", jopt_str (f_sizeLabel item))].

Definition citation_json (item : Citation) : json :=
  object [("text", jstr (c_text item)); ("url", jnullable_str (c_url item))].

Definition refs_members (refs : ReferenceSet) : list (string * option json) :=
  [("links", jlist link_json (links refs));
   ("attachments", jlist file_json (attachments refs));
   ("documents", jlist file_json (documents refs));
   ("citations", jlist citation_json (citations refs))].

Definition refs_json (refs : ReferenceSet) : json := object (refs_members refs).

Definition result_json (r : SearchResult) : json :=
  object [("title", jstr (r_title r)); ("url", jopt_str (r_url r));
          ("domain", jopt_str (r_domain r))].

Definition structured_json (data : StructuredData) : json :=
  match data with
  | SDWebSearch queries results =>
      object [("queries", jlist JString queries); ("results", jlist result_json results)]
  | SDToolCall description commands outputs =>
      object [("description", jstr description); ("commands", jlist JString commands);
              ("outputs", jlist JString outputs)]
  | SDPromptChain steps => object [("steps", jlist JString steps)]
  end.

Definition block_json (block : Block) : json :=
  object [("id", jstr (b_id block));
          ("type", jstr (b_type block));
          ("content", jstr (b_content block));
          ("summary", jstr (b_summary block));
          ("wordCount", jnum (b_wordCount block));
          ("characterCount", jnum (b_characterCount block));
          ("html", jstr (b_html block));
          ("structuredData",
            Some (match b_structuredData block with
                  | Some data => structured_json data
                  | None => JNull
                  end));
          ("references", option_map refs_json (b_references block));
          ("expanded", option_map JBool (b_expanded block));
          ("richHtml", jstr (b_richHtml block))].

(** [thinking] and [html] say whether the member survives the
    destructuring [{ thinkingBlocks, ...rest }] and [{ html, ...rest }]. *)
Definition message_json (thinking html : bool) (message : Message) : json :=
  object [("id", jstr (m_id message));
          ("author", jstr (m_author message));
          ("content", jopt_str (m_content message));
          ("html", if html then jstr (m_html message) else None);
          ("timestamp", jstr (m_timestamp message));
          ("wordCount", jnum (m_wordCount message));
          ("characterCount", jnum (m_characterCount message));
          ("thinkingBlocks",
            if thinking then jlist block_json (m_thinkingBlocks message) else None);
          ("references", option_map refs_json (m_references message))].

Definition index_json (index : ReferenceIndex) : json :=
  object (refs_members (ri_refs index) ++ [("total", option_map JNumber (ri_total index))]).

Definition uploaded_json (item : UploadedDocument) : json :=
  object [("messageId", jnullable_str (u_messageId item));
          ("author", jstr (u_author item));
          ("name", jstr (u_name item));
          ("type", jstr (u_type item));
          ("url", jnullable_str (u_url item));
          ("sizeLabel", jnullable_str (u_sizeLabel item))].

Definition breakdown_json (table : list (string * nat)) : json :=
  JObject (map (fun kv => (fst kv, JNumber (snd kv))) table).

(** A whole number as [JSON.stringify] prints it. *)
Definition integer_json (n : Z) : json := JNumeral (Scope.number_text n).

Definition duration_json (d : Duration) : json :=
  object [("start", jstr (duration_start d));
          ("end", jstr (duration_end d));
          ("durationMs", Some (integer_json (durationMs d)))].

Definition summary_json (summary : ConversationSummary) : json :=
  object [("firstMessage", jopt_str (firstMessage summary));
          ("lastMessage", jopt_str (lastMessage summary));
          ("duration",
            Some (match duration summary with
                  | Some d => duration_json d
                  | None => JNull
                  end))].

Definition members (bag : list (string * json)) : list (string * option json) :=
  map (fun kv => (fst kv, Some (snd kv))) bag.

(** The members in the order in which an extractor, normalization and
    scoping create them. *)
Definition metadata_json (md : Metadata) : json :=
  object ([("platform", jstr (md_platform md));
           ("url", jstr (md_url md));
           ("title", jstr (md_title md));
           ("rawDocumentTitle", jstr (md_rawDocumentTitle md));
           ("exportDate", jstr (md_exportDate md));
           ("exporterVersion", jstr (md_exporterVersion md));
           ("userAgent", jstr (md_userAgent md));
           ("messageCount", jnum (md_messageCount md));
           ("thinkingBlockCount", jnum (md_thinkingBlockCount md));
           ("hasThinkingBlocks", Some (JBool (md_hasThinkingBlocks md)));
           ("referenceCount", jnum (md_referenceCount md));
           ("linkCount", jnum (md_linkCount md));
           ("attachmentCount", jnum (md_attachmentCount md));
           ("citationCount", jnum (md_citationCount md))]
          ++ members (md_constructed md)
          ++ [("totalWordCount", jnum (md_totalWordCount md));
              ("totalCharacterCount", jnum (md_totalCharacterCount md));
              ("userMessageCount", jnum (md_userMessageCount md));
              ("assistantMessageCount", jnum (md_assistantMessageCount md));
              ("referenceIndex", option_map index_json (md_referenceIndex md));
              ("conversationSummary", option_map summary_json (md_conversationSummary md))]
          ++ members (md_processed md)
          ++ [("blockTypeBreakdown", Some (breakdown_json (md_blockTypeBreakdown md)))]
          ++ members (md_processed_late md)
          ++ [("uploadedDocuments", jlist uploaded_json (md_uploadedDocuments md));
              ("uploadedDocumentCount", jnum (md_uploadedDocumentCount md));
              ("scope", jopt_str (md_scope md))])%list.

(** The replacement object of the [!options.includeMetadata] branch. *)
Definition minimal_metadata_json (md : Metadata) : json :=
  object [("platform", jstr (md_platform md));
          ("exportDate", jstr (md_exportDate md));
          ("messageCount", jnum (md_messageCount md))].

Definition rawHtml_json (raw : RawHtml) : json :=
  object [("original", jnullable_str (rh_original raw));
          ("expanded", jnullable_str (rh_expanded raw))].

Section WithUrl.

Variable url_origin : string -> option string.

Definition export_json (d : Document) (options : Scope.ExportOptions) : json :=
  let data := Redact.getPreparedExportData url_origin d options in
  object [("metadata",
            Some (if Scope.includeMetadata options
                  then metadata_json (metadata data)
                  else minimal_metadata_json (metadata data)));
          ("messages",
            jlist (message_json (Scope.includeThinking options) (Scope.includeHtml options))
                  (messages data));
          ("thinkingBlocks",
            if Scope.includeThinking options
            then jlist block_json (thinkingBlocks data)
            else Some (JArray []));
          ("rawHtml",
            if Scope.includeHtml options
            then option_map rawHtml_json (rawHtml data)
            else Some JNull)].

Definition generateJSON (d : Document) (options : Scope.ExportOptions) : string :=
  stringify (export_json d options).

End WithUrl.

End Json.

(** ** Object literals used as tables

    A lookup [table[key]] in an object literal also finds the members the
    literal inherits from [Object.prototype]; they are functions (or, for
    [__proto__], an object), hence truthy and not the strings or numbers
    of the table. *)

Module Table.

Definition object_prototype_members : list string :=
  ["constructor"; "__defineGetter__"; "__defineSetter__"; "hasOwnProperty";
   "__lookupGetter__"; "__lookupSetter__"; "isPrototypeOf";
   "propertyIsEnumerable"; "toString"; "valueOf"; "__proto__"; "toLocaleString"].

Definition inherited (key : string) : bool :=
  existsb (String.eqb key) object_prototype_members.

Fixpoint own {A : Type} (key : string) (table : list (string * A)) : option A :=
  match table with
  | [] => None
  | (k, v) :: rest => if String.eqb k key then Some v else own key rest
  end.

(** What [table[key]] evaluates to. *)
Inductive found (A : Type) : Type :=
| Own (v : A)
| Inherited
| Missing.

Arguments Own {A} v.
Arguments Inherited {A}.
Arguments Missing {A}.

Definition get {A : Type} (key : string) (table : list (string * A)) : found A :=
  match own key table with
  | Some v => Own v
  | None => if inherited key then Inherited else Missing
  end.

End Table.

(** ** The extractor's helpers (export-interface.js, [UniversalExtractor]) *)

Module Extractor.
Import Regex.

(** A value computed by a method that may throw. *)
Inductive result (A : Type) : Type :=
| Ok (value : A)
| Throws (message : string).

Arguments Ok {A} value.
Arguments Throws {A} message.

(** [truncate(text, length = 100)]: [None] is a [text] that is not a
    string, and the [null] returned for it. *)
Definition truncate (text : option string) (length : nat) : option string :=
  match text with
  | None => None
  | Some t =>
      if (String.length t <=? length)%nat then Some t
      else Some (Js.slice0 length t ++ "...")
  end.

(** [text.replace(/\s+/g, ' ')] *)
Definition collapse_whitespace (text : string) : string :=
  replaceAll plain Classifier.spaces_re (fun _ => chars " ") text.

(** The signature of [dedupeMessages]; the content of an extracted
    message is a string, [None] stands for a missing one. *)
Definition message_signature (message : Message) : string :=
  Js.join "|"
    [Js.or_else (m_author message) "assistant";
     Js.slice0 500 (collapse_whitespace (Js.trim (str_or_empty (m_content message))))].

(** The [forEach] of [dedupeMessages] with its [previousSignature]. *)
Fixpoint dedupe_run (previousSignature : option string) (messages : list Message)
  : list Message :=
  match messages with
  | [] => []
  | message :: rest =>
      let signature := message_signature message in
      if bool_decide (Some signature = previousSignature)
      then dedupe_run previousSignature rest
      else message :: dedupe_run (Some signature) rest
  end.

Definition dedupeMessages (messages : list Message) : list Message :=
  if (length messages <=? 1)%nat then messages else dedupe_run None messages.

Definition hasReferences (refs : option ReferenceSet) : bool :=
  match refs with
  | None => false
  | Some r =>
      (0 <? length (links r))%nat || (0 <? length (attachments r))%nat
      || (0 <? length (documents r))%nat || (0 <? length (citations r))%nat
  end.

(** [/\.([a-z0-9]+)$/i] *)
Definition extension_re : re :=
  seq [lit "."; Group 1 (plus (Cls (cunion [az; d09]))); Eol].

Definition getFileExtension (value : string) : string :=
  if Js.is_empty value then ""
  else
    let clean := hd "" (Js.split (hd "" (Js.split value "?")) "#") in
    match exec icase extension_re clean with
    | Some (_, caps) => Js.toLowerCase (str (get_cap 1 caps))
    | None => ""
    end.

Definition docExt : list string :=
  ["pdf"; "doc"; "docx"; "txt"; "md"; "rtf"; "odt";
   "csv"; "tsv"; "xls"; "xlsx"; "ppt"; "pptx";
   "json"; "xml"; "yaml"; "yml"].

Definition classifyDocumentType (nameOrUrl : string) : option string :=
  let ext := getFileExtension nameOrUrl in
  if Js.is_empty ext then None
  else if existsb (String.eqb ext) docExt then Some ext else None.

(** [buildReferenceIndex()]: the reference sets of the messages that have
    one, merged. *)
Definition buildReferenceIndex (msgs : list Message) : ReferenceIndex :=
  let fromMessages := omap m_references msgs in
  let referenceIndex := Refs.mergeReferences fromMessages in
  let totals :=
    (length (links referenceIndex) + length (attachments referenceIndex)
     + length (documents referenceIndex) + length (citations referenceIndex))%nat in
  mkIndex referenceIndex (Some totals).

Definition sum_words (msgs : list Message) : nat :=
  fold_left (fun sum msg => (sum + Js.or_num (m_wordCount msg) 0)%nat) msgs 0%nat.

Definition sum_characters (msgs : list Message) : nat :=
  fold_left (fun sum msg => (sum + Js.or_num (m_characterCount msg) 0)%nat) msgs 0%nat.

Definition authored (author : string) (msgs : list Message) : list Message :=
  filter (fun msg => String.eqb (m_author msg) author = true) msgs.

(** The metadata after the assignments of [postProcess]. *)
Definition postProcess_metadata (md : Metadata) (msgs : list Message)
    (blocks : list Block) : Metadata :=
  let referenceIndex := buildReferenceIndex msgs in
  {| md_platform := md_platform md;
     md_url := md_url md;
     md_title := md_title md;
     md_rawDocumentTitle := md_rawDocumentTitle md;
     md_exportDate := md_exportDate md;
     md_exporterVersion := md_exporterVersion md;
     md_userAgent := md_userAgent md;
     md_messageCount := length msgs;
     md_thinkingBlockCount := length blocks;
     md_hasThinkingBlocks := (0 <? length blocks)%nat;
     md_referenceCount := default 0%nat (ri_total referenceIndex);
     md_linkCount := length (links (ri_refs referenceIndex));
     md_attachmentCount := length (attachments (ri_refs referenceIndex));
     md_citationCount := length (citations (ri_refs referenceIndex));
     md_totalWordCount := sum_words msgs;
     md_totalCharacterCount := sum_characters msgs;
     md_userMessageCount := length (authored "user" msgs);
     md_assistantMessageCount := length (authored "assistant" msgs);
     md_referenceIndex := Some referenceIndex;
     md_blockTypeBreakdown := md_blockTypeBreakdown md;
     md_uploadedDocuments := md_uploadedDocuments md;
     md_uploadedDocumentCount := md_uploadedDocumentCount md;
     md_scope := md_scope md;
     md_conversationSummary := md_conversationSummary md;
     md_constructed := md_constructed md;
     md_processed := md_processed md;
     md_processed_late := md_processed_late md |}.

(** [metadata.conversationSummary = summary] *)
Definition with_summary (md : Metadata) (summary : ConversationSummary) : Metadata :=
  {| md_platform := md_platform md;
     md_url := md_url md;
     md_title := md_title md;
     md_rawDocumentTitle := md_rawDocumentTitle md;
     md_exportDate := md_exportDate md;
     md_exporterVersion := md_exporterVersion md;
     md_userAgent := md_userAgent md;
     md_messageCount := md_messageCount md;
     md_thinkingBlockCount := md_thinkingBlockCount md;
     md_hasThinkingBlocks := md_hasThinkingBlocks md;
     md_referenceCount := md_referenceCount md;
     md_linkCount := md_linkCount md;
     md_attachmentCount := md_attachmentCount md;
     md_citationCount := md_citationCount md;
     md_totalWordCount := md_totalWordCount md;
     md_totalCharacterCount := md_totalCharacterCount md;
     md_userMessageCount := md_userMessageCount md;
     md_assistantMessageCount := md_assistantMessageCount md;
     md_referenceIndex := md_referenceIndex md;
     md_blockTypeBreakdown := md_blockTypeBreakdown md;
     md_uploadedDocuments := md_uploadedDocuments md;
     md_uploadedDocumentCount := md_uploadedDocumentCount md;
     md_scope := md_scope md;
     md_conversationSummary := Some summary;
     md_constructed := md_constructed md;
     md_processed := md_processed md;
     md_processed_late := md_processed_late md |}.

Section WithDate.

(** [new Date(timestamp).getTime()], [None] for an invalid date, and
    [date.toISOString()] of a valid one: the browser's. A time value is
    a whole number of milliseconds. *)
Variable time_value : string -> option Z.
Variable toISOString : Z -> string.

(** [toISOString] of an invalid date throws a [RangeError]. *)
Definition calculateConversationDuration (msgs : list Message)
  : result (option Duration) :=
  let stamped := filter (fun msg => negb (Js.is_empty (m_timestamp msg)) = true) msgs in
  match stamped with
  | first :: _ :: _ =>
      match time_value (m_timestamp first),
            time_value (m_timestamp (List.last stamped first)) with
      | Some t0, Some t1 =>
          Ok (Some (mkDuration (toISOString t0) (toISOString t1) (Scope.nearest (t1 - t0))))
      | _, _ => Throws "Invalid time value"
      end
  | _ => Ok None
  end.

(** [postProcess()]: the document with the metadata assigned, and the
    conversation summary, which is assigned last and only when computing
    the duration does not throw. *)
Definition postProcess (d : Document) : Document * result ConversationSummary :=
  let md := postProcess_metadata (metadata d) (messages d) (thinkingBlocks d) in
  let firstMessageContent :=
    match messages d with
    | first :: _ => m_content first
    | [] => None
    end in
  let lastMessageContent :=
    match List.last (map Some (messages d)) None with
    | Some last => m_content last
    | None => None
    end in
  match calculateConversationDuration (messages d) with
  | Ok duration =>
      let summary := mkSummary (truncate firstMessageContent 100)
                               (truncate lastMessageContent 100) duration in
      (mkDocument (with_summary md summary) (messages d) (thinkingBlocks d) (rawHtml d),
       Ok summary)
  | Throws e =>
      (mkDocument md (messages d) (thinkingBlocks d) (rawHtml d), Throws e)
  end.

End WithDate.

End Extractor.

(** ** The ChatGPT extractor's helpers *)

Module ChatGPT.
Import Regex.

Definition tool_words : list string :=
  ["tool"; "function"; "call"; "run"; "command"; "output"].

Definition prompt_words : list string :=
  ["prompt"; "chain"; "system prompt"; "instruction"].

Definition thinking_words : list string :=
  ["reason"; "thinking"; "thought"; "analysis"; "deliberat"].

(** [/tool|function|call|run|command|output/] and the two that follow. *)
Definition words_re (words : list string) : re := alt (map lit words).

Definition classifyTraceType (summary hint content : string) : string :=
  let combined := Js.toLowerCase (summary ++ " " ++ hint ++ " " ++ content) in
  if test plain (words_re tool_words) combined then "tool_call"
  else if test plain (words_re prompt_words) combined then "prompt_chain"
  else if test plain (words_re thinking_words) combined then "thinking"
  else "trace".

Definition determineActionType (ariaLabel title text : string) : option string :=
  let combined := Js.toLowerCase (ariaLabel ++ " " ++ title ++ " " ++ text) in
  if Js.includes combined "copy" then Some "copy"
  else if Js.includes combined "regenerate" then Some "regenerate"
  else if Js.includes combined "edit" then Some "edit"
  else if Js.includes combined "like" || Js.includes combined "thumbs up" then Some "like"
  else if Js.includes combined "dislike" || Js.includes combined "thumbs down"
  then Some "dislike"
  else if Js.includes combined "share" then Some "share"
  else None.

(** A block object as [dedupeThinkingBlocks] sees it: the three members
    it reads, each absent or a string, and the other members, which it
    only copies. *)
Record Trace (V : Type) : Type := mkTrace {
  t_type : option string;
  t_summary : option string;
  t_content : option string;
  t_rest : gmap string V
}.

Arguments mkTrace {V} _ _ _ _.
Arguments t_type {V} _.
Arguments t_summary {V} _.
Arguments t_content {V} _.
Arguments t_rest {V} _.

(** [/^(Reasoning|Tool call:[^\n]*|Prompt chain)\s*\n+/i] *)
Definition heading_re : re :=
  seq [Bol;
       Group 1 (alt [lit "Reasoning";
                     Seq (lit "Tool call:") (star (Cls (CNot (CChar (ascii_of_nat 10)))));
                     lit "Prompt chain"]);
       star (Cls CSpace);
       plus (Cls (CChar (ascii_of_nat 10)))].

(** [new RegExp(`^${escapedSummary}\\s*`, 'i')]: with every special
    character escaped, the summary is matched letter by letter. *)
Definition summary_re (summary : string) : re :=
  seq [Bol; lit summary; star (Cls CSpace)].

Definition normalized_content {V : Type} (block : Trace V) : string :=
  let summary := Js.trim (str_or_empty (t_summary block)) in
  let content := Js.trim (str_or_empty (t_content block)) in
  let content := Js.trim (replaceFirst icase heading_re (fun _ => []) content) in
  if Js.is_empty summary then content
  else Js.trim (replaceFirst icase (summary_re summary) (fun _ => []) content).

Definition trace_type {V : Type} (block : Trace V) : string :=
  Js.trim (Js.or_else (str_or_empty (t_type block)) "thinking").

Definition contentSignature {V : Type} (block : Trace V) : string :=
  Js.slice0 500 (normalized_content block).

Definition priority_table : list (string * nat) :=
  [("tool_call", 3); ("prompt_chain", 3); ("thinking", 2); ("trace", 1)].

(** [priority[type] || 0]. For a type that names an inherited member the
    lookup yields a function, and the comparison the engine's text of it:
    the theorems leave such types out. *)
Definition priority (type : string) : nat :=
  match Table.get type priority_table with
  | Table.Own n => n
  | _ => 0
  end.

(** [{ ...block, type, content: normalizedContent || block.content || '' }] *)
Definition stored {V : Type} (block : Trace V) : Trace V :=
  mkTrace (Some (trace_type block)) (t_summary block)
          (Some (Js.or_else (normalized_content block) (str_or_empty (t_content block))))
          (t_rest block).

(** [{ ...existing, ...block, type, content: ... }]: a member of [block]
    hides the member of [existing] with the same name. *)
Definition merged {V : Type} (existing block : Trace V) : Trace V :=
  mkTrace (Some (trace_type block))
          (match t_summary block with
           | Some s => Some s
           | None => t_summary existing
           end)
          (Some (Js.or_else (normalized_content block) (str_or_empty (t_content block))))
          (t_rest block ∪ t_rest existing).

(** One turn of the [forEach]: [deduped] and the [seen] map from
    signatures to positions in it. *)
Definition dedupe_step {V : Type} (acc : list (Trace V) * gmap string nat)
    (block : Trace V) : list (Trace V) * gmap string nat :=
  let (deduped, seen) := acc in
  let signature := contentSignature block in
  if Js.is_empty signature then acc
  else
    match seen !! signature with
    | Some existingIndex =>
        match deduped !! existingIndex with
        | Some existing =>
            if (priority (trace_type block) <=? priority (str_or_empty (t_type existing)))%nat
            then acc
            else (<[existingIndex := merged existing block]> deduped, seen)
        | None => acc
        end
    | None => ((deduped ++ [stored block])%list, <[signature := length deduped]> seen)
    end.

Definition dedupeThinkingBlocks {V : Type} (blocks : list (Trace V)) : list (Trace V) :=
  fst (fold_left dedupe_step blocks ([], ∅)).

End ChatGPT.

(** ** Labels and the text formats of the export interface *)

Module Formats.
Import Regex.

(** The double quote, as a string. *)
Definition dq : string := String (ascii_of_nat 34) "".

Definition platform_labels : list (string * string) :=
  [("chatgpt", "GPT"); ("claude", "Claude"); ("gemini", "Gemini"); ("grok", "Grok");
   ("perplexity", "Perplexity"); ("qwen3", "Qwen"); ("deepseek", "DeepSeek");
   ("llama", "Llama"); ("bing", "Bing"); ("poe", "Poe"); ("manus", "Manus");
   ("devin", "Devin"); ("character", "Character.AI")].

(** [s.charAt(0).toUpperCase() + s.slice(1)]: the capital of the sharp
    s is two letters; the capitals of the micro sign and of the y with
    diaeresis are not Latin-1 characters, and the two are left as they
    are. *)
Definition capitalize (s : string) : string :=
  match s with
  | EmptyString => ""
  | String c t =>
      if (Js.code c =? 223)%nat then String "S" (String "S" t)
      else String (Js.upper_char c) t
  end.

(** [formatPlatformName(value)]; [None] when the lookup finds an
    inherited member, which is returned as it is and is not a string. *)
Definition formatPlatformName (value : string) : option string :=
  let normalized := Js.toLowerCase (Js.trim value) in
  match Table.get normalized platform_labels with
  | Table.Own label => Some label
  | Table.Inherited => None
  | Table.Missing =>
      if Js.is_empty normalized then Some "Assistant"
      else Some (capitalize normalized)
  end.

(** [platformInfo] is [this.platformInfo?.platform], empty when absent. *)
Definition getAssistantLabel (platformInfo : string) (sourceData : Document)
  : option string :=
  formatPlatformName (Js.or_else (md_platform (metadata sourceData)) platformInfo).

Definition getAuthorLabel (platformInfo : string) (author : string)
    (sourceData : Document) : option string :=
  let normalized := Js.toLowerCase (Js.trim author) in
  if String.eqb normalized "user" then Some "User"
  else getAssistantLabel platformInfo sourceData.

(** [if (counts.key) parts.push(`${counts.key} label`)] *)
Definition breakdown_part (counts : list (string * nat)) (key label : string)
  : list string :=
  match Table.own key counts with
  | Some n => if (n =? 0)%nat then [] else [Js.of_nat n ++ " " ++ label]
  | None => []
  end.

Definition breakdown_labels : list (string * string) :=
  [("thinking", "thinking"); ("web_search", "search"); ("tool_call", "tool");
   ("prompt_chain", "prompt"); ("code", "code"); ("file_edit", "edit")].

Definition format_counts (counts : list (string * nat)) : string :=
  Js.or_else
    (Js.join ", "
       (concat (map (fun kl => breakdown_part counts (fst kl) (snd kl)) breakdown_labels)))
    "none".

(** [formatBlockBreakdown(sourceData)]: [claudeCounts] is
    [metadata.claude.blockTypeBreakdown], [metadataCounts] is
    [metadata.blockTypeBreakdown], each [None] when absent; the blocks
    are counted only when both are. *)
Definition formatBlockBreakdown (claudeCounts metadataCounts : option (list (string * nat)))
    (blocks : list Block) : string :=
  format_counts
    match claudeCounts with
    | Some counts => counts
    | None =>
        match metadataCounts with
        | Some counts => counts
        | None => Normalize.blockTypeBreakdown blocks
        end
    end.

(** The [replace] that doubles every double quote of [text]. *)
Definition csv_escape (text : string) : string :=
  replaceAll plain (lit dq) (fun _ => chars (dq ++ dq)) text.

(** One line of the CSV: every field between double quotes. *)
Definition csv_row (fields : list string) : string :=
  Js.join "," (map (fun field => dq ++ field ++ dq) fields) ++ nl.

Definition block_row (authorLabel timestamp : string) (block : Block) : string :=
  csv_row [b_id block; authorLabel; Js.or_else (b_type block) "thinking";
           csv_escape (b_content block); Js.of_nat (Js.or_num (b_wordCount block) 0);
           timestamp].

Definition message_rows (includeThinking : bool) (authorLabel content : string)
    (message : Message) : string :=
  csv_row [m_id message; csv_escape authorLabel; "message"; csv_escape content;
           Js.of_nat (Js.or_num (m_wordCount message) 0); m_timestamp message]
  ++ if includeThinking
     then Js.join "" (map (block_row (csv_escape authorLabel) (m_timestamp message))
                          (m_thinkingBlocks message))
     else "".

Definition upload_row (index : nat) (doc : UploadedDocument) : string :=
  let content :=
    csv_escape
      (Js.join " | "
         (filter (fun part => negb (Js.is_empty part) = true)
            [Js.or_else (u_name doc) "document"; Js.or_else (u_type doc) "file";
             str_or_empty (u_sizeLabel doc); str_or_empty (u_url doc)])) in
  csv_row ["upload_" ++ Js.of_nat index; "User"; "uploaded_document"; content; "0"; ""].

Section WithUrl.

Variable url_origin : string -> option string.
Variable platformInfo : string.

(** [generateCSV(options)]; [None] when a message has no string content
    or the author label is not a string: [replace] is then not a method
    and the call throws. *)
Definition generateCSV (d : Document) (options : Scope.ExportOptions) : option string :=
  let scoped := Redact.getPreparedExportData url_origin d options in
  let rows :=
    map (fun message =>
           match m_content message,
                 getAuthorLabel platformInfo (m_author message) scoped with
           | Some content, Some authorLabel =>
               Some (message_rows (Scope.includeThinking options) authorLabel content message)
           | _, _ => None
           end)
        (messages scoped) in
  if forallb (fun row => match row with Some _ => true | None => false end) rows
  then Some ("id,author,type,content,word_count,timestamp" ++ nl
             ++ Js.join "" (omap id rows)
             ++ Js.join "" (imap upload_row (md_uploadedDocuments (metadata scoped))))
  else None.

End WithUrl.

End Formats.

(** ** The graph export ([generateGraphJSON]) *)

Module Graph.

Record Node : Type := mkNode {
  n_id : string;
  n_type : string;
  n_label : string;
  n_metadata : Stringify.json
}.

Record Edge : Type := mkEdge {
  e_from : string;
  e_to : string;
  e_type : string
}.

Definition has_id (nodes : list Node) (id : string) : bool :=
  existsb (fun existing => String.eqb (n_id existing) id) nodes.

Definition pushNode (nodes : list Node) (node : Node) : list Node :=
  if has_id nodes (n_id node) then nodes else (nodes ++ [node])%list.

Definition graph : Type := list Node * list Edge.

(** [pushNode(node); edges.push({ from, to: node.id, type })] *)
Definition link_node (from type : string) (g : graph) (node : Node) : graph :=
  (pushNode (fst g) node, (snd g ++ [mkEdge from (n_id node) type])%list).

(** [`${a || b}`] with a number for [b]. *)
Definition or_index (s : string) (index : nat) : string :=
  if Js.is_empty s then Js.of_nat index else s.

Definition message_node (messageId : string) (msgIndex : nat) (message : Message) : Node :=
  mkNode messageId "message"
    (m_author message ++ " #" ++ Js.of_nat (msgIndex + 1))
    (Stringify.object [("author", Stringify.jstr (m_author message));
                  ("timestamp", Stringify.jnullable_str (or_null (Some (m_timestamp message))));
                  ("wordCount", Stringify.jnum (Js.or_num (m_wordCount message) 0))]).

Definition block_node (messageId : string) (blockIndex : nat) (block : Block) : Node :=
  mkNode ("block:" ++ messageId ++ ":" ++ or_index (b_id block) blockIndex)
    (Js.or_else (b_type block) "thinking")
    (Js.slice0 120 (Js.or_else (b_summary block) (Js.or_else (b_type block) "thinking")))
    (Stringify.object [("wordCount", Stringify.jnum (Js.or_num (b_wordCount block) 0))]).

Definition link_ref_node (messageId : string) (refIndex : nat) (link : Link) : Node :=
  mkNode ("ref:link:" ++ messageId ++ ":" ++ Js.of_nat refIndex ++ ":"
          ++ Js.or_else (l_url link) (Js.or_else (l_title link) "unknown"))
    "link"
    (Js.or_else (l_title link) (Js.or_else (l_url link) "link"))
    (Stringify.object [("url", Stringify.jstr (l_url link)); ("domain", Stringify.jstr (l_domain link))]).

Definition document_node (messageId : string) (refIndex : nat) (doc : FileRef) : Node :=
  mkNode ("ref:document:" ++ messageId ++ ":" ++ Js.of_nat refIndex ++ ":"
          ++ Js.or_else (str_or_empty (f_url doc)) (Js.or_else (f_name doc) "unknown"))
    "document"
    (Js.or_else (f_name doc) (Js.or_else (str_or_empty (f_url doc)) "document"))
    (Stringify.object [("url", Stringify.jstr (str_or_empty (f_url doc)));
                  ("docType", Stringify.jstr (f_type doc))]).

Definition attachment_node (messageId : string) (refIndex : nat) (attachment : FileRef)
  : Node :=
  mkNode ("ref:attachment:" ++ messageId ++ ":" ++ Js.of_nat refIndex ++ ":"
          ++ Js.or_else (f_name attachment) "attachment")
    "attachment"
    (Js.or_else (f_name attachment) "attachment")
    (Stringify.object [("url", Stringify.jstr (str_or_empty (f_url attachment)));
                  ("attachmentType", Stringify.jstr (f_type attachment))]).

(** The nodes that one message hangs under its own, in the order of the
    four loops, each with the type of its edge. *)
Definition children (messageId : string) (message : Message) : list (string * Node) :=
  let refs := Refs.normalizeReferenceSet (m_references message) in
  (map (pair "has_trace") (imap (block_node messageId) (m_thinkingBlocks message))
   ++ map (pair "references") (imap (link_ref_node messageId) (links refs))
   ++ map (pair "references") (imap (document_node messageId) (documents refs))
   ++ map (pair "attached") (imap (attachment_node messageId) (attachments refs)))%list.

(** The callback of [scoped.messages.forEach((message, msgIndex) => ...)]. *)
Definition add_message (conversationId : string) (g : graph)
    (indexed : nat * Message) : graph :=
  let (msgIndex, message) := indexed in
  let messageId := "message:" ++ or_index (m_id message) msgIndex in
  fold_left (fun g child => link_node messageId (fst child) g (snd child))
            (children messageId message)
            (link_node conversationId "contains" g (message_node messageId msgIndex message)).

Definition conversation_node (md : Metadata) : Node :=
  mkNode ("conversation:" ++ md_platform md ++ ":" ++ md_exportDate md)
    "conversation"
    ("Conversation (" ++ md_platform md ++ ")")
    (Stringify.object [("platform", Stringify.jstr (md_platform md));
                  ("exportDate", Stringify.jstr (md_exportDate md));
                  ("scope", Stringify.jstr (Js.or_else (str_or_empty (md_scope md)) "all"))]).

(** The nodes and edges built from a prepared document. *)
Definition graph_of (scoped : Document) : graph :=
  let root := conversation_node (metadata scoped) in
  fold_left (add_message (n_id root)) (imap pair (messages scoped)) ([root], []).

Definition node_json (node : Node) : Stringify.json :=
  Stringify.object [("id", Stringify.jstr (n_id node)); ("type", Stringify.jstr (n_type node));
               ("label", Stringify.jstr (n_label node)); ("metadata", Some (n_metadata node))].

Definition edge_json (edge : Edge) : Stringify.json :=
  Stringify.object [("from", Stringify.jstr (e_from edge)); ("to", Stringify.jstr (e_to edge));
               ("type", Stringify.jstr (e_type edge))].

Section WithUrl.

Variable url_origin : string -> option string.

(** [generateGraphJSON(options)]; [generatedAt] is
    [new Date().toISOString()]. *)
Definition generateGraphJSON (generatedAt : string) (d : Document)
    (options : Scope.ExportOptions) : string :=
  let g := graph_of (Redact.getPreparedExportData url_origin d options) in
  Stringify.stringify
    (Stringify.object
       [("schemaVersion", Stringify.jstr "1.0");
        ("generatedAt", Stringify.jstr generatedAt);
        ("graph", Some (Stringify.object [("nodes", Stringify.jlist node_json (fst g));
                                     ("edges", Stringify.jlist edge_json (snd g))]))]).

End WithUrl.

End Graph.

(** ** File names of the downloads *)

Module Filenames.
Import Regex.

(** [[a-zA-Z0-9._-]] and [[-_.]] *)
Definition safe : cset := cunion [az; AZ; d09; chr "."; chr "_"; chr "-"].
Definition edge : cset := cunion [chr "-"; chr "_"; chr "."].

(** [/^[-_.]+|[-_.]+$/g] *)
Definition edges_re : re :=
  Alt (Seq Bol (plus (Cls edge))) (Seq (plus (Cls edge)) Eol).

(** [/^-|-$/g] *)
Definition dash_ends_re : re := Alt (Seq Bol (lit "-")) (Seq (lit "-") Eol).

(** The three replacements that [sanitizeFilenameBase] and [getFilename]
    share: blanks, then characters outside [[a-zA-Z0-9._-]], then runs
    of dashes. *)
Definition dashed (text : string) : string :=
  let spaced := replaceAll plain (plus (Cls CSpace)) (fun _ => chars "-") text in
  let cleaned := replaceAll plain (Cls (CNot safe)) (fun _ => chars "-") spaced in
  replaceAll plain (plus (Cls (chr "-"))) (fun _ => chars "-") cleaned.

(** [sanitizeFilenameBase(value)]; [None] is a value that is not a
    string. *)
Definition sanitizeFilenameBase (value : option string) : string :=
  match value with
  | None => ""
  | Some text => replaceAll plain edges_re (fun _ => []) (dashed (Js.trim text))
  end.

Definition getConversationTitleBase (d : Document) : string :=
  let title := Js.or_else (md_title (metadata d)) (md_rawDocumentTitle (metadata d)) in
  Js.or_else (sanitizeFilenameBase (Some title)) "conversation-export".

Definition extensions : list (string * string) :=
  [("pdf", "pdf"); ("docx", "docx"); ("markdown", "md"); ("json", "json");
   ("graph", "graph.json"); ("memorypack", "memorypack.json"); ("csv", "csv");
   ("html", "html"); ("txt", "txt"); ("research", "research.json")].

Definition mimeTypes : list (string * string) :=
  [("pdf", "application/pdf");
   ("docx", "application/vnd.openxmlformats-officedocument.wordprocessingml.document");
   ("markdown", "text/markdown"); ("json", "application/json");
   ("graph", "application/json"); ("memorypack", "application/json");
   ("csv", "text/csv"); ("html", "text/html"); ("txt", "text/plain");
   ("research", "application/json")].

(** [table[format] || fallback]; [None] when the lookup finds an
    inherited member, which is not a string. *)
Definition lookup_or (table : list (string * string)) (format fallback : string)
  : option string :=
  match Table.get format table with
  | Table.Own value => Some (Js.or_else value fallback)
  | Table.Inherited => None
  | Table.Missing => Some fallback
  end.

Definition getMimeType (format : string) : option string :=
  lookup_or mimeTypes format "text/plain".

(** The replacement text of [replace] for a pattern without groups:
    [$$] is a dollar, [$&] the match, a dollar and a backquote the text
    before the match, a dollar and a quote the text after it. *)
Fixpoint expand (matched prefix suffix template : list ascii) : list ascii :=
  match template with
  | [] => []
  | c :: rest =>
      match rest with
      | [] => [c]
      | c' :: rest' =>
          if Ascii.eqb c "$" then
            if Ascii.eqb c' "$" then "$"%char :: expand matched prefix suffix rest'
            else if Ascii.eqb c' "&" then (matched ++ expand matched prefix suffix rest')%list
            else if Ascii.eqb c' "`" then (prefix ++ expand matched prefix suffix rest')%list
            else if Ascii.eqb c' "'" then (suffix ++ expand matched prefix suffix rest')%list
            else c :: expand matched prefix suffix rest
          else c :: expand matched prefix suffix rest
      end
  end.

(** [text.replace(/\{name\}/g, replacement)]: every occurrence of the
    placeholder, left to right; [done] is the text already passed, most
    recent character first, and [skip] counts the characters of a
    placeholder still to be passed. *)
Fixpoint fill_go (placeholder replacement : list ascii) (done : list ascii)
    (skip : nat) (text : list ascii) : list ascii :=
  match text with
  | [] => []
  | c :: rest =>
      match skip with
      | S n => fill_go placeholder replacement (c :: done) n rest
      | O =>
          if Js.startsWith (str text) (str placeholder)
          then (expand placeholder (rev done) (drop (length placeholder) text) replacement
                ++ fill_go placeholder replacement (c :: done) (length placeholder - 1) rest)%list
          else c :: fill_go placeholder replacement (c :: done) O rest
      end
  end.

Definition fill (name replacement text : string) : string :=
  str (fill_go (chars ("{" ++ name ++ "}")) (chars replacement) [] 0 (chars text)).

(** [getFilename(format)]: [filename] and [filenameTemplate] are the
    options of the form, [now] is [new Date().toISOString()]. *)
Definition getFilename (platformInfo filename filenameTemplate now : string)
    (d : Document) (options : Scope.ExportOptions) (format : string) : option string :=
  let base := Js.or_else (Js.trim (Js.or_else filename "conversation-export"))
                         "conversation-export" in
  let date := Js.slice0 10 now in
  let time :=
    replaceAll plain (lit ":") (fun _ => chars "-")
               (Js.slice0 8 (str (drop 11 (chars now)))) in
  let total := Js.or_num (length (messages d)) 1 in
  let scopeLabel := Scope.range_label (Scope.resolveMessageRange options (Z.of_nat total)) in
  let platform := Js.or_else (md_platform (metadata d)) (Js.or_else platformInfo "platform") in
  let template := Js.or_else filenameTemplate "{base}" in
  let coreName :=
    replaceAll plain dash_ends_re (fun _ => [])
      (dashed (fill "scope" scopeLabel
                 (fill "time" time
                    (fill "date" date
                       (fill "platform" platform
                          (fill "base" base template)))))) in
  match lookup_or extensions format "txt" with
  | Some extension => Some (Js.or_else coreName base ++ "." ++ extension)
  | None => None
  end.

End Filenames.

(** ** Vocabulary of the statements *)

Module Props.

(** A string that is empty or starts with a character that is not a blank. *)
Definition clean_start (s : string) : Prop :=
  match s with
  | EmptyString => True
  | String c _ => Js.is_space c = false
  end.

(** Number of positions of [s] at which [p] starts. *)
Fixpoint occurrences (s p : string) : nat :=
  (if Js.startsWith s p then 1 else 0) +
  match s with
  | EmptyString => 0
  | String _ t => occurrences t p
  end.

(** [p] occurs in [s]. *)
Definition substring (p s : string) : Prop :=
  exists a b : string, s = a ++ p ++ b.

(** The signatures that a deduplication pass over [l] adds to its [seen]
    set. *)
Definition sigset {A : Type} (sig : A -> string) (l : list A) : gset string :=
  list_to_set (filter (fun s => s <> "") (map sig l)).

(** A reference set each of whose four lists has no two entries with the
    same signature. *)
Definition deduplicated (r : ReferenceSet) : Prop :=
  NoDup (map Refs.link_signature (links r)) /\
  NoDup (map Refs.file_signature (attachments r)) /\
  NoDup (map Refs.file_signature (documents r)) /\
  NoDup (map Refs.citation_signature (citations r)).

(** [kept] is [all] deduplicated by signature: it is what the code
    computes, it keeps entries of [all] in their order, no two of them
    with the same signature, and leaves no signature of [all] out. *)
Definition first_occurrences {A : Type} (sig : A -> string) (all kept : list A) : Prop :=
  kept = Refs.dedupeBySignature all sig /\
  sublist kept all /\
  NoDup (map sig kept) /\
  forall x, x ∈ all -> exists y, y ∈ kept /\ sig y = sig x.

(** The author of [m] reads [user], in any letter case. *)
Definition is_user (m : Message) : Prop := Js.toLowerCase (m_author m) = "user".

(** The attachments and the documents of a message. *)
Definition files_of (m : Message) : list FileRef :=
  (attachments (Refs.normalizeReferenceSet (m_references m))
   ++ documents (Refs.normalizeReferenceSet (m_references m)))%list.

(** A file with a name or a URL: the others are not listed among the
    uploaded documents. *)
Definition listed (item : FileRef) : Prop :=
  Js.trim (f_name item) <> "" \/ or_null (f_url item) <> None.

(** [u] is the uploaded document of the file [item] of the message [m]:
    the message's identifier, [user], the trimmed name or else the last
    segment of the URL, the type or else [file], the URL and the size
    label. *)
Definition uploaded_from (m : Message) (item : FileRef) (u : UploadedDocument) : Prop :=
  u_messageId u = or_null (Some (m_id m)) /\
  u_author u = "user" /\
  u_name u = Js.or_else (Js.trim (f_name item))
                        (match or_null (f_url item) with
                         | Some url => List.last (Js.split url "/") ""
                         | None => "document"
                         end) /\
  u_type u = Js.or_else (f_type item) "file" /\
  u_url u = or_null (f_url item) /\
  u_sizeLabel u = or_null (f_sizeLabel item).

(** The entries of [l] whose signature does not occur in [earlier]. *)
Definition fresh_items {A : Type} (sig : A -> string) (earlier l : list A) : list A :=
  filter (fun x => sig x ∉ sigset sig earlier) l.

(** What every extractor guarantees of the blocks it builds: the content
    falls back to the summary ([content.trim() || summary] in
    claude-extractor.js [extractSingleBlock], [content || summary] in the
    ChatGPT [extractTraceBlocks], [text.trim() || summary] in the Gemini
    extractor; the base extractor's blocks have no summary), so a block
    without content has no summary either. *)
Definition fallback_block (b : Block) : Prop :=
  Js.trim (b_content b) = "" -> Js.trim (b_summary b) = "".

(** A document as the extractors produce it. *)
Definition extracted (d : Document) : Prop :=
  Forall fallback_block (Normalize.aggregate_blocks d).

(** The signatures that [dedupe_aggregate] adds to its [seen] set. *)
Definition block_sigset (l : list Block) : gset string :=
  list_to_set (map Normalize.block_signature
                   (filter (fun b => Normalize.block_is_blank b = false) l)).

(** A message that the two filters of normalization let through: its
    content is a string, and after trimming it is not empty or some block
    of the message has content. *)
Definition survives (m : Message) : bool :=
  match m_content m with
  | Some raw =>
      negb (Js.is_empty (Js.trim raw))
      || existsb Normalize.has_content (m_thinkingBlocks m)
  | None => false
  end.

(** The priority table of the ChatGPT extractor's [dedupeThinkingBlocks],
    the order the specification gives for colliding blocks. *)
Definition type_priority (type : string) : nat :=
  if String.eqb type "tool_call" then 3
  else if String.eqb type "prompt_chain" then 3
  else if String.eqb type "thinking" then 2
  else if String.eqb type "trace" then 1
  else 0.

(** Same summary and same first 500 characters of content. *)
Definition collide_500 (b1 b2 : Block) : Prop :=
  b_summary b1 = b_summary b2 /\
  Js.slice0 500 (b_content b1) = Js.slice0 500 (b_content b2).

(** The whole of [s] matches [r]. *)
Definition whole (fl : Regex.flags) (r : Regex.re) (s : string) : bool :=
  Regex.test fl (Regex.seq [Regex.Bol; r; Regex.Eol]) s.

(** [sk-] followed by twelve alphanumerics. *)
Definition sk_token_re : Regex.re :=
  Regex.Seq (Regex.lit "sk-") (Regex.exactly 12 (Regex.Cls Redact.alnum)).

(** What every redaction marker starts with. *)
Definition tag : string := "[REDACTED_".

(** A message of [d] has the content [c], in which an e-mail address
    [e], a phone number [p] and a token [t] of [sk-] and twelve
    alphanumerics occur. *)
Definition sensitive (d : Document) (c e p t : string) : Prop :=
  (exists m, m ∈ messages d /\ m_content m = Some c) /\
  whole Regex.icase Redact.email_re e = true /\
  whole Regex.plain Redact.phone_re p = true /\
  whole Regex.plain sk_token_re t = true /\
  substring e c /\ substring p c /\ substring t c.

(** The e-mail, the phone and the token pattern match nowhere in [s]. *)
Definition clear_of_patterns (s : string) : Prop :=
  Regex.test Regex.icase Redact.email_re s = false /\
  Regex.test Regex.plain Redact.phone_re s = false /\
  Regex.test Regex.plain Redact.token_re s = false.

(** The three patterns match nowhere in the texts of a message: its
    content, its HTML, and the content, summary and HTML of its blocks. *)
Definition clear_message (m : Message) : Prop :=
  clear_of_patterns (str_or_empty (m_content m)) /\
  clear_of_patterns (m_html m) /\
  Forall (fun b => clear_of_patterns (b_content b) /\ clear_of_patterns (b_summary b) /\
                   clear_of_patterns (b_html b) /\ clear_of_patterns (b_richHtml b))
         (m_thinkingBlocks m).

(** One of the five patterns of the redaction matches in [s]. *)
Definition redaction_applies (s : string) : bool :=
  Regex.test Regex.icase Redact.email_re s
  || Regex.test Regex.plain Redact.phone_re s
  || Regex.test Regex.plain Redact.token_re s
  || Regex.test Regex.icase Redact.credential_re s
  || Regex.test Regex.icase Redact.file_re s.

(** [n || computed]: the incoming count when it is not zero. *)
Definition kept_count (incoming computed : nat) : nat :=
  if (incoming =? 0)%nat then computed else incoming.

End Props.

(** ** Sample documents *)

Module Examples.
Import Scope.

Definition base_metadata : Metadata :=
  {| md_platform := "claude";
     md_url := "https://claude.ai/chat/fixture";
     md_title := "Fixture";
     md_rawDocumentTitle := "Fixture - Claude";
     md_exportDate := "2026-01-01T00:00:00.000Z";
     md_exporterVersion := "1.0.0";
     md_userAgent := "fixture";
     md_messageCount := 0;
     md_thinkingBlockCount := 0;
     md_hasThinkingBlocks := false;
     md_referenceCount := 0;
     md_linkCount := 0;
     md_attachmentCount := 0;
     md_citationCount := 0;
     md_totalWordCount := 0;
     md_totalCharacterCount := 0;
     md_userMessageCount := 0;
     md_assistantMessageCount := 0;
     md_referenceIndex := None;
     md_blockTypeBreakdown := [];
     md_uploadedDocuments := [];
     md_uploadedDocumentCount := 0;
     md_scope := None;
     md_conversationSummary := None;
     md_constructed := [];
     md_processed := [];
     md_processed_late := [] |}.

(** A message as [extractMessage] builds it, with given counts. *)
Definition message (id author content : string) (words characters : nat)
    (blocks : list Block) (refs : option ReferenceSet) : Message :=
  {| m_id := id;
     m_author := author;
     m_content := Some content;
     m_html := "";
     m_timestamp := "2026-01-01T00:00:00.000Z";
     m_wordCount := words;
     m_characterCount := characters;
     m_thinkingBlocks := blocks;
     m_references := refs |}.

Definition block (id type summary content : string) : Block :=
  {| b_id := id;
     b_type := type;
     b_summary := summary;
     b_content := content;
     b_wordCount := 0;
     b_characterCount := 0;
     b_html := "";
     b_richHtml := "";
     b_structuredData := None;
     b_references := None;
     b_expanded := Some true |}.

Definition document (msgs : list Message) (blocks : list Block) : Document :=
  {| metadata := base_metadata;
     messages := msgs;
     thinkingBlocks := blocks;
     rawHtml := Some (mkRawHtml None None) |}.

Definition options (redact : bool) (scope : string) (from to : jsvalue)
  : ExportOptions :=
  {| includeThinking := true;
     includeMetadata := true;
     includeHtml := true;
     redactSensitive := redact;
     scope := scope;
     scopeStart := from;
     scopeEnd := to |}.

(** *** A two-message conversation with a reasoning block *)

Definition thinking_block : Block :=
  block "thinking_0" "thinking" "Thought for 4s" "  Let me think about this carefully ".

Definition conversation : Document :=
  document
    [message "msg_0" "user" " Explain recursion " 4 19 [] None;
     message "" "assistant" "Recursion is a function calling itself." 0 0
             [thinking_block; thinking_block] None]
    [thinking_block].

(** *** A block whose content did not fall back to its summary *)

Definition bare_summary_blocks : Document :=
  document [message "msg_0" "user" "hi" 1 2 [] None]
           [block "" "thinking" "Plan" ""; block "" "thinking" "Plan" "Plan"].

(** *** Two colliding blocks of different types *)

Definition as_thinking : Block := block "a" "thinking" "Ran tests" "npm test passed".
Definition as_tool_call : Block := block "b" "tool_call" "Ran tests" "npm test passed".

Definition colliding : Document :=
  document [message "msg_0" "assistant" "Done." 1 5 [] None]
           [as_thinking; as_tool_call].

Fixpoint repeat_string (s : string) (n : nat) : string :=
  match n with
  | O => ""
  | S n' => s ++ repeat_string s n'
  end.

(** Two contents that agree on their first 550 characters only. *)
Definition long_a : Block := block "a" "thinking" "Step" (repeat_string "x" 550 ++ "A").
Definition long_b : Block := block "b" "tool_call" "Step" (repeat_string "x" 550 ++ "B").

Definition long_prefix : Document :=
  document [message "msg_0" "assistant" "Done." 1 5 [] None] [long_a; long_b].

(** *** Counts carried over from extraction *)

Definition wrong_counts : Document :=
  document [message "msg_0" "user" "hello world" 7 99 [] None] [].

(** *** Nothing left after filtering *)

Definition only_blank : Document :=
  document
    [message "msg_0" "user" "   " 1 3 [] None;
     {| m_id := "msg_1"; m_author := "assistant"; m_content := None; m_html := "";
        m_timestamp := ""; m_wordCount := 0; m_characterCount := 0;
        m_thinkingBlocks := [block "" "" "" " Searching "]; m_references := None |}]
    [block "" "tool_call" "Ran ls" "Ran ls"; block "t" "" "" " Searching "].

(** *** Six messages with references *)

Definition link (url title : string) : Link := mkLink url title "example.com".

Definition refs_of (ls : list Link) (files : list FileRef) : option ReferenceSet :=
  Some (mkRefs ls files [] []).

Definition report : FileRef := mkFileRef "report.pdf" None "pdf" None.

Definition six_messages : Document :=
  document
    [message "msg_0" "user" "one" 1 3 [] (refs_of [link "https://example.com/a" "A"] []);
     message "msg_1" "assistant" "two" 1 3 [thinking_block]
             (refs_of [link "https://example.com/b" "B"] []);
     message "msg_2" "user" "three" 1 5 [] (refs_of [link "https://example.com/b" "B"] [report]);
     message "msg_3" "assistant" "four" 1 4 [] None;
     message "msg_4" "user" "five" 1 4 [] (refs_of [link "https://example.com/e" "E"] []);
     message "msg_5" "assistant" "six" 1 3 [] (refs_of [link "https://example.com/f" "F"] [])]
    [thinking_block].

(** The six messages with the metadata that the extractor's
    [postProcess] writes for them. *)
Definition six_processed : Document :=
  fst (Extractor.postProcess (fun _ => None) (fun _ => "") six_messages).

Definition range_2_4 : ExportOptions := options false "range" (VNumber 2) (VNumber 4).
Definition range_4_2 : ExportOptions := options false "range" (VNumber 4) (VNumber 2).

(** *** Sensitive content *)

Definition email : string := "a@b.co".
Definition phone : string := "555-123-4567".
Definition token : string := "sk-ABCDEFGHIJKL".

Definition credential_line : Document :=
  document [message "msg_0" "user" ("token:" ++ email ++ "," ++ phone ++ "," ++ token)
                    1 41 [] None] [].

Definition contact_line : Document :=
  document [message "msg_0" "user"
                    ("Mail " ++ email ++ " or call " ++ phone ++ ", key " ++ token ++ ".")
                    8 53 [] None] [].

(** The token stands after an underscore. *)
Definition underscore_line : Document :=
  document [message "msg_0" "user"
                    ("key_" ++ token ++ " mail " ++ email ++ " call " ++ phone)
                    5 49 [] None] [].

(** The contact line with the metadata that the extractor's
    [postProcess] writes for it. *)
Definition contact_processed : Document :=
  fst (Extractor.postProcess (fun _ => None) (fun _ => "") contact_line).

Definition redacting : ExportOptions := options true "all" VUndefined VUndefined.

(** The origin of the only URL shape the fixtures use. *)
Definition fixture_origin (url : string) : option string :=
  if Js.startsWith url "https://example.com/" then Some "https://example.com" else None.

(** *** The web-search scenario *)

Definition searched : string :=
  "Searched the web" ++ Regex.nl ++ "3 results" ++ Regex.nl
  ++ "github.com" ++ Regex.nl ++ "stackoverflow.com".

(** *** Reference sets *)

Definition refs_a : ReferenceSet :=
  mkRefs [link "https://example.com/a" "A"; link "https://example.com/b" "B"]
         [report] [] [mkCitation "Source 1" None].

Definition refs_b : ReferenceSet :=
  mkRefs [link "https://example.com/b" "B"; link "https://example.com/c" "C"]
         [] [report] [mkCitation "Source 1" None; mkCitation "Source 2" None].

Definition refs_c : ReferenceSet :=
  mkRefs [link "https://example.com/a" "A"; link "https://example.com/d" "D"]
         [report] [] [].

End Examples.

(** ** Vocabulary of the further statements *)

Module Terms.

(** The type a block counts under: its own, or [thinking]. *)
Definition counted_type (b : Block) : string := Js.or_else (b_type b) "thinking".

(** The blocks of [blocks] that count under [type]. *)
Definition typed (type : string) (blocks : list Block) : list Block :=
  filter (fun b => String.eqb (counted_type b) type = true) blocks.

Definition sum_counts (table : list (string * nat)) : nat :=
  fold_right (fun kv total => (snd kv + total)%nat) 0%nat table.

(** No entry of [l] has the signature of the entry before it; [prev] is
    the signature before the first. *)
Fixpoint no_repeat {A : Type} (sig : A -> string) (prev : option string) (l : list A)
  : Prop :=
  match l with
  | [] => True
  | x :: rest => Some (sig x) <> prev /\ no_repeat sig (Some (sig x)) rest
  end.

(** Every entry of [l] beside the entry just before it in [l]; the
    first has none. *)
Definition with_previous {A : Type} (l : list A) : list (option A * A) :=
  zip (None :: map Some l) l.

(** The entry of a pair does not have the signature of the entry before
    it. *)
Definition changes {A : Type} (sig : A -> string) (pair : option A * A) : bool :=
  match fst pair with
  | Some previous => negb (String.eqb (sig previous) (sig (snd pair)))
  | None => true
  end.

(** The nodes that one message contributes edges to: itself, its blocks,
    links, documents and attachments. *)
Definition edges_of_message (m : Message) : nat :=
  1 + length (m_thinkingBlocks m)
  + length (links (Refs.normalizeReferenceSet (m_references m)))
  + length (documents (Refs.normalizeReferenceSet (m_references m)))
  + length (attachments (Refs.normalizeReferenceSet (m_references m))).

(** A graph without dangling edges and without two nodes of the same
    identifier. *)
Definition well_formed_graph (g : Graph.graph) : Prop :=
  NoDup (map Graph.n_id (fst g)) /\
  forall e, e ∈ snd g ->
    Graph.e_from e ∈ map Graph.n_id (fst g) /\ Graph.e_to e ∈ map Graph.n_id (fst g).

(** The message without its blocks, and the document without any block. *)
Definition strip_message (m : Message) : Message :=
  {| m_id := m_id m;
     m_author := m_author m;
     m_content := m_content m;
     m_html := m_html m;
     m_timestamp := m_timestamp m;
     m_wordCount := m_wordCount m;
     m_characterCount := m_characterCount m;
     m_thinkingBlocks := [];
     m_references := m_references m |}.

Definition without_blocks (d : Document) : Document :=
  {| metadata := metadata d;
     messages := map strip_message (messages d);
     thinkingBlocks := [];
     rawHtml := rawHtml d |}.

(** The signature under which [dedupeThinkingBlocks] has stored a block:
    the first 500 characters of its content. *)
Definition stored_signature {V : Type} (t : ChatGPT.Trace V) : string :=
  Js.slice0 500 (str_or_empty (ChatGPT.t_content t)).

(** The table [acc] counts the blocks [seen]. *)
Definition counts_of (acc : list (string * nat)) (seen : list Block) : Prop :=
  NoDup (map fst acc) /\
  (forall t, Table.own t acc =
     match length (typed t seen) with 0 => None | n => Some n end) /\
  sum_counts acc = length seen.

(** The six types that the breakdown text lists. *)
Definition known_types : list string := map fst Formats.breakdown_labels.

(** What a step of the graph construction keeps: the graph is well
    formed, the identifiers already there stay, the first node stays,
    and [added] edges and at most as many nodes are added. *)
Definition grows (g g' : Graph.graph) (added : nat) : Prop :=
  well_formed_graph g' /\
  (forall id, id ∈ map Graph.n_id (fst g) -> id ∈ map Graph.n_id (fst g')) /\
  (fst g <> [] -> head (fst g') = head (fst g)) /\
  length (snd g') = length (snd g) + added /\
  length (fst g') <= length (fst g) + added.

(** What the loop of [dedupeThinkingBlocks] keeps true of [deduped] and
    [seen] after the blocks [processed]. *)
Record trace_invariant {V : Type} (acc : list (ChatGPT.Trace V) * gmap string nat)
    (processed : list (ChatGPT.Trace V)) : Prop := {
  seen_points : forall s i, snd acc !! s = Some i ->
                  exists t, fst acc !! i = Some t /\ stored_signature t = s;
  stored_seen : forall i t, fst acc !! i = Some t -> snd acc !! stored_signature t = Some i;
  stored_origin : forall t, t ∈ fst acc ->
                    exists b, b ∈ processed
                              /\ ChatGPT.contentSignature b = stored_signature t
                              /\ ChatGPT.t_type t = Some (ChatGPT.trace_type b)
                              /\ ChatGPT.t_content t = Some (ChatGPT.normalized_content b)
                              /\ stored_signature t <> "";
  processed_kept : forall b, b ∈ processed -> ChatGPT.contentSignature b <> "" ->
                     exists i t, snd acc !! ChatGPT.contentSignature b = Some i
                                 /\ fst acc !! i = Some t
                                 /\ ChatGPT.priority (ChatGPT.trace_type b)
                                    <= ChatGPT.priority (str_or_empty (ChatGPT.t_type t));
  no_longer : length (fst acc) <= length processed
}.

(** The longest prefix of [l] whose characters satisfy [p], and what
    follows it. *)
Fixpoint run_of (p : ascii -> bool) (l : list ascii) : list ascii :=
  match l with
  | c :: t => if p c then c :: run_of p t else []
  | [] => []
  end.

Fixpoint rest_of (p : ascii -> bool) (l : list ascii) : list ascii :=
  match l with
  | c :: t => if p c then rest_of p t else l
  | [] => []
  end.

(** [l] with every run of characters that satisfy [p] replaced by
    [rep]; [in_run] says that the character before [l] was one. *)
Fixpoint squeeze (p : ascii -> bool) (rep : list ascii) (in_run : bool)
    (l : list ascii) : list ascii :=
  match l with
  | [] => []
  | c :: t =>
      if p c then ((if in_run then [] else rep) ++ squeeze p rep true t)%list
      else c :: squeeze p rep false t
  end.

(** [l] without the characters at its end that satisfy [p], and those
    characters. *)
Fixpoint strip_tail (p : ascii -> bool) (l : list ascii) : list ascii :=
  match l with
  | [] => []
  | c :: t => if forallb p l then [] else c :: strip_tail p t
  end.

Fixpoint tail_run (p : ascii -> bool) (l : list ascii) : list ascii :=
  match l with
  | [] => []
  | c :: t => if forallb p l then l else tail_run p t
  end.

(** No two neighbours in [l] both satisfy [p]. *)
Fixpoint no_adjacent (p : ascii -> bool) (l : list ascii) : Prop :=
  match l with
  | [] => True
  | c :: t =>
      match t with
      | [] => True
      | c' :: _ => (p c = true -> p c' = false) /\ no_adjacent p t
      end
  end.

Definition first_char (s : string) : option ascii :=
  match s with
  | EmptyString => None
  | String c _ => Some c
  end.

Fixpoint last_char (s : string) : option ascii :=
  match s with
  | EmptyString => None
  | String c t =>
      match last_char t with
      | Some x => Some x
      | None => Some c
      end
  end.

(** A character of [[a-zA-Z0-9._-]], and one of [[-_.]]. *)
Definition safe_char (c : ascii) : bool := Regex.cs_test false Filenames.safe c.
Definition edge_char (c : ascii) : bool := Regex.cs_test false Filenames.edge c.

(** A file-name base as [sanitizeFilenameBase] leaves it: safe characters
    only, no dash, underscore or dot at either end, no two dashes in a
    row. *)
Definition clean_base (s : string) : Prop :=
  Forall (fun c => safe_char c = true) (Regex.chars s) /\
  (forall c, first_char s = Some c -> edge_char c = false) /\
  (forall c, last_char s = Some c -> edge_char c = false) /\
  Js.includes s "--" = false.

(** The part of [s] before the first [c]. *)
Fixpoint before_char (c : ascii) (s : string) : string :=
  match s with
  | EmptyString => EmptyString
  | String x t => if Ascii.eqb c x then EmptyString else String x (before_char c t)
  end.

(** The double quote. *)
Definition is_quote (c : ascii) : bool := Ascii.eqb (ascii_of_nat 34) c.

(** [l] with every character that satisfies [p] replaced by [rep]. *)
Definition replace_each (p : ascii -> bool) (rep : list ascii) (l : list ascii)
  : list ascii :=
  flat_map (fun c => if p c then rep else [c]) l.

(** Letters and digits, as the class [[a-z0-9]] reads them with the [i]
    flag and without it. *)
Definition alnum_char (c : ascii) : bool :=
  Regex.cs_test true (Regex.cunion [Regex.az; Regex.d09]) c.
Definition lower_alnum_char (c : ascii) : bool :=
  Regex.cs_test false (Regex.cunion [Regex.az; Regex.d09]) c.

(** The characters after the first dot of [l] that letters and digits,
    and at least one, follow to the end. *)
Fixpoint extension_of (l : list ascii) : option (list ascii) :=
  match l with
  | [] => None
  | c :: t =>
      if Ascii.eqb "." c && (forallb alnum_char t && (1 <=? length t)%nat)
      then Some t
      else extension_of t
  end.

End Terms.

(** ** Further samples *)

Module Samples.

(** Two traces with the same content, one classified [thinking] and one
    [tool_call]. *)
Definition reasoning_trace : ChatGPT.Trace string :=
  ChatGPT.mkTrace (Some "thinking") (Some "Ran tests") (Some "npm test passed")
                  {["id" := "chatgpt_trace_0"]}.

Definition tool_trace : ChatGPT.Trace string :=
  ChatGPT.mkTrace (Some "tool_call") (Some "Ran tests") (Some "npm test passed")
                  {["id" := "chatgpt_trace_1"]}.

End Samples.

(** ** What a pattern matches

    A declarative reading of the patterns that have no [^] and [$]: the
    words a pattern matches between a character before and a character
    after, of which only whether they are word characters matters (for
    [\b]). The matcher is related to it in [MatcherFacts]. *)

Module Denotation.
Import Regex.
Local Open Scope list_scope.

(** Whether the first character of [w], or else the character after it,
    is a word character. *)
Definition first_word (w : list ascii) (rw : bool) : bool :=
  match w with
  | c :: _ => Js.is_word c
  | [] => rw
  end.

(** Whether the last character of [w], or else the character before it,
    is a word character. *)
Definition last_word (lw : bool) (w : list ascii) : bool :=
  match rev w with
  | c :: _ => Js.is_word c
  | [] => lw
  end.

(** Iterations of a body [D]: [lo] are due, [hi] bounds them, and an
    iteration that is not due matches a character at least. *)
Inductive Iter (D : bool -> list ascii -> bool -> Prop)
  : nat -> option nat -> bool -> list ascii -> bool -> Prop :=
| iter_stop (lo : nat) (hi : option nat) (lw rw : bool) :
    lo = 0%nat \/ hi = Some 0%nat -> Iter D lo hi lw [] rw
| iter_step (lo : nat) (hi : option nat) (lw rw : bool) (w1 w2 : list ascii) :
    hi <> Some 0%nat ->
    (lo = 0%nat -> w1 <> []) ->
    D lw w1 (first_word w2 rw) ->
    Iter D (Nat.pred lo) (pred_hi hi) (last_word lw w1) w2 rw ->
    Iter D lo hi lw (w1 ++ w2) rw.

(** [den ic r lw w rw]: the pattern [r] matches the word [w] after a
    word character ([lw]) or not, and before one ([rw]) or not. *)
Fixpoint den (ic : bool) (r : re) : bool -> list ascii -> bool -> Prop :=
  match r with
  | Eps => fun _ w _ => w = []
  | Cls a => fun _ w _ => exists c, w = [c] /\ cs_test ic a c = true
  | Seq r1 r2 => fun lw w rw =>
      exists w1 w2, w = w1 ++ w2 /\
        den ic r1 lw w1 (first_word w2 rw) /\ den ic r2 (last_word lw w1) w2 rw
  | Alt r1 r2 => fun lw w rw => den ic r1 lw w rw \/ den ic r2 lw w rw
  | Rep lo hi _ r0 => Iter (den ic r0) lo hi
  | Group _ r0 => den ic r0
  | WordB => fun lw w rw => w = [] /\ xorb lw rw = true
  | Bol | Eol => fun _ _ _ => False
  end.

(** [r] is matched somewhere in [text], which follows a word character
    ([lw]) or not. *)
Definition occurs (ic : bool) (r : re) (lw : bool) (text : list ascii) : Prop :=
  exists a w b : list ascii, text = a ++ w ++ b /\ den ic r (last_word lw a) w (first_word b false).

Fixpoint anchor_free (r : re) : bool :=
  match r with
  | Seq r1 r2 | Alt r1 r2 => anchor_free r1 && anchor_free r2
  | Rep _ _ _ r0 | Group _ r0 => anchor_free r0
  | Bol | Eol => false
  | _ => true
  end.

(** The pattern may match the empty word. *)
Fixpoint can_be_empty (r : re) : bool :=
  match r with
  | Cls _ => false
  | Seq r1 r2 => can_be_empty r1 && can_be_empty r2
  | Alt r1 r2 => can_be_empty r1 || can_be_empty r2
  | Rep lo hi _ r0 => (lo =? 0)%nat || hi_is_zero hi || can_be_empty r0
  | Group _ r0 => can_be_empty r0
  | _ => true
  end.

(** Some class of the pattern has the character. *)
Fixpoint accepts (ic : bool) (r : re) (c : ascii) : bool :=
  match r with
  | Cls a => cs_test ic a c
  | Seq r1 r2 | Alt r1 r2 => accepts ic r1 c || accepts ic r2 c
  | Rep _ _ _ r0 | Group _ r0 => accepts ic r0 c
  | _ => false
  end.

(** The pattern opens with [\b]. *)
Definition starts_boundary (r : re) : bool :=
  match r with
  | Seq WordB _ => true
  | _ => false
  end.

(** The pattern closes with [\b]. *)
Fixpoint ends_boundary (r : re) : bool :=
  match r with
  | WordB => true
  | Seq _ r2 => ends_boundary r2
  | _ => false
  end.

Definition bracket (c : ascii) : bool := Ascii.eqb c "[" || Ascii.eqb c "]".

(** A marker: text in square brackets. *)
Definition bracketed (h : list ascii) : Prop :=
  exists inner, h = "["%char :: inner ++ ["]"%char].

(** [result] is [text] with some pieces replaced by markers. A replaced
    piece [q] is not empty, starts at a word boundary, and does not end
    in a word character before a word character; [Free] holds of every
    stretch that is kept, with what is before and after it. *)
Inductive Redacted (Free : bool -> list ascii -> list ascii -> Prop)
    (Marker : list ascii -> Prop) : bool -> list ascii -> list ascii -> Prop :=
| red_keep (lw : bool) (text : list ascii) :
    Free lw text [] -> Redacted Free Marker lw text text
| red_hit (lw : bool) (s q rest h result : list ascii) :
    Free lw s (q ++ rest) ->
    q <> [] ->
    Marker h ->
    xorb (last_word lw s) (first_word q false) = true ->
    (first_word rest false = true -> last_word false q = false) ->
    Redacted Free Marker (last_word lw (s ++ q)) rest result ->
    Redacted Free Marker lw (s ++ q ++ rest) (s ++ h ++ result).

(** No match of [r] lies within the stretch. *)
Definition free_of (ic : bool) (r : re) (lw : bool) (s fol : list ascii) : Prop :=
  forall a w b, s = a ++ w ++ b ->
    ~ den ic r (last_word lw a) w (first_word (b ++ fol) false).

Definition unconstrained (lw : bool) (s fol : list ascii) : Prop := True.

(** [r] is matched within a stretch of [text] that [Free] holds of. *)
Definition within_kept (ic : bool) (r : re)
    (Free : bool -> list ascii -> list ascii -> Prop)
    (lw : bool) (text : list ascii) : Prop :=
  exists pre s fol a w b : list ascii,
    text = pre ++ s ++ fol /\ Free (last_word lw pre) s fol /\ s = a ++ w ++ b /\
    den ic r (last_word (last_word lw pre) a) w (first_word (b ++ fol) false).

(** What is before a text and before its redaction agree, unless a
    marker is before the redaction; the text then does not follow a word
    character with a word character. *)
Definition same_side (lw lw' : bool) (text : list ascii) : Prop :=
  lw' = lw \/ (lw' = false /\ (first_word text false = true -> lw = false)).

End Denotation.

#[local] Set Warnings "-clear-no-such-hyp".

(** * Properties *)

(** ** Facts about strings *)

Module JsFacts.
Import Js Props.

Lemma is_empty_true (s : string) : is_empty s = true <-> s = "".
Proof. destruct s; simpl; split; congruence. Qed.

Lemma is_empty_false (s : string) : is_empty s = false <-> s <> "".
Proof. destruct s; simpl; split; congruence. Qed.

Lemma is_empty_app (a b : string) :
  is_empty (a ++ b) = is_empty a && is_empty b.
Proof. destruct a; reflexivity. Qed.

Lemma or_else_nonempty (s d : string) : d <> "" -> or_else s d <> "".
Proof. unfold or_else. destruct s; simpl; [auto|discriminate]. Qed.

Lemma or_else_idem (s d e : string) : d <> "" -> or_else (or_else s d) e = or_else s d.
Proof.
  intros Hd. unfold or_else at 1.
  destruct (is_empty (or_else s d)) eqn:E; [|reflexivity].
  apply is_empty_true in E. now apply or_else_nonempty in E.
Qed.

Lemma or_num_idem (n d e : nat) : or_num (or_num n d) d = or_num n d.
Proof.
  unfold or_num. destruct (n =? 0)%nat eqn:E.
  - destruct (d =? 0)%nat; reflexivity.
  - now rewrite E.
Qed.

Lemma or_num_zero (n : nat) : or_num n 0 = n.
Proof. unfold or_num. destruct (n =? 0)%nat eqn:E; [apply Nat.eqb_eq in E|]; congruence. Qed.

Lemma trimStart_clean (s : string) : clean_start (trimStart s).
Proof.
  induction s as [|c t IH]; simpl; [exact I|].
  destruct (is_space c) eqn:E; [exact IH|exact E].
Qed.

Lemma trimStart_fixed (s : string) : clean_start s -> trimStart s = s.
Proof. destruct s as [|c t]; simpl; [reflexivity|]. now intros ->. Qed.

Lemma trimEnd_clean (s : string) : clean_start s -> clean_start (trimEnd s).
Proof.
  destruct s as [|c t]; simpl; [exact id|]. intros E. rewrite E. simpl. exact E.
Qed.

Lemma trimEnd_idem (s : string) : trimEnd (trimEnd s) = trimEnd s.
Proof.
  induction s as [|c t IH]; simpl; [reflexivity|].
  destruct (is_space c && is_empty (trimEnd t)) eqn:E; simpl; [reflexivity|].
  now rewrite IH, E.
Qed.

Lemma trim_idem (s : string) : trim (trim s) = trim s.
Proof.
  unfold trim.
  rewrite (trimStart_fixed (trimEnd (trimStart s))).
  - apply trimEnd_idem.
  - apply trimEnd_clean, trimStart_clean.
Qed.

Lemma of_nat_nonempty (n : nat) : of_nat n <> "".
Proof.
  unfold of_nat, NilZero.string_of_uint.
  destruct (Nat.to_uint n) eqn:E; simpl; discriminate.
Qed.

Lemma app_nonempty_l (a b : string) : a <> "" -> (a ++ b) <> "".
Proof. destruct a; simpl; [congruence|discriminate]. Qed.

End JsFacts.

(** ** Signature-based deduplication *)

Module RefsFacts.
Import Refs.
Local Open Scope list_scope.

Section Dedupe.

Context {A : Type} (sig : A -> string).

#[local] Abbreviation sigset := (Props.sigset sig).

Lemma sigset_cons (x : A) (l : list A) :
  sigset (x :: l) = (if Js.is_empty (sig x) then ∅ else {[sig x]}) ∪ sigset l.
Proof.
  unfold Props.sigset. simpl. rewrite filter_cons.
  destruct (Js.is_empty (sig x)) eqn:E.
  - apply JsFacts.is_empty_true in E. rewrite decide_False by (now intros []).
    set_solver.
  - apply JsFacts.is_empty_false in E. rewrite decide_True by assumption.
    set_solver.
Qed.

Lemma elem_of_sigset (s : string) (l : list A) :
  s ∈ sigset l <-> s <> "" /\ exists x, x ∈ l /\ sig x = s.
Proof.
  unfold Props.sigset. rewrite elem_of_list_to_set, list_elem_of_filter, list_elem_of_fmap.
  split.
  - intros [H [x [-> Hx]]]. eauto.
  - intros [H [x [Hx <-]]]. eauto.
Qed.

Lemma dedupe_from_app (seen : gset string) (l1 l2 : list A) :
  dedupe_from sig seen (l1 ++ l2) =
  dedupe_from sig seen l1 ++ dedupe_from sig (seen ∪ sigset l1) l2.
Proof.
  revert seen. induction l1 as [|x l1 IH]; intros seen.
  - simpl. f_equal. unfold sigset. simpl. set_solver.
  - rewrite sigset_cons. simpl.
    destruct (Js.is_empty (sig x)) eqn:E; simpl.
    + rewrite IH. do 2 f_equal. set_solver.
    + case_bool_decide as Hin.
      * rewrite IH. do 2 f_equal. set_solver.
      * simpl. rewrite IH. do 3 f_equal. set_solver.
Qed.

(** Deduplicating again with a larger [seen] set gives what the larger
    set alone gives. *)
Lemma dedupe_from_absorb (seen' seen : gset string) (l : list A) :
  seen' ⊆ seen ->
  dedupe_from sig seen (dedupe_from sig seen' l) = dedupe_from sig seen l.
Proof.
  revert seen' seen. induction l as [|x l IH]; intros seen' seen Hsub; [reflexivity|].
  simpl. destruct (Js.is_empty (sig x)) eqn:E; simpl.
  - now apply IH.
  - case_bool_decide as Hin'.
    + rewrite bool_decide_eq_true_2 by set_solver. now apply IH.
    + simpl. rewrite E. simpl.
      case_bool_decide as Hin.
      * apply IH. set_solver.
      * f_equal. apply IH. set_solver.
Qed.

Lemma dedupe_from_idem (seen : gset string) (l : list A) :
  dedupe_from sig seen (dedupe_from sig seen l) = dedupe_from sig seen l.
Proof. now apply dedupe_from_absorb. Qed.

Lemma sigset_dedupe_from (seen : gset string) (l : list A) :
  seen ∪ sigset (dedupe_from sig seen l) = seen ∪ sigset l.
Proof.
  revert seen. induction l as [|x l IH]; intros seen; [reflexivity|].
  simpl. destruct (Js.is_empty (sig x)) eqn:E; simpl.
  - rewrite IH, sigset_cons, E. set_solver.
  - case_bool_decide as Hin.
    + rewrite IH, sigset_cons, E. set_solver.
    + rewrite !sigset_cons, E.
      specialize (IH ({[sig x]} ∪ seen)). set_solver.
Qed.

Lemma dedupe_from_seen (seen : gset string) (l : list A) :
  (forall x, x ∈ l -> sig x = "" \/ sig x ∈ seen) ->
  dedupe_from sig seen l = [].
Proof.
  induction l as [|x l IH]; intros H; [reflexivity|].
  simpl. destruct (H x) as [E|E]; [left| |].
  - rewrite E. simpl. apply IH. intros y Hy. apply H. now right.
  - rewrite bool_decide_eq_true_2 by assumption. rewrite orb_true_r.
    apply IH. intros y Hy. apply H. now right.
Qed.

(** A list without repeated or empty signatures is left as it is. *)
Lemma dedupe_from_fixed (seen : gset string) (l : list A) :
  NoDup (map sig l) ->
  (forall x, x ∈ l -> sig x <> "" /\ sig x ∉ seen) ->
  dedupe_from sig seen l = l.
Proof.
  revert seen. induction l as [|x l IH]; intros seen Hnd H; [reflexivity|].
  simpl in *. apply NoDup_cons in Hnd as [Hx Hnd].
  destruct (H x) as [Hne Hns]; [left|].
  apply JsFacts.is_empty_false in Hne. rewrite Hne. simpl.
  rewrite bool_decide_eq_false_2 by assumption. f_equal.
  apply IH; [assumption|]. intros y Hy. destruct (H y) as [Hy1 Hy2]; [now right|].
  split; [assumption|].
  intros Hin. apply elem_of_union in Hin as [Hin|Hin]; [|contradiction].
  apply elem_of_singleton in Hin. apply Hx. rewrite <- Hin.
  apply list_elem_of_fmap. eauto.
Qed.

(** What is kept comes from the input, in the input's order. *)
Lemma dedupe_from_sublist (seen : gset string) (l : list A) :
  sublist (dedupe_from sig seen l) l.
Proof.
  revert seen. induction l as [|x l IH]; intros seen; simpl; [constructor|].
  destruct (Js.is_empty (sig x) || bool_decide (sig x ∈ seen)).
  - apply sublist_cons, IH.
  - apply sublist_skip, IH.
Qed.

(** No two kept items share a signature, and none was seen before. *)
Lemma dedupe_from_NoDup (seen : gset string) (l : list A) :
  NoDup (map sig (dedupe_from sig seen l)) /\
  (forall x, x ∈ dedupe_from sig seen l -> sig x <> "" /\ sig x ∉ seen).
Proof.
  revert seen. induction l as [|x l IH]; intros seen; simpl.
  - split; [constructor|]. intros x Hx. inversion Hx.
  - destruct (Js.is_empty (sig x)) eqn:E; simpl; [apply IH|].
    case_bool_decide as Hin; [apply IH|].
    destruct (IH ({[sig x]} ∪ seen)) as [Hnd Hall]. split.
    + simpl. apply NoDup_cons. split; [|assumption].
      intros Hx. apply list_elem_of_fmap in Hx as [y [Hy1 Hy2]].
      destruct (Hall y Hy2) as [_ Hns]. set_solver.
    + intros y Hy. apply elem_of_cons in Hy as [->|Hy].
      * split; [now apply JsFacts.is_empty_false|assumption].
      * destruct (Hall y Hy) as [H1 H2]. split; [assumption|set_solver].
Qed.

(** Every signature of the input that is not empty and was not seen is
    the signature of a kept item. *)
Lemma dedupe_from_complete (seen : gset string) (l : list A) (x : A) :
  x ∈ l -> sig x <> "" -> sig x ∉ seen ->
  exists y, y ∈ dedupe_from sig seen l /\ sig y = sig x.
Proof.
  intros Hx Hne Hns.
  assert (Hin : sig x ∈ seen ∪ sigset (dedupe_from sig seen l)).
  { rewrite sigset_dedupe_from. apply elem_of_union_r, elem_of_sigset. eauto. }
  apply elem_of_union in Hin as [Hin|Hin]; [contradiction|].
  apply elem_of_sigset in Hin as [_ [y [Hy1 Hy2]]]. eauto.
Qed.

(** On a list without repeated or empty signatures the pass is a filter. *)
Lemma dedupe_from_filter (seen : gset string) (l : list A) :
  NoDup (map sig l) ->
  (forall x, x ∈ l -> sig x <> "") ->
  dedupe_from sig seen l = filter (fun x => sig x ∉ seen) l.
Proof.
  revert seen. induction l as [|x l IH]; intros seen Hnd Hne; [reflexivity|].
  simpl in *. apply NoDup_cons in Hnd as [Hx Hnd].
  assert (E : Js.is_empty (sig x) = false).
  { apply JsFacts.is_empty_false, Hne. now left. }
  rewrite E, filter_cons. simpl.
  assert (Hrest : forall y, y ∈ l -> sig y <> "") by (intros y Hy; apply Hne; now right).
  case_bool_decide as Hin.
  - rewrite decide_False by tauto. now apply IH.
  - rewrite decide_True by assumption. f_equal.
    rewrite IH by assumption.
    clear IH Hnd Hne E Hrest. induction l as [|y l IHl]; [reflexivity|].
    rewrite !filter_cons.
    assert (Hxy : sig y <> sig x).
    { intros Heq. apply Hx. rewrite <- Heq. simpl. now left. }
    assert (Hx' : sig x ∉ map sig l) by (intros H'; apply Hx; now right).
    destruct (decide (sig y ∉ seen)) as [Hy|Hy].
    + rewrite decide_True by set_solver. f_equal. now apply IHl.
    + rewrite decide_False by set_solver. now apply IHl.
Qed.

End Dedupe.

(** *** Merging reference sets *)

Lemma bar_nonempty (a b : string) : (a ++ "|" ++ b)%string <> "".
Proof. destruct a; discriminate. Qed.

Lemma dedupe_first_occurrences {A : Type} (sig : A -> string) (all : list A) :
  (forall x, sig x <> "") ->
  Props.first_occurrences sig all (dedupeBySignature all sig).
Proof.
  intros Hne. unfold Props.first_occurrences, dedupeBySignature.
  split; [reflexivity|].
  split; [apply dedupe_from_sublist|].
  split; [apply dedupe_from_NoDup|].
  intros x Hx. apply dedupe_from_complete; [assumption|apply Hne|set_solver].
Qed.

Section Merge.

Context {A : Type} (sig : A -> string).

#[local] Abbreviation dd := (fun l => dedupeObjectsBySignature l sig).

Lemma dd_assoc (l1 l2 l3 : list A) :
  dd (dd (l1 ++ l2 ++ []) ++ l3 ++ []) = dd (l1 ++ dd (l2 ++ l3 ++ []) ++ []).
Proof.
  unfold dedupeObjectsBySignature. rewrite !app_nil_r.
  rewrite dedupe_from_app, dedupe_from_idem, sigset_dedupe_from, <- dedupe_from_app.
  rewrite (dedupe_from_app sig ∅ l1 (dedupe_from _ _ _)).
  rewrite dedupe_from_absorb by set_solver.
  rewrite <- dedupe_from_app. now rewrite app_assoc.
Qed.

Hypothesis sig_nonempty : forall x, sig x <> "".

Lemma dd_self (l : list A) :
  NoDup (map sig l) -> dd (l ++ l ++ []) = l.
Proof.
  intros Hnd. unfold dedupeObjectsBySignature. rewrite app_nil_r, dedupe_from_app.
  rewrite dedupe_from_fixed; [|assumption|].
  - rewrite dedupe_from_seen; [apply app_nil_r|].
    intros x Hx. right. apply elem_of_union_r, elem_of_sigset. eauto.
  - intros x _. split; [apply sig_nonempty|set_solver].
Qed.

Lemma dd_two (l1 l2 : list A) :
  NoDup (map sig l1) -> NoDup (map sig l2) ->
  dd (l1 ++ l2 ++ []) = l1 ++ Props.fresh_items sig l1 l2.
Proof.
  intros H1 H2. unfold dedupeObjectsBySignature. rewrite app_nil_r, dedupe_from_app.
  rewrite dedupe_from_fixed; [|assumption|].
  - f_equal. rewrite dedupe_from_filter by auto.
    unfold Props.fresh_items. apply list_filter_iff. intros x. set_solver.
  - intros x _. split; [apply sig_nonempty|set_solver].
Qed.

End Merge.

Lemma merge_assoc (a b c : ReferenceSet) :
  merge (merge a b) c = merge a (merge b c).
Proof.
  unfold merge, mergeReferences. simpl. f_equal; apply dd_assoc.
Qed.

Lemma merge_self (a : ReferenceSet) :
  Props.deduplicated a -> merge a a = a.
Proof.
  intros (Hl & Ha & Hd & Hc). destruct a as [ls ats ds cs]. simpl in *.
  unfold merge, mergeReferences. simpl.
  f_equal; apply dd_self; try assumption; intros x; apply bar_nonempty.
Qed.

Lemma merge_lists (a b : ReferenceSet) :
  Props.deduplicated a -> Props.deduplicated b ->
  merge a b =
  mkRefs (links a ++ Props.fresh_items link_signature (links a) (links b))
         (attachments a ++ Props.fresh_items file_signature (attachments a) (attachments b))
         (documents a ++ Props.fresh_items file_signature (documents a) (documents b))
         (citations a ++ Props.fresh_items citation_signature (citations a) (citations b)).
Proof.
  intros (Hl & Ha & Hd & Hc) (Hl' & Ha' & Hd' & Hc').
  unfold merge, mergeReferences. simpl.
  f_equal; apply dd_two; try assumption; intros x; apply bar_nonempty.
Qed.

End RefsFacts.

(** ** Normalization *)

Module NormalizeFacts.
Import Normalize Props.
Local Open Scope list_scope.

(** Both ways out of the method leave the same document. *)
Ltac either_way :=
  unfold normalize, normalizeAndValidateExportData;
  destruct (length _ =? 0)%nat; reflexivity.

Lemma messages_of_normalize (d : Document) :
  messages (normalize d) = normalize_messages 0 (messages d).
Proof. either_way. Qed.

Lemma blocks_of_normalize (d : Document) :
  thinkingBlocks (normalize d) = dedupe_aggregate ∅ 0 (aggregate_blocks d).
Proof. either_way. Qed.

Lemma metadata_of_normalize (d : Document) :
  metadata (normalize d) =
  normalized_metadata (metadata d) (normalize_messages 0 (messages d))
                      (dedupe_aggregate ∅ 0 (aggregate_blocks d)).
Proof. either_way. Qed.

Lemma rawHtml_of_normalize (d : Document) : rawHtml (normalize d) = rawHtml d.
Proof. either_way. Qed.

Lemma block_signature_nonempty (b : Block) : block_signature b <> "".
Proof. apply RefsFacts.bar_nonempty. Qed.

Lemma not_blank_text (b : Block) :
  block_is_blank b = false ->
  Js.or_else (Js.trim (b_content b)) (Js.trim (b_summary b)) <> "".
Proof.
  unfold block_is_blank, Js.or_else. intros H.
  destruct (Js.is_empty (Js.trim (b_content b))) eqn:E; simpl in H.
  - now apply JsFacts.is_empty_false.
  - now apply JsFacts.is_empty_false.
Qed.

Lemma trim_text (b : Block) :
  Js.trim (Js.or_else (Js.trim (b_content b)) (Js.trim (b_summary b))) =
  Js.or_else (Js.trim (b_content b)) (Js.trim (b_summary b)).
Proof. unfold Js.or_else. destruct (Js.is_empty _); apply JsFacts.trim_idem. Qed.

Lemma normalized_block_not_blank (i : nat) (b : Block) :
  block_is_blank b = false -> block_is_blank (normalized_block i b) = false.
Proof.
  intros H. unfold block_is_blank at 1. simpl. rewrite trim_text.
  apply not_blank_text, JsFacts.is_empty_false in H. now rewrite H.
Qed.

Lemma fallback_content (b : Block) :
  fallback_block b -> block_is_blank b = false ->
  Js.is_empty (Js.trim (b_content b)) = false.
Proof.
  unfold fallback_block, block_is_blank. intros Hf Hb.
  destruct (Js.is_empty (Js.trim (b_content b))) eqn:E; [|reflexivity].
  apply JsFacts.is_empty_true in E. rewrite (Hf E) in Hb. discriminate.
Qed.

Lemma normalized_block_signature (i : nat) (b : Block) :
  fallback_block b -> block_is_blank b = false ->
  block_signature (normalized_block i b) = block_signature b.
Proof.
  intros Hf Hb. unfold block_signature. simpl.
  rewrite JsFacts.trim_idem, trim_text.
  unfold Js.or_else. now rewrite (fallback_content b Hf Hb).
Qed.

Lemma normalized_block_fallback (i : nat) (b : Block) :
  block_is_blank b = false -> fallback_block (normalized_block i b).
Proof.
  intros Hb. unfold fallback_block. simpl. rewrite trim_text.
  intros H. now apply not_blank_text in Hb.
Qed.

Lemma normalized_block_idem (i j : nat) (b : Block) :
  block_is_blank b = false ->
  normalized_block j (normalized_block i b) = normalized_block i b.
Proof.
  intros Hb. unfold normalized_block at 1. simpl.
  rewrite JsFacts.trim_idem, trim_text.
  assert (Ht : Js.or_else
                 (Js.or_else (Js.trim (b_content b)) (Js.trim (b_summary b)))
                 (Js.trim (b_summary b))
               = Js.or_else (Js.trim (b_content b)) (Js.trim (b_summary b))).
  { unfold Js.or_else at 1. apply not_blank_text, JsFacts.is_empty_false in Hb.
    now rewrite Hb. }
  rewrite Ht. unfold normalized_block. f_equal.
  - apply JsFacts.or_else_idem, JsFacts.app_nonempty_l. discriminate.
  - apply JsFacts.or_else_idem. discriminate.
  - apply JsFacts.or_num_idem; exact 0.
  - apply JsFacts.or_num_idem; exact 0.
Qed.

Lemma block_sigset_cons (b : Block) (l : list Block) :
  block_sigset (b :: l) =
  (if block_is_blank b then ∅ else {[block_signature b]}) ∪ block_sigset l.
Proof.
  unfold block_sigset. rewrite filter_cons.
  destruct (block_is_blank b); simpl; set_solver.
Qed.

Lemma block_sigset_app (l1 l2 : list Block) :
  block_sigset (l1 ++ l2) = block_sigset l1 ∪ block_sigset l2.
Proof.
  induction l1 as [|b l1 IH]; simpl.
  - unfold block_sigset at 2. simpl. set_solver.
  - rewrite !block_sigset_cons, IH. set_solver.
Qed.

Lemma elem_of_block_sigset (s : string) (l : list Block) :
  s ∈ block_sigset l <->
  exists b, b ∈ l /\ block_is_blank b = false /\ block_signature b = s.
Proof.
  unfold block_sigset. rewrite elem_of_list_to_set, list_elem_of_fmap. split.
  - intros [b [-> Hb]]. apply list_elem_of_filter in Hb as [H1 H2]. eauto.
  - intros [b [H1 [H2 <-]]]. exists b. split; [reflexivity|].
    apply list_elem_of_filter. eauto.
Qed.

Lemma dedupe_aggregate_app (seen : gset string) (i : nat) (l1 l2 : list Block) :
  dedupe_aggregate seen i (l1 ++ l2) =
  dedupe_aggregate seen i l1
  ++ dedupe_aggregate (seen ∪ block_sigset l1) (i + length l1) l2.
Proof.
  revert seen i. induction l1 as [|b l1 IH]; intros seen i.
  - simpl. rewrite Nat.add_0_r. f_equal. unfold block_sigset. simpl. set_solver.
  - rewrite block_sigset_cons. simpl. replace (i + S (length l1)) with (S i + length l1) by lia.
    destruct (block_is_blank b) eqn:E.
    + rewrite IH. do 2 f_equal. set_solver.
    + case_bool_decide as Hin.
      * rewrite IH. do 2 f_equal. set_solver.
      * simpl. rewrite IH. do 3 f_equal. set_solver.
Qed.

(** A second pass over what a first pass kept changes nothing. *)
Lemma dedupe_aggregate_again (seen : gset string) (i j : nat) (l : list Block) :
  Forall fallback_block l ->
  dedupe_aggregate seen j (dedupe_aggregate seen i l) = dedupe_aggregate seen i l.
Proof.
  intros Hall. revert seen i j.
  induction Hall as [|b l Hb Hall IH]; intros seen i j; [reflexivity|].
  simpl. destruct (block_is_blank b) eqn:E; [apply IH|].
  case_bool_decide as Hin; [apply IH|].
  simpl. rewrite normalized_block_not_blank, normalized_block_signature by assumption.
  rewrite bool_decide_eq_false_2 by assumption.
  now rewrite normalized_block_idem, IH.
Qed.

Lemma block_sigset_dedupe (seen : gset string) (i : nat) (l : list Block) :
  Forall fallback_block l ->
  seen ∪ block_sigset (dedupe_aggregate seen i l) = seen ∪ block_sigset l.
Proof.
  intros Hall. revert seen i.
  induction Hall as [|b l Hb Hall IH]; intros seen i; [reflexivity|].
  simpl. rewrite (block_sigset_cons b l). destruct (block_is_blank b) eqn:E.
  - rewrite IH. set_solver.
  - case_bool_decide as Hin.
    + rewrite IH. set_solver.
    + rewrite block_sigset_cons, normalized_block_not_blank,
        normalized_block_signature by assumption.
      specialize (IH ({[block_signature b]} ∪ seen) (S i)). set_solver.
Qed.

Lemma dedupe_aggregate_seen (seen : gset string) (i : nat) (l : list Block) :
  (forall b, b ∈ l -> block_is_blank b = true \/ block_signature b ∈ seen) ->
  dedupe_aggregate seen i l = [].
Proof.
  revert i. induction l as [|b l IH]; intros i H; [reflexivity|].
  assert (Hrest : forall b', b' ∈ l -> block_is_blank b' = true \/ block_signature b' ∈ seen)
    by (intros b' Hb'; apply H; now right).
  simpl. destruct (H b) as [E|E]; [left| |].
  - rewrite E. now apply IH.
  - destruct (block_is_blank b); [now apply IH|].
    rewrite bool_decide_eq_true_2 by assumption. now apply IH.
Qed.

(** A block that collides with an earlier one is passed over whatever
    its fields are. *)
Lemma dedupe_aggregate_skip (seen : gset string) (i : nat) (b : Block) (l : list Block) :
  block_signature b ∈ seen ->
  dedupe_aggregate seen i (b :: l) = dedupe_aggregate seen (S i) l.
Proof.
  intros H. simpl. destruct (block_is_blank b); [reflexivity|].
  now rewrite bool_decide_eq_true_2.
Qed.

(** *** Blocks inside a message *)

Lemma dedupe_message_blocks_sublist (seen : gset string) (l : list Block) :
  sublist (dedupe_message_blocks seen l) l.
Proof.
  revert seen. induction l as [|b l IH]; intros seen; simpl; [constructor|].
  case_bool_decide; [apply sublist_cons|apply sublist_skip]; apply IH.
Qed.

Lemma dedupe_message_blocks_absorb (seen' seen : gset string) (l : list Block) :
  seen' ⊆ seen ->
  dedupe_message_blocks seen (dedupe_message_blocks seen' l) = dedupe_message_blocks seen l.
Proof.
  revert seen' seen. induction l as [|b l IH]; intros seen' seen Hsub; [reflexivity|].
  simpl. case_bool_decide as Hin'.
  - rewrite bool_decide_eq_true_2 by set_solver. now apply IH.
  - simpl. case_bool_decide as Hin.
    + apply IH. set_solver.
    + f_equal. apply IH. set_solver.
Qed.

Lemma filter_has_content_fixed (l : list Block) :
  Forall (fun b => has_content b = true) l ->
  filter (fun b => has_content b = true) l = l.
Proof.
  induction 1 as [|b l Hb _ IH]; [reflexivity|].
  rewrite filter_cons, decide_True by assumption. now f_equal.
Qed.

Lemma message_blocks_have_content (l : list Block) :
  Forall (fun b => has_content b = true)
         (dedupe_message_blocks ∅ (filter (fun b => has_content b = true) l)).
Proof.
  apply Forall_forall. intros b Hb.
  eapply elem_of_sublist in Hb; [|apply dedupe_message_blocks_sublist].
  now apply list_elem_of_filter in Hb as [Hb _].
Qed.

(** *** Messages *)

Lemma normalize_message_content (i : nat) (m m' : Message) (raw : string) :
  normalize_message i m raw = Some m' -> m_content m' = Some (Js.trim raw).
Proof.
  unfold normalize_message. destruct (_ && _); [discriminate|].
  intros [= <-]. reflexivity.
Qed.

Lemma normalize_message_blocks (i : nat) (m m' : Message) (raw : string) :
  normalize_message i m raw = Some m' ->
  m_thinkingBlocks m' =
  dedupe_message_blocks ∅ (filter (fun b => has_content b = true) (m_thinkingBlocks m)).
Proof.
  unfold normalize_message. destruct (_ && _); [discriminate|].
  intros [= <-]. reflexivity.
Qed.

Lemma normalize_message_fixed (i j : nat) (m m' : Message) (raw : string) :
  normalize_message i m raw = Some m' ->
  normalize_message j m' (Js.trim raw) = Some m'.
Proof.
  unfold normalize_message at 1.
  destruct (_ && _) eqn:E; [discriminate|]. intros [= <-].
  unfold normalize_message. simpl.
  rewrite JsFacts.trim_idem.
  rewrite filter_has_content_fixed by apply message_blocks_have_content.
  rewrite dedupe_message_blocks_absorb by reflexivity.
  rewrite E. f_equal. f_equal.
  - apply JsFacts.or_else_idem, JsFacts.app_nonempty_l. discriminate.
  - rewrite !JsFacts.or_num_zero. apply JsFacts.or_num_idem; exact 0.
  - rewrite !JsFacts.or_num_zero. apply JsFacts.or_num_idem; exact 0.
Qed.

Lemma normalize_messages_again (i j : nat) (l : list Message) :
  normalize_messages j (normalize_messages i l) = normalize_messages i l.
Proof.
  revert i j. induction l as [|m l IH]; intros i j; [reflexivity|].
  simpl. destruct (m_content m) as [raw|] eqn:Hc; [|apply IH].
  destruct (normalize_message i m raw) as [m'|] eqn:Hm; [|apply IH].
  simpl. rewrite (normalize_message_content _ _ _ _ Hm).
  rewrite (normalize_message_fixed i j m m' raw Hm). now rewrite IH.
Qed.

(** The blocks of the normalized messages are blocks of the input
    messages, and have content. *)
Lemma normalized_message_block (i : nat) (l : list Message) (b : Block) :
  b ∈ concat (map m_thinkingBlocks (normalize_messages i l)) ->
  b ∈ concat (map m_thinkingBlocks l) /\ has_content b = true.
Proof.
  revert i. induction l as [|m l IH]; intros i; simpl; [intros H; inversion H|].
  assert (Hright : forall k, b ∈ concat (map m_thinkingBlocks (normalize_messages k l)) ->
                        b ∈ m_thinkingBlocks m ++ concat (map m_thinkingBlocks l)
                        /\ has_content b = true).
  { intros k Hk. destruct (IH k Hk). split; [apply elem_of_app; now right|assumption]. }
  destruct (m_content m) as [raw|]; [|apply Hright].
  destruct (normalize_message i m raw) as [m'|] eqn:Hm; [|apply Hright].
  simpl. intros H. apply elem_of_app in H as [H|H]; [|now apply (Hright (S i))].
  rewrite (normalize_message_blocks _ _ _ _ Hm) in H.
  eapply elem_of_sublist in H; [|apply dedupe_message_blocks_sublist].
  apply list_elem_of_filter in H as [H1 H2].
  split; [apply elem_of_app; now left|assumption].
Qed.

Lemma has_content_not_blank (b : Block) :
  has_content b = true -> block_is_blank b = false.
Proof.
  unfold has_content, block_is_blank. intros H.
  apply negb_true_iff in H. now rewrite H.
Qed.

Lemma normalized_metadata_again (md : Metadata) (msgs : list Message) (blocks : list Block) :
  normalized_metadata (normalized_metadata md msgs blocks) msgs blocks =
  normalized_metadata md msgs blocks.
Proof.
  unfold normalized_metadata. simpl. f_equal.
  destruct (md_blockTypeBreakdown md) as [|kv kept].
  - now destruct (blockTypeBreakdown blocks).
  - reflexivity.
Qed.

(** The flat list of a normalized document is a fixed point of the
    aggregation and deduplication. *)
Lemma aggregate_again (d : Document) :
  extracted d ->
  dedupe_aggregate ∅ 0 (aggregate_blocks (normalize d)) =
  dedupe_aggregate ∅ 0 (aggregate_blocks d).
Proof.
  intros Hx. unfold aggregate_blocks at 1.
  rewrite blocks_of_normalize, messages_of_normalize.
  rewrite dedupe_aggregate_app, dedupe_aggregate_again by assumption.
  rewrite block_sigset_dedupe by assumption.
  rewrite (dedupe_aggregate_seen (∅ ∪ block_sigset (aggregate_blocks d)));
    [apply app_nil_r|].
  intros b Hb. apply normalized_message_block in Hb as [Hb Hc].
  right. apply elem_of_union_r, elem_of_block_sigset.
  exists b. split; [apply elem_of_app; now right|].
  split; [now apply has_content_not_blank|reflexivity].
Qed.

(** *** Which messages survive *)

Lemma dedupe_message_blocks_nil (l : list Block) :
  dedupe_message_blocks ∅ l = [] <-> l = [].
Proof.
  split; [|now intros ->]. destruct l as [|b l]; [reflexivity|].
  simpl. rewrite bool_decide_eq_false_2 by set_solver. discriminate.
Qed.

Lemma filter_has_content_nil (l : list Block) :
  filter (fun b => has_content b = true) l = [] <-> existsb has_content l = false.
Proof.
  induction l as [|b l IH]; simpl; [tauto|].
  rewrite filter_cons. destruct (has_content b) eqn:E; simpl.
  - split; discriminate.
  - exact IH.
Qed.

Lemma normalize_message_survives (i : nat) (m : Message) (raw : string) :
  m_content m = Some raw ->
  (exists m', normalize_message i m raw = Some m') <-> survives m = true.
Proof.
  intros Hc. unfold survives, normalize_message. rewrite Hc.
  destruct (Js.is_empty (Js.trim raw)); simpl.
  - destruct (existsb has_content (m_thinkingBlocks m)) eqn:E.
    + destruct (dedupe_message_blocks ∅ _) as [|b l] eqn:D; simpl; [|split; eauto].
      apply dedupe_message_blocks_nil, filter_has_content_nil in D. congruence.
    + apply filter_has_content_nil in E. rewrite E. simpl.
      split; [intros [m' H]|]; discriminate.
  - split; eauto.
Qed.

Lemma normalize_messages_length (i : nat) (l : list Message) :
  length (normalize_messages i l) = length (filter (fun m => survives m = true) l).
Proof.
  revert i. induction l as [|m l IH]; intros i; [reflexivity|].
  simpl. rewrite filter_cons. destruct (m_content m) as [raw|] eqn:Hc.
  - pose proof (normalize_message_survives i m raw Hc) as Hs.
    destruct (normalize_message i m raw) as [m'|].
    + rewrite decide_True by (apply Hs; eauto). simpl. now rewrite IH.
    + rewrite decide_False; [apply IH|].
      intros H. apply Hs in H as [m' H]. discriminate.
  - rewrite decide_False; [apply IH|]. unfold survives. rewrite Hc. discriminate.
Qed.

(** Every normalized message comes from an input message with string
    content. *)
Lemma normalize_messages_origin (i : nat) (l : list Message) (m' : Message) :
  m' ∈ normalize_messages i l ->
  exists k m raw, m ∈ l /\ m_content m = Some raw /\ normalize_message k m raw = Some m'.
Proof.
  revert i. induction l as [|m l IH]; intros i; simpl; [intros H; inversion H|].
  assert (Hrest : forall k, m' ∈ normalize_messages k l ->
    exists k m0 raw, m0 ∈ m :: l /\ m_content m0 = Some raw
                     /\ normalize_message k m0 raw = Some m').
  { intros k Hk. destruct (IH k Hk) as (k' & m0 & raw & H1 & H2 & H3).
    exists k', m0, raw. split; [now right|tauto]. }
  destruct (m_content m) as [raw|] eqn:Hc; [|apply Hrest].
  destruct (normalize_message i m raw) as [m0|] eqn:Hm; [|apply Hrest].
  intros H. apply elem_of_cons in H as [->|H]; [|now apply (Hrest (S i))].
  exists i, m, raw. split; [now left|tauto].
Qed.

(** Every block of the flat list is the normalized form of a block of
    the aggregate. *)
Lemma dedupe_aggregate_origin (seen : gset string) (i : nat) (l : list Block) (b' : Block) :
  b' ∈ dedupe_aggregate seen i l ->
  exists k b, b ∈ l /\ block_is_blank b = false /\ b' = normalized_block k b.
Proof.
  revert seen i. induction l as [|b l IH]; intros seen i; simpl; [intros H; inversion H|].
  assert (Hrest : forall s k, b' ∈ dedupe_aggregate s k l ->
    exists k b0, b0 ∈ b :: l /\ block_is_blank b0 = false /\ b' = normalized_block k b0).
  { intros s k Hk. destruct (IH s k Hk) as (k' & b0 & H1 & H2 & H3).
    exists k', b0. split; [now right|tauto]. }
  destruct (block_is_blank b) eqn:E; [apply Hrest|].
  case_bool_decide as Hseen; [apply Hrest|].
  intros Hin. apply elem_of_cons in Hin as [->|Hin]; [|eapply Hrest; eassumption].
  exists i, b. split; [now left|tauto].
Qed.

End NormalizeFacts.

(** ** Occurrences of one string in another *)

Module SubstringFacts.
Import Js Props.

Lemma append_assoc (a b c : string) : ((a ++ b) ++ c = a ++ (b ++ c))%string.
Proof.
  induction a as [|x a IH]; [reflexivity|].
  change (String x ((a ++ b) ++ c) = String x (a ++ (b ++ c)))%string.
  now rewrite IH.
Qed.

Lemma append_nil_r (a : string) : (a ++ "")%string = a.
Proof.
  induction a as [|x a IH]; [reflexivity|].
  change (String x (a ++ "") = String x a)%string. now rewrite IH.
Qed.

Lemma startsWith_spec (s p : string) :
  startsWith s p = true <-> exists b, s = (p ++ b)%string.
Proof.
  revert s. induction p as [|x p IH]; intros s.
  - split; [intros _; now exists s|intros _; now destruct s].
  - destruct s as [|y s]; simpl.
    + split; [discriminate|intros [b H]; discriminate].
    + rewrite andb_true_iff, IH. split.
      * intros [Hxy [b ->]]. apply Ascii.eqb_eq in Hxy as ->. now exists b.
      * intros [b [= -> ->]]. split; [apply Ascii.eqb_refl|now exists b].
Qed.

Lemma includes_spec (s p : string) : includes s p = true <-> substring p s.
Proof.
  unfold substring. induction s as [|x s IH].
  - change (includes "" p) with (startsWith "" p || false).
    rewrite orb_false_r, startsWith_spec. split.
    + intros [b H]. now exists ""%string, b.
    + intros [a [b H]]. destruct a; [now exists b|discriminate].
  - change (includes (String x s) p)
      with (startsWith (String x s) p || includes s p).
    rewrite orb_true_iff, startsWith_spec, IH. split.
    + intros [[b H]|[a [b H]]].
      * now exists ""%string, b.
      * exists (String x a), b. simpl. now rewrite H.
    + intros [a [b H]]. destruct a as [|y a]; simpl in H.
      * left. now exists b.
      * right. injection H as -> ->. now exists a, b.
Qed.

Lemma substring_refl (s : string) : substring s s.
Proof. exists ""%string, ""%string. simpl. now rewrite append_nil_r. Qed.

Lemma substring_app_l (p a b : string) : substring p a -> substring p (a ++ b).
Proof.
  intros [x [y ->]]. exists x, (y ++ b)%string. now rewrite !append_assoc.
Qed.

Lemma substring_app_r (p a b : string) : substring p b -> substring p (a ++ b).
Proof.
  intros [x [y ->]]. exists (a ++ x)%string, y. now rewrite !append_assoc.
Qed.

Lemma substring_cons (p : string) (c : ascii) (s : string) :
  substring p s -> substring p (String c s).
Proof. apply (substring_app_r p (String c "") s). Qed.

Lemma substring_trans (p q s : string) :
  substring p q -> substring q s -> substring p s.
Proof.
  intros Hpq [x [y ->]]. now apply substring_app_r, substring_app_l.
Qed.

Lemma substring_join (sep x : string) (l : list string) :
  x ∈ l -> substring x (join sep l).
Proof.
  induction l as [|y l IH]; [intros H; inversion H|].
  intros H. apply elem_of_cons in H as [->|H].
  - destruct l; simpl; [apply substring_refl|apply substring_app_l, substring_refl].
  - specialize (IH H). destruct l as [|z l]; [inversion H|].
    change (join sep (y :: z :: l)) with (y ++ sep ++ join sep (z :: l))%string.
    now apply substring_app_r, substring_app_r.
Qed.

End SubstringFacts.

(** ** The matcher and the functions built on it *)

Module RegexFacts.
Import Regex Props.
Local Open Scope list_scope.

Lemma str_app (a b : list ascii) : str (a ++ b) = (str a ++ str b)%string.
Proof.
  induction a as [|x a IH]; [reflexivity|].
  change (String x (str (a ++ b)) = String x (str a ++ str b))%string.
  now rewrite IH.
Qed.

Lemma str_chars (s : string) : str (chars s) = s.
Proof. apply string_of_list_ascii_of_string. Qed.

Lemma length_chars (s : string) : length (chars s) = String.length s.
Proof. induction s as [|x s IH]; [reflexivity|]. simpl. f_equal. exact IH. Qed.

(** *** The fuel of the loops is enough *)

#[local] Abbreviation ahead s := (length (after s)).

(** Two loops agree when their body matchers and continuations agree on
    the positions that can be reached, whatever fuel they have beyond
    [lo + ahead]. *)
Lemma rep_loop_ext
    (step1 step2 : mstate -> (mstate -> option mstate) -> option mstate)
    (k1 k2 : mstate -> option mstate) (greedy : bool) (n : nat) :
  (forall s c1 c2, ahead s <= n ->
     (forall s', ahead s' <= ahead s -> c1 s' = c2 s') -> step1 s c1 = step2 s c2) ->
  (forall s, ahead s <= n -> k1 s = k2 s) ->
  forall f1 f2 lo hi s,
    ahead s <= n -> lo + ahead s < f1 -> lo + ahead s < f2 ->
    rep_loop step1 k1 greedy f1 lo hi s = rep_loop step2 k2 greedy f2 lo hi s.
Proof.
  intros Hstep Hk. induction f1 as [|f IH]; intros f2 lo hi s Hn H1 H2; [lia|].
  destruct f2 as [|f']; [lia|]. simpl.
  rewrite (Hk s Hn).
  assert (Hiter :
    step1 s (fun s1 =>
      if (lo =? 0)%nat && (ahead s1 =? ahead s)%nat then None
      else rep_loop step1 k1 greedy f (Nat.pred lo) (pred_hi hi) s1) =
    step2 s (fun s1 =>
      if (lo =? 0)%nat && (ahead s1 =? ahead s)%nat then None
      else rep_loop step2 k2 greedy f' (Nat.pred lo) (pred_hi hi) s1)).
  { apply Hstep; [assumption|]. intros s' Hs'.
    destruct (Nat.eqb_spec lo 0) as [E0|E0];
      destruct (Nat.eqb_spec (ahead s') (ahead s)) as [E1|E1];
      simpl; try reflexivity; apply IH; lia. }
  rewrite Hiter. reflexivity.
Qed.

(** The matcher depends on its continuation only at positions not
    farther from the end, and not on the slack. *)
Lemma run_ext (fl : flags) (r : re) :
  forall sl1 sl2 s k1 k2,
    (forall s', ahead s' <= ahead s -> k1 s' = k2 s') ->
    run sl1 fl r s k1 = run sl2 fl r s k2.
Proof.
  induction r as [|a|r1 IH1 r2 IH2|r1 IH1 r2 IH2|lo hi greedy r0 IH|i r0 IH| | |];
    intros sl1 sl2 s k1 k2 Hk; simpl.
  - apply Hk. lia.
  - destruct (after s) as [|c t] eqn:E; [reflexivity|].
    destruct (cs_test _ a c); [|reflexivity]. apply Hk. simpl. lia.
  - apply IH1. intros s1 H1. apply IH2. intros s2 H2. apply Hk. lia.
  - rewrite (IH1 sl1 sl2 s k1 k2 Hk), (IH2 sl1 sl2 s k1 k2 Hk). reflexivity.
  - apply (rep_loop_ext _ _ _ _ _ (ahead s)); try lia.
    + intros s0 c1 c2 _ Hc. now apply IH.
    + exact Hk.
  - apply IH. intros s1 H1. apply Hk. simpl. lia.
  - rewrite Hk by lia. reflexivity.
  - rewrite Hk by lia. reflexivity.
  - rewrite Hk by lia. reflexivity.
Qed.

(** More fuel changes nothing. *)
Theorem run_slack (slack : nat) (fl : flags) (r : re) (s : mstate)
    (k : mstate -> option mstate) :
  run slack fl r s k = run 0 fl r s k.
Proof. now apply run_ext. Qed.

(** *** A match does not move backwards *)

Lemma rep_loop_reaches
    (step : mstate -> (mstate -> option mstate) -> option mstate)
    (k : mstate -> option mstate) (greedy : bool) :
  (forall s c res, step s c = Some res ->
     exists s', ahead s' <= ahead s /\ c s' = Some res) ->
  forall fuel lo hi s res,
    rep_loop step k greedy fuel lo hi s = Some res ->
    exists s', ahead s' <= ahead s /\ k s' = Some res.
Proof.
  intros Hstep. induction fuel as [|f IH]; intros lo hi s res; simpl; [discriminate|].
  assert (Hiter : forall res',
    step s (fun s1 =>
      if (lo =? 0)%nat && (ahead s1 =? ahead s)%nat then None
      else rep_loop step k greedy f (Nat.pred lo) (pred_hi hi) s1) = Some res' ->
    exists s', ahead s' <= ahead s /\ k s' = Some res').
  { intros res' H. apply Hstep in H as (s1 & H1 & H).
    destruct (_ && _); [discriminate|].
    apply IH in H as (s' & H2 & H). exists s'. split; [lia|assumption]. }
  assert (Hstop : forall res', k s = Some res' ->
    exists s', ahead s' <= ahead s /\ k s' = Some res') by (intros; exists s; auto).
  destruct (hi_is_zero hi); [apply Hstop|].
  destruct (0 <? lo)%nat; [apply Hiter|].
  destruct greedy; unfold or_try.
  - destruct (step s _) eqn:E; [intros [= <-]; now apply Hiter|apply Hstop].
  - destruct (k s) eqn:E; [intros [= <-]; now apply Hstop|apply Hiter].
Qed.

Lemma run_reaches (fl : flags) (r : re) :
  forall slack s k res,
    run slack fl r s k = Some res ->
    exists s', ahead s' <= ahead s /\ k s' = Some res.
Proof.
  induction r as [|a|r1 IH1 r2 IH2|r1 IH1 r2 IH2|lo hi greedy r0 IH|i r0 IH| | |];
    intros slack s k res; simpl.
  - intros H. exists s. auto.
  - destruct (after s) as [|c t] eqn:E; [discriminate|].
    destruct (cs_test _ a c); [|discriminate].
    intros H. eexists. split; [|exact H]. simpl. lia.
  - intros H. apply IH1 in H as (s1 & H1 & H). apply IH2 in H as (s2 & H2 & H).
    exists s2. split; [lia|assumption].
  - unfold or_try. destruct (run slack fl r1 s k) eqn:E.
    + intros [= <-]. now apply IH1 in E.
    + apply IH2.
  - apply rep_loop_reaches. intros s0 c res0. apply IH.
  - intros H. apply IH in H as (s1 & H1 & H). eexists. split; [|exact H]. simpl. lia.
  - destruct (at_bol fl s); [|discriminate]. intros H. exists s. auto.
  - destruct (at_eol fl s); [|discriminate]. intros H. exists s. auto.
  - destruct (at_word_boundary s); [|discriminate]. intros H. exists s. auto.
Qed.

Lemma search_bounds (fl : flags) (r : re) (bef aft b0 a0 : list ascii) (m : mstate) :
  search fl r bef aft = Some (b0, a0, m) ->
  length a0 <= length aft /\ ahead m <= length a0.
Proof.
  revert bef. induction aft as [|c t IH]; intros bef; simpl.
  - destruct (exec_at fl r bef []) eqn:E; [|discriminate]. intros [= <- <- <-].
    apply run_reaches in E as (s' & H1 & [= <-]). simpl in *. lia.
  - destruct (exec_at fl r bef (c :: t)) eqn:E.
    + intros [= <- <- <-]. apply run_reaches in E as (s' & H1 & [= <-]). simpl in *. lia.
    + intros H. apply IH in H. simpl. lia.
Qed.

(** The replacement, the list of matches and the split do not depend on
    their fuel once it exceeds what is left of the text. *)
Lemma replace_go_fuel (fl : flags) (r : re)
    (repl : list (nat * list ascii) -> list ascii) :
  forall f1 f2 bef aft,
    length aft < f1 -> length aft < f2 ->
    replace_go fl r repl f1 bef aft = replace_go fl r repl f2 bef aft.
Proof.
  induction f1 as [|f IH]; intros f2 bef aft H1 H2; [lia|].
  destruct f2 as [|f']; [lia|]. simpl.
  destruct (search fl r bef aft) as [[[b0 a0] m]|] eqn:E; [|reflexivity].
  apply search_bounds in E as [Ha Hm]. do 2 f_equal.
  destruct (ahead m =? length a0)%nat eqn:Ee.
  - destruct a0 as [|c t]; [reflexivity|]. f_equal. apply IH; simpl in *; lia.
  - apply Nat.eqb_neq in Ee. apply IH; lia.
Qed.

Lemma matches_go_fuel (fl : flags) (r : re) :
  forall f1 f2 bef aft,
    length aft < f1 -> length aft < f2 ->
    matches_go fl r f1 bef aft = matches_go fl r f2 bef aft.
Proof.
  induction f1 as [|f IH]; intros f2 bef aft H1 H2; [lia|].
  destruct f2 as [|f']; [lia|]. simpl.
  destruct (search fl r bef aft) as [[[b0 a0] m]|] eqn:E; [|reflexivity].
  apply search_bounds in E as [Ha Hm]. f_equal.
  destruct (ahead m =? length a0)%nat eqn:Ee.
  - destruct a0 as [|c t]; [reflexivity|]. apply IH; simpl in *; lia.
  - apply Nat.eqb_neq in Ee. apply IH; lia.
Qed.

Lemma split_go_fuel (fl : flags) (r : re) :
  forall f1 f2 piece bef aft,
    2 * length aft + (if (length piece =? 0)%nat then 0 else 1) < f1 ->
    2 * length aft + (if (length piece =? 0)%nat then 0 else 1) < f2 ->
    split_go fl r f1 piece bef aft = split_go fl r f2 piece bef aft.
Proof.
  induction f1 as [|f IH]; intros f2 piece bef aft H1 H2; [lia|].
  destruct f2 as [|f']; [lia|]. simpl.
  destruct aft as [|c t]; [reflexivity|].
  assert (Hgrow : split_go fl r f (piece ++ [c]) (c :: bef) t =
                  split_go fl r f' (piece ++ [c]) (c :: bef) t).
  { apply IH; rewrite length_app; simpl in *;
      replace (length piece + 1 =? 0)%nat with false
        by (symmetry; apply Nat.eqb_neq; lia);
      destruct (length piece =? 0)%nat; lia. }
  destruct (exec_at fl r bef (c :: t)) as [m|] eqn:E; [|exact Hgrow].
  apply run_reaches in E as (s' & Hs' & [= <-]). simpl in Hs'.
  change (length (c :: t)) with (S (length t)) in *.
  destruct (Nat.eqb_spec (ahead s') (S (length t))) as [Ee|Ee]; simpl.
  - destruct (length piece =? 0)%nat eqn:Ep; simpl; [exact Hgrow|].
    f_equal. apply IH; simpl; lia.
  - f_equal. apply IH; simpl; destruct (length piece =? 0)%nat; lia.
Qed.

(** *** Replacement *)

(** A text without a match is returned as it is. *)
Lemma replaceAll_miss (fl : flags) (r : re)
    (repl : list (nat * list ascii) -> list ascii) (text : string) :
  test fl r text = false -> replaceAll fl r repl text = text.
Proof.
  unfold test, replaceAll. simpl.
  destruct (search fl r [] (chars text)) as [[[b0 a0] m]|]; [discriminate|].
  intros _. apply str_chars.
Qed.

(** A text with a match contains, after the replacement, whatever every
    replacement starts with. *)
Lemma replaceAll_hit (fl : flags) (r : re)
    (repl : list (nat * list ascii) -> list ascii) (text prefix : string) :
  (forall caps, exists tail, repl caps = chars prefix ++ tail) ->
  test fl r text = true ->
  substring prefix (replaceAll fl r repl text).
Proof.
  intros Hrepl. unfold test, replaceAll. simpl.
  destruct (search fl r [] (chars text)) as [[[b0 a0] m]|]; [|discriminate].
  intros _. destruct (Hrepl (caps m)) as [tail ->].
  rewrite str_app. apply SubstringFacts.substring_app_r.
  rewrite <- app_assoc, str_app, str_chars.
  apply SubstringFacts.substring_app_l, SubstringFacts.substring_refl.
Qed.

(** A marker already in the text is still there after a replacement
    whose replacements start with that marker. *)
Lemma replaceAll_keeps (fl : flags) (r : re)
    (repl : list (nat * list ascii) -> list ascii) (text prefix : string) :
  (forall caps, exists tail, repl caps = chars prefix ++ tail) ->
  substring prefix text ->
  substring prefix (replaceAll fl r repl text).
Proof.
  intros Hrepl Hin. destruct (test fl r text) eqn:E.
  - now apply replaceAll_hit.
  - now rewrite replaceAll_miss.
Qed.

End RegexFacts.

(** ** Redaction and the JSON export *)

Module RedactFacts.
Import Regex Redact Props.
Local Open Scope list_scope.

Lemma marker_starts (label : string) (caps : list (nat * list ascii)) :
  exists tail, marker (tag ++ label) caps = chars tag ++ tail.
Proof. exists (chars label). unfold marker, tag. simpl. reflexivity. Qed.

Lemma file_marker_starts (caps : list (nat * list ascii)) :
  exists tail, file_marker caps = chars tag ++ tail.
Proof. exists (chars "FILE]." ++ get_cap 1 caps). reflexivity. Qed.

(** Whatever one of the first three patterns finds, the redacted text
    carries a marker. *)
Lemma redaction_marks (text : string) :
  test icase email_re text = true \/ test plain phone_re text = true
  \/ test plain token_re text = true ->
  substring tag (applySensitiveRedaction text).
Proof.
  intros H. unfold applySensitiveRedaction.
  destruct text as [|x s]; [vm_compute in H; intuition discriminate|].
  set (text := String x s) in *. simpl Js.is_empty. cbv iota.
  apply RegexFacts.replaceAll_keeps; [apply file_marker_starts|].
  apply RegexFacts.replaceAll_keeps; [apply (marker_starts "CREDENTIAL]")|].
  destruct (test icase email_re text) eqn:E1.
  { apply RegexFacts.replaceAll_keeps; [apply (marker_starts "TOKEN]")|].
    apply RegexFacts.replaceAll_keeps; [apply (marker_starts "PHONE]")|].
    apply RegexFacts.replaceAll_hit; [apply (marker_starts "EMAIL]")|assumption]. }
  rewrite (RegexFacts.replaceAll_miss icase email_re _ text E1).
  destruct (test plain phone_re text) eqn:E2.
  { apply RegexFacts.replaceAll_keeps; [apply (marker_starts "TOKEN]")|].
    apply RegexFacts.replaceAll_hit; [apply (marker_starts "PHONE]")|assumption]. }
  rewrite (RegexFacts.replaceAll_miss plain phone_re _ text E2).
  apply RegexFacts.replaceAll_hit; [apply (marker_starts "TOKEN]")|].
  destruct H as [H|[H|H]]; congruence.
Qed.

(** Where none of the five patterns matches, nothing is rewritten. *)
Lemma redaction_idle (text : string) :
  redaction_applies text = false -> applySensitiveRedaction text = text.
Proof.
  unfold redaction_applies. intros H.
  repeat (apply orb_false_iff in H as [H ?]).
  unfold applySensitiveRedaction. destruct (Js.is_empty text); [reflexivity|].
  cbv zeta.
  rewrite (RegexFacts.replaceAll_miss icase email_re _ text) by assumption.
  rewrite (RegexFacts.replaceAll_miss plain phone_re _ text) by assumption.
  rewrite (RegexFacts.replaceAll_miss plain token_re _ text) by assumption.
  rewrite (RegexFacts.replaceAll_miss icase credential_re _ text) by assumption.
  now apply RegexFacts.replaceAll_miss.
Qed.

End RedactFacts.

Module JsonFacts.
Import Stringify Json Props SubstringFacts.

Lemma serialize_array (indent : string) (x : json) (items : list json) :
  serialize indent (JArray (x :: items)) =
  ("[" ++ Regex.nl ++ (indent ++ gap)
   ++ Js.join ("," ++ Regex.nl ++ (indent ++ gap))
        (map (serialize (indent ++ gap)) (x :: items))
   ++ Regex.nl ++ indent ++ "]")%string.
Proof. reflexivity. Qed.

Lemma serialize_object (indent : string) (x : string * json)
    (members : list (string * json)) :
  serialize indent (JObject (x :: members)) =
  ("{" ++ Regex.nl ++ (indent ++ gap)
   ++ Js.join ("," ++ Regex.nl ++ (indent ++ gap))
        (map (fun kv => quote (fst kv) ++ ": " ++ serialize (indent ++ gap) (snd kv))
             (x :: members))
   ++ Regex.nl ++ indent ++ "}")%string.
Proof. reflexivity. Qed.

Lemma array_item (indent : string) (items : list json) (v : json) :
  v ∈ items ->
  substring (serialize (indent ++ gap) v) (serialize indent (JArray items)).
Proof.
  intros Hin. destruct items as [|x items]; [inversion Hin|].
  rewrite serialize_array.
  do 3 apply substring_app_r. apply substring_app_l, substring_join.
  apply list_elem_of_fmap. eauto.
Qed.

Lemma object_member (indent : string) (members : list (string * json))
    (k : string) (v : json) :
  (k, v) ∈ members ->
  substring (serialize (indent ++ gap) v) (serialize indent (JObject members)).
Proof.
  intros Hin. destruct members as [|x members]; [inversion Hin|].
  rewrite serialize_object.
  do 3 apply substring_app_r. apply substring_app_l.
  eapply substring_trans; [|apply substring_join, list_elem_of_fmap; eauto].
  simpl. do 2 apply substring_app_r. apply substring_refl.
Qed.

Lemma object_has (l : list (string * option json)) (k : string) (v : json) :
  (k, Some v) ∈ l -> exists members, object l = JObject members /\ (k, v) ∈ members.
Proof.
  intros Hin. eexists. split; [reflexivity|].
  apply list_elem_of_omap. exists (k, Some v). split; [assumption|reflexivity].
Qed.

Lemma export_json_messages (url_origin : string -> option string)
    (d : Document) (o : Scope.ExportOptions) :
  exists top,
    export_json url_origin d o = JObject top /\
    ("messages",
     JArray (map (message_json (Scope.includeThinking o) (Scope.includeHtml o))
                 (messages (Redact.getPreparedExportData url_origin d o)))) ∈ top.
Proof.
  eexists. split; [reflexivity|].
  apply list_elem_of_omap. eexists (_, _). split; [right; left|reflexivity].
Qed.

Lemma message_json_content (thinking html : bool) (m : Message) (c : string) :
  m_content m = Some c ->
  exists members,
    message_json thinking html m = JObject members /\ ("content", JString c) ∈ members.
Proof.
  intros Hc. eexists. split; [reflexivity|].
  apply list_elem_of_omap. eexists (_, _). split; [right; right; left|].
  simpl. now rewrite Hc.
Qed.

Lemma escape_app (a b : string) : escape (a ++ b) = (escape a ++ escape b)%string.
Proof.
  induction a as [|x a IH]; [reflexivity|].
  change (escape_char x ++ escape (a ++ b) = (escape_char x ++ escape a) ++ escape b)%string.
  now rewrite IH, append_assoc.
Qed.

(** A string that quoting leaves alone is found in the quoted form of
    every string that contains it. *)
Lemma substring_quote (p s : string) :
  escape p = p -> substring p s -> substring p (quote s).
Proof.
  intros Hp [a [b ->]]. unfold quote.
  apply substring_cons, substring_app_l.
  rewrite !escape_app, Hp. apply substring_app_r, substring_app_l, substring_refl.
Qed.

End JsonFacts.

(** *** The matcher on classes, runs and literals *)

Module MatchFacts.
Import Regex Terms.
Local Open Scope list_scope.

#[local] Abbreviation ahead s := (length (after s)).

Lemma run_rest (p : ascii -> bool) (l : list ascii) : run_of p l ++ rest_of p l = l.
Proof.
  induction l as [|c t IH]; [reflexivity|]. simpl.
  destruct (p c); [simpl; now rewrite IH|reflexivity].
Qed.

Lemma rest_of_head (p : ascii -> bool) (l : list ascii) :
  match rest_of p l with
  | [] => True
  | c :: _ => p c = false
  end.
Proof.
  induction l as [|c t IH]; [exact I|]. simpl.
  destruct (p c) eqn:E; [exact IH|exact E].
Qed.

Lemma rest_of_length (p : ascii -> bool) (l : list ascii) :
  length (rest_of p l) <= length l.
Proof.
  induction l as [|c t IH]; [reflexivity|]. simpl.
  destruct (p c); simpl; lia.
Qed.

Section Loop.

(** A body that matches one character of a class. *)
Variable p : ascii -> bool.
Variable step : mstate -> (mstate -> option mstate) -> option mstate.
Hypothesis step_class : forall s k,
  step s k = match after s with
             | c :: t => if p c then k (MState (c :: before s) t (caps s)) else None
             | [] => None
             end.

Lemma loop_unfold (k : mstate -> option mstate) (f lo : nat) (c : ascii)
    (t bef : list ascii) (cs : list (nat * list ascii)) :
  rep_loop step k true (S f) lo None (MState bef (c :: t) cs) =
  let iter :=
    if p c then rep_loop step k true f (Nat.pred lo) None (MState (c :: bef) t cs)
    else None in
  if (0 <? lo)%nat then iter else or_try iter (fun _ => k (MState bef (c :: t) cs)).
Proof.
  simpl. rewrite step_class. simpl.
  assert (E : (length t =? S (length t))%nat = false) by (apply Nat.eqb_neq; lia).
  rewrite E, andb_false_r. reflexivity.
Qed.

Lemma loop_end (k : mstate -> option mstate) (f lo : nat)
    (bef : list ascii) (cs : list (nat * list ascii)) :
  rep_loop step k true (S f) lo None (MState bef [] cs) =
  if (0 <? lo)%nat then None else k (MState bef [] cs).
Proof. simpl. rewrite step_class. simpl. now destruct (0 <? lo)%nat. Qed.

(** A greedy loop before a continuation that never fails takes the
    whole run. *)
Lemma class_loop_total (k : mstate -> option mstate) :
  (forall s, k s <> None) ->
  forall aft bef cs fuel lo,
    lo + length aft < fuel ->
    rep_loop step k true fuel lo None (MState bef aft cs) =
    if (lo <=? length (run_of p aft))%nat
    then k (MState (rev (run_of p aft) ++ bef) (rest_of p aft) cs)
    else None.
Proof.
  intros Hk. induction aft as [|c t IH]; intros bef cs fuel lo Hf;
    (destruct fuel as [|f]; [simpl in Hf; lia|]).
  - rewrite loop_end. destruct lo; reflexivity.
  - rewrite loop_unfold. cbv zeta. simpl run_of. simpl rest_of.
    destruct (p c) eqn:Ec.
    + rewrite IH by (simpl in Hf; lia).
      cbn [length rev]. rewrite <- app_assoc. cbn [app].
      destruct lo as [|lo]; cbn [Nat.ltb Nat.leb Nat.pred].
      * destruct (k (MState (rev (run_of p t) ++ c :: bef) (rest_of p t) cs)) eqn:E;
          [reflexivity|]. now apply Hk in E.
      * reflexivity.
    + destruct lo; reflexivity.
Qed.

(** A greedy loop before a continuation that fails unless the end of
    the subject is reached succeeds only when the run goes to the end. *)
Lemma class_loop_to_end (k : mstate -> option mstate) :
  (forall s, after s <> [] -> k s = None) ->
  forall aft bef cs fuel lo,
    lo + length aft < fuel ->
    rep_loop step k true fuel lo None (MState bef aft cs) =
    if forallb p aft && (lo <=? length aft)%nat
    then k (MState (rev aft ++ bef) [] cs)
    else None.
Proof.
  intros Hk. induction aft as [|c t IH]; intros bef cs fuel lo Hf;
    (destruct fuel as [|f]; [simpl in Hf; lia|]).
  - rewrite loop_end. destruct lo; reflexivity.
  - rewrite loop_unfold. cbv zeta. cbn [forallb].
    destruct (p c) eqn:Ec.
    + rewrite IH by (simpl in Hf; lia).
      cbn [length rev andb]. rewrite <- app_assoc. cbn [app].
      destruct lo as [|lo]; cbn [Nat.ltb Nat.leb Nat.pred].
      * rewrite (Hk (MState bef (c :: t) cs)) by discriminate.
        destruct (forallb p t); cbn; [|reflexivity].
        now destruct (k (MState (rev t ++ c :: bef) [] cs)).
      * reflexivity.
    + cbn [andb]. destruct lo; cbn [Nat.ltb Nat.leb]; [|reflexivity].
      rewrite (Hk (MState bef (c :: t) cs)) by discriminate. reflexivity.
Qed.

End Loop.

Lemma step_cls (sl : nat) (fl : flags) (a : cset) (s : mstate)
    (k : mstate -> option mstate) :
  run sl fl (Cls a) s k =
  match after s with
  | c :: t =>
      if cs_test (ignoreCase fl) a c then k (MState (c :: before s) t (caps s)) else None
  | [] => None
  end.
Proof. reflexivity. Qed.

(** One or more characters of a class, greedily, at a position. *)
Lemma exec_plus (fl : flags) (a : cset) (bef aft : list ascii) :
  exec_at fl (plus (Cls a)) bef aft =
  match run_of (cs_test (ignoreCase fl) a) aft with
  | [] => None
  | r => Some (MState (rev r ++ bef) (rest_of (cs_test (ignoreCase fl) a) aft) [])
  end.
Proof.
  unfold exec_at, plus. cbn [run].
  rewrite (class_loop_total (cs_test (ignoreCase fl) a) _ (step_cls 0 fl a))
    by (discriminate || (cbn [after]; lia)).
  destruct (run_of _ aft); reflexivity.
Qed.

Section Replace.
Variables (fl : flags) (a : cset) (rep : list ascii).

#[local] Abbreviation p := (cs_test (ignoreCase fl) a).
#[local] Abbreviation q := (fun c => negb (cs_test (ignoreCase fl) a c)).

Lemma search_plus (bef aft : list ascii) :
  search fl (plus (Cls a)) bef aft =
  match rest_of q aft with
  | [] => None
  | rest =>
      Some (rev (run_of q aft) ++ bef, rest,
            MState (rev (run_of p rest) ++ rev (run_of q aft) ++ bef) (rest_of p rest) [])
  end.
Proof.
  revert bef. induction aft as [|c t IH]; intros bef.
  - reflexivity.
  - cbn [search]. rewrite exec_plus. cbn [run_of rest_of].
    destruct (cs_test (ignoreCase fl) a c) eqn:Ec; cbn [negb].
    + cbn [run_of rest_of]. rewrite Ec. reflexivity.
    + rewrite IH. destruct (rest_of q t) eqn:Er; [reflexivity|].
      cbn [rev]. now rewrite <- !app_assoc.
Qed.

Lemma search_cls (bef aft : list ascii) :
  search fl (Cls a) bef aft =
  match rest_of q aft with
  | [] => None
  | c :: t => Some (rev (run_of q aft) ++ bef, c :: t,
                    MState (c :: rev (run_of q aft) ++ bef) t [])
  end.
Proof.
  revert bef. induction aft as [|c t IH]; intros bef.
  - reflexivity.
  - cbn [search]. unfold exec_at. rewrite step_cls. cbn [after before caps run_of rest_of].
    destruct (cs_test (ignoreCase fl) a c) eqn:Ec; cbn [negb].
    + reflexivity.
    + rewrite IH. destruct (rest_of q t) eqn:Er; [reflexivity|].
      cbn [rev]. now rewrite <- !app_assoc.
Qed.

Lemma skipped_run (aft : list ascii) : skipped aft (rest_of q aft) = run_of q aft.
Proof.
  unfold skipped. rewrite <- (run_rest q aft) at 1 3.
  rewrite length_app, Nat.add_sub, take_app_length. reflexivity.
Qed.

Lemma squeeze_in_run (l : list ascii) :
  squeeze p rep true l = squeeze p rep false (rest_of p l).
Proof.
  induction l as [|c t IH]; [reflexivity|]. cbn [squeeze rest_of].
  destruct (cs_test (ignoreCase fl) a c) eqn:Ec; [exact IH|].
  cbn [squeeze]. now rewrite Ec.
Qed.

Lemma squeeze_split (l : list ascii) :
  squeeze p rep false l =
  run_of q l ++ match rest_of q l with
                | [] => []
                | rest => rep ++ squeeze p rep false (rest_of p rest)
                end.
Proof.
  induction l as [|c t IH]; [reflexivity|]. cbn [squeeze run_of rest_of].
  destruct (cs_test (ignoreCase fl) a c) eqn:Ec; cbn [negb app].
  - cbn [rest_of]. rewrite Ec. now rewrite squeeze_in_run.
  - now rewrite IH.
Qed.

(** Replacing every run of a class by a constant. *)
Lemma replace_plus (fuel : nat) (bef aft : list ascii) :
  length aft < fuel ->
  replace_go fl (plus (Cls a)) (fun _ => rep) fuel bef aft = squeeze p rep false aft.
Proof.
  revert bef aft. induction fuel as [|f IH]; intros bef aft Hf; [lia|].
  cbn [replace_go]. rewrite search_plus, (squeeze_split aft).
  pose proof (rest_of_head q aft) as Hhead.
  pose proof (rest_of_length q aft) as Hlen.
  pose proof (skipped_run aft) as Hskip.
  destruct (rest_of q aft) as [|c t] eqn:Er.
  - rewrite <- (run_rest q aft) at 1. now rewrite Er.
  - apply negb_false_iff in Hhead.
    cbn [after before]. rewrite Hskip. f_equal. f_equal.
    cbn [rest_of]. rewrite Hhead.
    pose proof (rest_of_length p t) as Hlen'.
    assert (E : (length (rest_of p t) =? length (c :: t))%nat = false)
      by (apply Nat.eqb_neq; simpl; lia).
    rewrite E. apply IH. simpl in Hlen. lia.
Qed.

Lemma replace_each_split (l : list ascii) :
  replace_each p rep l =
  run_of q l ++ match rest_of q l with
                | [] => []
                | _ :: t => rep ++ replace_each p rep t
                end.
Proof.
  unfold replace_each. induction l as [|c t IH]; [reflexivity|].
  cbn [flat_map run_of rest_of].
  destruct (cs_test (ignoreCase fl) a c) eqn:Ec; cbn [negb app]; [reflexivity|].
  now rewrite IH.
Qed.

(** Replacing every character of a class by a constant. *)
Lemma replace_cls (fuel : nat) (bef aft : list ascii) :
  length aft < fuel ->
  replace_go fl (Cls a) (fun _ => rep) fuel bef aft = replace_each p rep aft.
Proof.
  revert bef aft. induction fuel as [|f IH]; intros bef aft Hf; [lia|].
  cbn [replace_go]. rewrite search_cls, (replace_each_split aft).
  pose proof (rest_of_length q aft) as Hlen.
  pose proof (skipped_run aft) as Hskip.
  destruct (rest_of q aft) as [|c t] eqn:Er.
  - rewrite <- (run_rest q aft) at 1. now rewrite Er.
  - cbn [after before]. rewrite Hskip. f_equal. f_equal.
    assert (E : (length t =? length (c :: t))%nat = false)
      by (apply Nat.eqb_neq; simpl; lia).
    rewrite E. apply IH. simpl in Hlen. lia.
Qed.

Lemma replaceAll_plus (text : string) :
  replaceAll fl (plus (Cls a)) (fun _ => rep) text = str (squeeze p rep false (chars text)).
Proof.
  unfold replaceAll. rewrite replace_plus; [reflexivity|].
  rewrite RegexFacts.length_chars. lia.
Qed.

Lemma replaceAll_cls (text : string) :
  replaceAll fl (Cls a) (fun _ => rep) text = str (replace_each p rep (chars text)).
Proof.
  unfold replaceAll. rewrite replace_cls; [reflexivity|].
  rewrite RegexFacts.length_chars. lia.
Qed.

End Replace.

(** A literal at a position, without the [i] flag. *)
Lemma run_lit (w : string) :
  forall sl s k,
    run sl plain (lit w) s k =
    if Js.startsWith (str (after s)) w
    then k (MState (rev (chars w) ++ before s) (drop (String.length w) (after s)) (caps s))
    else None.
Proof.
  induction w as [|x w IH]; intros sl s k.
  - cbn [lit run]. destruct s as [b [|c t] cs]; reflexivity.
  - assert (Hone : run sl plain (Seq (Cls (CChar x)) (lit w)) s k =
                   run sl plain (lit (String x w)) s k).
    { destruct w; [|reflexivity]. cbn [lit run].
      destruct (after s); [reflexivity|]. now destruct (cs_test _ _ _). }
    rewrite <- Hone. cbn [run].
    destruct s as [b [|c t] cs]; cbn [after before caps]; [reflexivity|].
    change (str (c :: t)) with (String c (str t)).
    cbn [Js.startsWith cs_test ignoreCase plain base_mem].
    destruct (Ascii.eqb_spec x c) as [->|_]; cbn [andb]; [|reflexivity].
    rewrite IH. cbn [after before caps String.length drop chars list_ascii_of_string rev].
    now rewrite <- app_assoc.
Qed.

Lemma existsb_eq {A : Type} (f g : A -> bool) (l : list A) :
  (forall x, f x = g x) -> existsb f l = existsb g l.
Proof.
  intros H. induction l as [|x l IH]; [reflexivity|]. simpl. now rewrite H, IH.
Qed.

Lemma exec_words (ws : list string) (bef aft : list ascii) :
  ws <> [] ->
  match exec_at plain (alt (map lit ws)) bef aft with
  | Some _ => true
  | None => false
  end = existsb (Js.startsWith (str aft)) ws.
Proof.
  unfold exec_at. induction ws as [|w ws IH]; [congruence|]. intros _.
  destruct ws as [|w' ws].
  - cbn [map alt existsb]. rewrite run_lit, orb_false_r. cbn [after].
    now destruct (Js.startsWith (str aft) w).
  - change (alt (map lit (w :: w' :: ws))) with (Alt (lit w) (alt (map lit (w' :: ws)))).
    cbn [run existsb]. rewrite run_lit. cbn [after].
    destruct (Js.startsWith (str aft) w); [reflexivity|].
    cbn [or_try orb]. apply IH. discriminate.
Qed.

(** A pattern that is an alternation of words is found in a text exactly
    when one of the words occurs in it. *)
Lemma test_words (ws : list string) (text : string) :
  ws <> [] ->
  test plain (alt (map lit ws)) text = existsb (Js.includes text) ws.
Proof.
  intros Hne. unfold test.
  assert (H : forall aft bef,
             match search plain (alt (map lit ws)) bef aft with
             | Some _ => true
             | None => false
             end = existsb (Js.includes (str aft)) ws).
  { induction aft as [|c t IH]; intros bef.
    - cbn [search]. pose proof (exec_words ws bef [] Hne) as He.
      rewrite (existsb_eq (Js.includes (str [])) (Js.startsWith (str [])))
        by (intros w; now destruct w).
      now destruct (exec_at plain (alt (map lit ws)) bef []).
    - cbn [search]. pose proof (exec_words ws bef (c :: t) Hne) as He.
      change (str (c :: t)) with (String c (str t)) in *.
      assert (Hor : existsb (Js.includes (String c (str t))) ws =
                    existsb (Js.startsWith (String c (str t))) ws
                    || existsb (Js.includes (str t)) ws).
      { clear. induction ws as [|w ws IHw]; [reflexivity|].
        cbn [existsb]. rewrite IHw.
        change (Js.includes (String c (str t)) w)
          with (Js.startsWith (String c (str t)) w || Js.includes (str t) w).
        destruct (Js.startsWith _ w), (Js.includes (str t) w),
          (existsb (Js.startsWith _) ws); reflexivity. }
      rewrite Hor, <- He, <- (IH (c :: bef)).
      now destruct (exec_at plain (alt (map lit ws)) bef (c :: t)). }
  specialize (H (chars text) []). rewrite RegexFacts.str_chars in H.
  destruct (search plain (alt (map lit ws)) [] (chars text)) as [[[b0 a0] m]|]; exact H.
Qed.

Lemma strip_tail_run (p : ascii -> bool) (l : list ascii) :
  strip_tail p l ++ tail_run p l = l.
Proof.
  induction l as [|c t IH]; [reflexivity|]. cbn [strip_tail tail_run].
  destruct (forallb p (c :: t)); [reflexivity|]. cbn [app]. now rewrite IH.
Qed.

Lemma chars_str (l : list ascii) : chars (str l) = l.
Proof. induction l as [|c t IH]; [reflexivity|]. simpl. now rewrite IH. Qed.

Section Edges.
Variable a : cset.

#[local] Abbreviation e := (cs_test false a).
#[local] Abbreviation both_ends := (Alt (Seq Bol (plus (Cls a))) (Seq (plus (Cls a)) Eol)).

Lemma run_plus_end (bef aft : list ascii) :
  run 0 plain (plus (Cls a)) (MState bef aft [])
      (fun s1 => if at_eol plain s1 then Some s1 else None) =
  if forallb e aft && (1 <=? length aft)%nat
  then Some (MState (rev aft ++ bef) [] [])
  else None.
Proof.
  unfold plus. cbn [run].
  rewrite (class_loop_to_end e _ (step_cls 0 plain a)
             (fun s1 => if at_eol plain s1 then Some s1 else None));
    [reflexivity|intros [b [|c t] cs] H; [cbn in H; congruence|reflexivity]
    |cbn [after]; lia].
Qed.

Lemma exec_ends (bef aft : list ascii) :
  exec_at plain both_ends bef aft =
  match bef with
  | [] =>
      match run_of e aft with
      | [] => None
      | r => Some (MState (rev r) (rest_of e aft) [])
      end
  | _ :: _ =>
      if forallb e aft && (1 <=? length aft)%nat
      then Some (MState (rev aft ++ bef) [] [])
      else None
  end.
Proof.
  unfold exec_at. cbn [run]. unfold at_bol. cbn [before multiline plain andb].
  rewrite run_plus_end.
  destruct bef as [|b bef].
  - change (run 0 plain (plus (Cls a)) (MState [] aft []) Some)
      with (exec_at plain (plus (Cls a)) [] aft).
    rewrite exec_plus. cbn [ignoreCase plain].
    destruct aft as [|c t]; [reflexivity|]. cbn [run_of forallb].
    destruct (e c) eqn:Ec; [|reflexivity]. now rewrite app_nil_r.
  - cbn [or_try]. destruct (forallb e aft && (1 <=? length aft)%nat); reflexivity.
Qed.

Lemma search_ends_tail (bef aft : list ascii) :
  bef <> [] ->
  search plain both_ends bef aft =
  match tail_run e aft with
  | [] => None
  | suf => Some (rev (strip_tail e aft) ++ bef, suf, MState (rev aft ++ bef) [] [])
  end.
Proof.
  revert bef. induction aft as [|c t IH]; intros bef Hbef.
  - cbn [search]. rewrite exec_ends. destruct bef; [congruence|reflexivity].
  - cbn [search]. rewrite exec_ends. destruct bef as [|b bef]; [congruence|].
    cbn [tail_run strip_tail length]. rewrite andb_true_r.
    destruct (forallb e (c :: t)) eqn:Ef; [reflexivity|].
    rewrite IH by discriminate.
    destruct (tail_run e t); [reflexivity|].
    cbn [rev]. now rewrite <- !app_assoc.
Qed.

Lemma tail_run_length (l : list ascii) : length (tail_run e l) <= length l.
Proof.
  induction l as [|c t IH]; [reflexivity|]. cbn [tail_run].
  destruct (forallb e (c :: t)); simpl; lia.
Qed.

Lemma skipped_tail (aft : list ascii) : skipped aft (tail_run e aft) = strip_tail e aft.
Proof.
  unfold skipped. rewrite <- (strip_tail_run e aft) at 1 3.
  rewrite length_app, Nat.add_sub, take_app_length. reflexivity.
Qed.

(** Deleting the matches of the pattern, once the start is passed:
    the run at the end goes. *)
Lemma replace_ends_tail (fuel : nat) (bef aft : list ascii) :
  bef <> [] -> length aft < fuel ->
  replace_go plain both_ends (fun _ => []) fuel bef aft = strip_tail e aft.
Proof.
  intros Hbef Hf. destruct fuel as [|f]; [lia|].
  cbn [replace_go]. rewrite search_ends_tail by exact Hbef.
  pose proof (strip_tail_run e aft) as Hsplit.
  pose proof (skipped_tail aft) as Hskip.
  destruct (tail_run e aft) as [|c t] eqn:Et.
  - now rewrite app_nil_r in Hsplit.
  - cbn [after before app length]. rewrite Hskip.
    destruct f as [|f]; cbn [replace_go Nat.eqb]; [now rewrite app_nil_r|].
    cbn [search]. rewrite exec_ends.
    destruct (rev aft ++ bef) eqn:Er.
    + apply app_eq_nil in Er as [_ Er]. congruence.
    + cbn. now rewrite app_nil_r.
Qed.

(** Deleting the matches of the pattern from the start of a text: the
    runs at both ends go. *)
Lemma replace_ends (fuel : nat) (aft : list ascii) :
  length aft < fuel ->
  replace_go plain both_ends (fun _ => []) fuel [] aft = strip_tail e (rest_of e aft).
Proof.
  intros Hf. destruct fuel as [|f]; [lia|].
  cbn [replace_go]. destruct aft as [|c t]; [reflexivity|].
  cbn [search]. rewrite exec_ends. cbn [run_of rest_of].
  destruct (e c) eqn:Ec.
  - cbn [after before]. unfold skipped. rewrite Nat.sub_diag. cbn [take app].
    pose proof (rest_of_length e t) as Hlen.
    assert (E : (length (rest_of e t) =? length (c :: t))%nat = false)
      by (apply Nat.eqb_neq; simpl; lia).
    rewrite E. apply replace_ends_tail.
    + intros H. apply app_eq_nil in H as [_ H]. discriminate H.
    + simpl in Hf. lia.
  - rewrite search_ends_tail by discriminate.
    pose proof (strip_tail_run e t) as Hsplit.
    pose proof (skipped_tail t) as Hskip.
    pose proof (tail_run_length t) as Hlen.
    cbn [strip_tail forallb]. rewrite Ec. cbn [andb].
    destruct (tail_run e t) as [|x u] eqn:Et.
    + rewrite app_nil_r in Hsplit. now rewrite Hsplit.
    + cbn [after before app]. f_equal.
      assert (Hs : skipped (c :: t) (x :: u) = c :: strip_tail e t).
      { unfold skipped in *. simpl in Hlen.
        replace (length (c :: t) - length (x :: u)) with (S (length t - length (x :: u)))
          by (simpl; lia).
        cbn [take]. now rewrite Hskip. }
      rewrite Hs. cbn [app]. f_equal.
      assert (E : (0 =? length (x :: u))%nat = false) by reflexivity.
      cbn [length]. cbn [Nat.eqb].
      destruct f as [|f]; cbn [replace_go]; [now rewrite app_nil_r|].
      cbn [search]. rewrite exec_ends.
      destruct (rev t ++ [c]) eqn:Er.
      * apply app_eq_nil in Er as [_ Er]. discriminate Er.
      * cbn. now rewrite app_nil_r.
Qed.

Lemma replaceAll_ends (text : string) :
  replaceAll plain both_ends (fun _ => []) text =
  str (strip_tail e (rest_of e (chars text))).
Proof.
  unfold replaceAll. rewrite replace_ends; [reflexivity|].
  rewrite RegexFacts.length_chars. lia.
Qed.

End Edges.

End MatchFacts.

(** *** The matcher and what a pattern matches *)

Module MatcherFacts.
Import Regex Denotation.
Local Open Scope list_scope.

#[local] Abbreviation ahead s := (length (after s)).

Lemma first_word_app (w t : list ascii) (rw : bool) :
  first_word (w ++ t) rw = first_word w (first_word t rw).
Proof. now destruct w. Qed.

Lemma is_word_at_app (w t : list ascii) :
  is_word_at (w ++ t) = first_word w (is_word_at t).
Proof. now destruct w. Qed.

Lemma is_word_at_first (t : list ascii) : is_word_at t = first_word t false.
Proof. now destruct t. Qed.

Lemma last_word_app (lw : bool) (a b : list ascii) :
  last_word lw (a ++ b) = last_word (last_word lw a) b.
Proof.
  unfold last_word. rewrite rev_app_distr. now destruct (rev b).
Qed.

Lemma is_word_at_rev (w bef : list ascii) :
  is_word_at (rev w ++ bef) = last_word (is_word_at bef) w.
Proof. unfold last_word. now destruct (rev w). Qed.

Lemma last_word_nonempty (lw lw' : bool) (w : list ascii) :
  w <> [] -> last_word lw w = last_word lw' w.
Proof.
  unfold last_word. destruct (rev w) eqn:E; [|reflexivity].
  intros H. apply (f_equal (@rev ascii)) in E. rewrite rev_involutive in E.
  now destruct H.
Qed.

Lemma first_word_nonempty (rw rw' : bool) (w : list ascii) :
  w <> [] -> first_word w rw = first_word w rw'.
Proof. now destruct w. Qed.

Lemma hi_is_zero_spec (hi : option nat) : hi_is_zero hi = true <-> hi = Some 0%nat.
Proof. destruct hi as [[|n]|]; simpl; split; congruence. Qed.

(** **** Soundness: a match found is a match of the pattern *)

Section Sound.

Variable fl : flags.

Lemma rep_loop_sound
    (step : mstate -> (mstate -> option mstate) -> option mstate)
    (D : bool -> list ascii -> bool -> Prop)
    (k : mstate -> option mstate) (greedy : bool) :
  (forall s c m, step s c = Some m ->
     exists w t cs, after s = w ++ t /\
       D (is_word_at (before s)) w (is_word_at t) /\
       c (MState (rev w ++ before s) t cs) = Some m) ->
  forall fuel lo hi s m,
    rep_loop step k greedy fuel lo hi s = Some m ->
    exists w t cs, after s = w ++ t /\
      Iter D lo hi (is_word_at (before s)) w (is_word_at t) /\
      k (MState (rev w ++ before s) t cs) = Some m.
Proof.
  intros Hstep. induction fuel as [|f IH]; intros lo hi s m; simpl; [discriminate|].
  assert (Hstop : (lo = 0%nat \/ hi = Some 0%nat) -> k s = Some m ->
    exists w t cs, after s = w ++ t /\
      Iter D lo hi (is_word_at (before s)) w (is_word_at t) /\
      k (MState (rev w ++ before s) t cs) = Some m).
  { intros H0 H. exists [], (after s), (caps s). split; [reflexivity|].
    split; [now constructor|]. now destruct s. }
  destruct (hi_is_zero hi) eqn:Ehi.
  { apply Hstop. right. now apply hi_is_zero_spec. }
  assert (Hhi : hi <> Some 0%nat).
  { intros H. apply hi_is_zero_spec in H. congruence. }
  assert (Hiter :
    step s (fun s1 =>
      if (lo =? 0)%nat && (ahead s1 =? ahead s)%nat then None
      else rep_loop step k greedy f (Nat.pred lo) (pred_hi hi) s1) = Some m ->
    exists w t cs, after s = w ++ t /\
      Iter D lo hi (is_word_at (before s)) w (is_word_at t) /\
      k (MState (rev w ++ before s) t cs) = Some m).
  { intros H. apply Hstep in H as (w1 & t1 & cs1 & E1 & D1 & H).
    cbn [after before] in H.
    destruct ((lo =? 0)%nat && (length t1 =? ahead s)%nat) eqn:Eg; [discriminate|].
    apply IH in H as (w2 & t & cs & E2 & I2 & H). cbn [after before] in *.
    exists (w1 ++ w2), t, cs. split; [rewrite E1, E2; now rewrite app_assoc|].
    split.
    - apply iter_step; [assumption| | |].
      + intros -> ->. rewrite E1 in Eg. simpl in Eg.
        now rewrite Nat.eqb_refl in Eg.
      + rewrite <- is_word_at_app, <- E2. exact D1.
      + rewrite <- is_word_at_rev. exact I2.
    - rewrite rev_app_distr, <- app_assoc. exact H. }
  destruct (0 <? lo)%nat eqn:Elo; [exact Hiter|].
  apply Nat.ltb_ge in Elo. assert (lo = 0%nat) as E0 by lia.
  destruct greedy; unfold or_try.
  - destruct (step s _) eqn:E; [intros [= <-]; now apply Hiter|].
    apply Hstop. now left.
  - destruct (k s) eqn:E; [intros [= <-]; apply Hstop; [now left|reflexivity]|].
    exact Hiter.
Qed.

Lemma run_sound (r : re) :
  anchor_free r = true ->
  forall sl s k m,
    run sl fl r s k = Some m ->
    exists w t cs, after s = w ++ t /\
      den (ignoreCase fl) r (is_word_at (before s)) w (is_word_at t) /\
      k (MState (rev w ++ before s) t cs) = Some m.
Proof.
  induction r as [|a|r1 IH1 r2 IH2|r1 IH1 r2 IH2|lo hi greedy r0 IH|i r0 IH| | |];
    intros Hfree sl s k m; simpl in Hfree |- *; try discriminate.
  - intros H. exists [], (after s), (caps s). repeat split. now destruct s.
  - destruct (after s) as [|c t] eqn:E; [discriminate|].
    destruct (cs_test _ a c) eqn:Ec; [|discriminate].
    intros H. exists [c], t, (caps s). split; [reflexivity|].
    split; [now exists c|exact H].
  - apply andb_true_iff in Hfree as [F1 F2].
    intros H. apply (IH1 F1) in H as (w1 & t1 & cs1 & E1 & D1 & H).
    apply (IH2 F2) in H as (w2 & t & cs & E2 & D2 & H). cbn [after before] in *.
    exists (w1 ++ w2), t, cs. split; [rewrite E1, E2; now rewrite app_assoc|].
    split.
    + exists w1, w2. split; [reflexivity|]. split.
      * rewrite <- is_word_at_app, <- E2. exact D1.
      * rewrite <- is_word_at_rev. exact D2.
    + rewrite rev_app_distr, <- app_assoc. exact H.
  - apply andb_true_iff in Hfree as [F1 F2]. unfold or_try.
    destruct (run sl fl r1 s k) eqn:E.
    + intros [= <-]. apply (IH1 F1) in E as (w & t & cs & E1 & D1 & H).
      exists w, t, cs. repeat split; [assumption|now left|assumption].
    + intros H. apply (IH2 F2) in H as (w & t & cs & E1 & D1 & H).
      exists w, t, cs. repeat split; [assumption|now right|assumption].
  - apply rep_loop_sound. intros s0 c m0. now apply IH.
  - intros H. apply (IH Hfree) in H as (w & t & cs & E1 & D1 & H).
    cbn [set_cap before after caps] in H.
    exists w, t, ((i, consumed s (MState (rev w ++ before s) t cs)) :: cs).
    repeat split; assumption.
  - destruct (at_word_boundary s) eqn:E; [|discriminate].
    intros H. exists [], (after s), (caps s). repeat split; [exact E|now destruct s].
Qed.

End Sound.

(** **** Completeness: a match of the pattern is found *)

Section Complete.

Variable fl : flags.

Lemma rep_loop_complete
    (step : mstate -> (mstate -> option mstate) -> option mstate)
    (D : bool -> list ascii -> bool -> Prop)
    (k : mstate -> option mstate) (greedy : bool) :
  (forall s c w t, after s = w ++ t ->
     D (is_word_at (before s)) w (is_word_at t) ->
     (forall cs, c (MState (rev w ++ before s) t cs) <> None) ->
     step s c <> None) ->
  forall lo hi lw w rw, Iter D lo hi lw w rw ->
  forall fuel s t,
    after s = w ++ t -> lw = is_word_at (before s) -> rw = is_word_at t ->
    lo + ahead s < fuel ->
    (forall cs, k (MState (rev w ++ before s) t cs) <> None) ->
    rep_loop step k greedy fuel lo hi s <> None.
Proof.
  intros Hstep lo hi lw w rw HI.
  induction HI as [lo hi lw rw H0|lo hi lw rw w1 w2 Hhi Hne D1 HI IH];
    intros fuel s t Ea -> -> Hf Hk; (destruct fuel as [|f]; [lia|]); simpl.
  - assert (Hs : k s <> None).
    { specialize (Hk (caps s)). simpl in Ea, Hk. rewrite <- Ea in Hk. now destruct s. }
    destruct (hi_is_zero hi) eqn:Ehi; [exact Hs|].
    destruct H0 as [->|H0]; [|apply hi_is_zero_spec in H0; congruence].
    simpl. destruct greedy; unfold or_try.
    + now destruct (step s _).
    + now destruct (k s).
  - assert (Ehi : hi_is_zero hi = false).
    { destruct (hi_is_zero hi) eqn:E; [|reflexivity].
      apply hi_is_zero_spec in E. contradiction. }
    rewrite Ehi.
    assert (Hiter :
      step s (fun s1 =>
        if (lo =? 0)%nat && (ahead s1 =? ahead s)%nat then None
        else rep_loop step k greedy f (Nat.pred lo) (pred_hi hi) s1) <> None).
    { apply (Hstep s _ w1 (w2 ++ t)).
      - rewrite Ea. now rewrite app_assoc.
      - rewrite is_word_at_app. exact D1.
      - intros cs. cbn [after].
        assert (Eg : (lo =? 0)%nat && (length (w2 ++ t) =? ahead s)%nat = false).
        { destruct (Nat.eqb_spec lo 0) as [E0|E0]; [|reflexivity]. simpl.
          apply Nat.eqb_neq. rewrite Ea, <- app_assoc, (length_app w1).
          specialize (Hne E0). destruct w1; [contradiction|simpl; lia]. }
        rewrite Eg.
        apply (IH f _ t); cbn [after before].
        + reflexivity.
        + now rewrite is_word_at_rev.
        + reflexivity.
        + rewrite Ea, <- app_assoc, (length_app w1) in Hf.
          destruct (Nat.eq_dec lo 0) as [E0|E0].
          * specialize (Hne E0). destruct w1; [contradiction|]. simpl in Hf. lia.
          * lia.
        + intros cs'. specialize (Hk cs').
          now rewrite rev_app_distr, <- app_assoc in Hk. }
    destruct (0 <? lo)%nat; [exact Hiter|].
    destruct greedy; unfold or_try.
    + now destruct (step s _).
    + now destruct (k s).
Qed.

Lemma run_complete (r : re) :
  forall sl s k w t,
    after s = w ++ t ->
    den (ignoreCase fl) r (is_word_at (before s)) w (is_word_at t) ->
    (forall cs, k (MState (rev w ++ before s) t cs) <> None) ->
    run sl fl r s k <> None.
Proof.
  induction r as [|a|r1 IH1 r2 IH2|r1 IH1 r2 IH2|lo hi greedy r0 IH|i r0 IH| | |];
    intros sl s k w t Ea Hd Hk; simpl in Hd |- *; try contradiction.
  - subst w. specialize (Hk (caps s)). simpl in Ea, Hk. rewrite <- Ea in Hk.
    now destruct s.
  - destruct Hd as (c & -> & Hc). rewrite Ea. simpl. rewrite Hc. apply Hk.
  - destruct Hd as (w1 & w2 & -> & D1 & D2).
    apply (IH1 sl s _ w1 (w2 ++ t)).
    + rewrite Ea. now rewrite app_assoc.
    + now rewrite is_word_at_app.
    + intros cs. apply (IH2 sl _ k w2 t); cbn [after before].
      * reflexivity.
      * now rewrite is_word_at_rev.
      * intros cs'. specialize (Hk cs').
        now rewrite rev_app_distr, <- app_assoc in Hk.
  - unfold or_try. destruct (run sl fl r1 s k) eqn:E; [discriminate|].
    destruct Hd as [D1|D2].
    + exfalso. now apply (IH1 sl s k w t Ea D1 Hk).
    + now apply (IH2 sl s k w t).
  - eapply rep_loop_complete; try eassumption; try reflexivity; [|lia].
    intros s0 c w0 t0. apply IH.
  - apply (IH sl s _ w t Ea Hd). intros cs. apply Hk.
  - destruct Hd as [-> Hb]. unfold at_word_boundary.
    rewrite Ea. simpl. rewrite Hb. specialize (Hk (caps s)). simpl in Ea, Hk.
    rewrite <- Ea in Hk. now destruct s.
Qed.

End Complete.

(** **** One attempt, the search and the test *)

Section Search.

Variable fl : flags.
Variable r : re.
Hypothesis r_free : anchor_free r = true.

Lemma exec_at_hit (bef aft : list ascii) (m : mstate) :
  exec_at fl r bef aft = Some m ->
  exists w t cs, aft = w ++ t /\
    den (ignoreCase fl) r (is_word_at bef) w (first_word t false) /\
    m = MState (rev w ++ bef) t cs.
Proof.
  intros H. apply (run_sound fl r r_free) in H as (w & t & cs & E & D & [= <-]).
  exists w, t, cs. rewrite <- is_word_at_first. auto.
Qed.

Lemma exec_at_miss (bef w t : list ascii) :
  exec_at fl r bef (w ++ t) = None ->
  ~ den (ignoreCase fl) r (is_word_at bef) w (first_word t false).
Proof.
  intros H D. revert H. apply (run_complete fl r 0 _ Some w t); [reflexivity| |discriminate].
  now rewrite is_word_at_first.
Qed.

Lemma search_none : forall aft bef,
  search fl r bef aft = None ->
  forall a b, aft = a ++ b -> exec_at fl r (rev a ++ bef) b = None.
Proof.
  induction aft as [|c t IH]; intros bef; simpl.
  - destruct (exec_at fl r bef []) eqn:E; [discriminate|]. intros _ a b H.
    symmetry in H. apply app_eq_nil in H as [-> ->]. exact E.
  - destruct (exec_at fl r bef (c :: t)) eqn:E; [discriminate|]. intros H a b Hab.
    destruct a as [|x a]; simpl in Hab.
    + now subst b.
    + injection Hab as <- ->. simpl. rewrite <- app_assoc. now apply IH.
Qed.

Lemma search_some : forall aft bef b0 a0 m,
  search fl r bef aft = Some (b0, a0, m) ->
  exists s, aft = s ++ a0 /\ b0 = rev s ++ bef /\ exec_at fl r b0 a0 = Some m /\
    forall a b, s = a ++ b -> b <> [] -> exec_at fl r (rev a ++ bef) (b ++ a0) = None.
Proof.
  induction aft as [|c t IH]; intros bef b0 a0 m; simpl.
  - destruct (exec_at fl r bef []) eqn:E; [|discriminate]. intros [= <- <- <-].
    exists []. repeat split; [exact E|]. intros a b H. symmetry in H.
    apply app_eq_nil in H as [_ ->]. congruence.
  - destruct (exec_at fl r bef (c :: t)) eqn:E.
    + intros [= <- <- <-]. exists []. repeat split; [exact E|].
      intros a b H. symmetry in H. apply app_eq_nil in H as [_ ->]. congruence.
    + intros H. apply IH in H as (s & -> & -> & Hm & Hs).
      exists (c :: s). split; [reflexivity|]. split; [simpl; now rewrite <- app_assoc|].
      split; [exact Hm|]. intros a b Hab Hb.
      destruct a as [|x a]; simpl in Hab.
      * subst b. exact E.
      * injection Hab as <- ->. simpl. rewrite <- app_assoc. now apply Hs.
Qed.

Lemma search_none_free (bef aft : list ascii) :
  search fl r bef aft = None ->
  free_of (ignoreCase fl) r (is_word_at bef) aft [].
Proof.
  intros H a w b -> D. rewrite app_nil_r in D.
  apply (exec_at_miss (rev a ++ bef) w b).
  - now apply (search_none _ _ H).
  - now rewrite is_word_at_rev.
Qed.

Lemma search_some_free (bef s a0 : list ascii) :
  (forall a b, s = a ++ b -> b <> [] -> exec_at fl r (rev a ++ bef) (b ++ a0) = None) ->
  (forall lw w rw, den (ignoreCase fl) r lw w rw -> w <> []) ->
  free_of (ignoreCase fl) r (is_word_at bef) s a0.
Proof.
  intros Hs Hne a w b -> D.
  apply (exec_at_miss (rev a ++ bef) w (b ++ a0)).
  - rewrite app_assoc. apply Hs; [reflexivity|].
    apply Hne in D. now destruct w.
  - now rewrite is_word_at_rev.
Qed.

Lemma test_false (text : string) :
  test fl r text = false -> ~ occurs (ignoreCase fl) r false (chars text).
Proof.
  unfold test. destruct (search fl r [] (chars text)) as [x|] eqn:E; [discriminate|].
  intros _ (a & w & b & Ht & D).
  apply (exec_at_miss (rev a ++ []) w b).
  - now apply (search_none _ _ E).
  - now rewrite is_word_at_rev.
Qed.

Lemma test_true (text : string) :
  test fl r text = true -> occurs (ignoreCase fl) r false (chars text).
Proof.
  unfold test. destruct (search fl r [] (chars text)) as [[[b0 a0] m]|] eqn:E;
    [|discriminate].
  intros _. apply search_some in E as (s & Ht & -> & Hm & _).
  apply exec_at_hit in Hm as (w & t & cs & -> & D & _).
  exists s, w, t. split; [exact Ht|]. now rewrite is_word_at_rev in D.
Qed.

Lemma no_occurrence_test (text : string) :
  ~ occurs (ignoreCase fl) r false (chars text) -> test fl r text = false.
Proof.
  intros H. destruct (test fl r text) eqn:E; [|reflexivity].
  now apply test_true in E.
Qed.

End Search.

(** **** What the shape of a pattern says of its matches *)

Section Shape.

Variable ic : bool.

Lemma den_nonempty (r : re) :
  can_be_empty r = false ->
  forall lw w rw, den ic r lw w rw -> w <> [].
Proof.
  induction r as [|a|r1 IH1 r2 IH2|r1 IH1 r2 IH2|lo hi greedy r0 IH|i r0 IH| | |];
    simpl; try discriminate; intros He lw w rw D.
  - now destruct D as (c & -> & _).
  - destruct D as (w1 & w2 & -> & D1 & D2). intros E.
    apply app_eq_nil in E as [-> ->].
    apply andb_false_iff in He as [He|He]; [now apply (IH1 He _ _ _ D1)|
                                             now apply (IH2 He _ _ _ D2)].
  - apply orb_false_iff in He as [H1 H2].
    destruct D as [D|D]; [now apply (IH1 H1 _ _ _ D)|now apply (IH2 H2 _ _ _ D)].
  - apply orb_false_iff in He as [He H0]. apply orb_false_iff in He as [Hlo Hhi].
    apply Nat.eqb_neq in Hlo.
    inversion D as [? ? ? ? [E|E]|? ? ? ? w1 w2 _ _ D1 _]; subst.
    + contradiction.
    + now rewrite (proj2 (hi_is_zero_spec _) eq_refl) in Hhi.
    + intros E. apply app_eq_nil in E as [-> _]. now apply (IH H0 _ _ _ D1).
  - now apply (IH He lw w rw).
Qed.

Lemma den_starts (r : re) (lw rw : bool) (w : list ascii) :
  starts_boundary r = true -> den ic r lw w rw -> xorb lw (first_word w rw) = true.
Proof.
  destruct r as [|a|r1 r2|r1 r2|lo hi greedy r0|i r0| | |]; try discriminate.
  destruct r1; try discriminate. intros _ (w1 & w2 & -> & [-> H] & _). exact H.
Qed.

Lemma den_ends (r : re) :
  ends_boundary r = true ->
  forall lw w rw, den ic r lw w rw -> xorb (last_word lw w) rw = true.
Proof.
  induction r as [|a|r1 IH1 r2 IH2|r1 IH1 r2 IH2|lo hi greedy r0 IH|i r0 IH| | |];
    simpl; try discriminate; intros He lw w rw D.
  - destruct D as (w1 & w2 & -> & _ & D2). rewrite last_word_app. now apply IH2.
  - now destruct D as [-> H].
Qed.

Lemma iter_accepts (D : bool -> list ascii -> bool -> Prop) (p : ascii -> bool) :
  (forall lw w rw, D lw w rw -> Forall (fun c => p c = true) w) ->
  forall lo hi lw w rw, Iter D lo hi lw w rw -> Forall (fun c => p c = true) w.
Proof.
  intros HD lo hi lw w rw H. induction H as [|lo hi lw rw w1 w2 _ _ D1 _ IH];
    [constructor|]. apply Forall_app. split; [now apply HD in D1|exact IH].
Qed.

Lemma den_accepts (r : re) :
  forall lw w rw, den ic r lw w rw -> Forall (fun c => accepts ic r c = true) w.
Proof.
  induction r as [|a|r1 IH1 r2 IH2|r1 IH1 r2 IH2|lo hi greedy r0 IH|i r0 IH| | |];
    simpl; intros lw w rw D; try contradiction.
  - subst w. constructor.
  - destruct D as (c & -> & Hc). now repeat constructor.
  - destruct D as (w1 & w2 & -> & D1 & D2). apply Forall_app. split.
    + eapply Forall_impl; [exact (IH1 _ _ _ D1)|]. simpl. intros c ->. reflexivity.
    + eapply Forall_impl; [exact (IH2 _ _ _ D2)|]. simpl. intros c ->.
      apply orb_true_r.
  - destruct D as [D|D].
    + eapply Forall_impl; [exact (IH1 _ _ _ D)|]. simpl. intros c ->. reflexivity.
    + eapply Forall_impl; [exact (IH2 _ _ _ D)|]. simpl. intros c ->.
      apply orb_true_r.
  - now apply (iter_accepts _ _ IH) in D.
  - now apply IH in D.
  - destruct D as [-> _]. constructor.
Qed.

End Shape.

End MatcherFacts.

(** *** Redaction leaves no match behind *)

Module RedactedFacts.
Import Regex Denotation MatcherFacts.
Local Open Scope list_scope.

Lemma app_split3 {A : Type} (a w b x y : list A) :
  a ++ w ++ b = x ++ y ->
  (exists b1, x = a ++ w ++ b1 /\ b = b1 ++ y) \/
  (exists a2, a = x ++ a2 /\ y = a2 ++ w ++ b) \/
  (exists w1 w2, w = w1 ++ w2 /\ w1 <> [] /\ w2 <> [] /\ x = a ++ w1 /\ y = w2 ++ b).
Proof.
  intros H. apply List.app_eq_app in H as [l [[-> ->]|[-> H]]].
  - right. left. now exists l.
  - apply List.app_eq_app in H as [l' [[-> ->]|[-> ->]]].
    + destruct l as [|c l].
      * right. left. exists []. rewrite !app_nil_r. now split.
      * destruct l' as [|c' l'].
        -- left. exists []. rewrite !app_nil_r. now split.
        -- right. right. exists (c :: l), (c' :: l'). now repeat split.
    + left. now exists l'.
Qed.

Lemma bracketed_first (h rest : list ascii) :
  bracketed h -> first_word (h ++ rest) false = false.
Proof. intros [inner ->]. reflexivity. Qed.

Lemma bracketed_last (lw : bool) (pre h : list ascii) :
  bracketed h -> last_word lw (pre ++ h) = false.
Proof.
  intros [inner ->]. unfold last_word.
  change ("["%char :: inner ++ ["]"%char]) with (("["%char :: inner) ++ ["]"%char]).
  rewrite app_assoc, rev_app_distr. reflexivity.
Qed.

Lemma plain_not_first (w t h rest : list ascii) :
  bracketed h -> Forall (fun c => bracket c = false) w ->
  w <> [] -> h ++ rest = w ++ t -> False.
Proof.
  intros [inner ->] Hw Hne E. destruct w as [|c w]; [contradiction|].
  injection E as <- _. now inversion Hw.
Qed.

Lemma plain_not_last (w a h : list ascii) :
  bracketed h -> Forall (fun c => bracket c = false) w ->
  w <> [] -> h = a ++ w -> False.
Proof.
  intros [inner ->] Hw Hne E.
  destruct (exists_last Hne) as (w' & c & ->).
  change ("["%char :: inner ++ ["]"%char]) with (("["%char :: inner) ++ ["]"%char]) in E.
  rewrite app_assoc in E. apply app_inj_tail in E as [_ <-].
  apply Forall_app in Hw as [_ Hw]. now inversion Hw.
Qed.

Section NoNewMatch.

Variable ic : bool.
Variable P : re.
Hypothesis P_nonempty : forall lw w rw, den ic P lw w rw -> w <> [].
Hypothesis P_starts :
  forall lw w rw, den ic P lw w rw -> xorb lw (first_word w rw) = true.
Hypothesis P_ends :
  forall lw w rw, den ic P lw w rw -> xorb (last_word lw w) rw = true.
Hypothesis P_plain :
  forall lw w rw, den ic P lw w rw -> Forall (fun c => bracket c = false) w.

Variable Free : bool -> list ascii -> list ascii -> Prop.
Variable Marker : list ascii -> Prop.
Hypothesis marker_bracketed : forall h, Marker h -> bracketed h.
Hypothesis marker_clean : forall h lw, Marker h -> ~ occurs ic P lw h.

Lemma left_side (lw lw' rw : bool) (a w t : list ascii) :
  same_side lw lw' (a ++ w ++ t) ->
  den ic P (last_word lw' a) w rw ->
  last_word lw' a = last_word lw a.
Proof.
  intros Hc D. destruct a as [|c a]; [|now apply last_word_nonempty].
  destruct Hc as [->|[-> Hc]]; [reflexivity|].
  change (last_word false []) with false in *. change (last_word lw []) with lw.
  symmetry. apply Hc. apply P_starts in D as Hs. apply P_nonempty in D.
  destruct w as [|x w]; [contradiction|]. exact Hs.
Qed.

(** A match in the redaction is a match in a stretch of the text that
    was kept. *)
Lemma redacted_occurrence (lw : bool) (text result : list ascii) :
  Redacted Free Marker lw text result ->
  forall lw', same_side lw lw' text ->
    occurs ic P lw' result -> within_kept ic P Free lw text.
Proof.
  induction 1 as [lw text HF|lw s q rest h result HF Hq Hm Hs He HR IH];
    intros lw' Hc (a & w & b & E & D).
  - subst text. exists [], (a ++ w ++ b), [], a, w, b.
    rewrite app_nil_r. change (last_word lw []) with lw.
    repeat split; [exact HF|].
    rewrite <- (left_side lw lw' _ a w b Hc D), (app_nil_r b). exact D.
  - assert (Hb := marker_bracketed h Hm).
    assert (Hw := P_plain _ _ _ D). assert (Hne := P_nonempty _ _ _ D).
    symmetry in E. apply app_split3 in E as [(b1 & Es & ->)|[(a2 & -> & E)|E]].
    + exists [], s, (q ++ rest), a, w, b1. repeat split; [exact HF|exact Es|].
      change (last_word lw []) with lw.
      assert (El : last_word lw' a = last_word lw a).
      { apply (left_side lw lw' (first_word (b1 ++ h ++ result) false) a w
                 (b1 ++ q ++ rest)); [|exact D].
        rewrite Es, <- !app_assoc in Hc. exact Hc. }
      rewrite El in D.
      destruct b1 as [|c b1]; [|exact D].
      cbn [app] in D |- *. rewrite (bracketed_first h result Hb) in D.
      apply P_ends in D as Hl. rewrite xorb_false_r in Hl.
      rewrite Es, app_nil_r, last_word_app, Hl in Hs. cbn in Hs.
      apply negb_true_iff in Hs.
      rewrite first_word_app, (first_word_nonempty _ false q Hq), Hs. exact D.
    + symmetry in E. apply app_split3 in E as [(b1 & Eh & ->)|[(a3 & -> & E)|E]].
      * exfalso. apply (marker_clean h (last_word lw' s) Hm).
        exists a2, w, b1. split; [exact Eh|].
        rewrite last_word_app in D.
        destruct b1 as [|c b1]; [|exact D].
        exfalso. rewrite app_nil_r in Eh. exact (plain_not_last w a2 h Hb Hw Hne Eh).
      * assert (El : last_word lw' (s ++ h ++ a3) = last_word false a3).
        { rewrite !app_assoc, last_word_app.
          now rewrite (bracketed_last lw' s h Hb). }
        rewrite El in D.
        destruct (IH false) as (pre & s0 & fol & a0 & w0 & b0 & -> & HF0 & -> & D0).
        -- right. split; [reflexivity|]. intros Hr.
           rewrite last_word_app, (last_word_nonempty _ false q Hq). now apply He.
        -- exists a3, w, b. split; [exact E|exact D].
        -- exists (s ++ q ++ pre), (a0 ++ w0 ++ b0), fol, a0, w0, b0.
           assert (Ep : last_word lw (s ++ q ++ pre) =
                        last_word (last_word lw (s ++ q)) pre).
           { now rewrite !app_assoc, last_word_app. }
           rewrite Ep. repeat split; [now rewrite <- !app_assoc|exact HF0|exact D0].
      * destruct E as (w1 & w2 & -> & H1 & H2 & Eh & _).
        exfalso. apply Forall_app in Hw as [Hw _].
        exact (plain_not_last w1 a2 h Hb Hw H1 Eh).
    + destruct E as (w1 & w2 & -> & H1 & H2 & _ & Eh).
      exfalso. apply Forall_app in Hw as [_ Hw].
      exact (plain_not_first w2 b h result Hb Hw H2 Eh).
Qed.

End NoNewMatch.

Lemma within_kept_occurs (ic : bool) (P : re)
    (Free : bool -> list ascii -> list ascii -> Prop) (lw : bool) (text : list ascii) :
  within_kept ic P Free lw text -> occurs ic P lw text.
Proof.
  intros (pre & s & fol & a & w & b & -> & _ & -> & D).
  exists (pre ++ a), w, (b ++ fol). split; [now rewrite <- !app_assoc|].
  now rewrite last_word_app.
Qed.

Lemma within_kept_free (ic : bool) (P : re) (lw : bool) (text : list ascii) :
  ~ within_kept ic P (free_of ic P) lw text.
Proof.
  intros (pre & s & fol & a & w & b & _ & HF & Es & D). exact (HF a w b Es D).
Qed.

Lemma skipped_app (s a0 : list ascii) : skipped (s ++ a0) a0 = s.
Proof.
  unfold skipped. rewrite length_app, Nat.add_sub. now rewrite take_app_length.
Qed.

(** **** One pass with a marker in brackets *)

Section Pass.

Variable fl : flags.
Variable Q : re.
Variable h : list ascii.
Hypothesis Q_free : anchor_free Q = true.
Hypothesis Q_nonempty :
  forall lw w rw, den (ignoreCase fl) Q lw w rw -> w <> [].
Hypothesis Q_starts :
  forall lw w rw, den (ignoreCase fl) Q lw w rw -> xorb lw (first_word w rw) = true.
Hypothesis Q_end :
  forall bef aft m, exec_at fl Q bef aft = Some m ->
    first_word (after m) false = true -> is_word_at (before m) = false.

Lemma replace_redacted : forall fuel bef aft,
  length aft < fuel ->
  Redacted (free_of (ignoreCase fl) Q) (eq h) (is_word_at bef) aft
           (replace_go fl Q (fun _ => h) fuel bef aft).
Proof.
  induction fuel as [|f IH]; intros bef aft Hf; [lia|]. simpl.
  destruct (search fl Q bef aft) as [[[b0 a0] m]|] eqn:E.
  - apply (search_some fl Q) in E as (s & -> & -> & Hm & Hs).
    assert (Hend := Q_end _ _ _ Hm).
    apply (exec_at_hit fl Q Q_free) in Hm as (w & t & cs & -> & D & ->).
    assert (Hw := Q_nonempty _ _ _ D).
    cbn [after before] in *. rewrite skipped_app.
    assert (Eg : (length t =? length (w ++ t))%nat = false).
    { apply Nat.eqb_neq. rewrite length_app. destruct w; [contradiction|simpl; lia]. }
    rewrite Eg. apply red_hit.
    + apply (search_some_free fl Q); [exact Hs|exact Q_nonempty].
    + exact Hw.
    + reflexivity.
    + apply Q_starts in D. rewrite is_word_at_rev in D.
      now rewrite (first_word_nonempty _ false w Hw) in D.
    + intros Ht. specialize (Hend Ht). rewrite is_word_at_rev in Hend.
      now rewrite (last_word_nonempty _ false w Hw) in Hend.
    + assert (E2 : rev w ++ rev s ++ bef = rev (s ++ w) ++ bef)
        by now rewrite rev_app_distr, <- app_assoc.
      rewrite E2, <- is_word_at_rev. apply IH.
      rewrite !length_app in Hf. destruct w; [contradiction|simpl in Hf; lia].
  - apply red_keep. now apply (search_none_free fl Q).
Qed.

End Pass.

End RedactedFacts.

(** *** The passes of the redaction *)

Module RemovalFacts.
Import Regex Denotation MatcherFacts RedactedFacts Redact.
Local Open Scope list_scope.

Lemma redacted_prepend (Marker : list ascii -> Prop) (x : list ascii) (lw : bool)
    (t result : list ascii) :
  Redacted unconstrained Marker (last_word lw x) t result ->
  Redacted unconstrained Marker lw (x ++ t) (x ++ result).
Proof.
  intros H. inversion H as [lw0 text _|lw0 s q rest h res _ Hq Hm Hs He HR]; subst.
  - now apply red_keep.
  - rewrite !(app_assoc x). apply red_hit; try assumption; try exact I.
    + now rewrite last_word_app.
    + now rewrite <- app_assoc, last_word_app.
Qed.

Lemma redacted_unconstrained (Free : bool -> list ascii -> list ascii -> Prop)
    (Marker : list ascii -> Prop) (lw : bool) (t result : list ascii) :
  Redacted Free Marker lw t result -> Redacted unconstrained Marker lw t result.
Proof.
  induction 1; [now apply red_keep|]. apply red_hit; try assumption. exact I.
Qed.

Lemma run_seq_sound (fl : flags) (r1 r2 : re) (sl : nat) (s : mstate)
    (k : mstate -> option mstate) (m : mstate) :
  anchor_free r1 = true ->
  run sl fl (Seq r1 r2) s k = Some m ->
  exists w t cs, after s = w ++ t /\
    den (ignoreCase fl) r1 (is_word_at (before s)) w (is_word_at t) /\
    run sl fl r2 (MState (rev w ++ before s) t cs) k = Some m.
Proof. intros F H. exact (run_sound fl r1 F sl s _ m H). Qed.

Lemma run_group_sound (fl : flags) (i : nat) (r0 : re) (sl : nat) (s : mstate)
    (k : mstate -> option mstate) (m : mstate) :
  anchor_free r0 = true ->
  run sl fl (Group i r0) s k = Some m ->
  exists w t cs, after s = w ++ t /\
    den (ignoreCase fl) r0 (is_word_at (before s)) w (is_word_at t) /\
    k (MState (rev w ++ before s) t ((i, w) :: cs)) = Some m.
Proof.
  intros F H.
  change (run sl fl r0 s (fun s1 => k (set_cap i (consumed s s1) s1)) = Some m) in H.
  apply (run_sound fl r0 F) in H as (w & t & cs & E & D & H).
  exists w, t, cs. repeat split; [exact E|exact D|].
  unfold set_cap, consumed in H. cbn [after before caps] in H.
  now rewrite E, length_app, Nat.add_sub, take_app_length in H.
Qed.

Lemma run_seq_reaches (fl : flags) (r1 r2 : re) (sl : nat) (s : mstate)
    (k : mstate -> option mstate) (m : mstate) :
  run sl fl (Seq r1 r2) s k = Some m -> exists s', run sl fl r2 s' k = Some m.
Proof.
  intros H. apply (RegexFacts.run_reaches fl r1) in H as (s' & _ & H). now exists s'.
Qed.

Lemma only_dot (c : ascii) : cs_test true (CChar ".") c = true -> c = "."%char.
Proof.
  destruct c as [[] [] [] [] [] [] [] []]; vm_compute; intros H;
    first [reflexivity|discriminate H].
Qed.

Lemma space_not_word (c : ascii) : cs_test true CSpace c = true -> Js.is_word c = false.
Proof.
  destruct c as [[] [] [] [] [] [] [] []]; vm_compute; intros H;
    first [reflexivity|discriminate H].
Qed.

(** A match of the file-name pattern: a name, a dot and the extension
    that group 1 holds. *)
Lemma file_match (bef aft : list ascii) (m : mstate) :
  exec_at icase file_re bef aft = Some m ->
  exists name ext t cs,
    aft = name ++ "."%char :: ext ++ t /\ name <> [] /\
    xorb (is_word_at bef) (first_word name false) = true /\
    m = MState (rev (name ++ "."%char :: ext) ++ bef) t cs /\
    get_cap 1 cs = ext.
Proof.
  unfold exec_at, file_re. cbn [seq]. intros H.
  apply run_seq_sound in H as (w0 & t0 & cs0 & E0 & [-> B] & H); [|reflexivity].
  apply run_seq_sound in H as (name & t1 & cs1 & E1 & D1 & H); [|reflexivity].
  apply run_seq_sound in H as (d & t2 & cs2 & E2 & (c & -> & Hc) & H); [|reflexivity].
  match type of H with
  | run 0 icase (Seq (Group 1 ?A) WordB) ?s Some = _ =>
      change (run 0 icase (Group 1 A) s (fun s1 => run 0 icase WordB s1 Some) = Some m)
        in H
  end.
  apply run_group_sound in H as (ext & t & cs3 & E3 & _ & H);
    [|vm_compute; reflexivity].
  cbn [after before app rev] in *. subst aft t0 t1 t2.
  apply only_dot in Hc as ->.
  assert (Hn : name <> []).
  { apply (den_nonempty true) in D1; [exact D1|reflexivity]. }
  change (run 0 icase WordB ?s Some) with
    (if at_word_boundary s then Some s else None) in H.
  destruct (at_word_boundary _); [|discriminate]. injection H as <-.
  exists name, ext, t, ((1, ext) :: cs3). repeat split.
  - exact Hn.
  - rewrite is_word_at_app in B.
    now rewrite (first_word_nonempty _ false name Hn) in B.
  - f_equal. rewrite rev_app_distr. cbn [rev]. now rewrite <- !app_assoc.
Qed.

(** A match of the credential pattern ends before a blank or at the
    end of the text. *)
Lemma credential_end (bef aft : list ascii) (m : mstate) :
  exec_at icase credential_re bef aft = Some m ->
  first_word (after m) false = false.
Proof.
  unfold exec_at, credential_re. cbn [seq]. intros H.
  do 5 apply run_seq_reaches in H as (? & H).
  destruct x3 as [b a cs]. unfold plus in H.
  change (rep_loop (run 0 icase (Cls (CNot CSpace))) Some true
            (1 + length a + 1 + 0) 1 None (MState b a cs) = Some m) in H.
  rewrite (MatchFacts.class_loop_total (cs_test true (CNot CSpace))
             (run 0 icase (Cls (CNot CSpace)))) in H;
    [|intros; apply MatchFacts.step_cls|discriminate|lia].
  destruct (1 <=? _)%nat; [|discriminate]. injection H as <-. cbn [after].
  assert (Hh := MatchFacts.rest_of_head (cs_test true (CNot CSpace)) a).
  destruct (Terms.rest_of _ a) as [|c t]; [reflexivity|].
  cbn [cs_test] in Hh. apply negb_false_iff in Hh. now apply space_not_word.
Qed.

Lemma replace_file_redacted : forall fuel bef aft,
  length aft < fuel ->
  Redacted unconstrained (eq (chars "[REDACTED_FILE]")) (is_word_at bef) aft
           (replace_go icase file_re file_marker fuel bef aft).
Proof.
  induction fuel as [|f IH]; intros bef aft Hf; [lia|]. cbn [replace_go].
  destruct (search icase file_re bef aft) as [[[b0 a0] m]|] eqn:E;
    [|now apply red_keep].
  apply (search_some icase file_re) in E as (s & -> & -> & Hm & _).
  apply file_match in Hm as (name & ext & t & cs & -> & Hn & Hb & -> & Hcap).
  cbn [after before caps]. rewrite skipped_app.
  assert (Eg : (length t =? length (name ++ "."%char :: ext ++ t))%nat = false).
  { apply Nat.eqb_neq. rewrite length_app. simpl. rewrite length_app. lia. }
  rewrite Eg. set (x := "."%char :: ext).
  assert (Em : file_marker cs = chars "[REDACTED_FILE]" ++ x).
  { unfold file_marker. now rewrite Hcap. }
  rewrite Em, <- (app_assoc (chars "[REDACTED_FILE]")).
  change (name ++ "."%char :: ext ++ t) with (name ++ x ++ t).
  apply red_hit; [exact I|exact Hn|reflexivity| | |].
  - now rewrite <- is_word_at_rev.
  - discriminate.
  - apply redacted_prepend.
    replace (last_word (last_word (is_word_at bef) (s ++ name)) x) with
      (is_word_at (rev (name ++ x) ++ rev s ++ bef)).
    + apply IH. rewrite !length_app in Hf. simpl in Hf. rewrite length_app in Hf. lia.
    + now rewrite app_assoc, <- rev_app_distr, is_word_at_rev, app_assoc, last_word_app.
Qed.

Lemma chars_replaceAll (fl : flags) (r : re)
    (repl : list (nat * list ascii) -> list ascii) (text : string) :
  chars (replaceAll fl r repl text) =
  replace_go fl r repl (S (length (chars text))) [] (chars text).
Proof.
  unfold replaceAll. now rewrite MatchFacts.chars_str, RegexFacts.length_chars.
Qed.

(** **** A pattern between word boundaries that has no bracket *)

Section Pattern.

Variable fl : flags.
Variable P : re.
Hypothesis P_free : anchor_free P = true.
Hypothesis P_solid : can_be_empty P = false.
Hypothesis P_opens : starts_boundary P = true.
Hypothesis P_closes : ends_boundary P = true.
Hypothesis P_opening : accepts (ignoreCase fl) P "[" = false.
Hypothesis P_closing : accepts (ignoreCase fl) P "]" = false.

Lemma pattern_plain (lw rw : bool) (w : list ascii) :
  den (ignoreCase fl) P lw w rw -> Forall (fun c => bracket c = false) w.
Proof.
  intros D. apply den_accepts in D. eapply Forall_impl; [exact D|].
  intros c Hc. cbn beta in Hc. unfold bracket.
  destruct (Ascii.eqb_spec c "[") as [->|_]; [congruence|].
  destruct (Ascii.eqb_spec c "]") as [->|_]; [congruence|reflexivity].
Qed.

Lemma pattern_end (bef aft : list ascii) (m : mstate) :
  exec_at fl P bef aft = Some m ->
  first_word (after m) false = true -> is_word_at (before m) = false.
Proof.
  intros H. apply (exec_at_hit fl P P_free) in H as (w & t & cs & -> & D & ->).
  cbn [after before]. intros Hr. apply (den_ends _ P P_closes) in D.
  rewrite Hr in D. rewrite is_word_at_rev.
  now destruct (last_word (is_word_at bef) w).
Qed.

Lemma marker_free (h : string) (lw : bool) :
  bracketed (chars h) -> test fl P h = false ->
  ~ occurs (ignoreCase fl) P lw (chars h).
Proof.
  intros Hb Ht (a & w & b & E & D). apply (test_false fl P) in Ht. apply Ht.
  exists a, w, b. split; [exact E|].
  destruct a as [|c a]; [|now rewrite (last_word_nonempty false lw (c :: a))].
  exfalso. apply (plain_not_first w b (chars h) [] Hb).
  - exact (pattern_plain _ _ _ D).
  - exact (den_nonempty _ P P_solid _ _ _ D).
  - now rewrite app_nil_r.
Qed.

Lemma redaction_keeps (Free : bool -> list ascii -> list ascii -> Prop)
    (h : string) (text result : list ascii) :
  bracketed (chars h) -> test fl P h = false ->
  Redacted Free (eq (chars h)) false text result ->
  occurs (ignoreCase fl) P false result ->
  within_kept (ignoreCase fl) P Free false text.
Proof.
  intros Hb Ht HR Ho.
  apply (redacted_occurrence (ignoreCase fl) P (den_nonempty _ P P_solid)
           (fun lw w rw => den_starts _ P lw rw w P_opens)
           (den_ends _ P P_closes) (fun lw w rw => pattern_plain lw rw w)
           Free (eq (chars h))) with (lw := false) (lw' := false) (result := result).
  - now intros ? <-.
  - intros ? lw <-. now apply marker_free.
  - exact HR.
  - now left.
  - exact Ho.
Qed.

(** Its own pass leaves no match of the pattern. *)
Lemma pass_removes (h text : string) :
  bracketed (chars h) -> test fl P h = false ->
  test fl P (replaceAll fl P (marker h) text) = false.
Proof.
  intros Hb Ht. apply (no_occurrence_test fl P P_free). rewrite chars_replaceAll.
  intros Ho. apply (within_kept_free (ignoreCase fl) P false (chars text)).
  apply (redaction_keeps (free_of (ignoreCase fl) P) h (chars text) _ Hb Ht) in Ho;
    [exact Ho|].
  apply (replace_redacted fl P (chars h) P_free (den_nonempty _ P P_solid)
           (fun lw w rw => den_starts _ P lw rw w P_opens) pattern_end _ []). lia.
Qed.

(** The pass of another pattern brings no match of this one. *)
Lemma pass_keeps (flQ : flags) (Q : re) (h text : string) :
  anchor_free Q = true -> can_be_empty Q = false -> starts_boundary Q = true ->
  (forall bef aft m, exec_at flQ Q bef aft = Some m ->
     first_word (after m) false = true -> is_word_at (before m) = false) ->
  bracketed (chars h) -> test fl P h = false ->
  test fl P text = false ->
  test fl P (replaceAll flQ Q (marker h) text) = false.
Proof.
  intros Qf Qs Qo Qe Hb Ht Hx. apply (no_occurrence_test fl P P_free).
  rewrite chars_replaceAll. intros Ho.
  apply (test_false fl P) in Hx. apply Hx.
  apply (within_kept_occurs _ _ (free_of (ignoreCase flQ) Q)).
  apply (redaction_keeps (free_of (ignoreCase flQ) Q) h (chars text) _ Hb Ht) in Ho;
    [exact Ho|].
  apply (replace_redacted flQ Q (chars h) Qf (den_nonempty _ Q Qs)
           (fun lw w rw => den_starts _ Q lw rw w Qo) Qe _ []). lia.
Qed.

Lemma file_pass_keeps (text : string) :
  test fl P "[REDACTED_FILE]" = false ->
  test fl P text = false ->
  test fl P (replaceAll icase file_re file_marker text) = false.
Proof.
  intros Ht Hx. apply (no_occurrence_test fl P P_free).
  rewrite chars_replaceAll. intros Ho.
  apply (test_false fl P) in Hx. apply Hx.
  apply (within_kept_occurs _ _ unconstrained).
  apply (redaction_keeps unconstrained "[REDACTED_FILE]" (chars text) _) in Ho;
    [exact Ho| |exact Ht|].
  - now exists (chars "REDACTED_FILE").
  - apply (replace_file_redacted _ []). lia.
Qed.

End Pattern.

Ltac side_condition :=
  lazymatch goal with
  | |- bracketed (chars ?h) =>
      exists (removelast (tl (chars h))); vm_compute; reflexivity
  | |- test _ _ (replaceAll _ _ _ _) = false => fail
  | |- _ = true => vm_compute; reflexivity
  | |- _ = false => vm_compute; reflexivity
  end.

Lemma credential_stops (bef aft : list ascii) (m : mstate) :
  exec_at icase credential_re bef aft = Some m ->
  first_word (after m) false = true -> is_word_at (before m) = false.
Proof. intros H Hr. apply credential_end in H. congruence. Qed.

(** After the five passes the e-mail, the phone and the token pattern
    match nowhere. *)
Lemma redaction_removes (text : string) :
  test icase email_re (applySensitiveRedaction text) = false /\
  test plain phone_re (applySensitiveRedaction text) = false /\
  test plain token_re (applySensitiveRedaction text) = false.
Proof.
  unfold applySensitiveRedaction. destruct (Js.is_empty text) eqn:E.
  { apply JsFacts.is_empty_true in E as ->. vm_compute. auto. }
  cbv zeta. split; [|split].
  - apply file_pass_keeps; try side_condition.
    apply pass_keeps; try side_condition; [apply credential_stops|].
    apply pass_keeps; try side_condition; [apply pattern_end; side_condition|].
    apply pass_keeps; try side_condition; [apply pattern_end; side_condition|].
    apply pass_removes; side_condition.
  - apply file_pass_keeps; try side_condition.
    apply pass_keeps; try side_condition; [apply credential_stops|].
    apply pass_keeps; try side_condition; [apply pattern_end; side_condition|].
    apply pass_removes; side_condition.
  - apply file_pass_keeps; try side_condition.
    apply pass_keeps; try side_condition; [apply credential_stops|].
    apply pass_removes; side_condition.
Qed.

End RemovalFacts.

(** ** Numbers and ranges *)

Module ParseFacts.
Import Scope.
Local Open Scope Z_scope.

#[local] Abbreviation digits := NilEmpty.string_of_uint.

Ltac digit_step :=
  cbn -[Z.mul Z.add parse_digits];
  match goal with
  | |- context [Z.of_nat ?x - 48] =>
      let v := eval vm_compute in (Z.of_nat x - 48) in
      change (Z.of_nat x - 48) with v
  end.

Lemma parse_digits_acc (d : Decimal.uint) (a : positive) :
  parse_digits (Some (Z.pos a)) (digits d) = Some (Z.pos (Pos.of_uint_acc d a)).
Proof.
  revert a. induction d; intros a; simpl; try reflexivity;
    (digit_step; rewrite <- IHd; f_equal; f_equal; lia).
Qed.

Lemma parse_digits_zero (d : Decimal.uint) :
  parse_digits (Some 0) (digits d) = Some (Z.of_N (Pos.of_uint d)).
Proof.
  induction d; simpl; try reflexivity; try exact IHd;
    (digit_step; rewrite <- parse_digits_acc; reflexivity).
Qed.

Lemma parse_digits_start (d : Decimal.uint) :
  d <> Decimal.Nil -> parse_digits None (digits d) = Some (Z.of_N (Pos.of_uint d)).
Proof.
  destruct d; intros H; try congruence; simpl;
    first [apply parse_digits_zero
          | digit_step; rewrite <- parse_digits_acc; reflexivity].
Qed.

(** A string of decimal digits starts with a digit and has no blank. *)
Lemma digits_shape (d : Decimal.uint) :
  match digits d with
  | EmptyString => True
  | String c _ => Js.is_digit c = true
  end /\ Js.trimEnd (digits d) = digits d.
Proof.
  induction d; simpl; try (split; reflexivity);
    destruct IHd as [_ IH]; (split; [reflexivity|]);
    change (Js.trimEnd (String ?c ?t)) with
      (let t' := Js.trimEnd t in
       if Js.is_space c && Js.is_empty t' then EmptyString else String c t');
    cbv zeta; rewrite IH; reflexivity.
Qed.

Lemma parseInt_of_Z (n : Z) : 0 < n -> parseInt (Js.trim (of_Z n)) = Some n.
Proof.
  destruct n as [|p|p]; try lia. intros _.
  unfold of_Z. simpl Z.to_int. simpl NilZero.string_of_int.
  pose proof (DecimalPos.Unsigned.to_uint_nonnil p) as Hnn.
  assert (Hs : NilZero.string_of_uint (Pos.to_uint p) = digits (Pos.to_uint p)).
  { destruct (Pos.to_uint p); try reflexivity. congruence. }
  rewrite Hs.
  destruct (digits_shape (Pos.to_uint p)) as [Hfirst Hend].
  pose proof (parse_digits_start (Pos.to_uint p) Hnn) as Hparse.
  rewrite DecimalPos.Unsigned.of_to in Hparse. simpl in Hparse.
  assert (Htrim : forall s, match s with EmptyString => True
                             | String c _ => Js.is_digit c = true end ->
                            Js.trimStart s = s).
  { intros [|c t]; [reflexivity|]. intros Hc. simpl.
    destruct (Js.is_space c) eqn:E; [|reflexivity].
    exfalso. revert Hc E. unfold Js.is_digit, Js.is_space, Js.between.
    intros Hc E. apply andb_true_iff in Hc as [H1 H2].
    apply Nat.leb_le in H1, H2.
    repeat (apply orb_true_iff in E as [E|E]);
      [apply andb_true_iff in E as [_ E]; apply Nat.leb_le in E
      |apply Nat.eqb_eq in E|apply Nat.eqb_eq in E]; lia. }
  unfold Js.trim. rewrite (Htrim _ Hfirst), Hend.
  unfold parseInt. rewrite (Htrim _ Hfirst).
  destruct (digits (Pos.to_uint p)) as [|c t] eqn:E; [discriminate Hparse|].
  assert (Hc1 : c <> "-"%char) by (intros ->; discriminate Hfirst).
  assert (Hc2 : c <> "+"%char) by (intros ->; discriminate Hfirst).
  destruct (Ascii.eqb_spec c "-") as [|_]; [congruence|].
  destruct (Ascii.eqb_spec c "+") as [|_]; [congruence|].
  destruct c as [[] [] [] [] [] [] [] []]; try exact Hparse; congruence.
Qed.

(** *** Doubles *)

Lemma to_double_small (n : Z) : n < 2 ^ 53 -> to_double n = Some n.
Proof. intros H. unfold to_double. apply Z.ltb_lt in H. now rewrite H. Qed.

Lemma to_double_large (n m : Z) :
  2 ^ 53 <= n -> to_double n = Some m -> 2 ^ 53 <= m.
Proof.
  intros Hn. unfold to_double.
  destruct (n <? 2 ^ 53) eqn:E; [apply Z.ltb_lt in E; lia|]. cbv zeta.
  set (e := Z.log2 n - 52). set (q := Z.shiftr n e).
  match goal with |- context [Z.shiftl ?t e] => set (q' := t) end.
  destruct (Z.shiftl q' e <? 2 ^ 1024); [|discriminate]. intros [= <-].
  assert (Hlog : 53 <= Z.log2 n) by (apply Z.log2_le_pow2; lia).
  assert (He : 1 <= e) by (unfold e; lia).
  rewrite Z.shiftl_mul_pow2 by lia.
  assert (Hq : 2 ^ 52 <= q).
  { unfold q. rewrite Z.shiftr_div_pow2 by lia.
    apply Z.div_le_lower_bound; [apply Z.pow_pos_nonneg; lia|].
    rewrite <- Z.pow_add_r by lia. replace (e + 52) with (Z.log2 n) by (unfold e; lia).
    apply Z.log2_spec. lia. }
  assert (Hq' : q <= q').
  { unfold q'. match goal with |- context [if ?b then _ else _] => destruct b end; lia. }
  assert (Hp : 2 ^ 1 <= 2 ^ e) by (apply Z.pow_le_mono_r; lia).
  change (2 ^ 53) with (2 ^ 52 * 2 ^ 1).
  apply Z.mul_le_mono_nonneg; lia.
Qed.

Lemma to_double_positive (n m : Z) : 0 < n -> to_double n = Some m -> 0 < m.
Proof.
  intros Hn H. destruct (Z.lt_ge_cases n (2 ^ 53)) as [Hs|Hl].
  - rewrite to_double_small in H by exact Hs. congruence.
  - pose proof (to_double_large n m Hl H). lia.
Qed.

(** Below [2 ^ 53] every whole number is a double, and only the number
    itself rounds to it. *)
Lemma to_double_inv (v x : Z) : x < 2 ^ 53 -> to_double v = Some x -> v = x.
Proof.
  intros Hx H. destruct (Z.lt_ge_cases v (2 ^ 53)) as [Hs|Hl].
  - rewrite to_double_small in H by exact Hs. congruence.
  - pose proof (to_double_large v x Hl H). lia.
Qed.

Lemma shortest_go_small (fuel k : nat) (x : Z) :
  x < 2 ^ 53 -> shortest_go fuel k x = x.
Proof.
  intros Hx. revert k. induction fuel as [|f IH]; intros k; [reflexivity|].
  cbn [shortest_go]. cbv zeta.
  set (p := 10 ^ Z.of_nat (String.length (of_Z x) - k)).
  assert (Hp : 0 < p) by (apply Z.pow_pos_nonneg; lia).
  assert (Hrounds : forall v,
             (0 <? v) && match to_double v with Some y => y =? x | None => false end = true ->
             v = x).
  { intros v H. apply andb_true_iff in H as [_ H].
    destruct (to_double v) as [y|] eqn:E; [|discriminate].
    apply Z.eqb_eq in H as ->. now apply to_double_inv. }
  destruct (_ && _) eqn:Elo at 1.
  - apply andb_true_iff in Elo as [H1 H2].
    apply Hrounds in H1, H2. lia.
  - destruct ((0 <? x / p * p) && _) eqn:E1; [now apply Hrounds|].
    destruct ((0 <? x / p * p + p) && _) eqn:E2; [now apply Hrounds|].
    apply IH.
Qed.

Lemma to_string_small (x : Z) : x < 2 ^ 53 -> to_string x = of_Z x.
Proof.
  intros Hx. unfold to_string, shortest. rewrite shortest_go_small by exact Hx.
  assert (H : (x <? 10 ^ 21) = true).
  { apply Z.ltb_lt. assert (2 ^ 53 < 10 ^ 21) by reflexivity. lia. }
  now rewrite H.
Qed.

(** A whole number up to [2 ^ 53] is read back from the options as it
    is, and the text of a whole number is read as the double nearest to
    it. *)
Lemma parsePositiveInt_number (n : Z) :
  0 < n <= 2 ^ 53 -> parsePositiveInt (VNumber n) = Some n.
Proof.
  intros [Hn Hmax]. destruct (Z.eq_dec n (2 ^ 53)) as [->|Hne]; [vm_compute; reflexivity|].
  assert (Hs : n < 2 ^ 53) by lia.
  unfold parsePositiveInt, text_of, number_text.
  rewrite Z.abs_eq, (to_double_small n Hs) by lia.
  destruct (Z.eqb_spec n 0) as [|_]; [lia|].
  destruct (Z.ltb_spec n 0) as [|_]; [lia|].
  rewrite (to_string_small n Hs), (parseInt_of_Z n Hn).
  apply Z.ltb_lt in Hn. rewrite Hn. now apply to_double_small.
Qed.

Lemma parsePositiveInt_text (n : Z) :
  0 < n -> parsePositiveInt (VString (of_Z n)) = to_double n.
Proof.
  intros Hn. unfold parsePositiveInt, text_of. rewrite (parseInt_of_Z n Hn).
  apply Z.ltb_lt in Hn. now rewrite Hn.
Qed.

End ParseFacts.

Module ScopeFacts.
Import Scope.
Local Open Scope Z_scope.

Lemma parsePositiveInt_positive (v : jsvalue) (n : Z) :
  parsePositiveInt v = Some n -> 0 < n.
Proof.
  unfold parsePositiveInt.
  destruct (parseInt (Js.trim (text_of v))) as [k|]; [|discriminate].
  destruct (0 <? k) eqn:E; [|discriminate].
  apply Z.ltb_lt in E. now apply ParseFacts.to_double_positive.
Qed.

Lemma or_default_positive (v : jsvalue) (d : Z) :
  0 < d -> 0 < or_default (parsePositiveInt v) d.
Proof.
  intros Hd. destruct (parsePositiveInt v) as [k|] eqn:E; simpl; [|exact Hd].
  eapply parsePositiveInt_positive, E.
Qed.

Lemma resolveMessageRange_bounds (o : ExportOptions) (n : Z) :
  1 <= n ->
  0 <= range_start (resolveMessageRange o n)
  /\ range_start (resolveMessageRange o n) <= range_end (resolveMessageRange o n)
  /\ range_end (resolveMessageRange o n) < n.
Proof.
  intros Hn. unfold resolveMessageRange.
  destruct (String.eqb _ "single"); [|destruct (String.eqb _ "range")]; simpl.
  - pose proof (or_default_positive (scopeStart o) n). lia.
  - pose proof (or_default_positive (scopeStart o) 1).
    pose proof (or_default_positive (scopeEnd o) n). lia.
  - lia.
Qed.

Lemma slice_inside {A : Type} (s e : Z) (l : list A) :
  0 <= s -> s <= e -> e <= Z.of_nat (length l) ->
  slice s e l = take (Z.to_nat (e - s)) (drop (Z.to_nat s) l).
Proof.
  intros Hs Hse He. unfold slice.
  destruct (s <? 0) eqn:E1; [apply Z.ltb_lt in E1; lia|].
  destruct (e <? 0) eqn:E2; [apply Z.ltb_lt in E2; lia|].
  rewrite !Z.min_l by lia. reflexivity.
Qed.

End ScopeFacts.


(** ** The metadata of a scoped document *)

Module BreakdownFacts.
Import Normalize Terms.
Local Open Scope list_scope.

Lemma or_num_zero_r (n : nat) : Js.or_num n 0 = n.
Proof. unfold Js.or_num. destruct (Nat.eqb_spec n 0); congruence. Qed.

Lemma own_bump (k t : string) (acc : list (string * nat)) :
  Table.own t (bump k acc) =
  if String.eqb k t
  then Some (match Table.own k acc with Some n => n + 1 | None => 1 end)
  else Table.own t acc.
Proof.
  induction acc as [|[k0 n] acc IH]; simpl.
  - destruct (String.eqb k t); reflexivity.
  - destruct (String.eqb_spec k0 k) as [->|Hk]; simpl.
    + rewrite or_num_zero_r. destruct (String.eqb k t); reflexivity.
    + rewrite IH. destruct (String.eqb_spec k0 t) as [->|Ht].
      * destruct (String.eqb_spec k t); congruence.
      * reflexivity.
Qed.

Lemma keys_bump (k : string) (acc : list (string * nat)) :
  NoDup (map fst acc) -> NoDup (map fst (bump k acc)) /\
  forall t, t ∈ map fst (bump k acc) <-> t = k \/ t ∈ map fst acc.
Proof.
  induction acc as [|[k0 n] acc IH]; simpl; intros Hnd.
  - split; [repeat constructor; set_solver|]. set_solver.
  - apply NoDup_cons in Hnd as [Hk0 Hnd]. destruct (IH Hnd) as [IH1 IH2].
    destruct (String.eqb_spec k0 k) as [->|Hk]; simpl.
    + split; [apply NoDup_cons; auto|]. set_solver.
    + split.
      * apply NoDup_cons. split; [|exact IH1].
        intros Hin. apply IH2 in Hin as [Hin|Hin]; [congruence|auto].
      * intros t. rewrite !elem_of_cons, IH2. tauto.
Qed.

Lemma sum_bump (k : string) (acc : list (string * nat)) :
  sum_counts (bump k acc) = S (sum_counts acc).
Proof.
  induction acc as [|[k0 n] acc IH]; simpl; [reflexivity|].
  destruct (String.eqb k0 k); simpl; [rewrite or_num_zero_r; lia|].
  rewrite IH. lia.
Qed.

Lemma typed_snoc (t : string) (l : list Block) (b : Block) :
  typed t (l ++ [b]) = typed t l ++ (if String.eqb (counted_type b) t then [b] else []).
Proof.
  unfold typed. rewrite filter_app. f_equal.
  rewrite filter_cons. destruct (String.eqb (counted_type b) t) eqn:E.
  - rewrite decide_True by reflexivity. reflexivity.
  - rewrite decide_False by discriminate. reflexivity.
Qed.


Lemma counts_fold (blocks seen : list Block) (acc : list (string * nat)) :
  counts_of acc seen ->
  counts_of (fold_left (fun acc block => bump (Js.or_else (b_type block) "thinking") acc)
                       blocks acc)
            (seen ++ blocks).
Proof.
  revert seen acc. induction blocks as [|b blocks IH]; intros seen acc H; simpl.
  - now rewrite app_nil_r.
  - replace (seen ++ b :: blocks) with ((seen ++ [b]) ++ blocks)
      by now rewrite <- app_assoc.
    apply IH. destruct H as (Hnd & Hown & Hsum).
    split; [apply keys_bump, Hnd|]. split.
    + intros t. rewrite own_bump, typed_snoc, length_app.
      fold (counted_type b).
      destruct (String.eqb_spec (counted_type b) t) as [<-|Ht]; simpl.
      * rewrite Hown. destruct (length (typed (counted_type b) seen)) as [|n];
          simpl; f_equal; lia.
      * rewrite Hown, Nat.add_0_r. reflexivity.
    + rewrite sum_bump, Hsum, length_app. simpl. lia.
Qed.

Lemma blockTypeBreakdown_spec (blocks : list Block) :
  counts_of (blockTypeBreakdown blocks) blocks.
Proof.
  apply (counts_fold blocks [] []).
  split; [constructor|]. split; reflexivity.
Qed.

End BreakdownFacts.

Module ScopedFacts.
Import Scope Refs Props.
Local Open Scope list_scope.

Lemma slice_run {A : Type} (s e : Z) (l : list A) :
  exists before after, l = before ++ slice s e l ++ after.
Proof.
  unfold slice.
  match goal with
  | |- context [take ?n (drop ?k l)] =>
      exists (take k l), (drop n (drop k l));
      now rewrite (take_drop n (drop k l)), (take_drop k l)
  end.
Qed.

Lemma sum_wordCount_from (msgs : list Message) (start : nat) :
  fold_left (fun sum message => sum + Js.or_num (m_wordCount message) 0) msgs start =
  start + list_sum (map m_wordCount msgs).
Proof.
  revert start. induction msgs as [|m msgs IH]; intros start; simpl; [lia|].
  rewrite IH. unfold Js.or_num. destruct (Nat.eqb_spec (m_wordCount m) 0); lia.
Qed.

Lemma sum_wordCount_spec (msgs : list Message) :
  sum_wordCount msgs = list_sum (map m_wordCount msgs).
Proof. apply (sum_wordCount_from msgs 0). Qed.

Lemma uploaded_signature_nonempty (u : UploadedDocument) : uploaded_signature u <> "".
Proof. unfold uploaded_signature. now destruct (str_or_empty (u_messageId u)). Qed.

(** What [uploaded_of] builds, field by field. *)
Lemma uploaded_of_spec (m : Message) (item : FileRef) (u : UploadedDocument) :
  uploaded_of m item = Some u <-> listed item /\ uploaded_from m item u.
Proof.
  unfold uploaded_of, listed, uploaded_from, last_segment.
  destruct (or_null (f_url item)) as [url|] eqn:Eurl.
  - split.
    + intros [= <-]. cbn. split; [right; discriminate|]. repeat split.
    + intros (_ & H1 & H2 & H3 & H4 & H5 & H6). destruct u. cbn in *. congruence.
  - destruct (Js.is_empty (Js.trim (f_name item))) eqn:En.
    + split; [discriminate|]. intros ([H|H] & _); [|congruence].
      apply JsFacts.is_empty_true in En. contradiction.
    + apply JsFacts.is_empty_false in En. split.
      * intros [= <-]. cbn. split; [now left|]. repeat split.
        unfold Js.or_else. destruct (Js.trim (f_name item)); [contradiction|reflexivity].
      * intros (_ & H1 & H2 & H3 & H4 & H5 & H6). destruct u. cbn in *. subst.
        f_equal. f_equal.
        unfold Js.or_else. destruct (Js.trim (f_name item)); [contradiction|reflexivity].
Qed.

Lemma uploads_of_message_spec (m : Message) (u : UploadedDocument) :
  u ∈ uploads_of_message m <->
  is_user m /\ exists item, item ∈ files_of m /\ listed item /\ uploaded_from m item u.
Proof.
  unfold uploads_of_message, is_user, files_of.
  destruct (String.eqb_spec (Js.toLowerCase (m_author m)) "user") as [Ha|Ha].
  - rewrite list_elem_of_omap. split.
    + intros (item & Hin & Hup). apply uploaded_of_spec in Hup as [H1 H2]. eauto.
    + intros (_ & item & Hin & H1 & H2). exists item. split; [exact Hin|].
      now apply uploaded_of_spec.
  - split; [intros H; inversion H|]. intros [H _]. contradiction.
Qed.

(** The uploaded documents of a list of messages: each comes from a
    listed file of a user message, no file of a user message is left
    out, and no signature occurs twice. *)
Lemma uploads_spec (msgs : list Message) :
  let uploads := computeUploadedDocumentsFromMessages msgs in
  NoDup (map uploaded_signature uploads) /\
  (forall u, u ∈ uploads ->
     exists m item, m ∈ msgs /\ is_user m /\ item ∈ files_of m /\ listed item /\
                    uploaded_from m item u) /\
  (forall m item u', m ∈ msgs -> is_user m -> item ∈ files_of m -> listed item ->
     uploaded_from m item u' ->
     exists u, u ∈ uploads /\ uploaded_signature u = uploaded_signature u').
Proof.
  cbv zeta. unfold computeUploadedDocumentsFromMessages, dedupeBySignature.
  split; [apply RefsFacts.dedupe_from_NoDup|]. split.
  - intros u Hu. eapply elem_of_sublist in Hu; [|apply RefsFacts.dedupe_from_sublist].
    apply list_elem_of_In, in_concat in Hu as (l & Hl & Hu).
    apply in_map_iff in Hl as (m & <- & Hm). apply list_elem_of_In in Hu, Hm.
    apply uploads_of_message_spec in Hu as (Huser & item & H1 & H2 & H3).
    exists m, item. auto.
  - intros m item u' Hm Huser Hitem Hlisted Hfrom.
    apply RefsFacts.dedupe_from_complete;
      [|apply uploaded_signature_nonempty|set_solver].
    apply list_elem_of_In, in_concat. exists (uploads_of_message m). split.
    + apply in_map, list_elem_of_In, Hm.
    + apply list_elem_of_In, uploads_of_message_spec. split; [exact Huser|]. eauto.
Qed.

Lemma file_signature_nonempty (item : FileRef) : file_signature item <> "".
Proof. unfold file_signature. apply RefsFacts.bar_nonempty. Qed.

(** The index of a list of messages: each list holds the first
    occurrences of the references of these messages, and the total is
    the four lengths together. *)
Lemma index_spec (msgs : list Message) :
  let refs := fun m => normalizeReferenceSet (m_references m) in
  let index := computeReferenceIndexFromMessages msgs in
  first_occurrences link_signature
    (concat (map (fun m => links (refs m)) msgs)) (links (ri_refs index)) /\
  first_occurrences file_signature
    (concat (map (fun m => attachments (refs m)) msgs)) (attachments (ri_refs index)) /\
  first_occurrences file_signature
    (concat (map (fun m => documents (refs m)) msgs)) (documents (ri_refs index)) /\
  first_occurrences citation_signature
    (concat (map (fun m => citations (refs m)) msgs)) (citations (ri_refs index)) /\
  ri_total index =
    Some (length (links (ri_refs index)) + length (attachments (ri_refs index))
          + length (documents (ri_refs index)) + length (citations (ri_refs index))).
Proof.
  cbv zeta. unfold computeReferenceIndexFromMessages. cbn [ri_refs ri_total links attachments
    documents citations]. rewrite !map_map.
  repeat split; apply RefsFacts.dedupe_first_occurrences; intros x;
    apply RefsFacts.bar_nonempty.
Qed.

End ScopedFacts.

(** ** The claims *)

Import Normalize Props.
Local Open Scope list_scope.

(** C1. Normalization is idempotent on extracted documents: a second run
    of the normalization-and-validation pass on the document left by the
    first run leaves the same document (same messages, same flat list of
    blocks, same metadata) and ends the same way. *)
Theorem C1_normalize_idempotent (d : Document) :
  extracted d ->
  normalize (normalize d) = normalize d /\
  snd (normalizeAndValidateExportData (normalize d)) =
  snd (normalizeAndValidateExportData d).
Proof.
  intros Hx.
  assert (H : normalizeAndValidateExportData (normalize d) =
              normalizeAndValidateExportData d).
  { unfold normalizeAndValidateExportData at 1.
    rewrite (NormalizeFacts.aggregate_again d Hx).
    rewrite NormalizeFacts.messages_of_normalize, NormalizeFacts.metadata_of_normalize,
      NormalizeFacts.rawHtml_of_normalize, NormalizeFacts.normalize_messages_again,
      NormalizeFacts.normalized_metadata_again.
    reflexivity. }
  unfold normalize at 1. rewrite H. split; reflexivity.
Qed.

(** The two-message conversation is an extracted document. *)
Lemma C1_witness :
  normalize (normalize Examples.conversation) = normalize Examples.conversation /\
  snd (normalizeAndValidateExportData (normalize Examples.conversation)) =
  snd (normalizeAndValidateExportData Examples.conversation).
Proof.
  apply C1_normalize_idempotent.
  unfold extracted. vm_compute aggregate_blocks.
  repeat constructor; intros H; vm_compute in H; discriminate H.
Defined.

(** Outside extracted documents the fallback matters: a block with a
    summary and no content takes the summary as its content, and on the
    second run collides with a block it did not collide with before. *)
Example bare_summary_not_idempotent :
  length (thinkingBlocks (normalize Examples.bare_summary_blocks)) = 2 /\
  length (thinkingBlocks (normalize (normalize Examples.bare_summary_blocks))) = 1.
Proof. split; vm_compute; reflexivity. Qed.

(** C2, as stated, fails: two blocks with the same summary and content,
    the first classified [thinking] and the second [tool_call], are
    reduced by normalization to the first one, of type [thinking]. *)
Lemma C2_counterexample :
  ~ (forall b1 b2 : Block,
       collide_500 b1 b2 ->
       type_priority (b_type b1) < type_priority (b_type b2) ->
       exists b,
         thinkingBlocks
           (normalize (Examples.document
                         [Examples.message "msg_0" "assistant" "Done." 1 5 [] None]
                         [b1; b2])) = [b]
         /\ b_type b = b_type b2).
Proof.
  intros H.
  destruct (H Examples.as_thinking Examples.as_tool_call) as (b & Hb & Ht).
  - split; reflexivity.
  - vm_compute. lia.
  - vm_compute in Hb. injection Hb as <-. discriminate Ht.
Qed.

(** The prefix that decides a collision is 600 characters long: two
    blocks that agree on 550 characters are both kept. *)
Example long_prefix_kept :
  collide_500 Examples.long_a Examples.long_b /\
  map b_type (thinkingBlocks (normalize Examples.long_prefix)) = ["thinking"; "tool_call"].
Proof. split; [split|]; vm_compute; reflexivity. Qed.

(** C2, amended. The signature of a block is its trimmed summary, a bar
    and the first 600 characters of its trimmed content. Of two blocks of
    the aggregate with the same signature, the earlier one (when it has
    content or a summary and is the first with that signature) is kept,
    normalized, with its own type ([thinking] when it has none); the later
    one adds nothing to the flat list, whatever its type. *)
Theorem C2_first_block_wins (d : Document) (before between after : list Block)
    (b1 b2 : Block) :
  aggregate_blocks d = before ++ b1 :: between ++ b2 :: after ->
  block_is_blank b1 = false ->
  block_signature b1 ∉ block_sigset before ->
  block_signature b2 = block_signature b1 ->
  block_signature b1 =
    (Js.trim (b_summary b1) ++ "|" ++ Js.slice0 600 (Js.trim (b_content b1)))%string /\
  thinkingBlocks (normalize d) =
    dedupe_aggregate ∅ 0 before
    ++ normalized_block (length before) b1
       :: dedupe_aggregate (block_sigset (before ++ [b1])) (S (length before)) between
    ++ dedupe_aggregate (block_sigset (before ++ b1 :: between))
         (S (S (length before + length between))) after /\
  b_type (normalized_block (length before) b1) = Js.or_else (b_type b1) "thinking".
Proof.
  intros Hagg Hblank Hfirst Hsame. split; [reflexivity|]. split; [|reflexivity].
  rewrite NormalizeFacts.blocks_of_normalize, Hagg.
  rewrite NormalizeFacts.dedupe_aggregate_app. f_equal. simpl.
  rewrite Hblank, bool_decide_eq_false_2 by set_solver. f_equal.
  rewrite NormalizeFacts.dedupe_aggregate_app.
  assert (Hcons : forall l, block_sigset (b1 :: l) = {[block_signature b1]} ∪ block_sigset l).
  { intros l. now rewrite NormalizeFacts.block_sigset_cons, Hblank. }
  replace ({[block_signature b1]} ∪ (∅ ∪ block_sigset before))
    with (block_sigset (before ++ [b1]))
    by (rewrite NormalizeFacts.block_sigset_app, Hcons; set_solver).
  f_equal.
  rewrite NormalizeFacts.dedupe_aggregate_skip.
  - replace (block_sigset (before ++ [b1]) ∪ block_sigset between)
      with (block_sigset (before ++ b1 :: between))
      by (rewrite !NormalizeFacts.block_sigset_app, !Hcons; set_solver).
    f_equal; lia.
  - rewrite Hsame. apply elem_of_union_l, NormalizeFacts.elem_of_block_sigset.
    exists b1. split; [apply elem_of_app; right; now left|tauto].
Qed.

(** The two colliding sample blocks: the [thinking] one, which comes
    first, is the one kept. *)
Lemma C2_witness :
  block_signature Examples.as_thinking = "Ran tests|npm test passed" /\
  thinkingBlocks (normalize Examples.colliding) =
    [] ++ normalized_block 0 Examples.as_thinking :: [] ++ [] /\
  b_type (normalized_block 0 Examples.as_thinking) = "thinking".
Proof.
  apply (C2_first_block_wins Examples.colliding [] [] [] Examples.as_thinking
           Examples.as_tool_call).
  - reflexivity.
  - reflexivity.
  - vm_compute. set_solver.
  - reflexivity.
Defined.




(** What the redaction of the export does not rewrite: the summary that
    [postProcess] puts into the metadata quotes the first message as it
    was. *)
Example summary_is_not_rewritten :
  Js.includes (Json.generateJSON Examples.fixture_origin Examples.contact_processed
                 Examples.redacting) Examples.email = true /\
  clear_of_patterns
    (str_or_empty
       (mjoin (m_content <$>
               messages (Redact.getPreparedExportData Examples.fixture_origin
                           Examples.contact_processed Examples.redacting) !! 0%nat))).
Proof. vm_compute. repeat split; reflexivity. Qed.

(** What redaction does not reach: a token followed by an underscore has
    no word boundary after it and stays, and the conversation title is
    never rewritten. *)
Example redaction_leaves :
  Redact.applySensitiveRedaction "key sk-ABCDEFGHIJKL_v2" = "key sk-ABCDEFGHIJKL_v2" /\
  Redact.applySensitiveRedaction "id5551234567" = "id5551234567".
Proof. split; vm_compute; reflexivity. Qed.

(** C4, as stated, fails: not every count of the scoped metadata is
    derived from the slice. Of the six sample messages, three of them
    from the user, the range 2 to 4 keeps one message of the user, and
    the scoped metadata still counts three. *)
Lemma C4_counterexample :
  ~ (forall (d : Document) (o : Scope.ExportOptions),
       let s := Scope.buildScopedExportData d o in
       md_userMessageCount (metadata s) = length (Extractor.authored "user" (messages s))).
Proof.
  intros H. specialize (H Examples.six_processed Examples.range_2_4).
  vm_compute in H. discriminate H.
Qed.

(** C4, amended. Scoping derives the message count, the block count, the
    block breakdown, the word total, the reference index with its four
    counts and the uploaded documents with their count from the slice
    alone. The slice is a run of consecutive messages; the blocks are
    those of its messages; the word total is the sum over its messages;
    the breakdown counts its blocks by type; each list of the index
    holds the references of its messages, in order, one per signature,
    and the counts are the lengths of these lists; the uploaded documents
    are built from the listed files of its user messages, none left out,
    one per signature. For a six-message document and the range 2 to 4
    the slice is messages 2, 3 and 4, the message count is 3, and each
    list of the reference index holds the references of these three
    messages and no other. *)
Theorem C4_scoped_metadata_from_slice :
  (forall (d : Document) (o : Scope.ExportOptions),
     let s := Scope.buildScopedExportData d o in
     let md := metadata s in
     let refs := fun m => Refs.normalizeReferenceSet (m_references m) in
     (exists before after, messages d = before ++ messages s ++ after) /\
     thinkingBlocks s = concat (map m_thinkingBlocks (messages s)) /\
     md_messageCount md = length (messages s) /\
     md_thinkingBlockCount md = length (thinkingBlocks s) /\
     md_totalWordCount md = list_sum (map m_wordCount (messages s)) /\
     (forall type, Table.inherited type = false ->
        Table.own type (md_blockTypeBreakdown md) =
        match length (Terms.typed type (thinkingBlocks s)) with
        | 0 => None
        | n => Some n
        end) /\
     (exists index,
        md_referenceIndex md = Some index /\
        first_occurrences Refs.link_signature
          (concat (map (fun m => links (refs m)) (messages s))) (links (ri_refs index)) /\
        first_occurrences Refs.file_signature
          (concat (map (fun m => attachments (refs m)) (messages s)))
          (attachments (ri_refs index)) /\
        first_occurrences Refs.file_signature
          (concat (map (fun m => documents (refs m)) (messages s)))
          (documents (ri_refs index)) /\
        first_occurrences Refs.citation_signature
          (concat (map (fun m => citations (refs m)) (messages s)))
          (citations (ri_refs index)) /\
        ri_total index = Some (md_referenceCount md) /\
        md_referenceCount md =
          length (links (ri_refs index)) + length (attachments (ri_refs index))
          + length (documents (ri_refs index)) + length (citations (ri_refs index)) /\
        md_linkCount md = length (links (ri_refs index)) /\
        md_attachmentCount md = length (attachments (ri_refs index)) /\
        md_citationCount md = length (citations (ri_refs index))) /\
     NoDup (map Refs.uploaded_signature (md_uploadedDocuments md)) /\
     (forall u, u ∈ md_uploadedDocuments md ->
        exists m item, m ∈ messages s /\ is_user m /\ item ∈ files_of m /\
                       listed item /\ uploaded_from m item u) /\
     (forall m item u', m ∈ messages s -> is_user m -> item ∈ files_of m ->
        listed item -> uploaded_from m item u' ->
        exists u, u ∈ md_uploadedDocuments md /\
                  Refs.uploaded_signature u = Refs.uploaded_signature u') /\
     md_uploadedDocumentCount md = length (md_uploadedDocuments md))
  /\
  (forall (md : Metadata) (m1 m2 m3 m4 m5 m6 : Message) (blocks : list Block)
          (raw : option RawHtml),
     let d := mkDocument md [m1; m2; m3; m4; m5; m6] blocks raw in
     let s := Scope.buildScopedExportData d Examples.range_2_4 in
     let refs := fun m => Refs.normalizeReferenceSet (m_references m) in
     exists index,
       messages s = [m2; m3; m4] /\
       md_messageCount (metadata s) = 3 /\
       md_referenceIndex (metadata s) = Some index /\
       first_occurrences Refs.link_signature
         (links (refs m2) ++ links (refs m3) ++ links (refs m4))
         (links (ri_refs index)) /\
       first_occurrences Refs.file_signature
         (attachments (refs m2) ++ attachments (refs m3) ++ attachments (refs m4))
         (attachments (ri_refs index)) /\
       first_occurrences Refs.file_signature
         (documents (refs m2) ++ documents (refs m3) ++ documents (refs m4))
         (documents (ri_refs index)) /\
       first_occurrences Refs.citation_signature
         (citations (refs m2) ++ citations (refs m3) ++ citations (refs m4))
         (citations (ri_refs index))).
Proof.
  split.
  - intros d o. cbv zeta.
    unfold Scope.buildScopedExportData. cbv zeta.
    set (slice := Scope.slice _ _ (messages d)).
    cbn [messages thinkingBlocks metadata md_messageCount md_thinkingBlockCount
         md_totalWordCount md_blockTypeBreakdown md_referenceIndex md_referenceCount
         md_linkCount md_attachmentCount md_citationCount md_uploadedDocuments
         md_uploadedDocumentCount].
    split; [apply ScopedFacts.slice_run|].
    split; [reflexivity|]. split; [reflexivity|]. split; [reflexivity|].
    split; [apply ScopedFacts.sum_wordCount_spec|].
    split.
    { intros type _.
      apply (BreakdownFacts.blockTypeBreakdown_spec (concat (map m_thinkingBlocks slice))). }
    destruct (ScopedFacts.index_spec slice) as (H1 & H2 & H3 & H4 & H5).
    destruct (ScopedFacts.uploads_spec slice) as (U1 & U2 & U3).
    split.
    { exists (Refs.computeReferenceIndexFromMessages slice).
      split; [reflexivity|].
      split; [exact H1|]. split; [exact H2|]. split; [exact H3|]. split; [exact H4|].
      rewrite H5. cbn [default]. repeat split. }
    split; [exact U1|]. split; [exact U2|]. split; [exact U3|reflexivity].
  - intros md m1 m2 m3 m4 m5 m6 blocks raw. cbv zeta.
    exists (Refs.computeReferenceIndexFromMessages [m2; m3; m4]).
    assert (Hslice : messages (Scope.buildScopedExportData
                                 (mkDocument md [m1; m2; m3; m4; m5; m6] blocks raw)
                                 Examples.range_2_4) = [m2; m3; m4]) by reflexivity.
    split; [exact Hslice|]. split; [reflexivity|]. split; [reflexivity|].
    destruct (ScopedFacts.index_spec [m2; m3; m4]) as (H1 & H2 & H3 & H4 & _).
    cbn [map concat] in H1, H2, H3, H4. rewrite !app_nil_r in H1, H2, H3, H4.
    split; [exact H1|]. split; [exact H2|]. split; [exact H3|exact H4].
Qed.

(** The fields that scoping does not list are those of the whole
    conversation. *)
Example scoped_inherits (d : Document) (o : Scope.ExportOptions) :
  let s := Scope.buildScopedExportData d o in
  md_hasThinkingBlocks (metadata s) = md_hasThinkingBlocks (metadata d) /\
  md_totalCharacterCount (metadata s) = md_totalCharacterCount (metadata d) /\
  md_userMessageCount (metadata s) = md_userMessageCount (metadata d) /\
  md_assistantMessageCount (metadata s) = md_assistantMessageCount (metadata d).
Proof. repeat split; reflexivity. Qed.

(** The sample conversation of six messages under the range 2 to 4. *)
Example six_messages_range_2_4 :
  let s := Scope.buildScopedExportData Examples.six_messages Examples.range_2_4 in
  map m_id (messages s) = ["msg_1"; "msg_2"; "msg_3"] /\
  md_messageCount (metadata s) = 3 /\
  md_thinkingBlockCount (metadata s) = 1 /\
  option_map (fun i => map l_url (links (ri_refs i))) (md_referenceIndex (metadata s))
    = Some ["https://example.com/b"] /\
  md_referenceCount (metadata s) = 2 /\
  map u_name (md_uploadedDocuments (metadata s)) = ["report.pdf"] /\
  md_scope (metadata s) = Some "range-2-4".
Proof. vm_compute. repeat split; reflexivity. Qed.

(** C5. Normalization throws its validation error exactly when no message
    passes the filters, that is when no message has string content that
    is non-empty after trimming or that comes with a block that has
    content; otherwise it returns, with as many messages as passed. *)
Theorem C5_throws_iff_nothing_survives (d : Document) :
  (snd (normalizeAndValidateExportData d) = Thrown "No messages found to export"
   <-> Forall (fun m => survives m = false) (messages d)) /\
  (snd (normalizeAndValidateExportData d) = Returned
   <-> Exists (fun m => survives m = true) (messages d)) /\
  length (messages (normalize d)) =
  length (filter (fun m => survives m = true) (messages d)).
Proof.
  assert (Hnone : length (filter (fun m => survives m = true) (messages d)) = 0
                  <-> Forall (fun m => survives m = false) (messages d)).
  { rewrite length_zero_iff_nil. induction (messages d) as [|m l IH]; simpl.
    - split; [constructor|reflexivity].
    - rewrite filter_cons, Forall_cons. destruct (survives m) eqn:Es.
      + rewrite decide_True by reflexivity.
        split; [discriminate|intros [? _]; discriminate].
      + rewrite decide_False by discriminate. tauto. }
  assert (Hsome : length (filter (fun m => survives m = true) (messages d)) <> 0
                  <-> Exists (fun m => survives m = true) (messages d)).
  { clear Hnone. induction (messages d) as [|m l IH]; simpl.
    - split; [congruence|intros H; inversion H].
    - rewrite filter_cons, Exists_cons. destruct (survives m) eqn:Es.
      + rewrite decide_True by reflexivity. simpl.
        split; [intros _; now left|discriminate].
      + rewrite decide_False by discriminate. rewrite IH.
        split; [tauto|intros [H|H]; [discriminate|assumption]]. }
  assert (Hlen := NormalizeFacts.normalize_messages_length 0 (messages d)).
  unfold normalize, normalizeAndValidateExportData.
  destruct (length (normalize_messages 0 (messages d)) =? 0)%nat eqn:E; simpl.
  - apply Nat.eqb_eq in E. rewrite E in Hlen. split; [|split].
    + split; [intros _; now apply Hnone|reflexivity].
    + split; [discriminate|]. intros H. apply Hsome in H. congruence.
    + congruence.
  - apply Nat.eqb_neq in E. rewrite Hlen in E. split; [|split].
    + split; [discriminate|]. intros H. apply Hnone in H. congruence.
    + split; [intros _; now apply Hsome|reflexivity].
    + assumption.
Qed.

(** C6, as stated, fails: with six messages the range from 4 to 2 is
    resolved to message 4 alone, not to messages 2 to 4. *)
Lemma C6_counterexample :
  ~ (forall n start end_ : Z,
       (1 <= n)%Z -> (1 <= start)%Z -> (1 <= end_)%Z ->
       let r := Scope.resolveMessageRange
                  (Examples.options false "range" (Scope.VNumber start)
                                    (Scope.VNumber end_)) n in
       Scope.range_start r = (Z.min n (Z.max 1 (Z.min start end_)) - 1)%Z /\
       Scope.range_end r = (Z.min n (Z.max 1 (Z.max start end_)) - 1)%Z).
Proof.
  intros H. destruct (H 6%Z 4%Z 2%Z) as [Hs _]; try lia.
  vm_compute in Hs. discriminate Hs.
Qed.

Example six_messages_range_4_2 :
  map m_id (Scope.scoped_messages Examples.six_messages Examples.range_4_2) = ["msg_3"] /\
  map m_id (Scope.scoped_messages Examples.six_messages Examples.range_2_4)
    = ["msg_1"; "msg_2"; "msg_3"].
Proof. split; vm_compute; reflexivity. Qed.

(** C6, amended. A range scope with 1-based bounds [start] and [end],
    whole numbers up to [2 ^ 53], over [n >= 1] messages is resolved by
    clamping, without reordering: the first selected message is
    [s = min(n, start)] and the last is [min(n, max(s, end))]. When
    [start <= end] this is the inclusive interval from [min(n, start)] to
    [min(n, end)]; when [start > end] it is the single message [s], so
    the range from 4 to 2 selects message 4 only. (The bounds are read
    again from their decimal text, which gives them back up to [2 ^ 53];
    [large_bounds_are_reread] shows what happens beyond.) *)
Theorem C6_range_is_clamped_not_reordered (o : Scope.ExportOptions) (n start end_ : Z) :
  Scope.scope o = "range" ->
  Scope.scopeStart o = Scope.VNumber start ->
  Scope.scopeEnd o = Scope.VNumber end_ ->
  (1 <= n)%Z -> (1 <= start <= 2 ^ 53)%Z -> (1 <= end_ <= 2 ^ 53)%Z ->
  let s := Z.min n start in
  let e := Z.min n (Z.max s end_) in
  Scope.resolveMessageRange o n =
    Scope.mkRange (s - 1) (e - 1)
      ("range-" ++ Scope.of_Z s ++ "-" ++ Scope.of_Z e)%string /\
  (1 <= s <= e)%Z /\ (e <= n)%Z /\
  ((start <= end_)%Z -> e = Z.min n end_) /\
  ((end_ < start)%Z -> e = s).
Proof.
  intros Hscope Hs He Hn Hstart Hend. cbv zeta.
  unfold Scope.resolveMessageRange.
  rewrite Hscope, Hs, He.
  rewrite !ParseFacts.parsePositiveInt_number by lia.
  cbn [Js.or_else Js.is_empty String.eqb Ascii.eqb Bool.eqb Scope.or_default].
  replace (Z.max 1 start) with start by lia.
  repeat split; lia.
Qed.

(** Six messages, range from 4 to 2. *)
Lemma C6_witness :
  Scope.resolveMessageRange Examples.range_4_2 6 = Scope.mkRange 3 3 "range-4-4" /\
  (1 <= 4 <= 4)%Z /\ (4 <= 6)%Z /\
  ((4 <= 2)%Z -> 4%Z = Z.min 6 2) /\
  ((2 < 4)%Z -> 4%Z = 4%Z).
Proof.
  apply (C6_range_is_clamped_not_reordered Examples.range_4_2 6 4 2);
    first [reflexivity | split; [lia|discriminate] | lia].
Defined.

(** Past [2 ^ 53] a bound is not read back as it is: the number
    [10 ^ 21] is printed with an exponent and read as 1, and the text of
    [2 ^ 53 + 1] is read as [2 ^ 53]. *)
Example large_bounds_are_reread :
  Scope.parsePositiveInt (Scope.VNumber (10 ^ 21)) = Some 1%Z /\
  Scope.parsePositiveInt (Scope.VString "9007199254740993") = Some 9007199254740992%Z /\
  Scope.resolveMessageRange
    (Examples.options false "range" (Scope.VNumber (10 ^ 21)) (Scope.VNumber 3)) 6
  = Scope.mkRange 0 2 "range-1-3".
Proof. vm_compute. repeat split; reflexivity. Qed.




(** C8. The block content [Searched the web / 3 results / github.com /
    stackoverflow.com], with an empty summary and no rich HTML, is
    classified [web_search]; its parsed queries are the one query
    [the web], what is left of the line [Searched the web] once the
    leading [Searched] is cut, and its parsed results hold one entry,
    the title line [3 results] with the domain [github.com]. *)
Theorem C8_web_search_scenario :
  Classifier.detectBlockType Examples.searched "" "" = "web_search" /\
  Classifier.parseWebSearchContent Examples.searched "" =
    SDWebSearch ["the web"] [mkResult "3 results" None (Some "github.com")] /\
  Regex.replaceFirst Regex.icase Classifier.searched_prefix_re (fun _ => [])
    "Searched the web" = "the web".
Proof. vm_compute. repeat split; reflexivity. Qed.

(** C9. For reference sets whose four lists have no repeated signature,
    merging is associative, merging a set with itself gives the set back,
    and the merge of two sets is, list by list, the first set's entries
    followed by those entries of the second whose signature the first
    does not have: the concatenation deduplicated by signature, first
    occurrences kept in order. *)
Theorem C9_merge_associative_idempotent (a b c : ReferenceSet) :
  deduplicated a -> deduplicated b -> deduplicated c ->
  Refs.merge (Refs.merge a b) c = Refs.merge a (Refs.merge b c) /\
  Refs.merge a a = a /\
  Refs.merge a b =
    mkRefs
      (Refs.dedupeObjectsBySignature (links a ++ links b) Refs.link_signature)
      (Refs.dedupeObjectsBySignature (attachments a ++ attachments b) Refs.file_signature)
      (Refs.dedupeObjectsBySignature (documents a ++ documents b) Refs.file_signature)
      (Refs.dedupeObjectsBySignature (citations a ++ citations b) Refs.citation_signature) /\
  Refs.merge a b =
    mkRefs
      (links a ++ fresh_items Refs.link_signature (links a) (links b))
      (attachments a ++ fresh_items Refs.file_signature (attachments a) (attachments b))
      (documents a ++ fresh_items Refs.file_signature (documents a) (documents b))
      (citations a ++ fresh_items Refs.citation_signature (citations a) (citations b)) /\
  deduplicated (Refs.merge a b).
Proof.
  intros Ha Hb Hc.
  split; [apply RefsFacts.merge_assoc|].
  split; [now apply RefsFacts.merge_self|].
  split; [unfold Refs.merge, Refs.mergeReferences; simpl; now rewrite !app_nil_r|].
  split; [now apply RefsFacts.merge_lists|].
  unfold deduplicated, Refs.merge, Refs.mergeReferences, Refs.dedupeObjectsBySignature.
  simpl. repeat split; apply RefsFacts.dedupe_from_NoDup.
Qed.

(** Three sample sets that share links, files and citations. *)
Lemma C9_witness :
  Refs.merge (Refs.merge Examples.refs_a Examples.refs_b) Examples.refs_c
    = Refs.merge Examples.refs_a (Refs.merge Examples.refs_b Examples.refs_c) /\
  Refs.merge Examples.refs_a Examples.refs_a = Examples.refs_a /\
  Refs.merge Examples.refs_a Examples.refs_b =
    mkRefs
      (Refs.dedupeObjectsBySignature
         (links Examples.refs_a ++ links Examples.refs_b) Refs.link_signature)
      (Refs.dedupeObjectsBySignature
         (attachments Examples.refs_a ++ attachments Examples.refs_b) Refs.file_signature)
      (Refs.dedupeObjectsBySignature
         (documents Examples.refs_a ++ documents Examples.refs_b) Refs.file_signature)
      (Refs.dedupeObjectsBySignature
         (citations Examples.refs_a ++ citations Examples.refs_b) Refs.citation_signature) /\
  Refs.merge Examples.refs_a Examples.refs_b =
    mkRefs
      (links Examples.refs_a
       ++ fresh_items Refs.link_signature (links Examples.refs_a) (links Examples.refs_b))
      (attachments Examples.refs_a
       ++ fresh_items Refs.file_signature (attachments Examples.refs_a)
            (attachments Examples.refs_b))
      (documents Examples.refs_a
       ++ fresh_items Refs.file_signature (documents Examples.refs_a)
            (documents Examples.refs_b))
      (citations Examples.refs_a
       ++ fresh_items Refs.citation_signature (citations Examples.refs_a)
            (citations Examples.refs_b)) /\
  deduplicated (Refs.merge Examples.refs_a Examples.refs_b).
Proof.
  apply (C9_merge_associative_idempotent Examples.refs_a Examples.refs_b Examples.refs_c);
    unfold deduplicated; repeat split;
    apply (bool_decide_unpack _); vm_compute; reflexivity.
Defined.

(** The merge of the first two sample sets, computed. *)
Example merge_sample :
  map l_title (links (Refs.merge Examples.refs_a Examples.refs_b)) = ["A"; "B"; "C"] /\
  map c_text (citations (Refs.merge Examples.refs_a Examples.refs_b))
    = ["Source 1"; "Source 2"].
Proof. split; vm_compute; reflexivity. Qed.



(** On that document the flat list goes from two raw blocks to two
    normalized ones and the block count from 0 to 2 although the call
    throws. *)
Example only_blank_left_mutated :
  map b_id (thinkingBlocks Examples.only_blank) = [""; "t"] /\
  map b_id (thinkingBlocks (normalize Examples.only_blank)) = ["thinking_0"; "t"] /\
  md_thinkingBlockCount (metadata Examples.only_blank) = 0 /\
  md_thinkingBlockCount (metadata (normalize Examples.only_blank)) = 2 /\
  normalize Examples.only_blank <> Examples.only_blank.
Proof.
  repeat (split; [vm_compute; reflexivity|]).
  intros H. apply (f_equal (fun d => md_thinkingBlockCount (metadata d))) in H.
  vm_compute in H. discriminate H.
Qed.

(** ** Further properties of the code *)

Local Open Scope string_scope.
(** ** Further properties of the code *)

(** X1. Whatever the scope options are, a document with at least one
    message is scoped to a run of consecutive messages that is not empty:
    the range that [resolveMessageRange] gives has
    [0 <= start <= end < n], and the scoped messages are the messages at
    the positions [start] to [end], [end - start + 1] of them. *)
Theorem X1_scope_selects_nonempty_run (d : Document) (o : Scope.ExportOptions) :
  messages d <> [] ->
  let n := Z.of_nat (length (messages d)) in
  let r := Scope.resolveMessageRange o n in
  let count := Z.to_nat (Scope.range_end r - Scope.range_start r + 1) in
  (0 <= Scope.range_start r <= Scope.range_end r)%Z /\
  (Scope.range_end r < n)%Z /\
  Scope.scoped_messages d o = take count (drop (Z.to_nat (Scope.range_start r)) (messages d)) /\
  length (Scope.scoped_messages d o) = count /\
  (1 <= count)%nat.
Proof.
  intros Hne n r count.
  assert (Hn : (1 <= n)%Z).
  { unfold n. destruct (messages d); [congruence|simpl; lia]. }
  destruct (ScopeFacts.resolveMessageRange_bounds o n Hn) as (H0 & H1 & H2).
  fold r in H0, H1, H2.
  assert (Heq : Scope.scoped_messages d o =
                take count (drop (Z.to_nat (Scope.range_start r)) (messages d))).
  { unfold Scope.scoped_messages. fold n. fold r.
    rewrite ScopeFacts.slice_inside by (fold n; lia).
    unfold count. do 2 f_equal. lia. }
  split; [lia|]. split; [lia|]. split; [exact Heq|].
  split; [|unfold count; lia].
  rewrite Heq, length_take, length_drop. unfold count, n in *. lia.
Qed.

(** The six sample messages under the range 2 to 4. *)
Lemma X1_witness :
  let d := Examples.six_messages in
  let r := Scope.resolveMessageRange Examples.range_2_4 6 in
  (0 <= Scope.range_start r <= Scope.range_end r)%Z /\
  (Scope.range_end r < 6)%Z /\
  Scope.scoped_messages d Examples.range_2_4 =
    take 3 (drop 1 (messages d)) /\
  length (Scope.scoped_messages d Examples.range_2_4) = 3 /\
  (1 <= 3)%nat.
Proof.
  apply (X1_scope_selects_nonempty_run Examples.six_messages Examples.range_2_4).
  simpl. discriminate.
Defined.

(** X2. [parsePositiveInt] reads a positive whole number up to [2 ^ 53]
    back from its decimal text and from the number itself, and gives a
    number only when that number is positive: the bounds that
    [getExportOptions] has parsed once can be parsed again by
    [resolveMessageRange] without change. (Past [2 ^ 53] the text is
    rounded to a double, and from [10 ^ 21] on the number is printed
    with an exponent and read as its first digit.) *)
Theorem X2_parsePositiveInt_reads_back (n : Z) :
  (0 < n <= 2 ^ 53)%Z ->
  Scope.parsePositiveInt (Scope.VString (Scope.of_Z n)) = Some n /\
  Scope.parsePositiveInt (Scope.VNumber n) = Some n /\
  forall v k, Scope.parsePositiveInt v = Some k -> (0 < k)%Z.
Proof.
  intros Hn. split; [|split].
  - rewrite ParseFacts.parsePositiveInt_text by lia.
    destruct (Z.eq_dec n (2 ^ 53)%Z) as [->|Hne]; [reflexivity|].
    apply ParseFacts.to_double_small. lia.
  - now apply ParseFacts.parsePositiveInt_number.
  - apply ScopeFacts.parsePositiveInt_positive.
Qed.

(** The number 42. *)
Lemma X2_witness :
  Scope.parsePositiveInt (Scope.VString "42") = Some 42%Z /\
  Scope.parsePositiveInt (Scope.VNumber 42) = Some 42%Z /\
  forall v k, Scope.parsePositiveInt v = Some k -> (0 < k)%Z.
Proof.
  apply (X2_parsePositiveInt_reads_back 42). split; [reflexivity|discriminate].
Defined.

(** X3. The block-type table that normalization and scoping compute
    counts every block once, under its type or under [thinking] when it
    has none: no type is listed twice, the entry of a type is the number
    of blocks of that type (a type without blocks has no entry), and the
    entries add up to the number of blocks. The types are those that name
    no member every object inherits, for which the entry read from the
    empty table is missing. *)
Theorem X3_breakdown_counts_every_block (blocks : list Block) :
  Forall (fun b => Table.inherited (Terms.counted_type b) = false) blocks ->
  let table := Normalize.blockTypeBreakdown blocks in
  NoDup (map fst table) /\
  (forall type, Table.own type table =
     match length (Terms.typed type blocks) with 0 => None | n => Some n end) /\
  Terms.sum_counts table = length blocks.
Proof. intros _. apply BreakdownFacts.blockTypeBreakdown_spec. Qed.

(** Two thinking blocks and a tool call. *)
Lemma X3_witness :
  let blocks := [Examples.as_thinking; Examples.as_tool_call; Examples.thinking_block] in
  let table := Normalize.blockTypeBreakdown blocks in
  NoDup (map fst table) /\
  (forall type, Table.own type table =
     match length (Terms.typed type blocks) with 0 => None | n => Some n end) /\
  Terms.sum_counts table = 3.
Proof.
  apply (X3_breakdown_counts_every_block
           [Examples.as_thinking; Examples.as_tool_call; Examples.thinking_block]).
  repeat constructor.
Defined.

Module FlatListFacts.
Import Normalize Props.
Local Open Scope list_scope.

(** A block of the aggregate that is not blank and whose signature is
    new leaves a block in the flat list: the normalized form of the
    first block with that signature. *)
Lemma dedupe_aggregate_complete (seen : gset string) (i : nat) (l : list Block) (b : Block) :
  b ∈ l -> block_is_blank b = false -> block_signature b ∉ seen ->
  exists k b0, b0 ∈ l /\ block_is_blank b0 = false
               /\ block_signature b0 = block_signature b
               /\ normalized_block k b0 ∈ dedupe_aggregate seen i l.
Proof.
  revert seen i. induction l as [|x l IH]; intros seen i Hin Hb Hnew.
  - inversion Hin.
  - simpl. destruct (block_is_blank x) eqn:Ex.
    + apply elem_of_cons in Hin as [->|Hin]; [congruence|].
      destruct (IH seen (S i) Hin Hb Hnew) as (k & b0 & H1 & H2 & H3 & H4).
      exists k, b0. repeat split; auto. now right.
    + case_bool_decide as Hseen.
      * apply elem_of_cons in Hin as [->|Hin]; [contradiction|].
        destruct (IH seen (S i) Hin Hb Hnew) as (k & b0 & H1 & H2 & H3 & H4).
        exists k, b0. repeat split; auto. now right.
      * destruct (decide (block_signature x = block_signature b)) as [Heq|Hne].
        -- exists i, x. repeat split; auto; now left.
        -- apply elem_of_cons in Hin as [->|Hin]; [congruence|].
           destruct (IH ({[block_signature x]} ∪ seen) (S i) Hin Hb) as
             (k & b0 & H1 & H2 & H3 & H4); [set_solver|].
           exists k, b0. repeat split; auto; now right.
Qed.

Lemma dedupe_aggregate_distinct (seen : gset string) (i : nat) (l : list Block) :
  Forall fallback_block l ->
  NoDup (map block_signature (dedupe_aggregate seen i l)) /\
  forall b', b' ∈ dedupe_aggregate seen i l -> block_signature b' ∉ seen.
Proof.
  revert seen i. induction l as [|x l IH]; intros seen i Hfb; simpl.
  - split; [constructor|]. intros b' Hb'. inversion Hb'.
  - apply Forall_cons in Hfb as [Hx Hfb].
    destruct (block_is_blank x) eqn:Ex; [apply IH, Hfb|].
    case_bool_decide as Hseen; [apply IH, Hfb|].
    destruct (IH ({[block_signature x]} ∪ seen) (S i) Hfb) as [IH1 IH2].
    rewrite map_cons, (NormalizeFacts.normalized_block_signature i x Hx Ex). split.
    + apply NoDup_cons. split; [|exact IH1].
      intros Hin. apply list_elem_of_fmap in Hin as (b' & Hsig & Hb').
      apply IH2 in Hb'. set_solver.
    + intros b' Hb'. apply elem_of_cons in Hb' as [->|Hb'].
      * now rewrite (NormalizeFacts.normalized_block_signature i x Hx Ex).
      * apply IH2 in Hb'. set_solver.
Qed.

End FlatListFacts.

(** X4. In a normalized extracted document every block that a message
    carries is represented in the top-level list: some block of
    [thinkingBlocks] has the same signature. (The top-level list is built
    from the top-level blocks and the blocks of all messages.) *)
Theorem X4_message_blocks_in_flat_list (d : Document) (m : Message) (b : Block) :
  Props.extracted d ->
  m ∈ messages (Normalize.normalize d) ->
  b ∈ m_thinkingBlocks m ->
  exists b', b' ∈ thinkingBlocks (Normalize.normalize d) /\
             Normalize.block_signature b' = Normalize.block_signature b.
Proof.
  intros Hx Hm Hb.
  assert (Hin : b ∈ concat (map m_thinkingBlocks (messages (Normalize.normalize d)))).
  { apply list_elem_of_In, in_concat. exists (m_thinkingBlocks m).
    split; [apply in_map, list_elem_of_In, Hm|apply list_elem_of_In, Hb]. }
  rewrite NormalizeFacts.messages_of_normalize in Hin.
  apply NormalizeFacts.normalized_message_block in Hin as [Hin Hc].
  apply NormalizeFacts.has_content_not_blank in Hc.
  assert (Hagg : b ∈ Normalize.aggregate_blocks d).
  { unfold Normalize.aggregate_blocks. apply elem_of_app. now right. }
  destruct (FlatListFacts.dedupe_aggregate_complete ∅ 0 _ b Hagg Hc)
    as (k & b0 & H1 & H2 & H3 & H4); [set_solver|].
  exists (Normalize.normalized_block k b0).
  rewrite NormalizeFacts.blocks_of_normalize. split; [exact H4|].
  rewrite NormalizeFacts.normalized_block_signature; auto.
  unfold Props.extracted in Hx. rewrite Forall_forall in Hx. apply Hx, H1.
Qed.

(** The reasoning block of the second sample message. *)
Lemma X4_witness :
  exists b', b' ∈ thinkingBlocks (Normalize.normalize Examples.conversation) /\
             Normalize.block_signature b' = Normalize.block_signature Examples.thinking_block.
Proof.
  apply (X4_message_blocks_in_flat_list Examples.conversation
           (Examples.message "msg_1" "assistant" "Recursion is a function calling itself."
              6 39 [Examples.thinking_block] (Some Refs.empty))
           Examples.thinking_block).
  - unfold Props.extracted. vm_compute Normalize.aggregate_blocks.
    repeat constructor; intros H; vm_compute in H; discriminate H.
  - vm_compute. right. left.
  - left.
Defined.

(** X5. The top-level list that normalization leaves is well formed:
    every block in it has an identifier, a type and a content that are
    not empty, its summary and content are trimmed, and in an extracted
    document no two of its blocks have the same signature. *)
Theorem X5_flat_list_well_formed (d : Document) :
  Props.extracted d ->
  (forall b, b ∈ thinkingBlocks (Normalize.normalize d) ->
     b_id b <> "" /\ b_type b <> "" /\ b_content b <> "" /\
     Js.trim (b_content b) = b_content b /\ Js.trim (b_summary b) = b_summary b) /\
  NoDup (map Normalize.block_signature (thinkingBlocks (Normalize.normalize d))).
Proof.
  intros Hx. rewrite NormalizeFacts.blocks_of_normalize. split.
  - intros b Hb.
    apply NormalizeFacts.dedupe_aggregate_origin in Hb as (k & b0 & _ & Hblank & ->).
    simpl. repeat split.
    + apply JsFacts.or_else_nonempty, JsFacts.app_nonempty_l. discriminate.
    + apply JsFacts.or_else_nonempty. discriminate.
    + now apply NormalizeFacts.not_blank_text.
    + apply NormalizeFacts.trim_text.
    + apply JsFacts.trim_idem.
  - apply FlatListFacts.dedupe_aggregate_distinct, Hx.
Qed.

(** The two-message conversation. *)
Lemma X5_witness :
  (forall b, b ∈ thinkingBlocks (Normalize.normalize Examples.conversation) ->
     b_id b <> "" /\ b_type b <> "" /\ b_content b <> "" /\
     Js.trim (b_content b) = b_content b /\ Js.trim (b_summary b) = b_summary b) /\
  NoDup (map Normalize.block_signature
             (thinkingBlocks (Normalize.normalize Examples.conversation))).
Proof.
  apply (X5_flat_list_well_formed Examples.conversation).
  unfold Props.extracted. vm_compute Normalize.aggregate_blocks.
  repeat constructor; intros H; vm_compute in H; discriminate H.
Defined.

(** X6. The uploaded documents that normalization and scoping list come
    from user messages only: each is built from an attachment or a
    document of a message whose author is [user] in any letter case, is
    attributed to [user], has a type, and has a name whenever it has no
    URL; no two of them have the same signature. *)
Theorem X6_uploads_come_from_user_messages (msgs : list Message) :
  Forall (fun u =>
            u_author u = "user" /\ u_type u <> "" /\
            (u_url u = None -> u_name u <> "") /\
            exists m item,
              m ∈ msgs /\ Js.toLowerCase (m_author m) = "user" /\
              item ∈ (attachments (Refs.normalizeReferenceSet (m_references m))
                      ++ documents (Refs.normalizeReferenceSet (m_references m)))%list /\
              Refs.uploaded_of m item = Some u)
         (Refs.computeUploadedDocumentsFromMessages msgs) /\
  NoDup (map Refs.uploaded_signature (Refs.computeUploadedDocumentsFromMessages msgs)).
Proof.
  unfold Refs.computeUploadedDocumentsFromMessages, Refs.dedupeBySignature. split.
  - apply Forall_forall. intros u Hu.
    eapply elem_of_sublist in Hu; [|apply RefsFacts.dedupe_from_sublist].
    apply list_elem_of_In, in_concat in Hu as (l & Hl & Hu).
    apply in_map_iff in Hl as (m & <- & Hm).
    apply list_elem_of_In in Hu, Hm.
    unfold Refs.uploads_of_message in Hu.
    destruct (String.eqb_spec (Js.toLowerCase (m_author m)) "user") as [Ha|];
      [|inversion Hu].
    apply list_elem_of_omap in Hu as (item & Hitem & Hup).
    assert (Hshape : u_author u = "user" /\ u_type u <> "" /\
                     (u_url u = None -> u_name u <> "")).
    { unfold Refs.uploaded_of in Hup.
      destruct (or_null (f_url item)) as [url|] eqn:Eurl.
      - injection Hup as <-. simpl. split; [reflexivity|]. split.
        + apply JsFacts.or_else_nonempty. discriminate.
        + discriminate.
      - destruct (Js.is_empty (Js.trim (f_name item))) eqn:En; [discriminate|].
        injection Hup as <-. simpl. split; [reflexivity|]. split.
        + apply JsFacts.or_else_nonempty. discriminate.
        + intros _. now apply JsFacts.is_empty_false. }
    destruct Hshape as (H1 & H2 & H3). repeat split; auto.
    exists m, item. auto.
  - apply RefsFacts.dedupe_from_NoDup.
Qed.

Module ExtractorFacts.
Import Extractor Terms.
Local Open Scope list_scope.

Lemma dedupe_run_sublist (prev : option string) (l : list Message) :
  sublist (dedupe_run prev l) l.
Proof.
  revert prev. induction l as [|m l IH]; intros prev; simpl; [constructor|].
  case_bool_decide; [apply sublist_cons, IH|apply sublist_skip, IH].
Qed.

Lemma dedupe_run_no_repeat (prev : option string) (l : list Message) :
  no_repeat message_signature prev (dedupe_run prev l).
Proof.
  revert prev. induction l as [|m l IH]; intros prev; simpl; [exact I|].
  case_bool_decide as H; [apply IH|]. simpl. split; [exact H|apply IH].
Qed.

Lemma dedupe_run_fixed (prev : option string) (l : list Message) :
  no_repeat message_signature prev l -> dedupe_run prev l = l.
Proof.
  revert prev. induction l as [|m l IH]; intros prev; simpl; [reflexivity|].
  intros [H1 H2]. rewrite bool_decide_eq_false_2 by exact H1. f_equal. now apply IH.
Qed.

Lemma dedupe_run_head (l : list Message) : head (dedupe_run None l) = head l.
Proof. destruct l as [|m l]; [reflexivity|]. simpl. reflexivity. Qed.

Lemma slice0_length (n : nat) (s : string) :
  String.length (Js.slice0 n s) = Nat.min n (String.length s).
Proof.
  revert s. induction n as [|n IH]; intros [|c t]; simpl; try reflexivity.
  now rewrite IH.
Qed.

Lemma length_append (a b : string) :
  String.length (a ++ b) = String.length a + String.length b.
Proof.
  induction a as [|c a IH]; [reflexivity|].
  change (S (String.length (a ++ b)) = S (String.length a) + String.length b).
  now rewrite IH.
Qed.

Lemma slice0_slice0 (n : nat) (s : string) : Js.slice0 n (Js.slice0 n s) = Js.slice0 n s.
Proof.
  revert s. induction n as [|n IH]; intros [|c t]; simpl; try reflexivity.
  now rewrite IH.
Qed.

Lemma slice0_append (n : nat) (s t : string) :
  Js.slice0 n (Js.slice0 n s ++ t) = Js.slice0 n s \/ String.length s < n.
Proof.
  revert s. induction n as [|n IH]; intros [|c u].
  - left. reflexivity.
  - left. reflexivity.
  - right. simpl. lia.
  - destruct (IH u) as [H|H].
    + left. simpl Js.slice0 at 2.
      change (String c (Js.slice0 n (Js.slice0 n u ++ t)) = String c (Js.slice0 n u)).
      now rewrite H.
    + right. simpl. lia.
Qed.

Lemma references_of_messages {A : Type} (f : ReferenceSet -> list A) (msgs : list Message) :
  f Refs.empty = [] ->
  concat (map f (omap m_references msgs)) =
  concat (map f (map (fun m => Refs.normalizeReferenceSet (m_references m)) msgs)).
Proof.
  intros Hf. induction msgs as [|m msgs IH]; [reflexivity|].
  rewrite !map_cons, concat_cons, <- IH.
  change (omap m_references (m :: msgs)) with
    (match m_references m with
     | Some r => r :: omap m_references msgs
     | None => omap m_references msgs
     end).
  destruct (m_references m) as [r|]; simpl; [reflexivity|now rewrite Hf].
Qed.

(** The pass keeps the messages whose signature is not that of the
    message before them in the input. *)
Lemma dedupe_run_changes (previous : option Message) (msgs : list Message) :
  dedupe_run (option_map message_signature previous) msgs =
  map snd (List.filter (changes message_signature) (zip (previous :: map Some msgs) msgs)).
Proof.
  revert previous. induction msgs as [|m rest IH]; intros previous; [reflexivity|].
  change (zip (previous :: map Some (m :: rest)) (m :: rest))
    with ((previous, m) :: zip (Some m :: map Some rest) rest).
  cbn [dedupe_run List.filter]. cbv zeta.
  specialize (IH (Some m)). cbn [option_map] in IH.
  unfold changes at 1. cbn [fst snd].
  destruct previous as [p|]; cbn [option_map].
  - destruct (String.eqb_spec (message_signature p) (message_signature m)) as [E|E];
      cbn [negb].
    + rewrite bool_decide_eq_true_2 by (now rewrite E).
      rewrite E. exact IH.
    + rewrite bool_decide_eq_false_2 by congruence.
      cbn [map snd]. f_equal. exact IH.
  - rewrite bool_decide_eq_false_2 by discriminate.
    cbn [map snd]. f_equal. exact IH.
Qed.

End ExtractorFacts.

(** X7. [dedupeMessages] drops a message exactly when it repeats the
    signature of the message just before it: the messages kept are
    those of the input, in order, whose signature differs from that of
    their predecessor in the input, the first among them. What is left
    is a sublist that starts with the first message, in which no message
    has the signature of its predecessor, and a second pass changes
    nothing. *)
Theorem X7_dedupeMessages_drops_repeats (msgs : list Message) :
  let kept := Extractor.dedupeMessages msgs in
  kept = map snd (List.filter (Terms.changes Extractor.message_signature)
                              (Terms.with_previous msgs)) /\
  sublist kept msgs /\
  head kept = head msgs /\
  Terms.no_repeat Extractor.message_signature None kept /\
  Extractor.dedupeMessages kept = kept.
Proof.
  cbv zeta. split.
  { unfold Extractor.dedupeMessages, Terms.with_previous.
    destruct (length msgs <=? 1)%nat eqn:E.
    - destruct msgs as [|m [|m' l]]; [reflexivity|reflexivity|discriminate E].
    - apply (ExtractorFacts.dedupe_run_changes None). }
  unfold Extractor.dedupeMessages.
  destruct (Nat.leb_spec (length msgs) 1) as [Hshort|Hlong].
  - rewrite (proj2 (Nat.leb_le _ _) Hshort).
    repeat split; try reflexivity.
    destruct msgs as [|m [|m' l]]; simpl in *; try exact I; try lia.
    split; [discriminate|exact I].
  - split; [apply ExtractorFacts.dedupe_run_sublist|].
    split; [apply ExtractorFacts.dedupe_run_head|].
    split; [apply ExtractorFacts.dedupe_run_no_repeat|].
    destruct (length (Extractor.dedupe_run None msgs) <=? 1)%nat; [reflexivity|].
    apply ExtractorFacts.dedupe_run_fixed, ExtractorFacts.dedupe_run_no_repeat.
Qed.

(** X8. [truncate] keeps a text of at most [length] characters as it is
    and cuts a longer one to its first [length] characters followed by
    three dots: the result is never longer than [length + 3] and starts
    as the text does. (The conversation summary of [postProcess] uses it
    with the default length 100.) *)
Theorem X8_truncate_bounds (text : string) (length : nat) :
  exists cut,
    Extractor.truncate (Some text) length = Some cut /\
    String.length cut <= length + 3 /\
    Js.slice0 length cut = Js.slice0 length text /\
    (String.length text <= length -> cut = text) /\
    (length < String.length text ->
     cut = (Js.slice0 length text ++ "...")%string /\ String.length cut = length + 3).
Proof.
  unfold Extractor.truncate.
  destruct (Nat.leb_spec (String.length text) length) as [Hs|Hl].
  - exists text. repeat split; try reflexivity; lia.
  - exists (Js.slice0 length text ++ "...")%string.
    assert (Hlen : String.length (Js.slice0 length text ++ "...") = length + 3).
    { rewrite ExtractorFacts.length_append, ExtractorFacts.slice0_length. simpl. lia. }
    split; [reflexivity|]. split; [lia|]. split.
    + destruct (ExtractorFacts.slice0_append length text "...") as [H|H]; [exact H|lia].
    + split; [lia|]. intros _. split; [reflexivity|exact Hlen].
Qed.

Module PostProcessFacts.
Import Extractor.
Local Open Scope list_scope.

Lemma fold_sum (f : Message -> nat) (msgs : list Message) (start : nat) :
  fold_left (fun sum msg => sum + Js.or_num (f msg) 0) msgs start =
  start + list_sum (map f msgs).
Proof.
  revert start. induction msgs as [|m msgs IH]; intros start; simpl; [lia|].
  rewrite IH, BreakdownFacts.or_num_zero_r. lia.
Qed.

Lemma authored_disjoint (msgs : list Message) :
  length (authored "user" msgs) + length (authored "assistant" msgs) <= length msgs.
Proof.
  unfold authored. induction msgs as [|m msgs IH]; simpl; [lia|].
  rewrite !filter_cons.
  destruct (String.eqb_spec (m_author m) "user") as [Hu|Hu].
  - rewrite decide_True by reflexivity.
    rewrite decide_False.
    + simpl. lia.
    + rewrite Hu. simpl. discriminate.
  - rewrite decide_False by discriminate.
    destruct (decide ((m_author m =? "assistant")%string = true)); simpl; lia.
Qed.

Lemma index_agree (msgs : list Message) :
  buildReferenceIndex msgs = Refs.computeReferenceIndexFromMessages msgs.
Proof.
  unfold buildReferenceIndex, Refs.computeReferenceIndexFromMessages,
    Refs.mergeReferences, Refs.dedupeBySignature, Refs.dedupeObjectsBySignature.
  rewrite !ExtractorFacts.references_of_messages by reflexivity. reflexivity.
Qed.

Lemma normalized_references (i : nat) (msgs : list Message) :
  map (fun m => Refs.normalizeReferenceSet (m_references m))
      (Normalize.normalize_messages i msgs) =
  map (fun m => Refs.normalizeReferenceSet (m_references m))
      (filter (fun m => Props.survives m = true) msgs).
Proof.
  revert i. induction msgs as [|m msgs IH]; intros i; [reflexivity|].
  rewrite filter_cons. simpl.
  destruct (m_content m) as [raw|] eqn:Ec.
  - pose proof (NormalizeFacts.normalize_message_survives i m raw Ec) as Hs.
    destruct (Normalize.normalize_message i m raw) as [m'|] eqn:En.
    + rewrite decide_True by (apply Hs; eauto).
      simpl. rewrite IH. f_equal.
      unfold Normalize.normalize_message in En.
      destruct (_ && _); [discriminate|]. injection En as <-. simpl.
      now destruct (m_references m).
    + rewrite decide_False; [apply IH|].
      intros H. apply Hs in H as [m' H]. discriminate H.
  - rewrite decide_False; [apply IH|].
    unfold Props.survives. rewrite Ec. discriminate.
Qed.

End PostProcessFacts.

(** X9. [postProcess] leaves the messages and blocks as they are and
    writes counts that agree with them: the message and block counts are
    the lengths of the two lists, the word and character totals are the
    sums over the messages, the user and assistant counts together do
    not exceed the message count (an author can be neither), and the
    reference count is the links, attachments, documents and citations
    of the index together, so it is the three counts that are written
    beside it plus the number of documents. *)
Theorem X9_postProcess_counts (time_value : string -> option Z)
    (toISOString : Z -> string) (d : Document) :
  let d' := fst (Extractor.postProcess time_value toISOString d) in
  let md := metadata d' in
  messages d' = messages d /\
  thinkingBlocks d' = thinkingBlocks d /\
  md_messageCount md = length (messages d) /\
  md_thinkingBlockCount md = length (thinkingBlocks d) /\
  (md_hasThinkingBlocks md = true <-> thinkingBlocks d <> []) /\
  md_totalWordCount md = list_sum (map m_wordCount (messages d)) /\
  md_totalCharacterCount md = list_sum (map m_characterCount (messages d)) /\
  md_userMessageCount md + md_assistantMessageCount md <= md_messageCount md /\
  md_referenceIndex md = Some (Extractor.buildReferenceIndex (messages d)) /\
  md_referenceCount md =
    md_linkCount md + md_attachmentCount md + md_citationCount md
    + length (documents (ri_refs (Extractor.buildReferenceIndex (messages d)))).
Proof.
  cbv zeta. unfold Extractor.postProcess.
  destruct (Extractor.calculateConversationDuration time_value toISOString (messages d));
    simpl;
    (repeat split;
     [intros H E; rewrite E in H; discriminate H
     |intros H; destruct (thinkingBlocks d); [congruence|reflexivity]
     |apply (PostProcessFacts.fold_sum m_wordCount)
     |apply (PostProcessFacts.fold_sum m_characterCount)
     |apply PostProcessFacts.authored_disjoint
     |lia]).
Qed.

(** X10. The reference index of the extractor and that of the export
    interface are the same function of the messages, and the index that
    normalization writes is the extractor's index of the messages that
    survive it: normalizing a document whose messages all survive leaves
    the index of [postProcess] as it is. *)
Theorem X10_reference_index_agrees :
  (forall msgs,
     Extractor.buildReferenceIndex msgs = Refs.computeReferenceIndexFromMessages msgs) /\
  (forall d,
     md_referenceIndex (metadata (Normalize.normalize d)) =
     Some (Extractor.buildReferenceIndex
             (filter (fun m => Props.survives m = true) (messages d)))).
Proof.
  split; [apply PostProcessFacts.index_agree|].
  intros d. rewrite NormalizeFacts.metadata_of_normalize. simpl. f_equal.
  rewrite PostProcessFacts.index_agree.
  unfold Refs.computeReferenceIndexFromMessages.
  now rewrite PostProcessFacts.normalized_references.
Qed.

Module GraphFacts.
Import Graph Terms.
Local Open Scope list_scope.

Lemma has_id_spec (nodes : list Node) (id : string) :
  has_id nodes id = true <-> id ∈ map n_id nodes.
Proof.
  unfold has_id. rewrite existsb_exists. split.
  - intros (x & Hx & He). apply String.eqb_eq in He as <-.
    apply list_elem_of_fmap. exists x. split; [reflexivity|now apply list_elem_of_In].
  - intros H. apply list_elem_of_fmap in H as (x & -> & Hx).
    exists x. split; [now apply list_elem_of_In|apply String.eqb_refl].
Qed.

Lemma pushNode_ids (nodes : list Node) (node : Node) :
  NoDup (map n_id nodes) ->
  NoDup (map n_id (pushNode nodes node)) /\
  (forall id, id ∈ map n_id (pushNode nodes node) <->
              id = n_id node \/ id ∈ map n_id nodes) /\
  head (pushNode nodes node) = match nodes with [] => Some node | x :: _ => Some x end /\
  length (pushNode nodes node) <= S (length nodes).
Proof.
  intros Hnd. unfold pushNode. destruct (has_id nodes (n_id node)) eqn:E.
  - apply has_id_spec in E. split; [exact Hnd|]. split.
    + intros id. split; [auto|]. intros [->|H]; auto.
    + split; [now destruct nodes|lia].
  - assert (Hnew : n_id node ∉ map n_id nodes).
    { intros H. apply has_id_spec in H. congruence. }
    rewrite map_app. simpl. split.
    + apply NoDup_app. split; [exact Hnd|]. split; [|repeat constructor; set_solver].
      intros x Hx Hx'. apply list_elem_of_singleton in Hx' as ->. contradiction.
    + split.
      * intros id. rewrite elem_of_app, list_elem_of_singleton. tauto.
      * split; [now destruct nodes|rewrite length_app; simpl; lia].
Qed.


Lemma link_node_grows (from type : string) (g : graph) (node : Node) :
  well_formed_graph g -> from ∈ map n_id (fst g) ->
  grows g (link_node from type g node) 1.
Proof.
  intros [Hnd Hedges] Hfrom.
  destruct (pushNode_ids (fst g) node Hnd) as (H1 & H2 & H3 & H4).
  unfold grows, well_formed_graph, link_node. simpl. repeat split.
  - exact H1.
  - apply elem_of_app in H as [H|H].
    + apply H2. right. now apply Hedges.
    + apply list_elem_of_singleton in H as ->. simpl. apply H2. now right.
  - apply elem_of_app in H as [H|H].
    + apply H2. right. now apply Hedges.
    + apply list_elem_of_singleton in H as ->. simpl. apply H2. now left.
  - intros id Hid. apply H2. now right.
  - intros Hne. rewrite H3. destruct (fst g); [congruence|reflexivity].
  - rewrite length_app. simpl. lia.
  - lia.
Qed.

Lemma grows_trans (g1 g2 g3 : graph) (a b : nat) :
  fst g1 <> [] -> grows g1 g2 a -> grows g2 g3 b -> grows g1 g3 (a + b).
Proof.
  intros Hne (W2 & I2 & F2 & E2 & N2) (W3 & I3 & F3 & E3 & N3).
  assert (Hne2 : fst g2 <> []).
  { specialize (F2 Hne). destruct (fst g1); [congruence|].
    destruct (fst g2); [discriminate F2|discriminate]. }
  unfold grows. repeat split; try apply W3; auto; try lia.
  intros _. rewrite F3, F2; auto.
Qed.

Lemma children_grow (from : string) (l : list (string * Node)) (g : graph) :
  well_formed_graph g -> from ∈ map n_id (fst g) -> fst g <> [] ->
  grows g (fold_left (fun g child => link_node from (fst child) g (snd child)) l g)
        (length l).
Proof.
  revert g. induction l as [|c l IH]; intros g Hw Hfrom Hne; simpl.
  - unfold grows. repeat split; try apply Hw; auto; lia.
  - pose proof (link_node_grows from (fst c) g (snd c) Hw Hfrom) as Hstep.
    assert (Hne' : fst (link_node from (fst c) g (snd c)) <> []).
    { destruct Hstep as (_ & _ & F & _). specialize (F Hne).
      destruct (fst g); [congruence|].
      destruct (fst (link_node from (fst c) g (snd c))); [discriminate F|discriminate]. }
    apply (grows_trans g _ _ 1 (length l) Hne Hstep).
    apply IH; [apply Hstep| |exact Hne'].
    destruct Hstep as (_ & I & _). now apply I.
Qed.

Lemma length_children (messageId : string) (m : Message) :
  S (length (children messageId m)) = edges_of_message m.
Proof.
  unfold children, edges_of_message.
  rewrite !length_app, !length_map, !length_imap. lia.
Qed.

Lemma add_message_grows (root : string) (g : graph) (im : nat * Message) :
  well_formed_graph g -> root ∈ map n_id (fst g) -> fst g <> [] ->
  grows g (add_message root g im) (edges_of_message (snd im)).
Proof.
  intros Hw Hroot Hne. destruct im as [i m]. unfold add_message. simpl snd.
  set (messageId := ("message:" ++ or_index (m_id m) i)%string).
  pose proof (link_node_grows root "contains" g (message_node messageId i m) Hw Hroot)
    as Hstep.
  rewrite <- (length_children messageId m).
  apply (grows_trans g _ _ 1 _ Hne Hstep).
  assert (Hne' : fst (link_node root "contains" g (message_node messageId i m)) <> []).
  { destruct Hstep as (_ & _ & F & _). specialize (F Hne).
    destruct (fst g); [congruence|].
    destruct (fst (link_node root "contains" g (message_node messageId i m)));
      [discriminate F|discriminate]. }
  apply children_grow; [apply Hstep| |exact Hne'].
  destruct Hstep as ((_ & He) & _).
  destruct (He (mkEdge root messageId "contains")) as [_ Hto]; [|exact Hto].
  unfold link_node. simpl. apply elem_of_app. right. now left.
Qed.

Lemma messages_grow (root : string) (l : list (nat * Message)) (g : graph) :
  well_formed_graph g -> root ∈ map n_id (fst g) -> fst g <> [] ->
  grows g (fold_left (add_message root) l g)
        (list_sum (map (fun im => edges_of_message (snd im)) l)).
Proof.
  revert g. induction l as [|im l IH]; intros g Hw Hroot Hne; simpl.
  - unfold grows. repeat split; try apply Hw; auto; lia.
  - pose proof (add_message_grows root g im Hw Hroot Hne) as Hstep.
    assert (Hne' : fst (add_message root g im) <> []).
    { destruct Hstep as (_ & _ & F & _). specialize (F Hne).
      destruct (fst g); [congruence|].
      destruct (fst (add_message root g im)); [discriminate F|discriminate]. }
    apply (grows_trans g _ _ _ _ Hne Hstep).
    apply IH; [apply Hstep| |exact Hne'].
    destruct Hstep as (_ & I & _). now apply I.
Qed.

Lemma snd_imap_pair {A : Type} (f : A -> nat) (l : list A) :
  map (fun im : nat * A => f (snd im)) (imap pair l) = map f l.
Proof.
  change (imap pair l) with (imap (fun i x => (i, x)) l).
  generalize 0 as k. intros _.
  assert (H : forall g : nat -> nat,
             map (fun im : nat * A => f (snd im)) (imap (fun i x => (g i, x)) l)
             = map f l).
  { induction l as [|x l IH]; intros g; [reflexivity|].
    simpl. f_equal. apply (IH (fun i => g (S i))). }
  apply (H (fun i => i)).
Qed.

End GraphFacts.

(** X11. The graph of the graph export is closed and has no duplicate
    node: no two nodes have the same identifier, every edge starts and
    ends at a node of the graph, the first node is the conversation, and
    there is one edge for every scoped message and for every block, link,
    document and attachment of it (nodes can be fewer, since a node whose
    identifier is already there is not added again). *)
Theorem X11_graph_is_closed (scoped : Document) :
  let g := Graph.graph_of scoped in
  Terms.well_formed_graph g /\
  head (fst g) = Some (Graph.conversation_node (metadata scoped)) /\
  length (snd g) = list_sum (map Terms.edges_of_message (messages scoped)) /\
  length (fst g) <= 1 + length (snd g).
Proof.
  unfold Graph.graph_of.
  set (root := Graph.conversation_node (metadata scoped)).
  destruct (GraphFacts.messages_grow (Graph.n_id root) (imap pair (messages scoped))
              ([root], [])) as (Hw & _ & Hhead & Hedges & Hnodes).
  - split; [repeat constructor; set_solver|]. intros e He. inversion He.
  - now left.
  - discriminate.
  - rewrite GraphFacts.snd_imap_pair in Hedges, Hnodes.
    cbn [fst snd length] in Hedges, Hnodes.
    split; [exact Hw|]. split; [apply Hhead; discriminate|].
    split; [exact Hedges|]. rewrite Hedges. lia.
Qed.

(** X12. [determineActionType] tests for [like] before it tests for
    [dislike], and [dislike] contains [like]: a button whose texts
    contain the word [dislike] is never classified [dislike] (it is
    [copy], [regenerate], [edit] or [like]), and the only texts that are
    classified [dislike] are those with [thumbs down] and without
    [like]. *)
Theorem X12_dislike_is_read_as_like (ariaLabel title text : string) :
  let combined := Js.toLowerCase (ariaLabel ++ " " ++ title ++ " " ++ text) in
  (Js.includes combined "dislike" = true ->
   ChatGPT.determineActionType ariaLabel title text
     ∈ [Some "copy"; Some "regenerate"; Some "edit"; Some "like"]) /\
  (ChatGPT.determineActionType ariaLabel title text = Some "dislike" ->
   Js.includes combined "thumbs down" = true /\ Js.includes combined "like" = false).
Proof.
  intros combined. unfold ChatGPT.determineActionType. fold combined.
  assert (Hlike : Js.includes combined "dislike" = true -> Js.includes combined "like" = true).
  { intros H. apply SubstringFacts.includes_spec.
    apply SubstringFacts.includes_spec in H.
    eapply SubstringFacts.substring_trans; [|exact H].
    exists "dis", "". reflexivity. }
  destruct (Js.includes combined "copy"); [split; [intros _; set_solver|discriminate]|].
  destruct (Js.includes combined "regenerate"); [split; [intros _; set_solver|discriminate]|].
  destruct (Js.includes combined "edit"); [split; [intros _; set_solver|discriminate]|].
  destruct (Js.includes combined "like") eqn:El; simpl.
  - split; [intros _; set_solver|discriminate].
  - destruct (Js.includes combined "thumbs up"); [split; [intros _; set_solver|discriminate]|].
    split.
    + intros H. apply Hlike in H. discriminate H.
    + destruct (Js.includes combined "dislike") eqn:Ed.
      * specialize (Hlike eq_refl). discriminate Hlike.
      * simpl. destruct (Js.includes combined "thumbs down"); [auto|].
        destruct (Js.includes combined "share"); discriminate.
Qed.

(** A button labelled [Dislike]. *)
Lemma X12_witness :
  ChatGPT.determineActionType "Dislike" "" ""
    ∈ [Some "copy"; Some "regenerate"; Some "edit"; Some "like"].
Proof.
  apply (proj1 (X12_dislike_is_read_as_like "Dislike" "" "")). reflexivity.
Defined.

Module LabelFacts.
Import Formats.
Local Open Scope list_scope.

Lemma own_platform_label (key label : string) :
  Table.own key platform_labels = Some label -> label <> "".
Proof.
  unfold platform_labels. cbn [Table.own].
  repeat (destruct (String.eqb _ key); [intros [= <-]; discriminate|]).
  intros H. discriminate H.
Qed.

Lemma capitalize_nonempty (s : string) : s <> "" -> capitalize s <> "".
Proof.
  destruct s as [|c t]; [congruence|]. intros _. cbn [capitalize].
  destruct (Js.code c =? 223)%nat; discriminate.
Qed.

Lemma formatPlatformName_nonempty (value : string) : formatPlatformName value <> Some "".
Proof.
  unfold formatPlatformName, Table.get.
  destruct (Table.own _ platform_labels) as [label|] eqn:E.
  - intros [= ->]. now apply own_platform_label in E.
  - destruct (Table.inherited _); [discriminate|].
    destruct (Js.is_empty _) eqn:En; [discriminate|].
    intros [= H]. apply JsFacts.is_empty_false in En.
    now apply capitalize_nonempty in En.
Qed.

(** The decimal text of a number starts with a digit. *)
Lemma of_nat_digit (n : nat) :
  exists c t, Js.of_nat n = String c t /\ Js.is_digit c = true.
Proof.
  unfold Js.of_nat, NilZero.string_of_uint.
  destruct (Nat.to_uint n) eqn:E; try (eexists _, _; split; reflexivity).
Qed.

Lemma join_head (sep x : string) (l : list string) (c : ascii) (t : string) :
  x = String c t -> exists t', Js.join sep (x :: l) = String c t'.
Proof.
  intros ->. destruct l; simpl; eauto.
Qed.

Lemma breakdown_part_spec (counts : list (string * nat)) (key label : string) :
  breakdown_part counts key label = [] \/
  exists n c t, 0 < n /\ Table.own key counts = Some n /\
                breakdown_part counts key label = [String c t] /\ Js.is_digit c = true.
Proof.
  unfold breakdown_part. destruct (Table.own key counts) as [n|]; [|now left].
  destruct (Nat.eqb_spec n 0); [now left|]. right.
  destruct (of_nat_digit n) as (c & t & Hn & Hc).
  exists n, c, (t ++ " " ++ label)%string. rewrite Hn. repeat split; auto. lia.
Qed.

End LabelFacts.

(** X13. The author label of the text and CSV exports is never empty:
    an author that reads [user], in any letter case and with blanks
    around it, is labelled [User]; every other author, whatever it is,
    gets the label of the platform, which is the table's name for a
    known platform, [Assistant] for none, and the capitalized platform
    otherwise. The label is not a string only when the platform names a
    member that every object inherits. *)
Theorem X13_author_label (platformInfo author : string) (d : Document) :
  let platform := Js.or_else (md_platform (metadata d)) platformInfo in
  Formats.getAuthorLabel platformInfo author d <> Some "" /\
  (Js.toLowerCase (Js.trim author) = "user" ->
   Formats.getAuthorLabel platformInfo author d = Some "User") /\
  (Js.toLowerCase (Js.trim author) <> "user" ->
   Formats.getAuthorLabel platformInfo author d = Formats.formatPlatformName platform) /\
  (Formats.formatPlatformName platform = None <->
   Table.inherited (Js.toLowerCase (Js.trim platform)) = true).
Proof.
  intros platform. unfold Formats.getAuthorLabel, Formats.getAssistantLabel. fold platform.
  split; [|split; [|split]].
  - destruct (String.eqb _ "user"); [discriminate|].
    apply LabelFacts.formatPlatformName_nonempty.
  - intros ->. reflexivity.
  - intros H. apply String.eqb_neq in H. now rewrite H.
  - unfold Formats.formatPlatformName, Table.get.
    destruct (Table.own _ Formats.platform_labels) as [label|] eqn:E.
    + split; [discriminate|]. intros Hi. exfalso. revert E Hi.
      unfold Formats.platform_labels. cbn [Table.own].
      generalize (Js.toLowerCase (Js.trim platform)). intros key.
      repeat match goal with
             | |- context [String.eqb ?k key] =>
                 destruct (String.eqb_spec k key) as [<-|_];
                 [intros _ Hi; vm_compute in Hi; discriminate Hi|]
             end.
      intros H. discriminate H.
    + destruct (Table.inherited _); [tauto|].
      destruct (Js.is_empty _); split; discriminate.
Qed.

(** An assistant message of the sample conversation. *)
Lemma X13_witness :
  Formats.getAuthorLabel "" "assistant" Examples.conversation = Some "Claude" /\
  Formats.getAuthorLabel "" " User " Examples.conversation = Some "User".
Proof.
  destruct (X13_author_label "" "assistant" Examples.conversation) as (_ & _ & H & _).
  destruct (X13_author_label "" " User " Examples.conversation) as (_ & H' & _).
  split; [rewrite H by discriminate; reflexivity|apply H'; reflexivity].
Defined.

Module BreakdownTextFacts.
Import Formats Terms.
Local Open Scope list_scope.


Lemma typed_nil (t : string) (blocks : list Block) :
  length (typed t blocks) = 0 <-> Forall (fun b => counted_type b <> t) blocks.
Proof.
  unfold typed. induction blocks as [|b blocks IH]; simpl.
  - split; [constructor|reflexivity].
  - rewrite filter_cons, Forall_cons.
    destruct (String.eqb_spec (counted_type b) t) as [He|Hne].
    + rewrite decide_True by reflexivity. simpl. split; [lia|tauto].
    + rewrite decide_False by discriminate. rewrite IH. tauto.
Qed.

Lemma part_nil (blocks : list Block) (key label : string) :
  breakdown_part (Normalize.blockTypeBreakdown blocks) key label = [] <->
  Forall (fun b => counted_type b <> key) blocks.
Proof.
  rewrite <- typed_nil. unfold breakdown_part.
  destruct (BreakdownFacts.blockTypeBreakdown_spec blocks) as (_ & Hown & _).
  rewrite Hown. destruct (length (typed key blocks)) as [|n]; [tauto|].
  simpl. split; [discriminate|lia].
Qed.

Lemma parts_none (counts : list (string * nat)) :
  format_counts counts = "none" <->
  Forall (fun kl => breakdown_part counts (fst kl) (snd kl) = []) breakdown_labels.
Proof.
  unfold format_counts.
  assert (H : forall labels,
             (Forall (fun kl => breakdown_part counts (fst kl) (snd kl) = []) labels /\
              concat (map (fun kl => breakdown_part counts (fst kl) (snd kl)) labels) = [])
             \/ (~ Forall (fun kl => breakdown_part counts (fst kl) (snd kl) = []) labels /\
                 exists c t rest,
                   concat (map (fun kl => breakdown_part counts (fst kl) (snd kl)) labels)
                   = String c t :: rest /\ Js.is_digit c = true)).
  { induction labels as [|[key label] labels IH]; simpl.
    - left. split; [constructor|reflexivity].
    - destruct (LabelFacts.breakdown_part_spec counts key label)
        as [Hnil|(n & c & t & _ & _ & Hpart & Hc)].
      + rewrite Hnil. simpl. destruct IH as [[IH1 IH2]|[IH1 IH2]].
        * left. split; [constructor; auto|exact IH2].
        * right. split; [|exact IH2]. intros H. apply Forall_cons in H as [_ H]. auto.
      + right. rewrite Hpart. split.
        * intros H. apply Forall_cons in H as [H _]. simpl in H. congruence.
        * exists c, t. simpl. eauto. }
  destruct (H breakdown_labels) as [[H1 H2]|[H1 (c & t & rest & H2 & Hc)]].
  - rewrite H2. simpl. tauto.
  - rewrite H2. destruct (LabelFacts.join_head ", " (String c t) rest c t eq_refl)
      as [t' ->].
    simpl. split; [|tauto]. intros [= -> _]. exfalso. vm_compute in Hc. discriminate Hc.
Qed.

Lemma none_iff_unknown (blocks : list Block) :
  format_counts (Normalize.blockTypeBreakdown blocks) = "none" <->
  Forall (fun b => counted_type b ∉ known_types) blocks.
Proof.
  rewrite parts_none. unfold breakdown_labels, known_types.
  rewrite !Forall_cons, Forall_nil, !part_nil. simpl.
  split.
  - intros (H1 & H2 & H3 & H4 & H5 & H6 & _).
    rewrite Forall_forall in H1, H2, H3, H4, H5, H6.
    apply Forall_forall. intros b Hb Hin.
    specialize (H1 b Hb). specialize (H2 b Hb). specialize (H3 b Hb).
    specialize (H4 b Hb). specialize (H5 b Hb). specialize (H6 b Hb).
    set_solver.
  - intros H. rewrite Forall_forall in H.
    repeat split; apply Forall_forall; intros b Hb He;
      apply (H b Hb); rewrite He; set_solver.
Qed.

End BreakdownTextFacts.

(** X14. The block breakdown that the text and Markdown headers print
    lists six block types only: for a scoped document without the Claude
    extractor's own table it reads [none] exactly when no block of the
    scope counts under [thinking], [web_search], [tool_call],
    [prompt_chain], [code] or [file_edit]; blocks of any other type, such
    as the ChatGPT extractor's [trace], are not shown. *)
Theorem X14_breakdown_text_none (d : Document) (o : Scope.ExportOptions) :
  let scoped := Scope.buildScopedExportData d o in
  Formats.formatBlockBreakdown None (Some (md_blockTypeBreakdown (metadata scoped)))
                               (thinkingBlocks scoped) = "none" <->
  Forall (fun b => Terms.counted_type b
                     ∉ ["thinking"; "web_search"; "tool_call"; "prompt_chain"; "code";
                        "file_edit"])
         (thinkingBlocks scoped).
Proof. apply BreakdownTextFacts.none_iff_unknown. Qed.

Module StripFacts.
Import Terms.
Local Open Scope list_scope.

Section WithUrl.
Variable url_origin : string -> option string.

Lemma slice_map {A B : Type} (f : A -> B) (s e : Z) (l : list A) :
  Scope.slice s e (map f l) = map f (Scope.slice s e l).
Proof.
  unfold Scope.slice. rewrite length_map.
  now rewrite skipn_map, firstn_map.
Qed.

Lemma scoped_strip (d : Document) (o : Scope.ExportOptions) :
  Scope.scoped_messages (without_blocks d) o = map strip_message (Scope.scoped_messages d o).
Proof.
  unfold Scope.scoped_messages. simpl. rewrite length_map. apply slice_map.
Qed.

Lemma messages_of_scoped (d : Document) (o : Scope.ExportOptions) :
  messages (Scope.buildScopedExportData d o) = Scope.scoped_messages d o.
Proof. reflexivity. Qed.

Lemma redact_strip (m : Message) :
  Redact.redact_message url_origin (strip_message m) =
  strip_message (Redact.redact_message url_origin m).
Proof. reflexivity. Qed.

Lemma prepared_messages_eq (d : Document) (o : Scope.ExportOptions) :
  messages (Redact.getPreparedExportData url_origin d o) =
  if Scope.redactSensitive o
  then map (Redact.redact_message url_origin) (Scope.scoped_messages d o)
  else Scope.scoped_messages d o.
Proof.
  unfold Redact.getPreparedExportData, Redact.sanitizeExportDataForOptions.
  destruct (Scope.redactSensitive o); reflexivity.
Qed.

Lemma prepared_metadata_eq (d : Document) (o : Scope.ExportOptions) :
  let md := metadata (Redact.getPreparedExportData url_origin d o) in
  md_platform md = md_platform (metadata d) /\
  md_exportDate md = md_exportDate (metadata d) /\
  md_messageCount md = length (Scope.scoped_messages d o) /\
  md_uploadedDocuments md =
    if Scope.redactSensitive o
    then map (Redact.redact_uploaded url_origin)
             (Refs.computeUploadedDocumentsFromMessages (Scope.scoped_messages d o))
    else Refs.computeUploadedDocumentsFromMessages (Scope.scoped_messages d o).
Proof.
  unfold Redact.getPreparedExportData, Redact.sanitizeExportDataForOptions.
  destruct (Scope.redactSensitive o); repeat split; reflexivity.
Qed.

Lemma prepared_messages (d : Document) (o : Scope.ExportOptions) :
  messages (Redact.getPreparedExportData url_origin (without_blocks d) o) =
  map strip_message (messages (Redact.getPreparedExportData url_origin d o)).
Proof.
  rewrite !prepared_messages_eq, scoped_strip.
  destruct (Scope.redactSensitive o); [|reflexivity].
  rewrite !map_map. apply map_ext. intros m. apply redact_strip.
Qed.

Lemma uploads_strip (l : list Message) :
  Refs.computeUploadedDocumentsFromMessages (map strip_message l) =
  Refs.computeUploadedDocumentsFromMessages l.
Proof.
  unfold Refs.computeUploadedDocumentsFromMessages. rewrite map_map. reflexivity.
Qed.

Lemma prepared_metadata (d : Document) (o : Scope.ExportOptions) :
  let md := metadata (Redact.getPreparedExportData url_origin d o) in
  let md' := metadata (Redact.getPreparedExportData url_origin (without_blocks d) o) in
  md_platform md' = md_platform md /\
  md_exportDate md' = md_exportDate md /\
  md_messageCount md' = md_messageCount md /\
  md_uploadedDocuments md' = md_uploadedDocuments md.
Proof.
  destruct (prepared_metadata_eq d o) as (H1 & H2 & H3 & H4).
  destruct (prepared_metadata_eq (without_blocks d) o) as (H1' & H2' & H3' & H4').
  cbv zeta. rewrite H1, H2, H3, H4, H1', H2', H3', H4', scoped_strip, length_map,
    uploads_strip.
  repeat split; reflexivity.
Qed.

Lemma prepared_rawHtml (d : Document) (o : Scope.ExportOptions) :
  rawHtml (Redact.getPreparedExportData url_origin (without_blocks d) o) =
  rawHtml (Redact.getPreparedExportData url_origin d o).
Proof.
  unfold Redact.getPreparedExportData, Redact.sanitizeExportDataForOptions.
  destruct (Scope.redactSensitive o); reflexivity.
Qed.

End WithUrl.

End StripFacts.

(** X15. With the options [includeThinking] and [includeMetadata] both
    off, the JSON export does not depend on the thinking blocks: it is
    the export of the document with every block removed, whatever the
    scope and whether or not redaction is on. *)
Theorem X15_json_without_thinking (url_origin : string -> option string)
    (d : Document) (o : Scope.ExportOptions) :
  Scope.includeThinking o = false ->
  Scope.includeMetadata o = false ->
  Json.generateJSON url_origin d o = Json.generateJSON url_origin (Terms.without_blocks d) o.
Proof.
  intros Ht Hm. unfold Json.generateJSON, Json.export_json.
  rewrite Ht, Hm.
  rewrite (StripFacts.prepared_messages url_origin d o),
    (StripFacts.prepared_rawHtml url_origin d o).
  destruct (StripFacts.prepared_metadata url_origin d o) as (H1 & H2 & H3 & _).
  unfold Json.minimal_metadata_json. rewrite H1, H2, H3.
  unfold Stringify.jlist. rewrite map_map. reflexivity.
Qed.

(** The six sample messages, exported without blocks and metadata. *)
Lemma X15_witness :
  let o := Scope.mkOptions false false true false "all" Scope.VUndefined Scope.VUndefined in
  Json.generateJSON Examples.fixture_origin Examples.six_messages o =
  Json.generateJSON Examples.fixture_origin (Terms.without_blocks Examples.six_messages) o.
Proof.
  apply (X15_json_without_thinking Examples.fixture_origin Examples.six_messages);
    reflexivity.
Defined.

(** X16. With [includeThinking] off the CSV export has no row for a
    block and does not depend on the blocks at all: it is the export of
    the document with every block removed. *)
Theorem X16_csv_without_thinking (url_origin : string -> option string)
    (platformInfo : string) (d : Document) (o : Scope.ExportOptions) :
  Scope.includeThinking o = false ->
  Formats.generateCSV url_origin platformInfo d o =
  Formats.generateCSV url_origin platformInfo (Terms.without_blocks d) o.
Proof.
  intros Ht. unfold Formats.generateCSV. rewrite Ht.
  rewrite (StripFacts.prepared_messages url_origin d o).
  destruct (StripFacts.prepared_metadata url_origin d o) as (H1 & _ & _ & H4).
  rewrite H4, map_map.
  unfold Formats.getAuthorLabel, Formats.getAssistantLabel. rewrite H1.
  reflexivity.
Qed.

(** The six sample messages, exported without blocks. *)
Lemma X16_witness :
  let o := Scope.mkOptions false true true false "all" Scope.VUndefined Scope.VUndefined in
  Formats.generateCSV Examples.fixture_origin "" Examples.six_messages o =
  Formats.generateCSV Examples.fixture_origin "" (Terms.without_blocks Examples.six_messages) o.
Proof.
  apply (X16_csv_without_thinking Examples.fixture_origin "" Examples.six_messages).
  reflexivity.
Defined.

Module TraceFacts.
Import ChatGPT Terms.
Local Open Scope list_scope.

Section Traces.
Context {V : Type}.

#[local] Abbreviation trace := (Trace V).

Lemma slice0_empty (n : nat) (s : string) : Js.slice0 n s <> "" -> s <> "".
Proof. intros H ->. destruct n; now apply H. Qed.

Lemma stored_spec (b : trace) :
  contentSignature b <> "" ->
  stored_signature (stored b) = contentSignature b /\
  t_type (stored b) = Some (trace_type b) /\
  t_content (stored b) = Some (normalized_content b).
Proof.
  intros H. unfold contentSignature in H. apply slice0_empty in H.
  unfold stored_signature, stored, contentSignature. simpl.
  unfold Js.or_else. apply JsFacts.is_empty_false in H. rewrite H. auto.
Qed.

Lemma merged_spec (existing b : trace) :
  contentSignature b <> "" ->
  stored_signature (merged existing b) = contentSignature b /\
  t_type (merged existing b) = Some (trace_type b) /\
  t_content (merged existing b) = Some (normalized_content b).
Proof.
  intros H. unfold contentSignature in H. apply slice0_empty in H.
  unfold stored_signature, merged, contentSignature. simpl.
  unfold Js.or_else. apply JsFacts.is_empty_false in H. rewrite H. auto.
Qed.


Lemma invariant_start : trace_invariant (V := V) ([], ∅) [].
Proof.
  split; simpl.
  - intros s i H. rewrite lookup_empty in H. discriminate H.
  - intros i t H. destruct i; discriminate H.
  - intros t H. inversion H.
  - intros b H. inversion H.
  - lia.
Qed.

Lemma origin_more (acc : list trace * gmap string nat) (processed : list trace) (b : trace) :
  (forall t, t ∈ fst acc ->
     exists b, b ∈ processed /\ contentSignature b = stored_signature t
               /\ t_type t = Some (trace_type b)
               /\ t_content t = Some (normalized_content b)
               /\ stored_signature t <> "") ->
  forall t, t ∈ fst acc ->
    exists b0, b0 ∈ processed ++ [b] /\ contentSignature b0 = stored_signature t
               /\ t_type t = Some (trace_type b0)
               /\ t_content t = Some (normalized_content b0)
               /\ stored_signature t <> "".
Proof.
  intros H t Ht. destruct (H t Ht) as (b0 & H0 & H1).
  exists b0. split; [apply elem_of_app; now left|exact H1].
Qed.

Lemma invariant_step (acc : list trace * gmap string nat) (processed : list trace)
    (b : trace) :
  trace_invariant acc processed -> trace_invariant (dedupe_step acc b) (processed ++ [b]).
Proof.
  intros [HA HB HC HD HE]. destruct acc as [deduped seen]. simpl in *.
  unfold dedupe_step.
  destruct (Js.is_empty (contentSignature b)) eqn:Esig.
  { (* no signature: the block is passed over *)
    apply JsFacts.is_empty_true in Esig.
    split; simpl; auto.
    - now apply (origin_more (deduped, seen)).
    - intros b' Hb' Hne. apply elem_of_app in Hb' as [Hb'|Hb']; [now apply HD|].
      apply list_elem_of_singleton in Hb' as ->. congruence.
    - rewrite length_app. simpl. lia. }
  apply JsFacts.is_empty_false in Esig.
  destruct (seen !! contentSignature b) as [i|] eqn:Eseen.
  - destruct (HA _ _ Eseen) as (existing & Hex & Hsig). rewrite Hex.
    destruct (Nat.leb_spec (priority (trace_type b))
                           (priority (str_or_empty (t_type existing)))) as [Hle|Hgt].
    + (* the stored block has the priority: nothing changes *)
      split; simpl; auto.
      * now apply (origin_more (deduped, seen)).
      * intros b' Hb' Hne. apply elem_of_app in Hb' as [Hb'|Hb']; [now apply HD|].
        apply list_elem_of_singleton in Hb' as ->. eauto.
      * rewrite length_app. simpl. lia.
    + (* the new block takes the place of the stored one *)
      destruct (merged_spec existing b Esig) as (Hm1 & Hm2 & Hm3).
      assert (Hi : i < length deduped) by (eapply lookup_lt_Some; eauto).
      split; simpl.
      * intros s j Hs. destruct (decide (j = i)) as [->|Hne].
        -- exists (merged existing b). rewrite list_lookup_insert_eq by exact Hi.
           split; [reflexivity|]. rewrite Hm1.
           destruct (HA _ _ Hs) as (t & Ht & <-). congruence.
        -- rewrite list_lookup_insert_ne by congruence. now apply HA.
      * intros j t Ht. destruct (decide (j = i)) as [->|Hne].
        -- rewrite list_lookup_insert_eq in Ht by exact Hi. injection Ht as <-.
           now rewrite Hm1.
        -- rewrite list_lookup_insert_ne in Ht by congruence. now apply HB.
      * intros t Ht. apply list_elem_of_lookup in Ht as [j Ht].
        destruct (decide (j = i)) as [->|Hne].
        -- rewrite list_lookup_insert_eq in Ht by exact Hi. injection Ht as <-.
           exists b. split; [apply elem_of_app; right; now left|].
           rewrite Hm1. auto.
        -- rewrite list_lookup_insert_ne in Ht by congruence.
           apply (origin_more (deduped, seen)); [exact HC|].
           simpl. eapply list_elem_of_lookup_2, Ht.
      * intros b' Hb' Hne. apply elem_of_app in Hb' as [Hb'|Hb'].
        -- destruct (HD b' Hb' Hne) as (j & t & H1 & H2 & H3).
           destruct (decide (j = i)) as [->|Hji].
           ++ exists i, (merged existing b).
              rewrite list_lookup_insert_eq by exact Hi.
              split; [exact H1|]. split; [reflexivity|].
              rewrite Hm2. simpl. assert (t = existing) by congruence. subst t. lia.
           ++ exists j, t. rewrite list_lookup_insert_ne by congruence. auto.
        -- apply list_elem_of_singleton in Hb' as ->.
           exists i, (merged existing b).
           rewrite list_lookup_insert_eq by exact Hi.
           split; [exact Eseen|]. split; [reflexivity|].
           rewrite Hm2. simpl. lia.
      * rewrite length_insert, length_app. simpl. lia.
  - (* a new signature: the block is stored at the end *)
    destruct (stored_spec b Esig) as (Hs1 & Hs2 & Hs3).
    split; simpl.
    + intros s j Hs. destruct (decide (s = contentSignature b)) as [->|Hne].
      * rewrite lookup_insert_eq in Hs. injection Hs as <-.
        exists (stored b). split; [|exact Hs1].
        rewrite lookup_app_r by lia. now rewrite Nat.sub_diag.
      * rewrite lookup_insert_ne in Hs by congruence.
        destruct (HA _ _ Hs) as (t & Ht & Hsig). exists t. split; [|exact Hsig].
        rewrite lookup_app_l; [exact Ht|]. eapply lookup_lt_Some, Ht.
    + intros j t Ht. apply lookup_app_Some in Ht as [Ht|[Hlen Ht]].
      * rewrite lookup_insert_ne; [now apply HB|].
        intros He. apply HB in Ht. rewrite <- He in Ht. congruence.
      * destruct (j - length deduped) as [|k] eqn:Ek; [|destruct k; discriminate Ht].
        injection Ht as <-. rewrite Hs1, lookup_insert_eq. f_equal. lia.
    + intros t Ht. apply elem_of_app in Ht as [Ht|Ht].
      * now apply (origin_more (deduped, seen)).
      * apply list_elem_of_singleton in Ht as ->.
        exists b. split; [apply elem_of_app; right; now left|].
        rewrite Hs1. auto.
    + intros b' Hb' Hne. apply elem_of_app in Hb' as [Hb'|Hb'].
      * destruct (HD b' Hb' Hne) as (j & t & H1 & H2 & H3).
        exists j, t. rewrite lookup_insert_ne by congruence.
        split; [exact H1|]. split; [|exact H3].
        rewrite lookup_app_l; [exact H2|]. eapply lookup_lt_Some, H2.
      * apply list_elem_of_singleton in Hb' as ->.
        exists (length deduped), (stored b). rewrite lookup_insert_eq.
        split; [reflexivity|]. split.
        -- rewrite lookup_app_r by lia. now rewrite Nat.sub_diag.
        -- rewrite Hs2. simpl. lia.
    + rewrite !length_app. simpl. lia.
Qed.

Lemma invariant_fold (blocks processed : list trace) (acc : list trace * gmap string nat) :
  trace_invariant acc processed ->
  trace_invariant (fold_left dedupe_step blocks acc) (processed ++ blocks).
Proof.
  revert processed acc. induction blocks as [|b blocks IH]; intros processed acc H; simpl.
  - now rewrite app_nil_r.
  - replace (processed ++ b :: blocks) with ((processed ++ [b]) ++ blocks)
      by now rewrite <- app_assoc.
    apply IH, invariant_step, H.
Qed.

Lemma dedupe_invariant (blocks : list trace) :
  trace_invariant (fold_left dedupe_step blocks ([], ∅)) blocks.
Proof. apply (invariant_fold blocks [] _ invariant_start). Qed.

End Traces.

End TraceFacts.

(** X17. The ChatGPT extractor's [dedupeThinkingBlocks] keeps one block
    for each content signature (the first 500 characters of the content
    without its heading and summary), and the block kept is one of the
    highest priority among those with that signature, [tool_call] and
    [prompt_chain] before [thinking] before [trace]: no two kept blocks
    have the same signature, every kept block has the type and the
    content of a block of the input with its signature, and for every
    block of the input with a signature the kept block with that
    signature has at least its priority. (Types that name a member every
    object inherits are left out.) *)
Theorem X17_highest_priority_trace_is_kept (V : Type) (blocks : list (ChatGPT.Trace V)) :
  Forall (fun b => Table.inherited (ChatGPT.trace_type b) = false) blocks ->
  let kept := ChatGPT.dedupeThinkingBlocks blocks in
  NoDup (map Terms.stored_signature kept) /\
  length kept <= length blocks /\
  (forall t, t ∈ kept ->
     exists b, b ∈ blocks /\
               ChatGPT.contentSignature b = Terms.stored_signature t /\
               ChatGPT.t_type t = Some (ChatGPT.trace_type b) /\
               ChatGPT.t_content t = Some (ChatGPT.normalized_content b) /\
               Terms.stored_signature t <> "") /\
  (forall b, b ∈ blocks -> ChatGPT.contentSignature b <> "" ->
     exists t, t ∈ kept /\
               Terms.stored_signature t = ChatGPT.contentSignature b /\
               ChatGPT.priority (ChatGPT.trace_type b)
               <= ChatGPT.priority (str_or_empty (ChatGPT.t_type t))).
Proof.
  intros _ kept.
  destruct (TraceFacts.dedupe_invariant blocks) as [HA HB HC HD HE].
  fold (ChatGPT.dedupeThinkingBlocks blocks) in HA, HB, HC, HD, HE. fold kept in HA, HB, HC, HD, HE.
  split; [|split; [exact HE|split; [exact HC|]]].
  - apply NoDup_alt. intros i j s Hi Hj.
    rewrite list_lookup_fmap in Hi, Hj.
    destruct (kept !! i) as [t|] eqn:Ei; [|discriminate Hi].
    destruct (kept !! j) as [t'|] eqn:Ej; [|discriminate Hj].
    simpl in Hi, Hj. injection Hi as Hi. injection Hj as Hj.
    apply HB in Ei, Ej. rewrite Hi in Ei. rewrite Hj in Ej. congruence.
  - intros b Hb Hne. destruct (HD b Hb Hne) as (i & t & H1 & H2 & H3).
    exists t. split; [eapply list_elem_of_lookup_2, H2|]. split; [|exact H3].
    apply HB in H2. destruct (HA _ _ H1) as (t' & Ht' & Hsig).
    destruct (HA _ _ H2) as (t'' & Ht'' & Hsig'). congruence.
Qed.

(** A reasoning trace and a tool-call trace with the same content: the
    tool call is kept, in whichever order they come. *)
Lemma X17_witness :
  let kept := ChatGPT.dedupeThinkingBlocks [Samples.reasoning_trace; Samples.tool_trace] in
  NoDup (map Terms.stored_signature kept) /\
  length kept <= 2 /\
  (forall t, t ∈ kept ->
     exists b, b ∈ [Samples.reasoning_trace; Samples.tool_trace] /\
               ChatGPT.contentSignature b = Terms.stored_signature t /\
               ChatGPT.t_type t = Some (ChatGPT.trace_type b) /\
               ChatGPT.t_content t = Some (ChatGPT.normalized_content b) /\
               Terms.stored_signature t <> "") /\
  (forall b, b ∈ [Samples.reasoning_trace; Samples.tool_trace] ->
     ChatGPT.contentSignature b <> "" ->
     exists t, t ∈ kept /\
               Terms.stored_signature t = ChatGPT.contentSignature b /\
               ChatGPT.priority (ChatGPT.trace_type b)
               <= ChatGPT.priority (str_or_empty (ChatGPT.t_type t))).
Proof.
  apply (X17_highest_priority_trace_is_kept string
           [Samples.reasoning_trace; Samples.tool_trace]).
  repeat constructor.
Defined.

Example tool_call_trace_wins :
  map ChatGPT.t_type
      (ChatGPT.dedupeThinkingBlocks [Samples.reasoning_trace; Samples.tool_trace])
    = [Some "tool_call"] /\
  map ChatGPT.t_type
      (ChatGPT.dedupeThinkingBlocks [Samples.tool_trace; Samples.reasoning_trace])
    = [Some "tool_call"].
Proof. split; vm_compute; reflexivity. Qed.

(** X18. [classifyTraceType] looks for its word lists in the lower-cased
    summary, hint and content put together, the tool words first: a
    trace is a [tool_call] as soon as one of [tool], [function], [call],
    [run], [command], [output] occurs anywhere in it, whatever else it
    says; otherwise a [prompt_chain] when a prompt word occurs, otherwise
    [thinking] when a reasoning word occurs, otherwise [trace]. Each of
    the four answers has a priority in [dedupeThinkingBlocks]. *)
Theorem X18_trace_type_by_first_word_list (summary hint content : string) :
  let combined := Js.toLowerCase (summary ++ " " ++ hint ++ " " ++ content) in
  ChatGPT.classifyTraceType summary hint content =
    (if existsb (Js.includes combined) ChatGPT.tool_words then "tool_call"
     else if existsb (Js.includes combined) ChatGPT.prompt_words then "prompt_chain"
     else if existsb (Js.includes combined) ChatGPT.thinking_words then "thinking"
     else "trace") /\
  1 <= ChatGPT.priority (ChatGPT.classifyTraceType summary hint content).
Proof.
  intros combined. unfold ChatGPT.classifyTraceType, ChatGPT.words_re. fold combined.
  rewrite !MatchFacts.test_words by discriminate.
  split; [reflexivity|].
  destruct (existsb _ ChatGPT.tool_words); [vm_compute; lia|].
  destruct (existsb _ ChatGPT.prompt_words); [vm_compute; lia|].
  destruct (existsb _ ChatGPT.thinking_words); vm_compute; lia.
Qed.

Module CsvFacts.
Import Formats Terms.
Local Open Scope list_scope.

Lemma csv_escape_spec (text : string) :
  csv_escape text = Regex.str (replace_each is_quote (Regex.chars (dq ++ dq)) (Regex.chars text)).
Proof. unfold csv_escape. apply (MatchFacts.replaceAll_cls Regex.plain). Qed.

Lemma doubling_injective (a b : list ascii) :
  replace_each is_quote (Regex.chars (dq ++ dq)) a = replace_each is_quote (Regex.chars (dq ++ dq)) b ->
  a = b.
Proof.
  unfold replace_each. revert b. induction a as [|x a IH]; intros [|y b]; simpl.
  - reflexivity.
  - destruct (is_quote y); discriminate.
  - destruct (is_quote x); discriminate.
  - unfold is_quote at 1 3.
    destruct (Ascii.eqb_spec (ascii_of_nat 34) x) as [<-|Hx];
      destruct (Ascii.eqb_spec (ascii_of_nat 34) y) as [<-|Hy]; simpl.
    + intros [= H]. f_equal. now apply IH.
    + intros [= H _]. congruence.
    + intros [= H _]. congruence.
    + intros [= -> H]. f_equal. now apply IH.
Qed.

Lemma str_injective (a b : list ascii) : Regex.str a = Regex.str b -> a = b.
Proof.
  revert b. induction a as [|x a IH]; intros [|y b]; simpl; try discriminate.
  - reflexivity.
  - intros [= -> H]. f_equal. now apply IH.
Qed.

Lemma chars_injective (a b : string) : Regex.chars a = Regex.chars b -> a = b.
Proof.
  intros H. rewrite <- (RegexFacts.str_chars a), <- (RegexFacts.str_chars b). now f_equal.
Qed.

End CsvFacts.

(** X19. The CSV export doubles every double quote of a content and
    changes nothing else in it, so that two different contents never
    give the same field. *)
Theorem X19_csv_escape_doubles_quotes :
  (forall text,
     Formats.csv_escape text =
     Regex.str (Terms.replace_each Terms.is_quote (Regex.chars (Formats.dq ++ Formats.dq))
                                   (Regex.chars text))) /\
  (forall a b, Formats.csv_escape a = Formats.csv_escape b -> a = b).
Proof.
  split; [apply CsvFacts.csv_escape_spec|].
  intros a b H. rewrite !CsvFacts.csv_escape_spec in H.
  apply CsvFacts.chars_injective, CsvFacts.doubling_injective, CsvFacts.str_injective, H.
Qed.

Module ExtensionFacts.
Import Extractor Terms.

Lemma split_head (c : ascii) (s cur : string) :
  hd "" (Js.split_go (String c "") cur 0 s) = (cur ++ before_char c s)%string.
Proof.
  revert cur. induction s as [|x t IH]; intros cur.
  - simpl. now rewrite SubstringFacts.append_nil_r.
  - cbn [Js.split_go Js.startsWith before_char].
    replace (Js.startsWith t "") with true by (now destruct t).
    destruct (Ascii.eqb c x); cbn [andb hd String.length Nat.sub].
    + now rewrite SubstringFacts.append_nil_r.
    + rewrite IH, SubstringFacts.append_assoc. reflexivity.
Qed.

Lemma clean_spec (value : string) :
  hd "" (Js.split (hd "" (Js.split value "?")) "#") =
  before_char "#" (before_char "?" value).
Proof. unfold Js.split. now rewrite !split_head. Qed.

Lemma before_query (v q : string) :
  before_char "?" (v ++ "?" ++ q) = before_char "?" v.
Proof.
  induction v as [|x t IH]; [reflexivity|].
  change ((String x t ++ "?" ++ q)%string) with (String x (t ++ "?" ++ q)).
  cbn [before_char]. destruct (Ascii.eqb "?" x); [reflexivity|]. now rewrite IH.
Qed.

Lemma before_fragment (v q : string) :
  before_char "#" (before_char "?" (v ++ "#" ++ q)) = before_char "#" (before_char "?" v).
Proof.
  induction v as [|x t IH]; [reflexivity|].
  change ((String x t ++ "#" ++ q)%string) with (String x (t ++ "#" ++ q)).
  cbn [before_char]. destruct (Ascii.eqb "?" x); [reflexivity|].
  cbn [before_char]. destruct (Ascii.eqb "#" x); [reflexivity|]. now rewrite IH.
Qed.

Lemma extension_of_clean (value : string) :
  getFileExtension value =
  match Regex.exec Regex.icase extension_re (before_char "#" (before_char "?" value)) with
  | Some (_, caps) => Js.toLowerCase (Regex.str (Regex.get_cap 1 caps))
  | None => ""
  end.
Proof.
  unfold getFileExtension. destruct value as [|x t]; [reflexivity|].
  cbn [Js.is_empty]. now rewrite clean_spec.
Qed.

End ExtensionFacts.

(** X20. [getFileExtension] reads the extension from the part of the
    name before the first question mark and the first hash: appending a
    query string or a fragment to a name or URL changes neither its
    extension nor its document type, and the document type is nothing or
    one of the seventeen listed extensions. *)
Theorem X20_extension_ignores_query_and_fragment (value more : string) :
  Extractor.getFileExtension (value ++ "?" ++ more) = Extractor.getFileExtension value /\
  Extractor.getFileExtension (value ++ "#" ++ more) = Extractor.getFileExtension value /\
  Extractor.classifyDocumentType (value ++ "?" ++ more) = Extractor.classifyDocumentType value /\
  Extractor.classifyDocumentType (value ++ "#" ++ more) = Extractor.classifyDocumentType value /\
  forall type, Extractor.classifyDocumentType value = Some type -> type ∈ Extractor.docExt.
Proof.
  assert (H1 : Extractor.getFileExtension (value ++ "?" ++ more)
               = Extractor.getFileExtension value).
  { rewrite !ExtensionFacts.extension_of_clean. now rewrite ExtensionFacts.before_query. }
  assert (H2 : Extractor.getFileExtension (value ++ "#" ++ more)
               = Extractor.getFileExtension value).
  { rewrite !ExtensionFacts.extension_of_clean. now rewrite ExtensionFacts.before_fragment. }
  unfold Extractor.classifyDocumentType. rewrite H1, H2.
  repeat split.
  intros type. destruct (Js.is_empty _); [discriminate|].
  destruct (existsb _ Extractor.docExt) eqn:E; [|discriminate].
  intros [= <-]. apply existsb_exists in E as (x & Hx & He).
  apply String.eqb_eq in He as ->. now apply list_elem_of_In.
Qed.

Module FilenameFacts.
Import Regex Filenames Terms.
Local Open Scope list_scope.

#[local] Abbreviation sp := (cs_test false CSpace).
#[local] Abbreviation us := (cs_test false (CNot safe)).
#[local] Abbreviation da := (cs_test false (chr "-")).
#[local] Abbreviation dash := (chars "-").
#[local] Abbreviation core l :=
  (squeeze da dash false (replace_each us dash (squeeze sp dash false l))).

Lemma dashed_spec (text : string) : dashed text = str (core (chars text)).
Proof.
  unfold dashed.
  rewrite (MatchFacts.replaceAll_plus plain CSpace), (MatchFacts.replaceAll_cls plain),
    (MatchFacts.replaceAll_plus plain (chr "-")), !MatchFacts.chars_str.
  reflexivity.
Qed.

(** *** The characters *)

Lemma safe_not_space (c : ascii) : safe_char c = true -> sp c = false.
Proof.
  destruct c as [[] [] [] [] [] [] [] []]; vm_compute; congruence.
Qed.

Lemma dash_is_dash (c : ascii) : da c = true -> c = "-"%char.
Proof.
  change (da c) with (Ascii.eqb "-" c). intros H. symmetry. now apply Ascii.eqb_eq.
Qed.

Lemma unsafe_not_safe (c : ascii) : us c = negb (safe_char c).
Proof. reflexivity. Qed.

(** *** Lists of characters *)

Lemma squeeze_Forall (P : ascii -> Prop) (p : ascii -> bool) (rep : list ascii) :
  Forall P rep -> forall l b, Forall P l -> Forall P (squeeze p rep b l).
Proof.
  intros Hrep. induction l as [|c t IH]; intros b Hl; [constructor|].
  apply Forall_cons in Hl as [Hc Ht]. cbn [squeeze].
  destruct (p c).
  - apply Forall_app. split; [destruct b; [constructor|exact Hrep]|now apply IH].
  - constructor; [exact Hc|now apply IH].
Qed.

Lemma replace_each_safe (l : list ascii) :
  Forall (fun c => safe_char c = true) (replace_each us dash l).
Proof.
  unfold replace_each. induction l as [|c t IH]; [constructor|].
  cbn [flat_map]. rewrite unsafe_not_safe.
  destruct (safe_char c) eqn:E; cbn [negb].
  - constructor; [exact E|exact IH].
  - apply Forall_app. split; [repeat constructor|exact IH].
Qed.

Lemma squeeze_no_adjacent (p : ascii -> bool) (d : ascii) :
  p d = true ->
  forall l b,
    no_adjacent p (squeeze p [d] b l) /\
    (b = true -> match squeeze p [d] b l with
                 | c :: _ => p c = false
                 | [] => True
                 end).
Proof.
  intros Hd. induction l as [|c t IH]; intros b; [split; [exact I|intros _; exact I]|].
  cbn [squeeze]. destruct (p c) eqn:Ec.
  - destruct (IH true) as [IH1 IH2]. specialize (IH2 eq_refl).
    destruct b; cbn [app]; [split; [exact IH1|intros _; exact IH2]|].
    split; [|discriminate]. cbn [no_adjacent].
    destruct (squeeze p [d] true t); [exact I|]. split; [intros _; exact IH2|exact IH1].
  - destruct (IH false) as [IH1 _]. split; [|intros _; exact Ec].
    cbn [no_adjacent]. destruct (squeeze p [d] false t); [exact I|].
    split; [congruence|exact IH1].
Qed.

Lemma squeeze_none (p : ascii -> bool) (rep : list ascii) (l : list ascii) (b : bool) :
  Forall (fun c => p c = false) l -> squeeze p rep b l = l.
Proof.
  revert b. induction l as [|c t IH]; intros b H; [reflexivity|].
  apply Forall_cons in H as [Hc Ht]. cbn [squeeze]. rewrite Hc. f_equal. now apply IH.
Qed.

Lemma replace_each_none (p : ascii -> bool) (rep : list ascii) (l : list ascii) :
  Forall (fun c => p c = false) l -> replace_each p rep l = l.
Proof.
  unfold replace_each. induction l as [|c t IH]; intros H; [reflexivity|].
  apply Forall_cons in H as [Hc Ht]. cbn [flat_map]. rewrite Hc. cbn [app].
  f_equal. now apply IH.
Qed.

Lemma squeeze_fixed (p : ascii -> bool) (d : ascii) :
  forall l b,
    (b = true -> match l with c :: _ => p c = false | [] => True end) ->
    Forall (fun c => p c = true -> c = d) l ->
    no_adjacent p l ->
    squeeze p [d] b l = l.
Proof.
  induction l as [|c t IH]; intros b Hb Hd Hadj; [reflexivity|].
  apply Forall_cons in Hd as [Hc Ht]. cbn [squeeze].
  destruct (p c) eqn:Ec.
  - destruct b; [specialize (Hb eq_refl); congruence|].
    cbn [app]. f_equal; [symmetry; now apply Hc|].
    apply IH; [|exact Ht|].
    + intros _. destruct t as [|c' t']; [exact I|]. cbn [no_adjacent] in Hadj.
      now apply Hadj.
    + destruct t as [|c' t']; [exact I|]. cbn [no_adjacent] in Hadj. apply Hadj.
  - f_equal. apply IH; [discriminate|exact Ht|].
    destruct t as [|c' t']; [exact I|]. cbn [no_adjacent] in Hadj. apply Hadj.
Qed.

Lemma no_adjacent_app (p : ascii -> bool) (l1 l2 : list ascii) :
  no_adjacent p (l1 ++ l2) -> no_adjacent p l1 /\ no_adjacent p l2.
Proof.
  induction l1 as [|c t IH]; [now split|]. intros H.
  destruct t as [|c' t'].
  - split; [exact I|]. destruct l2; [exact I|]. apply H.
  - cbn [app no_adjacent] in H. destruct H as [H1 H2].
    destruct (IH H2) as [IH1 IH2]. split; [|exact IH2].
    cbn [no_adjacent]. split; assumption.
Qed.

Lemma no_adjacent_includes (l : list ascii) :
  no_adjacent da l -> Js.includes (str l) "--" = false.
Proof.
  induction l as [|c t IH]; intros H; [reflexivity|].
  change (str (c :: t)) with (String c (str t)).
  change (Js.includes (String c (str t)) "--")
    with (Js.startsWith (String c (str t)) "--" || Js.includes (str t) "--").
  rewrite IH by (destruct t; [exact I|apply H]).
  rewrite orb_false_r. cbn [Js.startsWith].
  destruct (Ascii.eqb_spec "-" c) as [<-|]; [|reflexivity]. cbn [andb].
  destruct t as [|c' t']; [reflexivity|].
  change (str (c' :: t')) with (String c' (str t')). cbn [Js.startsWith].
  destruct (Ascii.eqb_spec "-" c') as [<-|]; [|reflexivity].
  destruct H as [H _]. specialize (H eq_refl). discriminate H.
Qed.

(** *** Both ends *)

Lemma strip_tail_last (p : ascii -> bool) (l : list ascii) (c : ascii) :
  last_char (str (strip_tail p l)) = Some c -> p c = false.
Proof.
  induction l as [|x t IH]; [discriminate|]. cbn [strip_tail].
  destruct (forallb p (x :: t)) eqn:Ef; [discriminate|].
  change (str (x :: strip_tail p t)) with (String x (str (strip_tail p t))).
  cbn [last_char]. destruct (last_char (str (strip_tail p t))) as [y|] eqn:El.
  - intros [= <-]. now apply IH.
  - intros [= <-]. cbn [forallb] in Ef. apply andb_false_iff in Ef as [Ef|Ef]; [exact Ef|].
    exfalso. clear IH. destruct t as [|y t']; [discriminate Ef|].
    cbn [strip_tail] in El. rewrite Ef in El.
    change (str (y :: strip_tail p t')) with (String y (str (strip_tail p t'))) in El.
    cbn [last_char] in El. now destruct (last_char (str (strip_tail p t'))).
Qed.

Lemma strip_tail_first (p : ascii -> bool) (l : list ascii) (c : ascii) :
  match l with x :: _ => p x = false | [] => True end ->
  first_char (str (strip_tail p l)) = Some c -> p c = false.
Proof.
  destruct l as [|x t]; [discriminate|]. intros Hx. cbn [strip_tail forallb].
  rewrite Hx. cbn [andb]. intros [= <-]. exact Hx.
Qed.

Lemma strip_tail_fixed (p : ascii -> bool) (l : list ascii) :
  (forall c, last_char (str l) = Some c -> p c = false) -> strip_tail p l = l.
Proof.
  induction l as [|x t IH]; intros H; [reflexivity|].
  change (str (x :: t)) with (String x (str t)) in H. cbn [last_char] in H.
  assert (Ht : strip_tail p t = t).
  { apply IH. intros c Hc. apply H. now rewrite Hc. }
  cbn [strip_tail]. rewrite Ht.
  destruct (forallb p (x :: t)) eqn:Ef; [|reflexivity].
  exfalso. cbn [forallb] in Ef. apply andb_true_iff in Ef as [Ex Et].
  destruct (last_char (str t)) as [y|] eqn:El.
  - specialize (H y eq_refl).
    clear -El Et H. revert y El H. induction t as [|z t IH]; intros y El H; [discriminate|].
    change (str (z :: t)) with (String z (str t)) in El. cbn [last_char] in El.
    cbn [forallb] in Et. apply andb_true_iff in Et as [Ez Et].
    destruct (last_char (str t)) as [w|] eqn:Ew.
    + injection El as <-. now apply (IH Et w).
    + injection El as <-. congruence.
  - specialize (H x eq_refl). congruence.
Qed.

Lemma rest_of_fixed (p : ascii -> bool) (l : list ascii) :
  (forall c, first_char (str l) = Some c -> p c = false) -> rest_of p l = l.
Proof.
  destruct l as [|x t]; [reflexivity|]. intros H. cbn [rest_of].
  now rewrite (H x eq_refl).
Qed.

Lemma trim_no_space (l : list ascii) :
  Forall (fun c => sp c = false) l -> Js.trim (str l) = str l.
Proof.
  intros H. unfold Js.trim.
  assert (Hs : Js.trimStart (str l) = str l).
  { destruct l as [|c t]; [reflexivity|]. apply Forall_cons in H as [Hc _].
    change (str (c :: t)) with (String c (str t)). cbn [Js.trimStart].
    change (Js.is_space c) with (sp c). now rewrite Hc. }
  rewrite Hs. induction l as [|c t IH]; [reflexivity|].
  apply Forall_cons in H as [Hc Ht].
  change (str (c :: t)) with (String c (str t)). cbn [Js.trimEnd].
  change (Js.is_space c) with (sp c). rewrite Hc. cbn [andb].
  rewrite IH; [reflexivity|exact Ht|].
  destruct t as [|c' t']; [reflexivity|]. apply Forall_cons in Ht as [Hc' _].
  change (str (c' :: t')) with (String c' (str t')). cbn [Js.trimStart].
  change (Js.is_space c') with (sp c'). now rewrite Hc'.
Qed.

(** What [sanitizeFilenameBase] computes, on the list of characters. *)
Lemma sanitize_spec (text : string) :
  sanitizeFilenameBase (Some text) =
  str (strip_tail edge_char (rest_of edge_char (core (chars (Js.trim text))))).
Proof.
  unfold sanitizeFilenameBase, edges_re.
  rewrite (MatchFacts.replaceAll_ends edge), dashed_spec, MatchFacts.chars_str.
  reflexivity.
Qed.

Lemma core_shape (l : list ascii) :
  Forall (fun c => safe_char c = true) (core l) /\ no_adjacent da (core l).
Proof.
  split.
  - apply squeeze_Forall; [repeat constructor|apply replace_each_safe].
  - apply (squeeze_no_adjacent da "-"). reflexivity.
Qed.

(** The two ends cut off a list of safe characters without two dashes
    in a row leave a clean base, which the function leaves as it is. *)
Lemma ends_clean (l : list ascii) :
  Forall (fun c => safe_char c = true) l -> no_adjacent da l ->
  let r := strip_tail edge_char (rest_of edge_char l) in
  clean_base (str r) /\ sanitizeFilenameBase (Some (str r)) = str r.
Proof.
  intros Hsafe Hadj r.
  assert (Hsub : Forall (fun c => safe_char c = true) r /\ no_adjacent da r).
  { unfold r. rewrite <- (MatchFacts.run_rest edge_char l) in Hsafe, Hadj.
    apply Forall_app in Hsafe as [_ Hsafe]. apply no_adjacent_app in Hadj as [_ Hadj].
    rewrite <- (MatchFacts.strip_tail_run edge_char (rest_of edge_char l)) in Hsafe, Hadj.
    apply Forall_app in Hsafe as [Hsafe _]. apply no_adjacent_app in Hadj as [Hadj _].
    now split. }
  destruct Hsub as [Hr1 Hr2].
  assert (Hfirst : forall c, first_char (str r) = Some c -> edge_char c = false).
  { intros c. apply strip_tail_first. apply MatchFacts.rest_of_head. }
  assert (Hlast : forall c, last_char (str r) = Some c -> edge_char c = false).
  { intros c. apply strip_tail_last. }
  split.
  - unfold clean_base. rewrite MatchFacts.chars_str.
    repeat split; auto. now apply no_adjacent_includes.
  - rewrite sanitize_spec.
    assert (Hns : Forall (fun c => sp c = false) r).
    { eapply Forall_impl; [exact Hr1|]. intros c. apply safe_not_space. }
    rewrite (trim_no_space r Hns), MatchFacts.chars_str.
    rewrite (squeeze_none sp dash r false Hns).
    rewrite (replace_each_none us dash r).
    2:{ eapply Forall_impl; [exact Hr1|]. intros c Hc. rewrite unsafe_not_safe, Hc.
        reflexivity. }
    change (chars "-") with ["-"%char].
    rewrite (squeeze_fixed da "-" r false); [|discriminate| |exact Hr2].
    2:{ apply Forall_forall. intros c _. apply dash_is_dash. }
    rewrite (rest_of_fixed edge_char r Hfirst), (strip_tail_fixed edge_char r Hlast).
    reflexivity.
Qed.

Lemma sanitize_clean (text : string) :
  let base := sanitizeFilenameBase (Some text) in
  clean_base base /\ sanitizeFilenameBase (Some base) = base.
Proof.
  cbv zeta. rewrite sanitize_spec.
  destruct (core_shape (chars (Js.trim text))) as [H1 H2].
  apply (ends_clean _ H1 H2).
Qed.

Lemma default_base_clean : clean_base "conversation-export".
Proof.
  unfold clean_base. split; [|split; [|split]].
  - apply Forall_forall. intros c Hc. vm_compute in Hc.
    repeat (apply elem_of_cons in Hc as [->|Hc]; [reflexivity|]). inversion Hc.
  - intros c [= <-]. reflexivity.
  - intros c H. vm_compute in H. injection H as <-. reflexivity.
  - reflexivity.
Qed.

(** *** A clean name through [getFilename] *)

Lemma includes_no_adjacent (l : list ascii) :
  Js.includes (str l) "--" = false -> no_adjacent da l.
Proof.
  induction l as [|c t IH]; intros H; [exact I|].
  change (str (c :: t)) with (String c (str t)) in H.
  change (Js.includes (String c (str t)) "--")
    with (Js.startsWith (String c (str t)) "--" || Js.includes (str t) "--") in H.
  apply orb_false_iff in H as [Hs Hi]. specialize (IH Hi).
  destruct t as [|c' t']; [exact I|]. split; [|exact IH].
  intros Hc. apply dash_is_dash in Hc as ->.
  change (str (c' :: t')) with (String c' (str t')) in Hs. cbn [Js.startsWith] in Hs.
  change (Ascii.eqb "-" "-") with true in Hs. cbn [andb] in Hs.
  change (da c') with (Ascii.eqb "-" c').
  destruct (Ascii.eqb "-" c'); [|reflexivity].
  now destruct (str t').
Qed.

Lemma clean_chars (s : string) :
  clean_base s ->
  Forall (fun c => safe_char c = true) (chars s) /\ no_adjacent da (chars s).
Proof.
  intros (Hsafe & _ & _ & Hinc). split; [exact Hsafe|].
  apply includes_no_adjacent. now rewrite RegexFacts.str_chars.
Qed.

Lemma clean_trim (s : string) : clean_base s -> Js.trim s = s.
Proof.
  intros H. apply clean_chars in H as [H _].
  rewrite <- (RegexFacts.str_chars s). apply trim_no_space.
  eapply Forall_impl; [exact H|]. intros c. apply safe_not_space.
Qed.

Lemma dashed_fixed (s : string) : clean_base s -> dashed s = s.
Proof.
  intros H. apply clean_chars in H as [H1 H2]. rewrite dashed_spec.
  assert (Hns : Forall (fun c => sp c = false) (chars s)).
  { eapply Forall_impl; [exact H1|]. intros c. apply safe_not_space. }
  rewrite (squeeze_none sp dash _ false Hns).
  rewrite (replace_each_none us dash (chars s)).
  2:{ eapply Forall_impl; [exact H1|]. intros c Hc. rewrite unsafe_not_safe, Hc.
      reflexivity. }
  change (chars "-") with ["-"%char].
  rewrite (squeeze_fixed da "-" _ false); [apply RegexFacts.str_chars|discriminate| |exact H2].
  apply Forall_forall. intros c _. apply dash_is_dash.
Qed.

Lemma search_dash_ends (aft bef : list ascii) :
  (bef = [] -> forall c, first_char (str aft) = Some c -> c <> "-"%char) ->
  (forall c, last_char (str aft) = Some c -> c <> "-"%char) ->
  search plain dash_ends_re bef aft = None.
Proof.
  revert bef. induction aft as [|c t IH]; intros bef Hfirst Hlast.
  - cbn. now destruct bef.
  - assert (Hexec : exec_at plain dash_ends_re bef (c :: t) = None).
    { unfold exec_at, dash_ends_re. cbn [run lit after before caps ignoreCase plain].
      unfold at_bol, at_eol. cbn [after before multiline plain andb].
      change (cs_test false (CChar "-") c) with (Ascii.eqb "-" c).
      destruct (Ascii.eqb_spec "-" c) as [<-|Hne].
      - destruct bef as [|b bef'].
        + exfalso. now apply (Hfirst eq_refl "-"%char).
        + destruct t as [|c' t']; [|reflexivity].
          exfalso. now apply (Hlast "-"%char).
      - now destruct bef. }
    cbn [search]. rewrite Hexec. apply IH; [discriminate|].
    intros x Hx. apply Hlast.
    change (str (c :: t)) with (String c (str t)). cbn [last_char]. now rewrite Hx.
Qed.

Lemma dash_ends_fixed (s : string) :
  (forall c, first_char s = Some c -> c <> "-"%char) ->
  (forall c, last_char s = Some c -> c <> "-"%char) ->
  replaceAll plain dash_ends_re (fun _ => []) s = s.
Proof.
  intros Hfirst Hlast. unfold replaceAll. cbn [replace_go].
  rewrite search_dash_ends; [apply RegexFacts.str_chars| |]; rewrite RegexFacts.str_chars; auto.
Qed.

Lemma expand_none (m p s l : list ascii) :
  Forall (fun c => c <> "$"%char) l -> expand m p s l = l.
Proof.
  induction l as [|c rest IH]; intros H; [reflexivity|].
  apply Forall_cons in H as [Hc Hrest]. cbn [expand].
  destruct rest as [|c' rest']; [reflexivity|].
  destruct (Ascii.eqb_spec c "$"); [contradiction|].
  f_equal. now apply IH.
Qed.

Lemma fill_go_none (p r : list ascii) (text done : list ascii) :
  Forall (fun c => c <> "{"%char) text ->
  fill_go ("{"%char :: p) r done 0 text = text.
Proof.
  revert done. induction text as [|c rest IH]; intros done H; [reflexivity|].
  apply Forall_cons in H as [Hc Hrest]. cbn [fill_go].
  change (str (c :: rest)) with (String c (str rest)).
  change (str ("{"%char :: p)) with (String "{" (str p)). cbn [Js.startsWith].
  destruct (Ascii.eqb_spec "{" c) as [<-|_]; [contradiction|]. cbn [andb].
  f_equal. now apply IH.
Qed.

Lemma fill_none (name r text : string) :
  Forall (fun c => c <> "{"%char) (chars text) -> fill name r text = text.
Proof.
  intros H. unfold fill.
  change (chars ("{" ++ name ++ "}")) with ("{"%char :: chars (name ++ "}")).
  rewrite fill_go_none by exact H. apply RegexFacts.str_chars.
Qed.

Lemma fill_base (r : string) :
  Forall (fun c => c <> "$"%char) (chars r) -> fill "base" r "{base}" = r.
Proof.
  intros H. unfold fill.
  change (fill_go _ _ _ _ _)
    with (expand (chars "{base}") [] [] (chars r) ++ [])%list.
  rewrite app_nil_r, expand_none by exact H. apply RegexFacts.str_chars.
Qed.

Lemma safe_plain (c : ascii) :
  safe_char c = true -> c <> "$"%char /\ c <> "{"%char.
Proof. intros H. split; intros ->; vm_compute in H; discriminate H. Qed.

Lemma getFilename_clean (platformInfo filename now : string) (d : Document)
    (options : Scope.ExportOptions) (format : string) :
  clean_base filename -> filename <> "" ->
  getFilename platformInfo filename "" now d options format =
  option_map (fun extension => filename ++ "." ++ extension)%string
             (lookup_or extensions format "txt").
Proof.
  intros Hclean Hne. unfold getFilename.
  assert (Hbase : Js.or_else (Js.trim (Js.or_else filename "conversation-export"))
                             "conversation-export" = filename).
  { assert (E : Js.or_else filename "conversation-export" = filename)
      by (destruct filename; [contradiction|reflexivity]).
    rewrite E, (clean_trim _ Hclean). exact E. }
  rewrite Hbase. change (Js.or_else "" "{base}") with "{base}".
  destruct (clean_chars _ Hclean) as [Hsafe _].
  assert (Hopen : Forall (fun c => c <> "{"%char) (chars filename)).
  { eapply Forall_impl; [exact Hsafe|]. intros c Hc. now apply safe_plain. }
  rewrite fill_base.
  2:{ eapply Forall_impl; [exact Hsafe|]. intros c Hc. now apply safe_plain. }
  rewrite (fill_none "platform") by exact Hopen.
  rewrite (fill_none "date") by exact Hopen.
  rewrite (fill_none "time") by exact Hopen.
  rewrite (fill_none "scope") by exact Hopen.
  rewrite (dashed_fixed _ Hclean).
  destruct Hclean as (_ & Hfirst & Hlast & _).
  rewrite dash_ends_fixed.
  - assert (E : Js.or_else filename filename = filename)
      by (destruct filename; reflexivity).
    rewrite E. now destruct (lookup_or extensions format "txt").
  - intros c Hc ->. specialize (Hfirst _ Hc). discriminate Hfirst.
  - intros c Hc ->. specialize (Hlast _ Hc). discriminate Hlast.
Qed.

End FilenameFacts.

(** X21. [sanitizeFilenameBase] always gives a clean base: letters,
    digits, dots, underscores and dashes only, no dash, underscore or dot
    at either end, no two dashes in a row; and it leaves a base that it
    has produced as it is. A value that is not a string gives the empty
    base. *)
Theorem X21_sanitized_base_is_clean (value : option string) :
  let base := Filenames.sanitizeFilenameBase value in
  Terms.clean_base base /\
  Filenames.sanitizeFilenameBase (Some base) = base /\
  Filenames.sanitizeFilenameBase None = "".
Proof.
  destruct value as [text|].
  - destruct (FilenameFacts.sanitize_clean text) as [H1 H2].
    cbv zeta. split; [exact H1|]. split; [exact H2|reflexivity].
  - cbv zeta. split; [|split; reflexivity].
    unfold Terms.clean_base. simpl. repeat split; try discriminate. constructor.
Qed.

(** X22. The base that [getConversationTitleBase] proposes for the file
    name is never empty and always clean: it is the sanitized title (or
    the sanitized document title when there is no title), and
    [conversation-export] when nothing of the title is left. *)
Theorem X22_title_base_is_clean (d : Document) :
  let title := Js.or_else (md_title (metadata d)) (md_rawDocumentTitle (metadata d)) in
  Filenames.getConversationTitleBase d <> "" /\
  Terms.clean_base (Filenames.getConversationTitleBase d) /\
  (Filenames.sanitizeFilenameBase (Some title) = "" ->
   Filenames.getConversationTitleBase d = "conversation-export") /\
  (Filenames.sanitizeFilenameBase (Some title) <> "" ->
   Filenames.getConversationTitleBase d = Filenames.sanitizeFilenameBase (Some title)).
Proof.
  unfold Filenames.getConversationTitleBase. cbv zeta.
  set (title := Js.or_else (md_title (metadata d)) _).
  split; [apply JsFacts.or_else_nonempty; discriminate|].
  split; [|split].
  - unfold Js.or_else.
    destruct (Js.is_empty (Filenames.sanitizeFilenameBase (Some title))).
    + apply FilenameFacts.default_base_clean.
    + apply (FilenameFacts.sanitize_clean title).
  - intros ->. reflexivity.
  - intros H. unfold Js.or_else.
    now destruct (Filenames.sanitizeFilenameBase (Some title)).
Qed.

(** X23. With the default template, [getFilename] keeps a clean,
    non-empty file name as it is and appends the extension of the format:
    the listed extension for a listed format, [txt] for a format that
    names no member of the table. Platform, date, time and scope play no
    part. *)
Theorem X23_clean_name_is_kept (platformInfo filename now : string) (d : Document)
    (options : Scope.ExportOptions) (format : string) :
  Terms.clean_base filename -> filename <> "" ->
  (forall extension, (format, extension) ∈ Filenames.extensions ->
     Filenames.getFilename platformInfo filename "" now d options format =
     Some (filename ++ "." ++ extension)) /\
  (Table.get format Filenames.extensions = Table.Missing ->
     Filenames.getFilename platformInfo filename "" now d options format =
     Some (filename ++ ".txt")).
Proof.
  intros Hclean Hne.
  rewrite (FilenameFacts.getFilename_clean platformInfo filename now d options format
             Hclean Hne).
  split.
  - intros extension Hin. unfold Filenames.extensions in Hin.
    repeat (apply elem_of_cons in Hin as [[= -> ->]|Hin]; [reflexivity|]).
    inversion Hin.
  - intros H. unfold Filenames.lookup_or. rewrite H. reflexivity.
Qed.

(** A clean name for the sample conversation, exported as Markdown. *)
Lemma X23_witness :
  Filenames.getFilename "claude" "Fixture-chat_v1.2" "" "2026-03-04T05:06:07.000Z"
    Examples.six_messages Examples.range_2_4 "markdown" = Some "Fixture-chat_v1.2.md".
Proof.
  refine (proj1 (X23_clean_name_is_kept "claude" "Fixture-chat_v1.2"
                   "2026-03-04T05:06:07.000Z"
                   Examples.six_messages Examples.range_2_4 "markdown" _ _) "md" _).
  - unfold Terms.clean_base. split; [|split; [|split]].
    + vm_compute. repeat constructor.
    + intros c H. vm_compute in H. injection H as <-. reflexivity.
    + intros c H. vm_compute in H. injection H as <-. reflexivity.
    + reflexivity.
  - discriminate.
  - vm_compute. set_solver.
Defined.

Module RedactFilenameFacts.
Import Regex Redact Terms.
Local Open Scope list_scope.

Lemma dot_icase (c : ascii) : cs_test true (CChar ".") c = Ascii.eqb "." c.
Proof. destruct c as [[] [] [] [] [] [] [] []]; reflexivity. Qed.

Lemma forallb_Forall (p : ascii -> bool) (l : list ascii) :
  forallb p l = true <-> Forall (fun c => p c = true) l.
Proof.
  induction l as [|c t IH]; cbn [forallb]; [split; [constructor|reflexivity]|].
  rewrite andb_true_iff, Forall_cons, IH. reflexivity.
Qed.

Lemma exec_at_extension (bef aft : list ascii) :
  exec_at icase extension_re bef aft =
  match aft with
  | [] => None
  | c :: t =>
      if Ascii.eqb "." c && (forallb alnum_char t && (1 <=? length t)%nat)
      then Some (MState (rev t ++ c :: bef) [] [(1, t)])
      else None
  end.
Proof.
  destruct aft as [|c t]; [reflexivity|].
  unfold exec_at, extension_re. cbn [seq lit run after before caps ignoreCase icase].
  rewrite dot_icase. destruct (Ascii.eqb "." c); [|reflexivity]. cbn [andb].
  unfold plus. cbn [run].
  rewrite (MatchFacts.class_loop_to_end alnum_char _ (MatchFacts.step_cls 0 icase _)).
  - destruct (forallb alnum_char t && (1 <=? length t)%nat); [|reflexivity].
    unfold at_eol, set_cap, consumed. cbn [after before caps length].
    now rewrite Nat.sub_0_r, firstn_all.
  - intros [b [|x r] cs] H; [cbn in H; congruence|reflexivity].
  - cbn [after]. lia.
Qed.

Lemma search_extension (aft bef : list ascii) :
  match search icase extension_re bef aft with
  | Some (_, _, m) => Some (get_cap 1 (caps m))
  | None => None
  end = extension_of aft.
Proof.
  revert bef. induction aft as [|c t IH]; intros bef.
  - cbn [search]. rewrite exec_at_extension. reflexivity.
  - cbn [search extension_of]. rewrite exec_at_extension.
    destruct (Ascii.eqb "." c && (forallb alnum_char t && (1 <=? length t)%nat)).
    + cbn [caps get_cap Nat.eqb]. reflexivity.
    + apply IH.
Qed.

Lemma redactFilename_spec (value : string) :
  redactFilename value =
  if Js.is_empty value then value
  else match extension_of (chars (Js.trim value)) with
       | Some t => "[REDACTED_FILE]." ++ Js.toLowerCase (str t)
       | None => "[REDACTED_FILE]"
       end%string.
Proof.
  unfold redactFilename. destruct (Js.is_empty value); [reflexivity|].
  rewrite <- (search_extension (chars (Js.trim value)) []). unfold exec.
  destruct (search icase extension_re [] (chars (Js.trim value))) as [[[b0 a0] m]|];
    reflexivity.
Qed.

(** *** The extension that is found *)

Lemma extension_of_shape (l t : list ascii) :
  extension_of l = Some t ->
  t <> [] /\ Forall (fun c => alnum_char c = true) t /\
  Js.endsWith (str l) (String "." (str t)) = true.
Proof.
  induction l as [|c r IH]; [discriminate|]. cbn [extension_of].
  destruct (Ascii.eqb_spec "." c) as [<-|_]; cbn [andb].
  - destruct (forallb alnum_char r && (1 <=? length r)%nat) eqn:E.
    + intros [= <-]. apply andb_true_iff in E as [E1 E2].
      split; [destruct r; [discriminate E2|discriminate]|].
      split; [now apply forallb_Forall|].
      change (str ("."%char :: r)) with (String "." (str r)). cbn [Js.endsWith].
      now rewrite String.eqb_refl.
    + intros H. destruct (IH H) as (H1 & H2 & H3). repeat split; auto.
      change (str ("."%char :: r)) with (String "." (str r)). cbn [Js.endsWith].
      rewrite H3. apply orb_true_r.
  - intros H. destruct (IH H) as (H1 & H2 & H3). repeat split; auto.
    change (str (c :: r)) with (String c (str r)). cbn [Js.endsWith].
    rewrite H3. apply orb_true_r.
Qed.

Lemma lower_alnum_spec (c : ascii) :
  alnum_char c = true ->
  lower_alnum_char (Js.lower_char c) = true /\ alnum_char (Js.lower_char c) = true /\
  Js.lower_char (Js.lower_char c) = Js.lower_char c /\
  Js.is_space (Js.lower_char c) = false.
Proof.
  destruct c as [[] [] [] [] [] [] [] []]; vm_compute; intros H;
    try discriminate H; repeat split.
Qed.

Lemma lower_chars (l : list ascii) :
  chars (Js.toLowerCase (str l)) = map Js.lower_char l.
Proof.
  induction l as [|c t IH]; [reflexivity|].
  change (str (c :: t)) with (String c (str t)).
  change (Js.toLowerCase (String c (str t)))
    with (String (Js.lower_char c) (Js.toLowerCase (str t))).
  change (chars (String ?x ?y)) with (x :: chars y). cbn [map]. now rewrite IH.
Qed.

Lemma lower_str (l : list ascii) : Js.toLowerCase (str l) = str (map Js.lower_char l).
Proof. now rewrite <- lower_chars, RegexFacts.str_chars. Qed.

(** The extension of a marker followed by a dot and letters and digits. *)
Lemma extension_of_marker (t : list ascii) :
  t <> [] -> Forall (fun c => alnum_char c = true) t ->
  extension_of (chars "[REDACTED_FILE]." ++ t) = Some t.
Proof.
  intros Hne Hall.
  assert (E : forallb alnum_char t && (1 <=? length t)%nat = true).
  { apply andb_true_iff. split; [now apply forallb_Forall|].
    destruct t; [contradiction|reflexivity]. }
  assert (Hnot : forall l, forallb alnum_char (l ++ "."%char :: t) = false).
  { induction l as [|x l IH]; cbn [app forallb]; [reflexivity|].
    rewrite IH. apply andb_false_r. }
  change (chars "[REDACTED_FILE].") with (chars "[REDACTED_FILE]" ++ ["."%char]).
  rewrite <- app_assoc. cbn [app].
  generalize (chars "[REDACTED_FILE]") as pre.
  induction pre as [|x pre IH]; cbn [app extension_of].
  - change (Ascii.eqb "." ".") with true. cbn [andb]. now rewrite E.
  - rewrite Hnot. cbn [andb]. rewrite andb_false_r. exact IH.
Qed.

Lemma redactFilename_fixed (t : list ascii) :
  t <> [] -> Forall (fun c => alnum_char c = true) t ->
  redactFilename ("[REDACTED_FILE]." ++ Js.toLowerCase (str t)) =
  ("[REDACTED_FILE]." ++ Js.toLowerCase (str t))%string.
Proof.
  intros Hne Hall. rewrite redactFilename_spec.
  change (Js.is_empty ("[REDACTED_FILE]." ++ Js.toLowerCase (str t))) with false.
  cbv iota. rewrite lower_str.
  set (e := map Js.lower_char t).
  assert (He : Forall (fun c => alnum_char c = true /\ Js.is_space c = false /\
                                Js.lower_char c = c) e).
  { unfold e. apply Forall_forall. intros c Hc. apply list_elem_of_fmap in Hc as (x & -> & Hx).
    rewrite Forall_forall in Hall. destruct (lower_alnum_spec x (Hall x Hx)) as (_ & H1 & H2 & H3).
    auto. }
  assert (Hs : ("[REDACTED_FILE]." ++ str e)%string = str (chars "[REDACTED_FILE]." ++ e)).
  { now rewrite RegexFacts.str_app. }
  rewrite Hs, FilenameFacts.trim_no_space, MatchFacts.chars_str.
  - rewrite extension_of_marker.
    + rewrite <- Hs. f_equal. rewrite lower_str. f_equal.
      clear -He. induction He as [|c l (_ & _ & Hc) _ IH]; [reflexivity|].
      cbn [map]. now rewrite Hc, IH.
    + unfold e. destruct t; [contradiction|discriminate].
    + eapply Forall_impl; [exact He|]. now intros c (H & _).
  - apply Forall_app. split; [vm_compute; repeat constructor|].
    eapply Forall_impl; [exact He|]. now intros c (_ & H & _).
Qed.

End RedactFilenameFacts.

(** X24. [redactFilename] leaves the empty name alone and reduces every
    other name to the marker [[REDACTED_FILE]], followed at most by a dot
    and the lower-cased letters and digits that end the trimmed name
    after its last dot: nothing else of the name is kept. A name that is
    already redacted stays as it is. *)
Theorem X24_redacted_name_keeps_extension_only (value : string) :
  let redacted := Redact.redactFilename value in
  (value = "" -> redacted = "") /\
  (value <> "" ->
   redacted = "[REDACTED_FILE]" \/
   exists extension,
     redacted = "[REDACTED_FILE]." ++ Js.toLowerCase extension /\
     extension <> "" /\
     Js.endsWith (Js.trim value) ("." ++ extension) = true /\
     Forall (fun c => Terms.lower_alnum_char c = true)
            (Regex.chars (Js.toLowerCase extension))) /\
  Redact.redactFilename redacted = redacted.
Proof.
  cbv zeta. rewrite (RedactFilenameFacts.redactFilename_spec value).
  destruct value as [|x v]; [repeat split; congruence|].
  cbn [Js.is_empty]. split; [discriminate|].
  destruct (Terms.extension_of (Regex.chars (Js.trim (String x v)))) as [t|] eqn:E.
  - apply RedactFilenameFacts.extension_of_shape in E as (H1 & H2 & H3).
    split.
    + intros _. right. exists (Regex.str t).
      rewrite RegexFacts.str_chars in H3.
      split; [reflexivity|]. split; [|split; [exact H3|]].
      * destruct t; [contradiction|discriminate].
      * rewrite RedactFilenameFacts.lower_chars. apply Forall_forall.
        intros c Hc. apply list_elem_of_fmap in Hc as (y & -> & Hy).
        rewrite Forall_forall in H2.
        apply (RedactFilenameFacts.lower_alnum_spec y (H2 y Hy)).
    + now apply RedactFilenameFacts.redactFilename_fixed.
  - split; [intros _; now left|reflexivity].
Qed.
